(** * RDMA van of ps-lite: a shallow embedding and its properties

    The development follows the layout of the sources:
    - [rdma_utils] : alignment helpers and the [AddressPool];
    - [Transport]  : [RDMATransport] and [IPCTransport] bound to an [Endpoint];
    - [RDMAVan]    : the van facade ([Bind], [SendMsg], the address cache and
                     the tensor-info registry).

    Integers of the C++ code are [Z] with the wrap-around written out where
    the code can overflow, pointers are addresses in [Z] with [0] for
    [nullptr], [std::unordered_map] is [gmap], [std::vector] and [std::queue]
    are lists.  A failing [CHECK] stops the process ([Abort]), a
    [WaitAndPop] on an empty queue blocks the calling thread ([Blocked]) and
    an operation the C++ standard leaves undefined is [Undefined]. *)

From Stdlib Require Import ZArith List Bool Lia Ascii String.
From stdpp Require Import base option list gmap strings.

Open Scope Z_scope.

(** ** Outcomes of stateful code *)

Inductive Halt : Type := Abort | Blocked | Undefined.

Inductive Res (S A : Type) : Type :=
| Done (a : A) (s : S)
| Halted (h : Halt) (s : S).

Arguments Done {S A} a s.
Arguments Halted {S A} h s.

Definition M (S A : Type) : Type := S -> Res S A.

Definition ret {S A} (a : A) : M S A := fun s => Done a s.

Definition bind {S A B} (c : M S A) (k : A -> M S B) : M S B :=
  fun s => match c s with
           | Done a s' => k a s'
           | Halted h s' => Halted h s'
           end.

Definition halt {S A} (h : Halt) : M S A := fun s => Halted h s.
Definition get {S} : M S S := fun s => Done s s.
Definition gets {S A} (f : S -> A) : M S A := fun s => Done (f s) s.
Definition put {S} (s : S) : M S unit := fun _ => Done tt s.
Definition modify {S} (f : S -> S) : M S unit := fun s => Done tt (f s).

(** [CHECK(c)] of glog: the process aborts when [c] is false. *)
Definition CHECK {S} (c : bool) : M S unit :=
  if c then ret tt else halt Abort.

Notation "'do' x <- c ;; k" := (bind c (fun x => k))
  (at level 10, x pattern, c at level 99, k at level 200).
Notation "'run' c ;; k" := (bind c (fun _ => k))
  (at level 10, c at level 99, k at level 200).

Definition is_done {S A} (r : Res S A) : bool :=
  match r with Done _ _ => true | Halted _ _ => false end.

Definition final {S A} (r : Res S A) : S :=
  match r with Done _ s => s | Halted _ s => s end.

(** ** rdma_utils: alignment *)

Definition size_max : Z := 2 ^ 64.
Definition wrap64 (v : Z) : Z := v mod size_max.
Definition wrap32 (v : Z) : Z := v mod 2 ^ 32.

(** [align_floor] and [align_ceil] at [T = size_t]. *)
Definition align_floor (v align : Z) : Z := wrap64 (v - v mod align).
Definition align_ceil (v align : Z) : Z := align_floor (wrap64 (v + align - 1)) align.

(** ** rdma_utils: the address pool *)

Module AddressPool.

Definition kMaxEntries : nat := 512.

(** [indices_] is the [std::queue] (front first), [table_] the array of
    [T*]. *)
Record t : Type := mk { indices_ : list nat; table_ : list Z }.

Definition init : t :=
  {| indices_ := seq 0 kMaxEntries; table_ := replicate kMaxEntries 0 |}.

Definition GetAddressAndRelease (index : nat) : M t Z := fun p =>
  match table_ p !! index with
  | None => Halted Undefined p                      (* table_[index] out of bounds *)
  | Some ptr =>
      if ptr =? 0 then Halted Abort p               (* CHECK(ptr) *)
      else Done ptr {| indices_ := indices_ p ++ [index];
                       table_ := <[index := 0]> (table_ p) |}
  end.

Definition StoreAddress (ptr : Z) : M t nat := fun p =>
  if ptr =? 0 then Halted Abort p                   (* CHECK(ptr) *)
  else match indices_ p with
       | [] => Halted Undefined p                   (* front() of an empty queue *)
       | idx :: rest =>
           let p1 := {| indices_ := rest; table_ := table_ p |} in
           match table_ p !! idx with
           | None => Halted Undefined p1
           | Some q =>
               if q =? 0                            (* CHECK_EQ(table_[idx], nullptr) *)
               then Done idx {| indices_ := rest; table_ := <[idx := ptr]> (table_ p) |}
               else Halted Abort p1
           end
       end.

(** Number of populated slots. *)
Definition live (p : t) : nat := length (filter (fun q => q ≠ 0) (table_ p)).

(** A client of the pool: calls made under the pool's mutex, in the order
    in which they acquire it. *)
Inductive call : Type := Store (ptr : Z) | Release (index : nat).

(** [exec cs p] runs the calls while none of them halts and returns the
    indices handed out by [StoreAddress], the indices released, both in
    call order, and the final pool. *)
Fixpoint exec (cs : list call) (p : t) : option (list nat * list nat * t) :=
  match cs with
  | [] => Some ([], [], p)
  | Store ptr :: cs' =>
      match StoreAddress ptr p with
      | Done idx p' =>
          match exec cs' p' with
          | Some (out, rel, q) => Some (idx :: out, rel, q)
          | None => None
          end
      | Halted _ _ => None
      end
  | Release index :: cs' =>
      match GetAddressAndRelease index p with
      | Done _ p' =>
          match exec cs' p' with
          | Some (out, rel, q) => Some (out, index :: rel, q)
          | None => None
          end
      | Halted _ _ => None
      end
  end.

(** The free queue lists exactly the empty slots, once each. *)
Definition wf (p : t) : Prop :=
  length (table_ p) = kMaxEntries ∧
  NoDup (indices_ p) ∧
  ∀ i, i ∈ indices_ p ↔ table_ p !! i = Some 0.

End AddressPool.

(** ** RDMAVan::Bind

    The listener and the clock are the environment of [Bind]. *)

Record BindEnv : Type := {
  rdma_create_id : Z;                 (* return code of rdma_create_id *)
  time_now : Z;                       (* time(NULL) *)
  rdma_bind_addr : nat -> Z -> Z;     (* return code of the n-th call, on sin_port *)
  rand_r : Z -> Z * Z;                (* seed -> (value, next seed) *)
  rdma_listen : bool -> Z -> Z        (* listener bound?, backlog -> return code *)
}.

Definition kRdmaListenBacklog : Z := 128.
Definition INT_MAX : Z := 2 ^ 31 - 1.

(** The port number carried by [sin_port]: [htons] takes a [uint16_t]. *)
Definition htons (port : Z) : Z := port mod 65536.

(** State of the listener: the ports handed to [rdma_bind_addr] so far and
    whether the last call succeeded. *)
Record Listener : Type := { attempts : list Z; bound : bool }.

Fixpoint Bind_loop (B : BindEnv) (n : nat) (i max_retry port seed : Z) (l : Listener)
  : Z * Listener :=
  match n with
  | O => (port, l)
  | S n' =>
      let l' := {| attempts := attempts l ++ [htons port]; bound := false |} in
      if rdma_bind_addr B (length (attempts l)) (htons port) =? 0
      then (port, {| attempts := attempts l'; bound := true |})      (* break *)
      else if i =? max_retry
           then Bind_loop B n' (i + 1) max_retry (-1) seed l'
           else let '(r, seed') := rand_r B seed in
                Bind_loop B n' (i + 1) max_retry (10000 + Z.rem r 40000) seed' l'
  end.

Definition Bind (B : BindEnv) (node_port max_retry : Z) : M Listener Z :=
  run CHECK (rdma_create_id B =? 0) ;;
  let port := node_port in
  let seed := wrap32 (time_now B + port) in
  if max_retry =? INT_MAX then halt Undefined          (* max_retry + 1 overflows *)
  else
    do port <- (fun l => let '(p, l') := Bind_loop B (Z.to_nat (max_retry + 1)) 0 max_retry port seed l
                         in Done p l') ;;
    do l <- get ;;
    run CHECK (rdma_listen B (bound l) kRdmaListenBacklog =? 0) ;;
    ret port.

(** ** Messages *)

(** [SArray<char>]: base address and size of a byte array. *)
Record SArray : Type := { sa_data : Z; sa_size : Z }.

Definition SArray_empty : SArray := {| sa_data := 0; sa_size := 0 |}.

(** The fields of [Meta] the van reads or writes.  [control_empty] is
    [meta.control.empty()]. *)
Record Meta : Type := {
  sender : Z;
  recver : Z;
  key : Z;
  request : bool;
  push : bool;
  val_len : Z;
  addr : Z;
  option_ : Z;
  control_empty : bool;
  simple_app : bool;
  data_size : Z
}.

Record Message : Type := { meta : Meta; data : list SArray }.

Definition kEmpty : Z := INT_MAX.

Definition set_key (k : Z) (m : Meta) : Meta :=
  {| sender := sender m; recver := recver m; key := k; request := request m;
     push := push m; val_len := val_len m; addr := addr m; option_ := option_ m;
     control_empty := control_empty m; simple_app := simple_app m;
     data_size := data_size m |}.

(** [meta.val_len = len; meta.addr = a; meta.option = o]. *)
Definition set_tensor (len a o : Z) (m : Meta) : Meta :=
  {| sender := sender m; recver := recver m; key := key m; request := request m;
     push := push m; val_len := len; addr := a; option_ := o;
     control_empty := control_empty m; simple_app := simple_app m;
     data_size := data_size m |}.

Definition set_route (s r : Z) (m : Meta) : Meta :=
  {| sender := s; recver := r; key := key m; request := request m;
     push := push m; val_len := val_len m; addr := addr m; option_ := option_ m;
     control_empty := control_empty m; simple_app := simple_app m;
     data_size := data_size m |}.

Definition with_meta (m : Meta) (msg : Message) : Message :=
  {| meta := m; data := data msg |}.

Definition push_back_data (l : list SArray) (msg : Message) : Message :=
  {| meta := meta msg; data := data msg ++ l |}.

(** Modelled from the spec: [IsValidPushpull] of [RDMAVan] comes from
    van.h, which is not among the sources; the spec identifies the messages
    it rejects with the control messages ("Control messages
    (!IsValidPushpull) always use rendezvous").  The body is the one the
    fabric van of the same file gives to its member of that name. *)
Definition IsValidPushpull (msg : Message) : bool :=
  if negb (control_empty (meta msg)) then false
  else if simple_app (meta msg) then false
  else true.

(** Conversion of a [size_t] or [uint32_t] to [int]. *)
Definition to_int (v : Z) : Z := (v + 2 ^ 31) mod 2 ^ 32 - 2 ^ 31.

Definition sizeof_Key : Z := 8.
Definition sizeof_int : Z := 4.
Definition sizeof_RendezvousStart : Z := 56.
Definition sizeof_RendezvousReply : Z := 24.
Definition kMaxDataFields : nat := 4.

(** ** Verbs objects *)

Record ibv_mr : Type := { mr_addr : Z; mr_lkey : Z; mr_rkey : Z }.

Record ibv_sge : Type := { sge_addr : Z; sge_length : Z; sge_lkey : Z }.

Inductive ibv_wr_opcode : Type :=
| IBV_WR_RDMA_WRITE
| IBV_WR_RDMA_WRITE_WITH_IMM
| IBV_WR_SEND_WITH_IMM.

Definition IBV_SEND_SIGNALED : Z := 2.

Definition kRendezvousStart : Z := 0.
Definition kRendezvousReply : Z := 1.

(** [ibv_send_wr] after [memset(&wr, 0, sizeof(wr))]: every field the code
    does not assign is [0]; [sg_list] holds the [num_sge] entries sent. *)
Record ibv_send_wr : Type := {
  wr_id : Z;
  opcode : ibv_wr_opcode;
  imm_data : Z;
  send_flags : Z;
  sg_list : list ibv_sge;
  remote_addr : Z;
  wr_rkey : Z
}.

Record RendezvousStart : Type := {
  rs_meta_len : Z;
  rs_data_num : Z;
  rs_data_len : list Z;
  rs_origin_addr : Z
}.

Record RendezvousReply : Type := {
  rr_addr : Z;
  rr_origin_addr : Z;
  rr_rkey : Z;
  rr_idx : Z
}.

Inductive WRContextType : Type :=
| kRendezvousStartContext
| kRendezvousReplyContext
| kWriteContext
| kReceiveContext.

(** [private_data] is the address of the owning endpoint. *)
Record WRContext : Type := {
  ctx_type : WRContextType;
  ctx_buffer : ibv_mr;
  private_data : Z
}.

Record BufferContext : Type := {
  buffer : Z;
  bc_meta_len : Z;
  data_num : Z;
  data_len : list Z
}.

(** <remote_addr, rkey, idx> *)
Definition RemoteTuple : Type := Z * Z * Z.

Record MessageBuffer : Type := {
  inline_len : Z;
  inline_buf : Z;
  reserved_context : Z;
  buf_data : list SArray;
  mrs : list (ibv_mr * Z)
}.

Definition MessageBuffer_new : MessageBuffer :=
  {| inline_len := 0; inline_buf := 0; reserved_context := 0; buf_data := []; mrs := [] |}.

Definition set_reserved (c : Z) (b : MessageBuffer) : MessageBuffer :=
  {| inline_len := inline_len b; inline_buf := inline_buf b; reserved_context := c;
     buf_data := buf_data b; mrs := mrs b |}.

Definition set_mrs (l : list (ibv_mr * Z)) (b : MessageBuffer) : MessageBuffer :=
  {| inline_len := inline_len b; inline_buf := inline_buf b;
     reserved_context := reserved_context b; buf_data := buf_data b; mrs := l |}.

(** [IPCTransport::AsyncCopy] *)
Record AsyncCopy : Type := {
  ac_msg_buf : Z;
  ac_remote_tuple : RemoteTuple;
  ac_dst : Z;
  ac_src : Z;
  ac_len : Z;
  ac_shutdown : bool
}.

(** ** Observable effects, in program order *)

Inductive MemSrc : Type :=
| AtAddr (a : Z)            (* a buffer of the process *)
| MetaKey                   (* &msg->meta.key *)
| MetaValLen.               (* &msg->meta.val_len *)

Inductive Event : Type :=
| EvPostSend (ep : Z) (wr : ibv_send_wr)           (* ibv_post_send returned 0 *)
| EvMemcpy (dst : Z) (src : MemSrc) (len : Z)
| EvPackMeta (buf : Z) (m : Meta)                  (* PackMeta(m, &buf, _) *)
| EvStart (buf : Z) (req : RendezvousStart)        (* request written to a start context *)
| EvReply (buf : Z) (resp : RendezvousReply)       (* reply written to a reply context *)
| EvNew (msg_buf : Z)                              (* new MessageBuffer() *)
| EvDelete (msg_buf : Z)
| EvAlloc (size : Z) (buf : Z)                     (* mempool Alloc *)
| EvFree (buf : Z)                                 (* mempool Free *)
| EvMalloc (size : Z) (p : Z)
| EvPostRecv (ep : Z) (ctx : Z).                   (* ibv_post_recv returned 0 *)

(** ** The environment of the van

    Functions of rdma_utils.h, of the meta serializer, of libibverbs and of
    libc that the sources call and do not define.  An allocator or a device
    answers as a function of what the process did so far. *)

Record Env : Type := {
  GetPackMetaLen : Meta -> Z;
  UnpackMeta : Z -> Meta -> Meta;                  (* landing buffer, meta before the call *)
  DecodeKey : SArray -> Z;
  DecodeWorkerKey : Z -> Z;
  ibv_reg_mr : Z -> Z -> option ibv_mr;            (* [None] is a null result *)
  ibv_post_send : list Event -> Z -> ibv_send_wr -> Z;
  ibv_post_recv : list Event -> Z -> Z -> Z;
  mempool_Alloc : list Event -> Z -> Z;
  LocalKey : Z -> Z;
  RemoteKey : Z -> Z;
  operator_new : list Event -> Z;
  malloc : list Event -> Z -> Z;
  shm_open : Z -> Z;                               (* base_key of the name -> fd *)
  fstat : Z -> Z * Z;                              (* fd -> (return code, st_size) *)
  mmap : Z -> Z -> Z;                              (* size, fd -> address *)
  (** [GetRemoteInfo] returns a [RemoteAddress] and the transport takes a
      [RemoteTuple]; both types are declared in rdma_utils.h. *)
  RemoteTuple_of : gmap Z RemoteTuple -> RemoteTuple
}.

(** ** Endpoint and transport state *)

(** [is_ipc] tells an [IPCTransport] from a plain [RDMATransport]; the IPC
    fields are unused by the latter. *)
Record Transport : Type := {
  is_ipc : bool;
  pagesize_ : Z;
  is_server_ : bool;
  mem_mr_map_ : gmap Z ibv_mr;
  ipc_copy_nthreads_ : Z;
  async_copy_queue_ : list (list AsyncCopy);
  cpy_counter_ : Z;
  byteps_partition_bytes_ : Z;
  key_shm_addr_ : gmap Z Z;
  enable_async_copy_ : bool
}.

Definition set_mem_mr_map (m : gmap Z ibv_mr) (t : Transport) : Transport :=
  {| is_ipc := is_ipc t; pagesize_ := pagesize_ t; is_server_ := is_server_ t;
     mem_mr_map_ := m; ipc_copy_nthreads_ := ipc_copy_nthreads_ t;
     async_copy_queue_ := async_copy_queue_ t; cpy_counter_ := cpy_counter_ t;
     byteps_partition_bytes_ := byteps_partition_bytes_ t;
     key_shm_addr_ := key_shm_addr_ t; enable_async_copy_ := enable_async_copy_ t |}.

Definition set_async (q : list (list AsyncCopy)) (cnt : Z) (t : Transport) : Transport :=
  {| is_ipc := is_ipc t; pagesize_ := pagesize_ t; is_server_ := is_server_ t;
     mem_mr_map_ := mem_mr_map_ t; ipc_copy_nthreads_ := ipc_copy_nthreads_ t;
     async_copy_queue_ := q; cpy_counter_ := cnt;
     byteps_partition_bytes_ := byteps_partition_bytes_ t;
     key_shm_addr_ := key_shm_addr_ t; enable_async_copy_ := enable_async_copy_ t |}.

Definition set_key_shm_addr (m : gmap Z Z) (t : Transport) : Transport :=
  {| is_ipc := is_ipc t; pagesize_ := pagesize_ t; is_server_ := is_server_ t;
     mem_mr_map_ := mem_mr_map_ t; ipc_copy_nthreads_ := ipc_copy_nthreads_ t;
     async_copy_queue_ := async_copy_queue_ t; cpy_counter_ := cpy_counter_ t;
     byteps_partition_bytes_ := byteps_partition_bytes_ t;
     key_shm_addr_ := m; enable_async_copy_ := enable_async_copy_ t |}.

(** The free lists hold addresses of [WRContext]s, front first. *)
Record Endpoint : Type := {
  node_id : Z;
  free_start_ctx : list Z;
  free_reply_ctx : list Z;
  free_write_ctx : list Z;
  trans : option Transport
}.

Definition set_free_start (l : list Z) (e : Endpoint) : Endpoint :=
  {| node_id := node_id e; free_start_ctx := l; free_reply_ctx := free_reply_ctx e;
     free_write_ctx := free_write_ctx e; trans := trans e |}.

Definition set_free_reply (l : list Z) (e : Endpoint) : Endpoint :=
  {| node_id := node_id e; free_start_ctx := free_start_ctx e; free_reply_ctx := l;
     free_write_ctx := free_write_ctx e; trans := trans e |}.

Definition set_free_write (l : list Z) (e : Endpoint) : Endpoint :=
  {| node_id := node_id e; free_start_ctx := free_start_ctx e;
     free_reply_ctx := free_reply_ctx e; free_write_ctx := l; trans := trans e |}.

Definition set_trans (t : Transport) (e : Endpoint) : Endpoint :=
  {| node_id := node_id e; free_start_ctx := free_start_ctx e;
     free_reply_ctx := free_reply_ctx e; free_write_ctx := free_write_ctx e;
     trans := Some t |}.

(** ** The state of one van process

    [ep_heap], [ctx_heap] and [msg_bufs] are the objects the code reaches
    through pointers; [scratch] is what [RDMAWriteWithImm] stores in the
    buffer of a write context. *)

Definition TensorInfo : Type := Z * Z * Z.          (* len, addr, rkey *)

Record World : Type := {
  my_node_id : Z;
  ep_heap : gmap Z Endpoint;
  ctx_heap : gmap Z WRContext;
  msg_bufs : gmap Z MessageBuffer;
  scratch : gmap Z Z;
  endpoints_ : gmap Z Z;
  tensor_info_map_ : gmap Z (gmap Z TensorInfo);
  push_addr_ : gmap Z (gmap Z RemoteTuple);
  pull_addr_ : gmap Z (gmap Z RemoteTuple);
  msgbuf_cache_ : gmap Z (Z * bool * Z);
  recv_buffers_ : list (Z * BufferContext);
  trace : list Event
}.

Definition set_ep_heap (x : gmap Z Endpoint) (w : World) : World :=
  {| my_node_id := my_node_id w; ep_heap := x; ctx_heap := ctx_heap w;
     msg_bufs := msg_bufs w; scratch := scratch w; endpoints_ := endpoints_ w;
     tensor_info_map_ := tensor_info_map_ w; push_addr_ := push_addr_ w;
     pull_addr_ := pull_addr_ w; msgbuf_cache_ := msgbuf_cache_ w;
     recv_buffers_ := recv_buffers_ w; trace := trace w |}.

Definition set_msg_bufs (x : gmap Z MessageBuffer) (w : World) : World :=
  {| my_node_id := my_node_id w; ep_heap := ep_heap w; ctx_heap := ctx_heap w;
     msg_bufs := x; scratch := scratch w; endpoints_ := endpoints_ w;
     tensor_info_map_ := tensor_info_map_ w; push_addr_ := push_addr_ w;
     pull_addr_ := pull_addr_ w; msgbuf_cache_ := msgbuf_cache_ w;
     recv_buffers_ := recv_buffers_ w; trace := trace w |}.

Definition set_scratch (x : gmap Z Z) (w : World) : World :=
  {| my_node_id := my_node_id w; ep_heap := ep_heap w; ctx_heap := ctx_heap w;
     msg_bufs := msg_bufs w; scratch := x; endpoints_ := endpoints_ w;
     tensor_info_map_ := tensor_info_map_ w; push_addr_ := push_addr_ w;
     pull_addr_ := pull_addr_ w; msgbuf_cache_ := msgbuf_cache_ w;
     recv_buffers_ := recv_buffers_ w; trace := trace w |}.

Definition set_tensor_info_map (x : gmap Z (gmap Z TensorInfo)) (w : World) : World :=
  {| my_node_id := my_node_id w; ep_heap := ep_heap w; ctx_heap := ctx_heap w;
     msg_bufs := msg_bufs w; scratch := scratch w; endpoints_ := endpoints_ w;
     tensor_info_map_ := x; push_addr_ := push_addr_ w;
     pull_addr_ := pull_addr_ w; msgbuf_cache_ := msgbuf_cache_ w;
     recv_buffers_ := recv_buffers_ w; trace := trace w |}.

Definition set_push_addr (x : gmap Z (gmap Z RemoteTuple)) (w : World) : World :=
  {| my_node_id := my_node_id w; ep_heap := ep_heap w; ctx_heap := ctx_heap w;
     msg_bufs := msg_bufs w; scratch := scratch w; endpoints_ := endpoints_ w;
     tensor_info_map_ := tensor_info_map_ w; push_addr_ := x;
     pull_addr_ := pull_addr_ w; msgbuf_cache_ := msgbuf_cache_ w;
     recv_buffers_ := recv_buffers_ w; trace := trace w |}.

Definition set_pull_addr (x : gmap Z (gmap Z RemoteTuple)) (w : World) : World :=
  {| my_node_id := my_node_id w; ep_heap := ep_heap w; ctx_heap := ctx_heap w;
     msg_bufs := msg_bufs w; scratch := scratch w; endpoints_ := endpoints_ w;
     tensor_info_map_ := tensor_info_map_ w; push_addr_ := push_addr_ w;
     pull_addr_ := x; msgbuf_cache_ := msgbuf_cache_ w;
     recv_buffers_ := recv_buffers_ w; trace := trace w |}.

Definition set_msgbuf_cache (x : gmap Z (Z * bool * Z)) (w : World) : World :=
  {| my_node_id := my_node_id w; ep_heap := ep_heap w; ctx_heap := ctx_heap w;
     msg_bufs := msg_bufs w; scratch := scratch w; endpoints_ := endpoints_ w;
     tensor_info_map_ := tensor_info_map_ w; push_addr_ := push_addr_ w;
     pull_addr_ := pull_addr_ w; msgbuf_cache_ := x;
     recv_buffers_ := recv_buffers_ w; trace := trace w |}.

Definition set_recv_buffers (x : list (Z * BufferContext)) (w : World) : World :=
  {| my_node_id := my_node_id w; ep_heap := ep_heap w; ctx_heap := ctx_heap w;
     msg_bufs := msg_bufs w; scratch := scratch w; endpoints_ := endpoints_ w;
     tensor_info_map_ := tensor_info_map_ w; push_addr_ := push_addr_ w;
     pull_addr_ := pull_addr_ w; msgbuf_cache_ := msgbuf_cache_ w;
     recv_buffers_ := x; trace := trace w |}.

Definition set_trace (x : list Event) (w : World) : World :=
  {| my_node_id := my_node_id w; ep_heap := ep_heap w; ctx_heap := ctx_heap w;
     msg_bufs := msg_bufs w; scratch := scratch w; endpoints_ := endpoints_ w;
     tensor_info_map_ := tensor_info_map_ w; push_addr_ := push_addr_ w;
     pull_addr_ := pull_addr_ w; msgbuf_cache_ := msgbuf_cache_ w;
     recv_buffers_ := recv_buffers_ w; trace := x |}.

(** ** Transport *)

Section Transport.

Variable E : Env.

Definition log (ev : Event) : M World unit :=
  modify (fun w => set_trace (trace w ++ [ev]) w).

(** Dereference of a pointer or an iterator: undefined when nothing is
    there. *)
Definition deref {A} (o : option A) : M World A :=
  match o with Some a => ret a | None => halt Undefined end.

Fixpoint for_each {A} (f : A -> M World unit) (l : list A) : M World unit :=
  match l with
  | [] => ret tt
  | x :: l' => run f x ;; for_each f l'
  end.

Definition get_ep (ep : Z) : M World Endpoint :=
  do w <- get ;; deref (ep_heap w !! ep).

Definition put_ep (ep : Z) (e : Endpoint) : M World unit :=
  modify (fun w => set_ep_heap (<[ep := e]> (ep_heap w)) w).

Definition get_trans (ep : Z) : M World Transport :=
  do e <- get_ep ep ;; deref (trans e).

Definition put_trans (ep : Z) (t : Transport) : M World unit :=
  do e <- get_ep ep ;; put_ep ep (set_trans t e).

Definition get_buf (msg_buf : Z) : M World MessageBuffer :=
  do w <- get ;; deref (msg_bufs w !! msg_buf).

Definition put_buf (msg_buf : Z) (b : MessageBuffer) : M World unit :=
  modify (fun w => set_msg_bufs (<[msg_buf := b]> (msg_bufs w)) w).

Definition get_ctx (ctx : Z) : M World WRContext :=
  do w <- get ;; deref (ctx_heap w !! ctx).

(** [CHECK_EQ(ibv_post_send(endpoint_->cm_id->qp, &wr, &bad_wr), 0)] *)
Definition post_send (ep : Z) (wr : ibv_send_wr) : M World unit :=
  do w <- get ;;
  run CHECK (ibv_post_send E (trace w) ep wr =? 0) ;;
  log (EvPostSend ep wr).

(** [ThreadsafeQueue::WaitAndPop] on the three free lists. *)
Definition WaitAndPop_write (ep : Z) : M World Z :=
  do e <- get_ep ep ;;
  match free_write_ctx e with
  | [] => halt Blocked
  | c :: rest => run put_ep ep (set_free_write rest e) ;; ret c
  end.

Definition WaitAndPop_start (ep : Z) : M World Z :=
  do e <- get_ep ep ;;
  match free_start_ctx e with
  | [] => halt Blocked
  | c :: rest => run put_ep ep (set_free_start rest e) ;; ret c
  end.

Definition RegisterMemory_field (ep : Z) (sa : SArray) : M World unit :=
  if sa_size sa =? 0 then ret tt
  else
    do t <- get_trans ep ;;
    match mem_mr_map_ t !! sa_data sa with
    | Some _ => ret tt
    | None =>
        match ibv_reg_mr E (sa_data sa) (sa_size sa) with
        | None => halt Abort                                   (* CHECK(temp_mr = ...) *)
        | Some mr => put_trans ep (set_mem_mr_map (<[sa_data sa := mr]> (mem_mr_map_ t)) t)
        end
    end.

Definition RegisterMemory (ep : Z) (msg : Message) : M World unit :=
  for_each (RegisterMemory_field ep) (data msg).

(** [CHECK(ptr.get())] cannot fail: [RegisterMemory] stores no null
    region; [it->second] at [end()] is undefined. *)
Definition PrepareData_field (ep msg_buf : Z) (sa : SArray) : M World unit :=
  if sa_size sa =? 0 then ret tt
  else
    do t <- get_trans ep ;;
    do mr <- deref (mem_mr_map_ t !! sa_data sa) ;;
    do b <- get_buf msg_buf ;;
    put_buf msg_buf (set_mrs (mrs b ++ [(mr, sa_size sa)]) b).

Definition PrepareData (ep : Z) (msg : Message) (msg_buf : Z) : M World unit :=
  if negb (push (meta msg) && request (meta msg)) then ret tt    (* only push request *)
  else
    do b <- get_buf msg_buf ;;
    for_each (PrepareData_field ep msg_buf) (buf_data b).

(** The unsignaled write of the values segment. *)
Definition values_wr (mr : ibv_mr) (len : Z) (b : MessageBuffer) (pagesize : Z)
           (raddr rkey : Z) : ibv_send_wr :=
  {| wr_id := 0;
     opcode := IBV_WR_RDMA_WRITE;
     imm_data := 0;
     send_flags := 0;
     sg_list := [ {| sge_addr := mr_addr mr; sge_length := wrap32 len;
                     sge_lkey := mr_lkey mr |} ];
     remote_addr := wrap64 (raddr + align_ceil (inline_len b) pagesize);
     wr_rkey := rkey |}.

(** The signaled write of the packed metadata. *)
Definition meta_wr (write_ctx : Z) (b : MessageBuffer) (raddr rkey idx : Z) : ibv_send_wr :=
  {| wr_id := write_ctx;
     opcode := IBV_WR_RDMA_WRITE_WITH_IMM;
     imm_data := idx;
     send_flags := IBV_SEND_SIGNALED;
     sg_list := [ {| sge_addr := inline_buf b; sge_length := wrap32 (inline_len b);
                     sge_lkey := LocalKey E (inline_buf b) |} ];
     remote_addr := raddr;
     wr_rkey := rkey |}.

Definition RDMAWriteWithImm (ep msg_buf raddr rkey idx : Z) : M World unit :=
  do reserved <- WaitAndPop_write ep ;;
  do b0 <- get_buf msg_buf ;;
  let b := set_reserved reserved b0 in
  run put_buf msg_buf b ;;
  run (if Nat.eqb (length (mrs b)) 3
       then
         (* push request, split the meta and data into two writes *)
         do t <- get_trans ep ;;
         do r <- deref (mrs b !! 1%nat) ;;
         post_send ep (values_wr (fst r) (snd r) b (pagesize_ t) raddr rkey)
       else CHECK (Nat.eqb (length (mrs b)) 0)) ;;
  let write_ctx := reserved_context b in
  run CHECK (negb (write_ctx =? 0)) ;;
  do c <- get_ctx write_ctx ;;
  (* write the addr of msg_buf into the mr buffer *)
  run modify (fun w => set_scratch (<[mr_addr (ctx_buffer c) := msg_buf]> (scratch w)) w) ;;
  post_send ep (meta_wr write_ctx b raddr rkey idx).

Definition start_wr (context : Z) (c : WRContext) : ibv_send_wr :=
  {| wr_id := context;
     opcode := IBV_WR_SEND_WITH_IMM;
     imm_data := kRendezvousStart;
     send_flags := IBV_SEND_SIGNALED;
     sg_list := [ {| sge_addr := mr_addr (ctx_buffer c);
                     sge_length := sizeof_RendezvousStart;
                     sge_lkey := mr_lkey (ctx_buffer c) |} ];
     remote_addr := 0;
     wr_rkey := 0 |}.

Definition SendRendezvousBegin (ep : Z) (msg : Message) (msg_buf : Z) : M World unit :=
  do reserved <- WaitAndPop_write ep ;;
  do context <- WaitAndPop_start ep ;;
  do b0 <- get_buf msg_buf ;;
  run put_buf msg_buf (set_reserved reserved b0) ;;
  do c <- get_ctx context ;;
  let n := length (buf_data b0) in
  (* req->data_len[i] = msg.data[i].size() for i < data_num *)
  if (kMaxDataFields <? n)%nat || (length (data msg) <? n)%nat then halt Undefined
  else
    let req := {| rs_meta_len := inline_len b0;
                  rs_data_num := Z.of_nat n;
                  rs_data_len := map sa_size (take n (data msg));
                  rs_origin_addr := msg_buf |} in
    run log (EvStart (mr_addr (ctx_buffer c)) req) ;;
    post_send ep (start_wr context c).

Definition AddMeta (ep : Z) (msg : Message) : M World Message :=
  do msg <- (if request (meta msg)
             then do k <- deref (data msg !! 0%nat) ;;
                  ret (with_meta (set_key (DecodeKey E k) (meta msg)) msg)
             else ret msg) ;;
  if push (meta msg) && request (meta msg)
  then
    (* push request *)
    run CHECK (Nat.eqb (length (data msg)) 3) ;;
    do t <- get_trans ep ;;
    do vals <- deref (data msg !! 1%nat) ;;
    match mem_mr_map_ t !! sa_data vals with
    | None => halt Abort                            (* CHECK_NE(find(...), end()) *)
    | Some mr =>
        ret (with_meta (set_tensor (to_int (sa_size vals)) (sa_data vals)
                                   (to_int (mr_rkey mr)) (meta msg)) msg)
    end
  else ret msg.

Definition Send (ep : Z) (msg : Message) (msg_buf : Z) (remote_tuple : RemoteTuple)
  : M World unit :=
  let '(raddr, rkey, idx) := remote_tuple in
  RDMAWriteWithImm ep msg_buf raddr rkey idx.

Definition SendPushResponse := Send.
Definition SendPullRequest := Send.

Definition RDMATransport_SendPushRequest := Send.

Definition pull_values_wr (sa : SArray) (mr : ibv_mr) (raddr rkey : Z) : ibv_send_wr :=
  {| wr_id := raddr;
     opcode := IBV_WR_RDMA_WRITE;
     imm_data := 0;
     send_flags := 0;
     sg_list := [ {| sge_addr := sa_data sa; sge_length := wrap32 (sa_size sa);
                     sge_lkey := mr_lkey mr |} ];
     remote_addr := raddr;
     wr_rkey := rkey |}.

Definition RDMATransport_SendPullResponse (ep : Z) (msg : Message) (msg_buf : Z)
           (remote_tuple : RemoteTuple) : M World unit :=
  let raddr := addr (meta msg) in
  let rkey := wrap32 (option_ (meta msg)) in
  do t <- get_trans ep ;;
  do b <- get_buf msg_buf ;;
  do vals <- deref (buf_data b !! 1%nat) ;;
  match mem_mr_map_ t !! sa_data vals with
  | None => halt Abort                              (* CHECK_NE(temp_mr, end()) *)
  | Some mr =>
      run post_send ep (pull_values_wr vals mr raddr rkey) ;;
      (* after write keys/vals/lens (no imm), write the meta (with imm) *)
      Send ep msg msg_buf remote_tuple
  end.

(** *** IPCTransport *)

Definition IPCTransport_SendPushRequest (ep : Z) (msg : Message) (msg_buf : Z)
           (remote_tuple : RemoteTuple) : M World unit :=
  do b <- get_buf msg_buf ;;
  let b' := set_mrs [] b in                         (* avoid rdma-write in RDMAWriteWithImm() *)
  run put_buf msg_buf b' ;;
  run CHECK (Nat.eqb (length (mrs b')) 0) ;;
  Send ep msg msg_buf remote_tuple.

Definition GetSharedMemory (ep : Z) (k : Z) : M World Z :=
  do t <- get_trans ep ;;
  let worker_key := DecodeWorkerKey E k in
  let seq_num := worker_key mod 65536 in
  let base_key := worker_key - seq_num in
  let offset := wrap64 (byteps_partition_bytes_ t * seq_num) in
  match key_shm_addr_ t !! base_key with
  | Some base_ptr => ret (wrap64 (base_ptr + offset))
  | None =>
      let shm_fd := shm_open E base_key in
      run CHECK (0 <=? shm_fd) ;;
      let '(rc, total_shm_size) := fstat E shm_fd in
      run CHECK (rc =? 0) ;;
      let base_ptr := mmap E total_shm_size shm_fd in
      run CHECK (negb (base_ptr =? wrap64 (-1))) ;;
      run put_trans ep (set_key_shm_addr (<[base_key := base_ptr]> (key_shm_addr_ t)) t) ;;
      ret (wrap64 (base_ptr + offset))
  end.

(** [async_copy_queue_[cnt % ipc_copy_nthreads_]->Push(m)]; the modulus is
    taken at [unsigned long long]. *)
Definition async_push (ep : Z) (m : AsyncCopy) : M World unit :=
  do t <- get_trans ep ;;
  let cnt := cpy_counter_ t in                      (* cpy_counter_.fetch_add(1) *)
  let n := wrap64 (ipc_copy_nthreads_ t) in
  if n =? 0 then halt Undefined
  else
    let i := Z.to_nat (cnt mod n) in
    do q <- deref (async_copy_queue_ t !! i) ;;
    put_trans ep (set_async (<[i := q ++ [m]]> (async_copy_queue_ t)) (wrap64 (cnt + 1)) t).

Definition IPCTransport_SendPullResponse (ep : Z) (msg : Message) (msg_buf : Z)
           (remote_tuple : RemoteTuple) : M World unit :=
  do b <- get_buf msg_buf ;;
  run CHECK (Nat.eqb (length (mrs b)) 0) ;;
  do vals <- deref (data msg !! 1%nat) ;;
  let src := sa_data vals in
  run CHECK (negb (src =? 0)) ;;
  do shm_addr <- GetSharedMemory ep (key (meta msg)) ;;
  run CHECK (negb (shm_addr =? 0)) ;;
  do t <- get_trans ep ;;
  if enable_async_copy_ t
  then
    (* async copy with a simple load-balancing strategy *)
    async_push ep {| ac_msg_buf := msg_buf; ac_remote_tuple := remote_tuple;
                     ac_dst := shm_addr; ac_src := src;
                     ac_len := val_len (meta msg); ac_shutdown := false |}
  else
    (* synchronous copy *)
    run log (EvMemcpy shm_addr (AtAddr src) (val_len (meta msg))) ;;
    Send ep msg msg_buf remote_tuple.

(** One turn of the loop of [AsyncCopyThread(i)]; the result tells
    whether the loop goes on. *)
Definition AsyncCopyThread_turn (ep : Z) (i : nat) : M World bool :=
  do t <- get_trans ep ;;
  do q <- deref (async_copy_queue_ t !! i) ;;
  match q with
  | [] => halt Blocked                              (* q->WaitAndPop(&m) *)
  | m :: rest =>
      run put_trans ep (set_async (<[i := rest]> (async_copy_queue_ t)) (cpy_counter_ t) t) ;;
      if ac_shutdown m then ret false
      else if ac_len m =? 0 then ret true
      else
        run CHECK (negb (ac_dst m =? 0)) ;;
        run CHECK (negb (ac_src m =? 0)) ;;
        run log (EvMemcpy (ac_dst m) (AtAddr (ac_src m)) (ac_len m)) ;;
        let '(raddr, rkey, idx) := ac_remote_tuple m in
        run RDMAWriteWithImm ep (ac_msg_buf m) raddr rkey idx ;;
        ret true
  end.

Fixpoint AsyncCopyThread (turns : nat) (ep : Z) (i : nat) : M World unit :=
  match turns with
  | O => ret tt
  | S n => do go <- AsyncCopyThread_turn ep i ;;
           if go then AsyncCopyThread n ep i else ret tt
  end.

(** *** Virtual dispatch on the transport of the endpoint *)

Definition SendPushRequest (ep : Z) (msg : Message) (msg_buf : Z) (rt : RemoteTuple)
  : M World unit :=
  do t <- get_trans ep ;;
  if is_ipc t then IPCTransport_SendPushRequest ep msg msg_buf rt
  else RDMATransport_SendPushRequest ep msg msg_buf rt.

Definition SendPullResponse (ep : Z) (msg : Message) (msg_buf : Z) (rt : RemoteTuple)
  : M World unit :=
  do t <- get_trans ep ;;
  if is_ipc t then IPCTransport_SendPullResponse ep msg msg_buf rt
  else RDMATransport_SendPullResponse ep msg msg_buf rt.

(** *** Receive side *)

(** [malloc] and [memcpy] of [size] bytes; the deleter frees them. *)
Definition CreateFunctionalSarray (value : MemSrc) (size : Z) : M World SArray :=
  do w <- get ;;
  let p := malloc E (trace w) size in
  run log (EvMalloc size p) ;;
  if p =? 0 then halt Undefined                     (* memcpy to a null pointer *)
  else
    run log (EvMemcpy p value size) ;;
    ret {| sa_data := p; sa_size := size |}.

Definition sizes (l : list SArray) : Z := to_int (wrap64 (foldr Z.add 0 (map sa_size l))).

Definition RecvPushResponse (ep : Z) (msg : Message) (buffer_ctx : BufferContext)
           (meta_len : Z) : M World (Message * Z) :=
  run CHECK (data_num buffer_ctx =? 0) ;;
  ret (msg, 0).

Definition RecvPullRequest (ep : Z) (msg : Message) (buffer_ctx : BufferContext)
           (meta_len : Z) : M World (Message * Z) :=
  do keys <- CreateFunctionalSarray MetaKey sizeof_Key ;;
  let vals := SArray_empty in                       (* an empty sarray to pass kvapp check *)
  ret (push_back_data [keys; vals] msg, sizes [keys; vals]).

Definition RDMATransport_RecvPushRequest (ep : Z) (msg : Message)
           (buffer_ctx : BufferContext) (meta_len : Z) : M World (Message * Z) :=
  run CHECK (push (meta msg) && request (meta msg)) ;;
  run CHECK (data_num buffer_ctx =? 3) ;;
  do t <- get_trans ep ;;
  let len := wrap32 (default 0 (data_len buffer_ctx !! 1%nat)) in
  let cur := wrap64 (buffer buffer_ctx + align_ceil (wrap64 meta_len) (pagesize_ t)) in
  do keys <- CreateFunctionalSarray MetaKey sizeof_Key ;;
  let vals := {| sa_data := cur; sa_size := len |} in      (* no need to delete *)
  do lens <- CreateFunctionalSarray MetaValLen sizeof_int ;;
  ret (push_back_data [keys; vals; lens] msg, sizes [keys; vals; lens]).

Definition RecvPullResponse (ep : Z) (msg : Message) (buffer_ctx : BufferContext)
           (meta_len : Z) : M World (Message * Z) :=
  do keys <- CreateFunctionalSarray MetaKey sizeof_Key ;;
  let vals := {| sa_data := addr (meta msg); sa_size := wrap64 (val_len (meta msg)) |} in
  do lens <- CreateFunctionalSarray MetaValLen sizeof_int ;;
  ret (push_back_data [keys; vals; lens] msg, sizes [keys; vals; lens]).

Definition IPCTransport_RecvPushRequest (ep : Z) (msg : Message)
           (buffer_ctx : BufferContext) (meta_len : Z) : M World (Message * Z) :=
  run CHECK (push (meta msg) && request (meta msg)) ;;
  (* get data message from local shared memory *)
  let len := val_len (meta msg) in
  do keys <- CreateFunctionalSarray MetaKey sizeof_Key ;;
  do a <- GetSharedMemory ep (key (meta msg)) ;;
  let vals := {| sa_data := a; sa_size := wrap64 len |} in
  do lens <- CreateFunctionalSarray MetaValLen sizeof_int ;;
  ret (push_back_data [keys; vals; lens] msg, sizes [keys; vals; lens]).

Definition RecvPushRequest (ep : Z) (msg : Message) (buffer_ctx : BufferContext)
           (meta_len : Z) : M World (Message * Z) :=
  do t <- get_trans ep ;;
  if is_ipc t then IPCTransport_RecvPushRequest ep msg buffer_ctx meta_len
  else RDMATransport_RecvPushRequest ep msg buffer_ctx meta_len.

End Transport.

(** ** RDMAVan *)

Section Van.

Variable E : Env.

(** [m[k][r]] of a map of maps: is the inner entry there? *)
Definition lookup2 {V} (m : gmap Z (gmap Z V)) (k r : Z) : option V :=
  m !! k ≫= fun inner => inner !! r.

(** [m[k][r] = v] *)
Definition insert2 {V} (k r : Z) (v : V) (m : gmap Z (gmap Z V)) : gmap Z (gmap Z V) :=
  <[k := <[r := v]> (default ∅ (m !! k))]> m.

Definition PackWorkerTensorAddress (msg : Message) : M World Message :=
  (* must be pull response *)
  if push (meta msg) || request (meta msg) then ret msg
  else
    let k := key (meta msg) in
    let recver := recver (meta msg) in
    do w <- get ;;
    match tensor_info_map_ w !! k with
    | None => halt Abort                  (* CHECK_NE(tensor_info_map_.find(key), end()) *)
    | Some inner =>
        match inner !! recver with
        | None => halt Abort              (* CHECK_NE(tensor_info_map_[key].find(recver), end()) *)
        | Some (len, a, rkey) => ret (with_meta (set_tensor len a rkey (meta msg)) msg)
        end
    end.

Definition StoreWorkerTensorAddress (msg : Message) : M World unit :=
  let k := key (meta msg) in
  let len := val_len (meta msg) in
  let a := addr (meta msg) in
  let rkey := option_ (meta msg) in
  let sender := sender (meta msg) in
  do w <- get ;;
  match lookup2 (tensor_info_map_ w) k sender with
  | None =>
      modify (set_tensor_info_map (insert2 k sender (len, a, rkey) (tensor_info_map_ w)))
  | Some (len0, a0, rkey0) =>
      run CHECK (len =? len0) ;;
      run CHECK (a =? a0) ;;
      CHECK (rkey =? rkey0)
  end.

Definition HasRemoteInfo (msg_buf : Z) (k : Z) (is_push : bool) (recver : Z) : M World bool :=
  do w <- get ;;
  if is_push && bool_decide (is_Some (lookup2 (push_addr_ w) k recver)) then ret true
  else if negb is_push && bool_decide (is_Some (lookup2 (pull_addr_ w) k recver)) then ret true
  else
    (* no remote info, store the msg_buf address and push/pull flag for RendezvousReply *)
    run modify (set_msgbuf_cache
                  (match msgbuf_cache_ w !! msg_buf with
                   | Some _ => msgbuf_cache_ w                                  (* emplace *)
                   | None => <[msg_buf := (k, is_push, recver)]> (msgbuf_cache_ w)
                   end)) ;;
    ret false.

Definition StoreRemoteInfo (msg_buf raddr rkey idx : Z) : M World unit :=
  do w <- get ;;
  match (msgbuf_cache_ w !! msg_buf : option (Z * bool * Z)) with
  | None => ret tt                                                              (* control message *)
  | Some (k, is_push, recver) =>
      run (if is_push
           then modify (set_push_addr (insert2 k recver (raddr, rkey, idx) (push_addr_ w)))
           else modify (set_pull_addr (insert2 k recver (raddr, rkey, idx) (pull_addr_ w)))
           : M World unit) ;;
      modify (fun w' => set_msgbuf_cache (delete msg_buf (msgbuf_cache_ w')) w')
  end.

(** [operator[]] creates the entry of [key] when it is missing. *)
Definition GetRemoteInfo (k : Z) (is_push : bool) : M World (gmap Z RemoteTuple) :=
  do w <- get ;;
  if is_push
  then let r := default ∅ (push_addr_ w !! k) in
       run modify (set_push_addr (<[k := r]> (push_addr_ w))) ;; ret r
  else let r := default ∅ (pull_addr_ w !! k) in
       run modify (set_pull_addr (<[k := r]> (pull_addr_ w))) ;; ret r.

(** [SendMsg], from [if (IsValidPushpull(msg))] on: the message buffer
    [msg_buf] is allocated, its inline buffer is [ibuf]. *)
Definition SendMsg_route (ep msg_buf ibuf total_len : Z) (msg : Message)
  : M World (Message * Z) :=
  let remote_id := recver (meta msg) in
  do msg <- (if IsValidPushpull msg
             then do msg' <- AddMeta E ep msg ;; PackWorkerTensorAddress msg'
             else ret msg) ;;
  run log (EvPackMeta ibuf (meta msg)) ;;
  if negb (IsValidPushpull msg)
  then run SendRendezvousBegin E ep msg msg_buf ;; ret (msg, total_len)
  else
    run PrepareData ep msg msg_buf ;;
    let is_push := push (meta msg) in
    let k := key (meta msg) in
    do known <- HasRemoteInfo msg_buf k is_push remote_id ;;
    if negb known
    then run SendRendezvousBegin E ep msg msg_buf ;; ret (msg, total_len)
    else
      do remote_addr_tuple <- GetRemoteInfo (key (meta msg)) (push (meta msg)) ;;
      let rt := RemoteTuple_of E remote_addr_tuple in
      (* already know remote address, directly use RDMA-write *)
      run (match push (meta msg), request (meta msg) with
           | true, true => SendPushRequest E ep msg msg_buf rt      (* worker, push request *)
           | true, false => SendPushResponse E ep msg msg_buf rt    (* server, push response *)
           | false, true => SendPullRequest E ep msg msg_buf rt     (* worker, pull request *)
           | false, false => SendPullResponse E ep msg msg_buf rt   (* server, pull response *)
           end) ;;
      ret (msg, total_len).

(** [SendMsg] returns the message, which it takes by reference, and
    [total_len]. *)
Definition SendMsg (msg : Message) : M World (Message * Z) :=
  let remote_id := recver (meta msg) in
  run CHECK (negb (remote_id =? kEmpty)) ;;
  do w <- get ;;
  match endpoints_ w !! remote_id with
  | None => halt Abort                              (* CHECK_NE(endpoints_.find(remote_id), end()) *)
  | Some ep =>
      do e <- get_ep ep ;;
      run CHECK (bool_decide (is_Some (trans e))) ;;
      run RegisterMemory E ep msg ;;
      do w1 <- get ;;
      let msg_buf := operator_new E (trace w1) in
      run log (EvNew msg_buf) ;;
      let meta_len := to_int (GetPackMetaLen E (meta msg)) in
      let total_len := to_int (wrap64 (meta_len + data_size (meta msg))) in
      run CHECK (negb (meta_len =? 0)) ;;
      do w2 <- get ;;
      let ibuf := mempool_Alloc E (trace w2) (wrap64 meta_len) in
      run log (EvAlloc (wrap64 meta_len) ibuf) ;;
      run put_buf msg_buf {| inline_len := wrap64 meta_len; inline_buf := ibuf;
                             reserved_context := 0; buf_data := data msg; mrs := [] |} ;;
      SendMsg_route ep msg_buf ibuf total_len msg
  end.

(** The part of [SendMsg_route] that follows the packing of the meta, as a
    computation of its own. *)
Definition after_pack (ep msg_buf total_len remote_id : Z) (msg : Message)
  : M World (Message * Z) :=
  if negb (IsValidPushpull msg)
  then run SendRendezvousBegin E ep msg msg_buf ;; ret (msg, total_len)
  else
    run PrepareData ep msg msg_buf ;;
    do known <- HasRemoteInfo msg_buf (key (meta msg)) (push (meta msg)) remote_id ;;
    if negb known
    then run SendRendezvousBegin E ep msg msg_buf ;; ret (msg, total_len)
    else
      do remote_addr_tuple <- GetRemoteInfo (key (meta msg)) (push (meta msg)) ;;
      run (match push (meta msg), request (meta msg) with
           | true, true => SendPushRequest E ep msg msg_buf (RemoteTuple_of E remote_addr_tuple)
           | true, false => SendPushResponse E ep msg msg_buf (RemoteTuple_of E remote_addr_tuple)
           | false, true => SendPullRequest E ep msg msg_buf (RemoteTuple_of E remote_addr_tuple)
           | false, false => SendPullResponse E ep msg msg_buf (RemoteTuple_of E remote_addr_tuple)
           end) ;;
      ret (msg, total_len).

(** [SendMsg] as it runs for a data message whose remote address is known:
    no look-up in the address cache and no rendezvous; "already know remote
    address, directly use RDMA-write". *)
Definition direct_write (ep msg_buf total_len : Z) (msg : Message) : M World (Message * Z) :=
  run PrepareData ep msg msg_buf ;;
  do remote_addr_tuple <- GetRemoteInfo (key (meta msg)) (push (meta msg)) ;;
  run (match push (meta msg), request (meta msg) with
       | true, true => SendPushRequest E ep msg msg_buf (RemoteTuple_of E remote_addr_tuple)
       | true, false => SendPushResponse E ep msg msg_buf (RemoteTuple_of E remote_addr_tuple)
       | false, true => SendPullRequest E ep msg msg_buf (RemoteTuple_of E remote_addr_tuple)
       | false, false => SendPullResponse E ep msg msg_buf (RemoteTuple_of E remote_addr_tuple)
       end) ;;
  ret (msg, total_len).

Definition SendMsg_route_direct (ep msg_buf ibuf total_len : Z) (msg : Message)
  : M World (Message * Z) :=
  do msg' <- (do msg1 <- AddMeta E ep msg ;; PackWorkerTensorAddress msg1) ;;
  run log (EvPackMeta ibuf (meta msg')) ;;
  direct_write ep msg_buf total_len msg'.

Definition SendMsg_direct (msg : Message) : M World (Message * Z) :=
  let remote_id := recver (meta msg) in
  run CHECK (negb (remote_id =? kEmpty)) ;;
  do w <- get ;;
  match endpoints_ w !! remote_id with
  | None => halt Abort
  | Some ep =>
      do e <- get_ep ep ;;
      run CHECK (bool_decide (is_Some (trans e))) ;;
      run RegisterMemory E ep msg ;;
      do w1 <- get ;;
      let msg_buf := operator_new E (trace w1) in
      run log (EvNew msg_buf) ;;
      let meta_len := to_int (GetPackMetaLen E (meta msg)) in
      let total_len := to_int (wrap64 (meta_len + data_size (meta msg))) in
      run CHECK (negb (meta_len =? 0)) ;;
      do w2 <- get ;;
      let ibuf := mempool_Alloc E (trace w2) (wrap64 meta_len) in
      run log (EvAlloc (wrap64 meta_len) ibuf) ;;
      run put_buf msg_buf {| inline_len := wrap64 meta_len; inline_buf := ibuf;
                             reserved_context := 0; buf_data := data msg; mrs := [] |} ;;
      SendMsg_route_direct ep msg_buf ibuf total_len msg
  end.

(** The key under which [SendMsg] routes [msg]: [AddMeta] decodes it from
    [data[0]] for a request. *)
Definition routed_key (msg : Message) : Z :=
  if request (meta msg) then DecodeKey E (default SArray_empty (data msg !! 0%nat))
  else key (meta msg).

Definition RecvMsg (msg : Message) : M World (Message * Z) :=
  do w <- get ;;
  match recv_buffers_ w with
  | [] => halt Blocked                              (* recv_buffers_.WaitAndPop *)
  | (ep, buffer_ctx) :: rest =>
      run modify (set_recv_buffers rest) ;;
      do e <- get_ep ep ;;
      let m := UnpackMeta E (buffer buffer_ctx)
                 (set_route (node_id e) (my_node_id w) (meta msg)) in
      let msg := {| meta := m; data := [] |} in
      let meta_len := to_int (GetPackMetaLen E m) in
      run CHECK (bool_decide (is_Some (trans e))) ;;
      if negb (IsValidPushpull msg)
      then run log (EvFree (buffer buffer_ctx)) ;; ret (msg, meta_len)
      else
        (* valid data message *)
        do r <- (match push m, request m with
                 | true, true =>
                     do r <- RecvPushRequest E ep msg buffer_ctx meta_len ;;
                     run StoreWorkerTensorAddress (fst r) ;; ret r
                 | false, true => RecvPullRequest E ep msg buffer_ctx meta_len
                 | true, false => RecvPushResponse ep msg buffer_ctx meta_len
                 | false, false => RecvPullResponse E ep msg buffer_ctx meta_len
                 end) ;;
        ret (fst r, to_int (meta_len + snd r))
  end.

Definition ReleaseWorkRequestContext (context ep : Z) : M World unit :=
  do c <- get_ctx context ;;
  do e <- get_ep ep ;;
  match ctx_type c with
  | kRendezvousStartContext => put_ep ep (set_free_start (free_start_ctx e ++ [context]) e)
  | kRendezvousReplyContext => put_ep ep (set_free_reply (free_reply_ctx e ++ [context]) e)
  | kWriteContext => put_ep ep (set_free_write (free_write_ctx e ++ [context]) e)
  | kReceiveContext =>
      do w <- get ;;
      run CHECK (ibv_post_recv E (trace w) ep context =? 0) ;;     (* endpoint->PostRecv *)
      log (EvPostRecv ep context)
  end.

(** The completions [PollCQ] serves on the sending side, with what it
    reads from the buffer of the context.  (The two branches of the
    receiving side go through [SendRendezvousReply] and
    [AddressPool::GetAddress]; the latter is not part of the sources, and
    what they hand over is the contents of [recv_buffers_].) *)
Inductive Completion : Type :=
| WC_SEND (wr_id : Z)
| WC_RDMA_WRITE (wr_id : Z)
| WC_RECV_RendezvousReply (wr_id : Z) (resp : RendezvousReply).

Definition PollCQ (wc : Completion) : M World unit :=
  match wc with
  | WC_SEND context =>
      do c <- get_ctx context ;;
      run CHECK (negb (private_data c =? 0)) ;;
      ReleaseWorkRequestContext context (private_data c)
  | WC_RDMA_WRITE context =>
      do c <- get_ctx context ;;
      run CHECK (negb (private_data c =? 0)) ;;
      do w <- get ;;
      do msg_buf <- deref (scratch w !! mr_addr (ctx_buffer c)) ;;
      do b <- get_buf msg_buf ;;
      run log (EvFree (inline_buf b)) ;;
      run modify (fun w' => set_msg_bufs (delete msg_buf (msg_bufs w')) w') ;;
      run log (EvDelete msg_buf) ;;
      ReleaseWorkRequestContext context (private_data c)
  | WC_RECV_RendezvousReply context resp =>
      do c <- get_ctx context ;;
      let ep := private_data c in
      run CHECK (negb (ep =? 0)) ;;
      do e <- get_ep ep ;;
      run CHECK (bool_decide (is_Some (trans e))) ;;
      let msg_buf := rr_origin_addr resp in
      (* Before RDMA write, store the remote info so that
         subsequent write does not need repeated rendezvous *)
      run StoreRemoteInfo msg_buf (rr_addr resp) (rr_rkey resp) (rr_idx resp) ;;
      run RDMAWriteWithImm E ep msg_buf (rr_addr resp) (rr_rkey resp) (rr_idx resp) ;;
      ReleaseWorkRequestContext context ep
  end.

(** What a van process does, one call or one completion at a time. *)
Inductive Step : Type :=
| DoSend (msg : Message)
| DoRecv (msg : Message)
| DoPoll (wc : Completion)
| DoCopy (ep : Z) (i : nat)                         (* one turn of a copy worker *)
| Deliver (ep : Z) (buffer_ctx : BufferContext).    (* recv_buffers_.Push by the poller *)

Definition step (s : Step) : M World unit :=
  match s with
  | DoSend msg => run SendMsg msg ;; ret tt
  | DoRecv msg => run RecvMsg msg ;; ret tt
  | DoPoll wc => PollCQ wc
  | DoCopy ep i => run AsyncCopyThread_turn E ep i ;; ret tt
  | Deliver ep buffer_ctx =>
      modify (fun w => set_recv_buffers (recv_buffers_ w ++ [(ep, buffer_ctx)]) w)
  end.

Fixpoint steps (l : list Step) : M World unit :=
  match l with
  | [] => ret tt
  | s :: l' => run step s ;; steps l'
  end.

End Van.

(** The address cache holds a remote address for [(key, peer, direction)]. *)
Definition recorded (w : World) (k r : Z) (is_push : bool) : Prop :=
  if is_push then is_Some (lookup2 (push_addr_ w) k r)
  else is_Some (lookup2 (pull_addr_ w) k r).

(** ** Concrete instances used by the examples *)

(** The pool after 512 stores: every index is live. *)
Definition full_pool : AddressPool.t :=
  {| AddressPool.indices_ := []; AddressPool.table_ := replicate AddressPool.kMaxEntries 1 |}.

Definition Listener_new : Listener := {| attempts := []; bound := false |}.

(** A [rand_r] in the style of the C library. *)
Definition lcg (seed : Z) : Z * Z :=
  let s := (seed * 1103515245 + 12345) mod 2 ^ 32 in (s / 65536 mod 32768, s).

(** A host on which exactly the ports in [busy] are taken. *)
Definition bind_env (busy : Z -> bool) : BindEnv :=
  {| rdma_create_id := 0;
     time_now := 1600000000;
     rdma_bind_addr := fun _ p => if busy p then -1 else 0;
     rand_r := lcg;
     rdma_listen := fun _ _ => 0 |}.

(** A device and allocators that never fail. *)
Definition env0 : Env :=
  {| GetPackMetaLen := fun _ => 64;
     UnpackMeta := fun _ m => m;
     DecodeKey := fun sa => sa_data sa / 4096;
     DecodeWorkerKey := fun k => k;
     ibv_reg_mr := fun a n => Some {| mr_addr := a; mr_lkey := a + 1; mr_rkey := a + 2 |};
     ibv_post_send := fun _ _ _ => 0;
     ibv_post_recv := fun _ _ _ => 0;
     mempool_Alloc := fun tr _ => 4096 * (16 + Z.of_nat (length tr));
     LocalKey := fun _ => 11;
     RemoteKey := fun _ => 12;
     operator_new := fun tr => 8 * (1000 + Z.of_nat (length tr));
     malloc := fun tr _ => 16 * (5000 + Z.of_nat (length tr));
     shm_open := fun _ => 3;
     fstat := fun _ => (0, 2 ^ 30);
     mmap := fun _ _ => 2 ^ 40;
     RemoteTuple_of := fun m => default (0, 0, 0) (snd <$> head (map_to_list m)) |}.

Definition rdma_transport : Transport :=
  {| is_ipc := false; pagesize_ := 4096; is_server_ := false; mem_mr_map_ := ∅;
     ipc_copy_nthreads_ := 0; async_copy_queue_ := []; cpy_counter_ := 0;
     byteps_partition_bytes_ := 4096000; key_shm_addr_ := ∅;
     enable_async_copy_ := false |}.

Definition ipc_transport : Transport :=
  {| is_ipc := true; pagesize_ := 4096; is_server_ := true; mem_mr_map_ := ∅;
     ipc_copy_nthreads_ := 4; async_copy_queue_ := [[]; []; []; []]; cpy_counter_ := 0;
     byteps_partition_bytes_ := 4096000; key_shm_addr_ := ∅;
     enable_async_copy_ := true |}.

Definition context_at (ty : WRContextType) (a ep : Z) : WRContext :=
  {| ctx_type := ty; ctx_buffer := {| mr_addr := a; mr_lkey := a + 1; mr_rkey := a + 2 |};
     private_data := ep |}.

Definition endpoint_with (t : Transport) : Endpoint :=
  {| node_id := 8; free_start_ctx := [2000; 2001]; free_reply_ctx := [2100];
     free_write_ctx := [2200; 2201]; trans := Some t |}.

(** A process (node 9) connected to node 8 through the endpoint at address
    1000, which runs transport [t]. *)
Definition world_with (t : Transport) : World :=
  {| my_node_id := 9;
     ep_heap := {[ 1000 := endpoint_with t ]};
     ctx_heap := {[ 2000 := context_at kRendezvousStartContext 3000 1000;
                    2001 := context_at kRendezvousStartContext 3001 1000;
                    2100 := context_at kRendezvousReplyContext 3100 1000;
                    2200 := context_at kWriteContext 3200 1000;
                    2201 := context_at kWriteContext 3201 1000;
                    2300 := context_at kReceiveContext 3300 1000 ]};
     msg_bufs := ∅;
     scratch := ∅;
     endpoints_ := {[ 8 := 1000 ]};
     tensor_info_map_ := ∅;
     push_addr_ := ∅;
     pull_addr_ := ∅;
     msgbuf_cache_ := ∅;
     recv_buffers_ := [];
     trace := [] |}.

Definition world0 : World := world_with rdma_transport.

Definition region (a : Z) : ibv_mr := {| mr_addr := a; mr_lkey := a + 1; mr_rkey := a + 2 |}.

(** A message buffer whose packed meta of 100 bytes sits at 65536, with the
    registered regions [l]. *)
Definition buffer_with (l : list (ibv_mr * Z)) : MessageBuffer :=
  {| inline_len := 100; inline_buf := 65536; reserved_context := 0; buf_data := [];
     mrs := l |}.

(** The process holding, at address 500, a message buffer with regions [l]. *)
Definition world_buffer (l : list (ibv_mr * Z)) : World :=
  set_msg_bufs {[ 500 := buffer_with l ]} world0.

Definition three_regions : list (ibv_mr * Z) :=
  [(region 4096, 8); (region 8192, 1024); (region 12288, 4)].

Definition two_regions : list (ibv_mr * Z) := [(region 4096, 8); (region 12288, 4)].

(** A push request of node 9 to node 8 for key 7: keys, 1024 bytes of
    values and lengths; with [env0], [DecodeKey] of the keys field is 7. *)
Definition data_meta (is_push is_request : bool) : Meta :=
  {| sender := 9; recver := 8; key := 7; request := is_request; push := is_push;
     val_len := 0; addr := 0; option_ := 0; control_empty := true; simple_app := false;
     data_size := 1036 |}.

Definition push_request : Message :=
  {| meta := data_meta true true;
     data := [ {| sa_data := 7 * 4096; sa_size := 8 |};
               {| sa_data := 2 ^ 20; sa_size := 1024 |};
               {| sa_data := 2 ^ 21; sa_size := 4 |} ] |}.

(** The same push with an empty values field. *)
Definition empty_push_request : Message :=
  {| meta := data_meta true true;
     data := [ {| sa_data := 7 * 4096; sa_size := 8 |};
               {| sa_data := 2 ^ 20; sa_size := 0 |};
               {| sa_data := 2 ^ 21; sa_size := 4 |} ] |}.

(** The process after the rendezvous for pushes of key 7 to node 8. *)
Definition world_known : World :=
  set_push_addr {[ 7 := {[ 8 := (2 ^ 32, 77, 5) ]} ]} world0.

(** The same process when the (empty) values buffer at [2 ^ 20] was
    registered by an earlier message. *)
Definition registered_transport : Transport :=
  set_mem_mr_map {[ 2 ^ 20 := region (2 ^ 20) ]} rdma_transport.

Definition world_registered : World :=
  set_push_addr {[ 7 := {[ 8 := (2 ^ 32, 77, 5) ]} ]} (world_with registered_transport).

(** A landing buffer for a push request: meta of 64 bytes, three fields. *)
Definition landing : BufferContext :=
  {| buffer := 2 ^ 30; bc_meta_len := 64; data_num := 3; data_len := [8; 1024; 4; 0] |}.

(** The landing buffer of a message without data fields. *)
Definition landing_meta_only : BufferContext :=
  {| buffer := 2 ^ 30; bc_meta_len := 64; data_num := 0; data_len := [0; 0; 0; 0] |}.

Definition received (is_push is_request : bool) : Message :=
  {| meta := data_meta is_push is_request; data := [] |}.

(** The server side (node 8 seen from node 9 is immaterial here): an IPC
    transport answering pulls of key 7 to node 8, whose tensor has
    [val_len = 0]; the address for pull responses is known. *)
Definition pull_response : Message :=
  {| meta := data_meta false false;
     data := [ {| sa_data := 7 * 4096; sa_size := 8 |};
               {| sa_data := 2 ^ 20; sa_size := 0 |};
               {| sa_data := 2 ^ 21; sa_size := 4 |} ] |}.

Definition ipc_transport_sync : Transport :=
  {| is_ipc := true; pagesize_ := 4096; is_server_ := true; mem_mr_map_ := ∅;
     ipc_copy_nthreads_ := 4; async_copy_queue_ := [[]; []; []; []]; cpy_counter_ := 0;
     byteps_partition_bytes_ := 4096000; key_shm_addr_ := ∅;
     enable_async_copy_ := false |}.

Definition world_pull (t : Transport) : World :=
  set_tensor_info_map {[ 7 := {[ 8 := (0, 2 ^ 22, 99) ]} ]}
    (set_pull_addr {[ 7 := {[ 8 := (2 ^ 32, 77, 5) ]} ]} (world_with t)).

(** The queues of the copy workers of the transport of endpoint [ep]. *)
Definition copy_queues (w : World) (ep : Z) : option (list (list AsyncCopy)) :=
  ep_heap w !! ep ≫= fun e => trans e ≫= fun t => Some (async_copy_queue_ t).

(** The job [SendPullResponse] queues for [pull_response] under [env0]. *)
Definition empty_job : AsyncCopy :=
  {| ac_msg_buf := 8000; ac_remote_tuple := (2 ^ 32, 77, 5);
     ac_dst := 2 ^ 40 + 7 * 4096000; ac_src := 2 ^ 20; ac_len := 0; ac_shutdown := false |}.

(** * Vocabulary of the statements *)

(** The range from which [Bind] draws its retry ports. *)
Definition high_port (p : Z) : Prop := 10000 <= p < 50000.

(** [c] takes every state to an [R]-related one, whether it returns or
    halts. *)
Definition pres {S A} (R : relation S) (c : M S A) : Prop := ∀ s, R s (final (c s)).

(** The events appended to the trace all satisfy [P]. *)
Definition appends (P : Event -> Prop) (w w' : World) : Prop :=
  ∃ evs, trace w' = trace w ++ evs ∧ Forall P evs.

(** [frame P]: the van's maps and queues are untouched, the trace grows by
    events satisfying [P]; endpoints, message buffers and context buffers
    may change. *)
Definition frame (P : Event -> Prop) (w w' : World) : Prop :=
  my_node_id w' = my_node_id w ∧ ctx_heap w' = ctx_heap w ∧
  endpoints_ w' = endpoints_ w ∧
  tensor_info_map_ w' = tensor_info_map_ w ∧
  push_addr_ w' = push_addr_ w ∧ pull_addr_ w' = pull_addr_ w ∧
  msgbuf_cache_ w' = msgbuf_cache_ w ∧ recv_buffers_ w' = recv_buffers_ w ∧
  appends P w w'.

(** Events that are not part of a rendezvous start. *)
Definition not_start (ev : Event) : Prop :=
  match ev with
  | EvPostSend _ wr => opcode wr ≠ IBV_WR_SEND_WITH_IMM
  | EvStart _ _ => False
  | _ => True
  end.

(** Events other than the packing of a meta. *)
Definition not_pack (ev : Event) : Prop :=
  match ev with
  | EvPackMeta _ _ => False
  | _ => True
  end.

(** What the transport does outside a rendezvous: no start, no packing. *)
Definition quiet (ev : Event) : Prop := not_start ev ∧ not_pack ev.

(** No restriction on the events. *)
Definition any_event (ev : Event) : Prop := True.

(** The relation between an earlier and a later state of the van: a stored
    tensor triple stays as it is, a cached remote address stays cached, and
    the endpoints table is the same (no new connection). *)
Definition grows (w w' : World) : Prop :=
  (∀ k s t, lookup2 (tensor_info_map_ w) k s = Some t ->
            lookup2 (tensor_info_map_ w') k s = Some t) ∧
  (∀ k r, is_Some (lookup2 (push_addr_ w) k r) -> is_Some (lookup2 (push_addr_ w') k r)) ∧
  (∀ k r, is_Some (lookup2 (pull_addr_ w) k r) -> is_Some (lookup2 (pull_addr_ w') k r)) ∧
  endpoints_ w' = endpoints_ w.

(** The triple a push request carries for its tensor. *)
Definition tensor_of (msg : Message) : TensorInfo :=
  (val_len (meta msg), addr (meta msg), option_ (meta msg)).

(** The endpoint [ep] exists and has a transport. *)
Definition has_transport (ep : Z) (w : World) : Prop :=
  ∃ e t, ep_heap w !! ep = Some e ∧ trans e = Some t.

(** The endpoint [ep] exists and has a plain RDMA transport. *)
Definition rdma_at (ep : Z) (w : World) : Prop :=
  ∃ e t, ep_heap w !! ep = Some e ∧ trans e = Some t ∧ is_ipc t = false.

(** The events by which [SendMsg] obtains its message buffer. *)
Definition allocation (ev : Event) : Prop :=
  match ev with EvNew _ | EvAlloc _ _ => True | _ => False end.

(** Every meta that is packed is [m]. *)
Definition packs (m : Meta) (ev : Event) : Prop :=
  match ev with EvPackMeta _ m' => m' = m | _ => True end.

(** The endpoints table owns its endpoints. *)
Definition owns_endpoints (w : World) : Prop :=
  ∀ r ep, endpoints_ w !! r = Some ep -> is_Some (ep_heap w !! ep).

(** Whenever [c] returns, it returns [v]. *)
Definition returns {S A} (v : A) (c : M S A) : Prop :=
  ∀ s r s', c s = Done r s' -> r = v.

(** [c] leaves the state as it is. *)
Definition reads {S A} (c : M S A) : Prop := ∀ s a s', c s = Done a s' -> s' = s.

(** The message buffer at [p] holds between [lo] and [hi] regions. *)
Definition regions_between (lo hi : nat) (p : Z) (w : World) : Prop :=
  ∃ b, msg_bufs w !! p = Some b ∧ (lo <= length (mrs b) <= hi)%nat.

(** No work request is posted. *)
Definition no_post (ev : Event) : Prop :=
  match ev with EvPostSend _ _ => False | _ => True end.

(** [w'] is [w] up to the message buffers. *)
Definition same_but_bufs (w w' : World) : Prop :=
  ep_heap w' = ep_heap w ∧ trace w' = trace w ∧ push_addr_ w' = push_addr_ w ∧
  pull_addr_ w' = pull_addr_ w.

(** [c] does not return from [w] and posts nothing. *)
Definition stops {A} (c : M World A) (w : World) : Prop :=
  is_done (c w) = false ∧ appends no_post w (final (c w)).

(** The only bytes a receive operation copies are those of [meta.key] and
    [meta.val_len]. *)
Definition copies_meta_only (ev : Event) : Prop :=
  match ev with
  | EvMalloc n _ => n = sizeof_Key ∨ n = sizeof_int
  | EvMemcpy _ MetaKey n => n = sizeof_Key
  | EvMemcpy _ MetaValLen n => n = sizeof_int
  | _ => False
  end.

(** * Further code of the sources *)

(** ** The fabric van: decoding a key *)

Module FabricRMAVan.

(** The loop of [DecodeKey]: [keys] holds the [char]s of the array,
    [(uint8_t) c] is [c mod 256], and [key] and [coef] are [uint64_t]. *)
Fixpoint DecodeKey_loop (keys : list Z) (key coef : Z) : Z :=
  match keys with
  | [] => key
  | c :: rest =>
      DecodeKey_loop rest (wrap64 (key + wrap64 (coef * (c mod 256)))) (wrap64 (coef * 256))
  end.

(** The counter of the loop is an [unsigned int] compared with the
    [size_t] [keys.size()]: on an array of [2 ^ 32] bytes or more the loop
    does not end ([None]). *)
Definition DecodeKey (keys : list Z) : option Z :=
  if 2 ^ 32 <=? Z.of_nat (length keys) then None
  else Some (DecodeKey_loop keys 0 1).

End FabricRMAVan.

(** The number whose little-endian digits in base 256 are the bytes of
    [l]. *)
Fixpoint le_value (l : list Z) : Z :=
  match l with
  | [] => 0
  | c :: rest => c mod 256 + 256 * le_value rest
  end.

(** The [n] low bytes of [k], the least significant first. *)
Fixpoint le_bytes (n : nat) (k : Z) : list Z :=
  match n with
  | O => []
  | S n' => k mod 256 :: le_bytes n' (k / 256)
  end.

(** ** Vocabulary of the further properties *)

(** The endpoint at [ep] runs transport [t], and the write context it hands
    out next is [c]. *)
Definition next_write_ctx (w : World) (ep : Z) (t : Transport) (c : Z) : Prop :=
  ∃ e rest ctx,
    ep_heap w !! ep = Some e ∧ trans e = Some t ∧ free_write_ctx e = c :: rest ∧
    c ≠ 0 ∧ ctx_heap w !! c = Some ctx.

(** The device accepts every work request posted on [ep]. *)
Definition accepts (E : Env) (ep : Z) : Prop :=
  ∀ tr wr, ibv_post_send E tr ep wr = 0.

(** ** Further concrete instances *)

(** The process of [world_with t] holding, at address 500, a message buffer
    with regions [l]. *)
Definition world_with_buffer (t : Transport) (l : list (ibv_mr * Z)) : World :=
  set_msg_bufs {[ 500 := buffer_with l ]} (world_with t).

(** The message buffer [SendMsg] sets up for [msg]: a packed meta of 100
    bytes at 65536, the data fields of [msg], no region yet. *)
Definition buffer_of (msg : Message) : MessageBuffer :=
  {| inline_len := 100; inline_buf := 65536; reserved_context := 0; buf_data := data msg;
     mrs := [] |}.

(** A pull response to node 8 for key 7 with 1024 bytes of values at
    [2 ^ 20]; the worker announced the address [2 ^ 22] and the key 99. *)
Definition values_pull_response : Message :=
  {| meta := set_tensor 1024 (2 ^ 22) 99 (data_meta false false);
     data := [ {| sa_data := 7 * 4096; sa_size := 8 |};
               {| sa_data := 2 ^ 20; sa_size := 1024 |};
               {| sa_data := 2 ^ 21; sa_size := 4 |} ] |}.

(** The process of [world_with t] holding the buffer of [msg] at address
    500. *)
Definition world_sending (t : Transport) (msg : Message) : World :=
  set_msg_bufs {[ 500 := buffer_of msg ]} (world_with t).

(** The device accepts every receive request posted on [ep]. *)
Definition accepts_recv (E : Env) (ep : Z) : Prop :=
  ∀ tr ctx, ibv_post_recv E tr ep ctx = 0.

(** [c] is the address of a context of type [ty] that belongs to the
    endpoint at [ep]. *)
Definition context_of (w : World) (c : Z) (ty : WRContextType) (ep : Z) : Prop :=
  ∃ ctx, ctx_heap w !! c = Some ctx ∧ ctx_type ctx = ty ∧ private_data ctx = ep.

(** A rendezvous for the buffer [msg_buf] as the van goes through it: the
    request leaves from the start context [cs], the poller sees its
    completion, then the reply [resp] on the receive context [rc], and at
    last the completion of the write that the reply triggered, made with
    the write context [cw]. *)
Definition rendezvous (E : Env) (ep : Z) (msg : Message) (msg_buf cs rc : Z)
           (resp : RendezvousReply) (cw : Z) : M World unit :=
  run SendRendezvousBegin E ep msg msg_buf ;;
  run PollCQ E (WC_SEND cs) ;;
  run PollCQ E (WC_RECV_RendezvousReply rc resp) ;;
  PollCQ E (WC_RDMA_WRITE cw).

(** A control message of node 9 to node 8: [meta.control] is not empty. *)
Definition barrier_message : Message :=
  {| meta := {| sender := 9; recver := 8; key := 0; request := true; push := false;
                val_len := 0; addr := 0; option_ := 0; control_empty := false;
                simple_app := false; data_size := 0 |};
     data := [] |}.

(** The transport of the endpoint at [ep] holds the region [mr] for the
    buffer at address [a]. *)
Definition registered (w : World) (ep a : Z) (mr : ibv_mr) : Prop :=
  ∃ e t, ep_heap w !! ep = Some e ∧ trans e = Some t ∧ mem_mr_map_ t !! a = Some mr.

(** [w'] differs from [w] in the endpoints only. *)
Definition same_but_endpoints (w w' : World) : Prop :=
  my_node_id w' = my_node_id w ∧ ctx_heap w' = ctx_heap w ∧ msg_bufs w' = msg_bufs w ∧
  scratch w' = scratch w ∧ endpoints_ w' = endpoints_ w ∧
  tensor_info_map_ w' = tensor_info_map_ w ∧ push_addr_ w' = push_addr_ w ∧
  pull_addr_ w' = pull_addr_ w ∧ msgbuf_cache_ w' = msgbuf_cache_ w ∧
  recv_buffers_ w' = recv_buffers_ w ∧ trace w' = trace w.

(** The device registers every buffer. *)
Definition registers_all (E : Env) : Prop := ∀ a n, is_Some (ibv_reg_mr E a n).

(** The regions [PrepareData] records for the fields [l]: one for each
    non-empty field, with the size of the field. *)
Definition regions_of (t : Transport) (l : list SArray) : list (ibv_mr * Z) :=
  omap (fun sa => mr ← mem_mr_map_ t !! sa_data sa; Some (mr, sa_size sa))
       (filter (fun sa => sa_size sa ≠ 0) l).

(** An RDMA transport that has registered the three fields of
    [push_request]. *)
Definition registered_fields_transport : Transport :=
  set_mem_mr_map {[ 7 * 4096 := region (7 * 4096); 2 ^ 20 := region (2 ^ 20);
                    2 ^ 21 := region (2 ^ 21) ]} rdma_transport.


(** The process of [world_with t] after the rendezvous for pushes of key 7
    to node 8. *)
Definition world_known_with (t : Transport) : World :=
  set_push_addr {[ 7 := {[ 8 := (2 ^ 32, 77, 5) ]} ]} (world_with t).

(** The base key and the offset of key [k] in the shared memory of an IPC
    transport, as [GetSharedMemory] computes them. *)
Definition shm_base_key (E : Env) (k : Z) : Z :=
  DecodeWorkerKey E k - DecodeWorkerKey E k mod 65536.

Definition shm_offset (E : Env) (t : Transport) (k : Z) : Z :=
  wrap64 (byteps_partition_bytes_ t * (DecodeWorkerKey E k mod 65536)).

(** The address [GetSharedMemory] returns for key [k] once the segment of
    its base key is mapped at [base]. *)
Definition shm_address (E : Env) (t : Transport) (base k : Z) : Z :=
  wrap64 (base + shm_offset E t k).

(** The job [IPCTransport::SendPullResponse] hands to a copy worker. *)
Definition copy_job (msg : Message) (msg_buf : Z) (rt : RemoteTuple) (dst src : Z)
  : AsyncCopy :=
  {| ac_msg_buf := msg_buf; ac_remote_tuple := rt; ac_dst := dst; ac_src := src;
     ac_len := val_len (meta msg); ac_shutdown := false |}.

(** The queue of the copy workers that takes the next job: the value of the
    counter modulo the number of workers. *)
Definition next_queue (t : Transport) : nat :=
  Z.to_nat (cpy_counter_ t mod wrap64 (ipc_copy_nthreads_ t)).

(** An IPC transport that has the segment of base key 0 mapped at
    [2 ^ 40]; [async] switches the copy workers on. *)
Definition ipc_transport_mapped (async : bool) : Transport :=
  set_key_shm_addr {[ 0 := 2 ^ 40 ]} (if async then ipc_transport else ipc_transport_sync).

(** ** The receiving side of a rendezvous

    [SendRendezvousReply] works on the van, on the address pool that
    [PollCQ] hands to it and on a [BufferContext] it creates on the heap.
    [kMaxMetaBound] is a constant of rdma_utils.h. *)

Record Receiver : Type := {
  van : World;
  addr_pool_ : AddressPool.t;
  buf_ctx_heap : gmap Z BufferContext
}.

Definition set_van (w : World) (r : Receiver) : Receiver :=
  {| van := w; addr_pool_ := addr_pool_ r; buf_ctx_heap := buf_ctx_heap r |}.

Definition set_addr_pool (p : AddressPool.t) (r : Receiver) : Receiver :=
  {| van := van r; addr_pool_ := p; buf_ctx_heap := buf_ctx_heap r |}.

Definition set_buf_ctx_heap (h : gmap Z BufferContext) (r : Receiver) : Receiver :=
  {| van := van r; addr_pool_ := addr_pool_ r; buf_ctx_heap := h |}.

(** A computation of the van, and one of the pool, run on the receiver. *)
Definition on_van {A} (c : M World A) : M Receiver A := fun r =>
  match c (van r) with
  | Done a w => Done a (set_van w r)
  | Halted h w => Halted h (set_van w r)
  end.

Definition on_pool {A} (c : M AddressPool.t A) : M Receiver A := fun r =>
  match c (addr_pool_ r) with
  | Done a p => Done a (set_addr_pool p r)
  | Halted h p => Halted h (set_addr_pool p r)
  end.

Definition WaitAndPop_reply (ep : Z) : M World Z :=
  do e <- get_ep ep ;;
  match free_reply_ctx e with
  | [] => halt Blocked
  | c :: rest => run put_ep ep (set_free_reply rest e) ;; ret c
  end.

Definition reply_wr (context : Z) (c : WRContext) : ibv_send_wr :=
  {| wr_id := context;
     opcode := IBV_WR_SEND_WITH_IMM;
     imm_data := kRendezvousReply;
     send_flags := IBV_SEND_SIGNALED;
     sg_list := [ {| sge_addr := mr_addr (ctx_buffer c);
                     sge_length := sizeof_RendezvousReply;
                     sge_lkey := mr_lkey (ctx_buffer c) |} ];
     remote_addr := 0;
     wr_rkey := 0 |}.

(** [new BufferContext()] zero-initializes the structure. *)
Definition BufferContext_new : BufferContext :=
  {| buffer := 0; bc_meta_len := 0; data_num := 0;
     data_len := replicate kMaxDataFields 0 |}.

Definition set_buffer (p : Z) (bc : BufferContext) : BufferContext :=
  {| buffer := p; bc_meta_len := bc_meta_len bc; data_num := data_num bc;
     data_len := data_len bc |}.

Section Reply.

Variable E : Env.
Variable kMaxMetaBound : Z.

Definition SendRendezvousReply (ep : Z) (req : RendezvousStart) : M Receiver unit :=
  do w <- on_van get ;;
  let buf_ctx := operator_new E (trace w) in
  run on_van (log (EvNew buf_ctx)) ;;
  let n := Z.to_nat (rs_data_num req) in
  (* buf_ctx->data_len[i] = req->data_len[i] for i < data_num *)
  if (kMaxDataFields <? n)%nat || (length (rs_data_len req) <? n)%nat then halt Undefined
  else
    let lens := take n (rs_data_len req) in
    let len := wrap64 (rs_meta_len req + foldr Z.add 0 lens) in
    let bc := {| buffer := 0; bc_meta_len := rs_meta_len req; data_num := rs_data_num req;
                 data_len := lens ++ replicate (kMaxDataFields - n) 0 |} in
    run modify (fun r => set_buf_ctx_heap (<[buf_ctx := bc]> (buf_ctx_heap r)) r) ;;
    do t <- on_van (get_trans ep) ;;
    (* worker only needs a buffer for receving meta *)
    let size := if is_server_ t then wrap64 (kMaxMetaBound + len)
                else wrap64 (kMaxMetaBound + rs_meta_len req) in
    do w1 <- on_van get ;;
    let buffer := mempool_Alloc E (trace w1) size in
    run on_van (log (EvAlloc size buffer)) ;;
    run CHECK (negb (buffer =? 0)) ;;
    run modify (fun r => set_buf_ctx_heap (<[buf_ctx := set_buffer buffer bc]> (buf_ctx_heap r)) r) ;;
    do reply_ctx <- on_van (WaitAndPop_reply ep) ;;
    do c <- on_van (get_ctx reply_ctx) ;;
    do idx <- on_pool (AddressPool.StoreAddress buf_ctx) ;;
    let resp := {| rr_addr := buffer; rr_origin_addr := rs_origin_addr req;
                   rr_rkey := RemoteKey E buffer; rr_idx := Z.of_nat idx |} in
    run on_van (log (EvReply (mr_addr (ctx_buffer c)) resp)) ;;
    on_van (post_send E ep (reply_wr reply_ctx c)).

End Reply.

(** The size of the landing buffer for the request [req]: a server makes
    room for the meta bound, the meta and every data field, a worker for
    the meta bound and the meta only. *)
Definition landing_size (kMaxMetaBound : Z) (t : Transport) (req : RendezvousStart) : Z :=
  if is_server_ t
  then wrap64 (kMaxMetaBound +
               wrap64 (rs_meta_len req +
                       foldr Z.add 0 (take (Z.to_nat (rs_data_num req)) (rs_data_len req))))
  else wrap64 (kMaxMetaBound + rs_meta_len req).

(** A server over plain RDMA, and the receiving state of its process
    before any rendezvous: an empty pool, no buffer context. *)
Definition server_transport : Transport :=
  {| is_ipc := false; pagesize_ := 4096; is_server_ := true; mem_mr_map_ := ∅;
     ipc_copy_nthreads_ := 0; async_copy_queue_ := []; cpy_counter_ := 0;
     byteps_partition_bytes_ := 4096000; key_shm_addr_ := ∅;
     enable_async_copy_ := false |}.

Definition receiver0 : Receiver :=
  {| van := world_with server_transport; addr_pool_ := AddressPool.init;
     buf_ctx_heap := ∅ |}.

(** The request of a push of 8, 1024 and 4 bytes with a meta of 100 bytes,
    sent for the message buffer at 500. *)
Definition push_start : RendezvousStart :=
  {| rs_meta_len := 100; rs_data_num := 3; rs_data_len := [8; 1024; 4];
     rs_origin_addr := 500 |}.

(** ** Page-aligned allocation: [fabric_malloc], [FabricMemoryAllocator]
    and [aligned_memory_alloc] of the benchmark *)

Module PageAlloc.

(** What the process asks of libc, in program order. *)
Inductive MemEvent : Type :=
| EvMemalign (alignment size ret p : Z)            (* ret = posix_memalign(&p, alignment, size) *)
| EvMemset (p len : Z).                            (* memset(p, 0, len) *)

(** [sysconf(_SC_PAGESIZE)] as a [size_t], and [posix_memalign], which
    answers as a function of the calls made so far with its return code and
    the pointer. *)
Record MemEnv : Type := {
  page_size : Z;
  posix_memalign : list MemEvent -> Z -> Z -> Z * Z
}.

(** [DIVUP] and [ROUNDUP] at [size_t]. *)
Definition DIVUP (x y : Z) : Z := wrap64 (wrap64 (x + y) - 1) / y.
Definition ROUNDUP (x y : Z) : Z := wrap64 (DIVUP x y * y).

Section Alloc.

Variable E : MemEnv.

(** [fabric_malloc] of rdma_van.h and [aligned_memory_alloc] of the
    benchmark, which have the same body; the result is [*ptr].
    [size_aligned] is an [int]: the conversion from [size_t] reduces modulo
    [2 ^ 32] (as gcc and clang define it), the one back to [size_t] for
    [posix_memalign] extends the sign. *)
Definition fabric_malloc (size : Z) : M (list MemEvent) Z :=
  if page_size E =? 0 then halt Undefined           (* division by zero *)
  else
    let size_aligned := to_int (ROUNDUP size (page_size E)) in
    do calls <- get ;;
    let '(r, p) := posix_memalign E calls (page_size E) (wrap64 size_aligned) in
    run put (calls ++ [EvMemalign (page_size E) (wrap64 size_aligned) r p]) ;;
    run CHECK (r =? 0) ;;
    run CHECK (negb (p =? 0)) ;;
    run modify (fun calls => calls ++ [EvMemset p size]) ;;
    ret p.

(** The allocator: [used_list] and the calls it made.  [pagesize_] is
    initialized with [sysconf(_SC_PAGESIZE)] and never assigned. *)
Record t : Type := { used_list : gmap Z Z; calls : list MemEvent }.

Definition on_calls {A} (c : M (list MemEvent) A) : M t A := fun a =>
  match c (calls a) with
  | Done x l => Done x {| used_list := used_list a; calls := l |}
  | Halted h l => Halted h {| used_list := used_list a; calls := l |}
  end.

(** [used_list.emplace(p, size)] keeps an entry that is already there. *)
Definition emplace (p size : Z) (m : gmap Z Z) : gmap Z Z :=
  match m !! p with
  | Some _ => m
  | None => <[p := size]> m
  end.

Definition Alloc (size : Z) : M t Z :=
  if size =? 0 then ret 0                            (* nullptr *)
  else if page_size E =? 0 then halt Undefined       (* v % align *)
  else
    (* align to page size (usually 4KB) *)
    let size := align_ceil size (page_size E) in
    do p <- on_calls (fabric_malloc size) ;;
    run CHECK (negb (p =? 0)) ;;
    run modify (fun a => {| used_list := emplace p size (used_list a); calls := calls a |}) ;;
    ret p.

End Alloc.

End PageAlloc.

(** ** The request handler of the benchmark

    [KVMeta] and [KVPairs] are those of ps/kv_app.h, with the fields the
    handler uses; [server->Response] is recorded. *)

Module Benchmark.

Record KVMeta : Type := { push : bool; sender : Z }.

Record KVPairs : Type := { keys : list Z; vals : SArray; lens : list Z }.

Definition KVPairs_empty : KVPairs := {| keys := []; vals := SArray_empty; lens := [] |}.

(** The server process: the global [mem_map], the calls to libc and the
    responses sent, in program order. *)
Record Server : Type := {
  mem_map : gmap Z KVPairs;
  calls : list PageAlloc.MemEvent;
  responses : list (KVMeta * KVPairs)
}.

Definition set_mem_map (m : gmap Z KVPairs) (s : Server) : Server :=
  {| mem_map := m; calls := calls s; responses := responses s |}.

Section Handler.

Variable E : PageAlloc.MemEnv.

Definition aligned_memory_alloc (size : Z) : M Server Z := fun s =>
  match PageAlloc.fabric_malloc E size (calls s) with
  | Done p l => Done p {| mem_map := mem_map s; calls := l; responses := responses s |}
  | Halted h l => Halted h {| mem_map := mem_map s; calls := l; responses := responses s |}
  end.

Definition Response (req_meta : KVMeta) (res : KVPairs) : M Server unit :=
  modify (fun s => {| mem_map := mem_map s; calls := calls s;
                      responses := responses s ++ [(req_meta, res)] |}).

Definition EmptyHandler (req_meta : KVMeta) (req_data : KVPairs) : M Server unit :=
  match keys req_data with
  | [] => halt Undefined                            (* req_data.keys[0] *)
  | key :: _ =>
      if push req_meta
      then
        match lens req_data with
        | [] => halt Abort                          (* CHECK(req_data.lens.size()) *)
        | len0 :: _ =>
            run CHECK (sa_size (vals req_data) =? wrap64 len0) ;;
            do s <- get ;;
            run (match mem_map s !! key with
                 | Some _ => ret tt
                 | None =>
                     let len := sa_size (vals req_data) in
                     run modify (set_mem_map
                                   (<[key := {| keys := [key]; vals := SArray_empty;
                                                lens := [to_int len] |}]> (mem_map s))) ;;
                     do ptr <- aligned_memory_alloc len ;;
                     modify (set_mem_map
                               (<[key := {| keys := [key];
                                            vals := {| sa_data := ptr; sa_size := len |};
                                            lens := [to_int len] |}]> (mem_map s)))
                 end) ;;
            (* send push response (empty) *)
            Response req_meta KVPairs_empty
        end
      else
        do s <- get ;;
        match mem_map s !! key with
        | None => halt Abort                        (* CHECK_NE(iter, mem_map.end()) *)
        | Some kv => Response req_meta kv
        end
  end.

(** The server hands the requests to the handler one after the other. *)
Fixpoint serve (reqs : list (KVMeta * KVPairs)) : M Server unit :=
  match reqs with
  | [] => ret tt
  | (req_meta, req_data) :: rest => run EmptyHandler req_meta req_data ;; serve rest
  end.

End Handler.

End Benchmark.

(** A libc with pages of 4096 bytes whose [posix_memalign] succeeds with a
    new block for each call, and a server that has not seen any request. *)
Definition libc0 : PageAlloc.MemEnv :=
  {| PageAlloc.page_size := 4096;
     PageAlloc.posix_memalign := fun calls _ _ => (0, 2 ^ 20 * (1 + Z.of_nat (length calls))) |}.

Definition server0 : Benchmark.Server :=
  {| Benchmark.mem_map := ∅; Benchmark.calls := []; Benchmark.responses := [] |}.

(** A push of [n] bytes at address [a] for key 3, and a pull of key 3. *)
Definition push_of (a n : Z) : Benchmark.KVMeta * Benchmark.KVPairs :=
  ({| Benchmark.push := true; Benchmark.sender := 9 |},
   {| Benchmark.keys := [3]; Benchmark.vals := {| sa_data := a; sa_size := n |};
      Benchmark.lens := [n] |}).

Definition pull_of_3 : Benchmark.KVMeta * Benchmark.KVPairs :=
  ({| Benchmark.push := false; Benchmark.sender := 9 |},
   {| Benchmark.keys := [3]; Benchmark.vals := SArray_empty; Benchmark.lens := [] |}).




(** ** The fabric van: host and port

    [std::string] is [string]; the functions of the standard library that
    the van calls on it are written out. *)

Module StdString.

(** [s.find(c)] for a string [c] of one character; [None] is [npos]. *)
Fixpoint find (c : ascii) (s : string) : option nat :=
  match s with
  | EmptyString => None
  | String a r => if Ascii.eqb a c then Some 0%nat else S <$> find c r
  end.

Definition digit_char (d : Z) : ascii := ascii_of_nat (48 + Z.to_nat d).

Definition digit_value (c : ascii) : option Z :=
  let n := nat_of_ascii c in
  if (48 <=? n)%nat && (n <=? 57)%nat then Some (Z.of_nat n - 48) else None.

(** The decimal digits of [n], the most significant first, in front of
    [acc]; an [int] has at most 10 of them. *)
Fixpoint digits (fuel : nat) (n : Z) (acc : string) : string :=
  match fuel with
  | O => acc
  | S f =>
      let acc' := String (digit_char (n mod 10)) acc in
      if n <? 10 then acc' else digits f (n / 10) acc'
  end.

(** [std::to_string(int)] *)
Definition to_string (v : Z) : string :=
  if v <? 0 then String "-" (digits 10 (- v) EmptyString)
  else digits 10 v EmptyString.

Definition isspace (c : ascii) : bool :=
  let n := nat_of_ascii c in
  (n =? 32)%nat || ((9 <=? n)%nat && (n <=? 13)%nat).

Fixpoint skip_space (s : string) : string :=
  match s with
  | EmptyString => s
  | String c r => if isspace c then skip_space r else s
  end.

Fixpoint parse_digits (s : string) (acc : Z) : Z :=
  match s with
  | EmptyString => acc
  | String c r =>
      match digit_value c with
      | Some d => parse_digits r (acc * 10 + d)
      | None => acc
      end
  end.

(** [std::stoi(s)]: leading white space, an optional sign, then the
    longest run of digits; [None] when an exception is thrown
    ([invalid_argument] without a digit, [out_of_range] outside [int]). *)
Definition stoi (s : string) : option Z :=
  let s := skip_space s in
  let '(neg, s) := match s with
                   | String "-" r => (true, r)
                   | String "+" r => (false, r)
                   | _ => (false, s)
                   end in
  match s with
  | String c _ =>
      match digit_value c with
      | Some _ =>
          let v := parse_digits s 0 in
          let v := if neg then - v else v in
          if (- 2 ^ 31 <=? v) && (v <=? INT_MAX) then Some v else None
      | None => None
      end
  | EmptyString => None
  end.

End StdString.

Module FabricControl.

Definition host_port (host : string) (port : Z) : string :=
  String.append (String.append host ":") (StdString.to_string port).

(** [substr(0, npos)] is the whole string. *)
Definition get_host (host_port : string) : string :=
  match StdString.find ":" host_port with
  | Some n => substring 0 n host_port
  | None => host_port
  end.

(** [npos + 1] is [0]: without a colon the whole string is parsed. *)
Definition get_port (host_port : string) : option Z :=
  StdString.stoi
    (match StdString.find ":" host_port with
     | Some n => substring (S n) (String.length host_port - S n) host_port
     | None => host_port
     end).

End FabricControl.

(** ** The fabric van: connection requests

    [Node] and [Control] are those of ps/internal/message.h, with the
    fields the van uses; the calls to the zmq van are recorded. *)

Module FabricRMAVan_Connect.

Inductive Role : Type := SERVER | WORKER | SCHEDULER.

Record Node : Type := {
  id : Z;
  role : Role;
  hostname : string;
  port : Z;
  aux_id : Z;
  endpoint_name : list Z;
  endpoint_name_len : Z
}.

Inductive Command : Type := ADDR_REQUEST | ADDR_RESOLVED.

Inductive ZmqCall : Type :=
| ZConnect (node : Node)                                       (* zmq_->Connect(node) *)
| ZSend (recver : Z) (cmd : Command) (nodes : list Node).      (* zmq_->Send(msg) *)

Record FabricAddr : Type := { name : list Z; len : Z }.

(** The van: its role, the ids of the host:port strings, the calls to the
    zmq van in program order, the host:port of the endpoints in
    [incoming_], the name of the fabric endpoint and the number of receives
    posted. *)
Record Van : Type := {
  my_role : Role;
  hostport_id_map_ : gmap string Z;
  zmq_ : list ZmqCall;
  incoming_ : list string;
  fabric_addr : FabricAddr;
  posted : nat
}.

Definition set_hostport_id_map (m : gmap string Z) (v : Van) : Van :=
  {| my_role := my_role v; hostport_id_map_ := m; zmq_ := zmq_ v;
     incoming_ := incoming_ v; fabric_addr := fabric_addr v; posted := posted v |}.

Definition call (c : ZmqCall) : M Van unit :=
  modify (fun v => {| my_role := my_role v; hostport_id_map_ := hostport_id_map_ v;
                      zmq_ := zmq_ v ++ [c]; incoming_ := incoming_ v;
                      fabric_addr := fabric_addr v; posted := posted v |}).

(** What the sources leave to the headers and to libfabric: the
    default-constructed [Node], [sizeof(Node::endpoint_name)], [FI_EAGAIN],
    and the result of the [n]-th [fi_recv]. *)
Record FabricEnv : Type := {
  Node_new : Node;
  sizeof_endpoint_name : nat;
  FI_EAGAIN : Z;
  fi_recv : nat -> Z
}.

Section Connect.

Variable E : FabricEnv.

(** [nodes] is [msg.meta.control.node]. *)
Definition OnConnectRequest (nodes : list Node) : M Van unit :=
  match nodes with
  | [] => halt Undefined                            (* msg.meta.control.node[0] *)
  | req_info :: _ =>
      (* XXX: we reuse req.meta.control.node for connection info *)
      let req_hostport := FabricControl.host_port (hostname req_info) (port req_info) in
      do v <- get ;;
      (* not connected before *)
      run (match hostport_id_map_ v !! req_hostport with
           | Some _ => ret tt
           | None =>
               let sender_id :=
                 to_int (wrap64 (30000 + Z.of_nat (size (hostport_id_map_ v)))) in
               (* connect to the remote node *)
               let conn_node :=
                 {| id := sender_id;
                    role := match my_role v with
                            | SCHEDULER => WORKER
                            | _ => SCHEDULER
                            end;
                    hostname := hostname req_info;
                    port := port req_info;
                    aux_id := aux_id (Node_new E);
                    endpoint_name := endpoint_name (Node_new E);
                    endpoint_name_len := endpoint_name_len (Node_new E) |} in
               run call (ZConnect conn_node) ;;
               modify (set_hostport_id_map (<[req_hostport := sender_id]> (hostport_id_map_ v)))
           end) ;;
      do v <- get ;;
      (* sender_id = hostport_id_map_[req_hostport]; [operator[]] creates a
         missing entry *)
      let sender_id := default 0 (hostport_id_map_ v !! req_hostport) in
      run modify (set_hostport_id_map (<[req_hostport := sender_id]> (hostport_id_map_ v))) ;;
      (* memcpy(addr_info.endpoint_name, addr.name, sizeof(addr_info.endpoint_name)) *)
      if (length (name (fabric_addr v)) <? sizeof_endpoint_name E)%nat
      then halt Undefined
      else
        let addr_info :=
          {| id := id (Node_new E); role := role (Node_new E);
             hostname := hostname (Node_new E); port := port (Node_new E);
             aux_id := aux_id req_info;
             endpoint_name := take (sizeof_endpoint_name E) (name (fabric_addr v));
             endpoint_name_len := len (fabric_addr v) |} in
        run call (ZSend sender_id ADDR_RESOLVED [addr_info]) ;;
        run modify (fun v => {| my_role := my_role v;
                                hostport_id_map_ := hostport_id_map_ v;
                                zmq_ := zmq_ v;
                                incoming_ := incoming_ v ++ [req_hostport];
                                fabric_addr := fabric_addr v;
                                posted := S (posted v) |}) ;;
        let r := fi_recv E (posted v) in
        if r =? - FI_EAGAIN E then ret tt
        else CHECK (r =? 0)                         (* check_err *)
  end.

(** The event loop hands the connection requests to the van one after the
    other. *)
Fixpoint requests (l : list (list Node)) : M Van unit :=
  match l with
  | [] => ret tt
  | nodes :: rest => run OnConnectRequest nodes ;; requests rest
  end.

End Connect.

(** The ids handed out are below [30000] plus the number of entries, and
    no id is held by two host:port strings. *)
Definition ids_in_range (m : gmap string Z) : Prop :=
  ∀ hp i, m !! hp = Some i -> i < 30000 + Z.of_nat (size m).

Definition ids_unique (m : gmap string Z) : Prop :=
  ∀ hp1 hp2 i, m !! hp1 = Some i -> m !! hp2 = Some i -> hp1 = hp2.

End FabricRMAVan_Connect.

(** The receivers of the messages sent through the zmq van, and the nodes
    it was asked to connect to, in program order. *)
Definition replies (calls : list FabricRMAVan_Connect.ZmqCall) : list Z :=
  omap (fun c => match c with
                 | FabricRMAVan_Connect.ZSend r _ _ => Some r
                 | _ => None
                 end) calls.

Definition connections (calls : list FabricRMAVan_Connect.ZmqCall)
  : list FabricRMAVan_Connect.Node :=
  omap (fun c => match c with
                 | FabricRMAVan_Connect.ZConnect n => Some n
                 | _ => None
                 end) calls.

(** The host:port string of the node that asks for a connection. *)
Definition requester (nodes : list FabricRMAVan_Connect.Node) : option string :=
  match nodes with
  | [] => None
  | req_info :: _ =>
      Some (FabricControl.host_port (FabricRMAVan_Connect.hostname req_info)
                                    (FabricRMAVan_Connect.port req_info))
  end.

(** A fabric environment whose receives all succeed, a worker's van before
    any request, and a connection request from [host] at port 9010. *)
Definition fabric_env0 : FabricRMAVan_Connect.FabricEnv :=
  {| FabricRMAVan_Connect.Node_new :=
       {| FabricRMAVan_Connect.id := kEmpty; FabricRMAVan_Connect.role := FabricRMAVan_Connect.SERVER;
          FabricRMAVan_Connect.hostname := EmptyString; FabricRMAVan_Connect.port := kEmpty;
          FabricRMAVan_Connect.aux_id := -1; FabricRMAVan_Connect.endpoint_name := [];
          FabricRMAVan_Connect.endpoint_name_len := 0 |};
     FabricRMAVan_Connect.sizeof_endpoint_name := 56;
     FabricRMAVan_Connect.FI_EAGAIN := 11;
     FabricRMAVan_Connect.fi_recv := fun _ => 0 |}.

Definition fabric_van0 : FabricRMAVan_Connect.Van :=
  {| FabricRMAVan_Connect.my_role := FabricRMAVan_Connect.WORKER;
     FabricRMAVan_Connect.hostport_id_map_ := ∅;
     FabricRMAVan_Connect.zmq_ := [];
     FabricRMAVan_Connect.incoming_ := [];
     FabricRMAVan_Connect.fabric_addr :=
       {| FabricRMAVan_Connect.name := replicate 56 0; FabricRMAVan_Connect.len := 56 |};
     FabricRMAVan_Connect.posted := 0 |}.

Definition request_from (host : string) (aux : Z) : list FabricRMAVan_Connect.Node :=
  [ {| FabricRMAVan_Connect.id := kEmpty; FabricRMAVan_Connect.role := FabricRMAVan_Connect.SERVER;
       FabricRMAVan_Connect.hostname := host; FabricRMAVan_Connect.port := 9010;
       FabricRMAVan_Connect.aux_id := aux; FabricRMAVan_Connect.endpoint_name := [];
       FabricRMAVan_Connect.endpoint_name_len := 0 |} ].

(** The process of [world_sending] when its endpoint has a single free
    write context left. *)
Definition world_last_context (t : Transport) (msg : Message) : World :=
  set_ep_heap {[ 1000 := set_free_write [2200] (endpoint_with t) ]} (world_sending t msg).

(** * Properties *)

(** ** The monad *)

Lemma bind_Done {S A B} (c : M S A) (k : A -> M S B) s a s' :
  c s = Done a s' -> bind c k s = k a s'.
Proof. unfold bind. intros ->. reflexivity. Qed.

Lemma bind_Halted {S A B} (c : M S A) (k : A -> M S B) s h s' :
  c s = Halted h s' -> bind c k s = Halted h s'.
Proof. unfold bind. intros ->. reflexivity. Qed.

Lemma bind_inv_Done {S A B} (c : M S A) (k : A -> M S B) s b s2 :
  bind c k s = Done b s2 -> exists a s1, c s = Done a s1 /\ k a s1 = Done b s2.
Proof.
  unfold bind. destruct (c s) as [a s1|h s1]; [eauto | discriminate].
Qed.

(** ** AddressPool *)

Module AddressPoolFacts.
Import AddressPool.

Lemma wf_init : wf init.
Proof.
  unfold wf, init; cbn [indices_ table_]. split; [apply length_replicate|]. split.
  - apply NoDup_seq.
  - intros i. rewrite elem_of_seq, lookup_replicate. unfold kMaxEntries. split.
    + intros [_ H]. split; [reflexivity | lia].
    + intros [_ H]. lia.
Qed.

Lemma StoreAddress_Done ptr p idx p' :
  StoreAddress ptr p = Done idx p' ->
  ptr ≠ 0 ∧ indices_ p = idx :: indices_ p' ∧ table_ p !! idx = Some 0 ∧
  table_ p' = <[idx := ptr]> (table_ p).
Proof.
  unfold StoreAddress. destruct (Z.eqb_spec ptr 0) as [|Hptr]; [discriminate|].
  destruct (indices_ p) as [|i rest] eqn:Hq; [discriminate|].
  destruct (table_ p !! i) as [q|] eqn:Hs; [|discriminate].
  destruct (Z.eqb_spec q 0) as [->|]; [|discriminate].
  intros [= <- <-]. simpl. auto.
Qed.

Lemma GetAddressAndRelease_Done index p ptr p' :
  GetAddressAndRelease index p = Done ptr p' ->
  ptr ≠ 0 ∧ table_ p !! index = Some ptr ∧
  indices_ p' = indices_ p ++ [index] ∧ table_ p' = <[index := 0]> (table_ p).
Proof.
  unfold GetAddressAndRelease. destruct (table_ p !! index) as [q|] eqn:Hs; [|discriminate].
  destruct (Z.eqb_spec q 0) as [|Hq]; [discriminate|].
  intros [= <- <-]. simpl. auto.
Qed.

Lemma wf_store ptr p idx p' :
  wf p -> StoreAddress ptr p = Done idx p' -> wf p'.
Proof.
  intros (Hlen & Hnd & Hfree) H.
  apply StoreAddress_Done in H as (Hptr & Hq & Hs & Ht).
  rewrite Hq in Hnd, Hfree. apply NoDup_cons in Hnd as [Hni Hnd].
  assert (Hlt : (idx < length (table_ p))%nat) by (eapply lookup_lt_Some; eauto).
  unfold wf. rewrite Ht, length_insert. split; [assumption|]. split; [assumption|].
  intros i. destruct (decide (i = idx)) as [->|Hne].
  - rewrite list_lookup_insert_eq by assumption. split; [tauto | congruence].
  - rewrite list_lookup_insert_ne by congruence. rewrite <- Hfree.
    rewrite elem_of_cons. tauto.
Qed.

Lemma wf_release index p ptr p' :
  wf p -> GetAddressAndRelease index p = Done ptr p' -> wf p'.
Proof.
  intros (Hlen & Hnd & Hfree) H.
  apply GetAddressAndRelease_Done in H as (Hptr & Hs & Hq & Ht).
  assert (Hlt : (index < length (table_ p))%nat) by (eapply lookup_lt_Some; eauto).
  assert (Hni : index ∉ indices_ p).
  { rewrite Hfree, Hs. congruence. }
  unfold wf. rewrite Ht, Hq, length_insert. split; [assumption|]. split.
  - apply NoDup_app. split; [assumption|]. split.
    + intros x Hx Hx'. apply list_elem_of_singleton in Hx'. subst. contradiction.
    + apply NoDup_singleton.
  - intros i. rewrite elem_of_app, list_elem_of_singleton.
    destruct (decide (i = index)) as [->|Hne].
    + rewrite list_lookup_insert_eq by assumption. tauto.
    + rewrite list_lookup_insert_ne by congruence. rewrite <- Hfree. tauto.
Qed.

(** The queue is conserved: what was free or released is what was handed
    out followed by what is still free, in this order. *)
Lemma exec_queue cs : ∀ p out rel q,
  wf p -> exec cs p = Some (out, rel, q) ->
  wf q ∧ indices_ p ++ rel = out ++ indices_ q.
Proof.
  induction cs as [|c cs IH]; intros p out rel q Hwf H; simpl in H.
  - injection H as <- <- <-. rewrite app_nil_r. auto.
  - destruct c as [ptr|index].
    + destruct (StoreAddress ptr p) as [idx p'|] eqn:Hs; [|discriminate].
      destruct (exec cs p') as [[[out' rel'] q']|] eqn:He; [|discriminate].
      injection H as <- <- <-.
      destruct (IH _ _ _ _ (wf_store _ _ _ _ Hwf Hs) He) as [Hq Heq].
      split; [assumption|].
      apply StoreAddress_Done in Hs as (_ & -> & _). simpl. f_equal. exact Heq.
    + destruct (GetAddressAndRelease index p) as [ptr p'|] eqn:Hs; [|discriminate].
      destruct (exec cs p') as [[[out' rel'] q']|] eqn:He; [|discriminate].
      injection H as <- <- <-.
      destruct (IH _ _ _ _ (wf_release _ _ _ _ Hwf Hs) He) as [Hq Heq].
      split; [assumption|].
      apply GetAddressAndRelease_Done in Hs as (_ & _ & Hi & _).
      rewrite Hi, <- app_assoc in Heq. exact Heq.
Qed.

Lemma filter_keeps_all (l : list Z) :
  Forall (λ q, q ≠ 0) l -> filter (λ q, q ≠ 0) l = l.
Proof.
  induction 1 as [|x l Hx _ IH]; [reflexivity|].
  rewrite filter_cons_True by exact Hx. f_equal. exact IH.
Qed.

(** With an empty free queue every slot is populated. *)
Lemma wf_empty_queue_full p :
  wf p -> indices_ p = [] -> live p = kMaxEntries.
Proof.
  intros (Hlen & _ & Hfree) Hq. unfold live. rewrite <- Hlen. f_equal.
  apply filter_keeps_all. apply Forall_forall. intros x Hx.
  apply list_elem_of_lookup in Hx as [i Hi]. intros ->.
  apply Hfree in Hi. rewrite Hq in Hi. inversion Hi.
Qed.

Lemma StoreAddress_total ptr p :
  wf p -> ptr ≠ 0 -> (live p < kMaxEntries)%nat ->
  ∃ idx p', StoreAddress ptr p = Done idx p'.
Proof.
  intros Hwf Hptr Hlive. unfold StoreAddress.
  destruct (Z.eqb_spec ptr 0) as [|_]; [contradiction|].
  destruct (indices_ p) as [|i rest] eqn:Hq.
  - rewrite (wf_empty_queue_full p Hwf Hq) in Hlive. lia.
  - destruct Hwf as (_ & _ & Hfree).
    assert (Hi : table_ p !! i = Some 0) by (apply Hfree; rewrite Hq; left).
    rewrite Hi. simpl. eauto.
Qed.

End AddressPoolFacts.

Lemma AddressPool_full_queue_empty p :
  AddressPool.wf p -> AddressPool.live p = AddressPool.kMaxEntries ->
  AddressPool.indices_ p = [].
Proof.
  intros (Hlen & _ & Hfree) Hlive.
  destruct (AddressPool.indices_ p) as [|i rest] eqn:Hq; [reflexivity|exfalso].
  assert (Hi : AddressPool.table_ p !! i = Some 0) by (apply Hfree; left).
  apply list_elem_of_lookup_2 in Hi.
  pose proof (length_filter_lt (λ q, q ≠ 0) (AddressPool.table_ p) 0 Hi) as Hlt.
  unfold AddressPool.live in Hlive. rewrite Hlive, Hlen in Hlt.
  apply (Nat.lt_irrefl AddressPool.kMaxEntries), Hlt. intros H. apply H. reflexivity.
Qed.

Lemma StoreAddress_empty_queue ptr p :
  ptr ≠ 0 -> AddressPool.indices_ p = [] ->
  AddressPool.StoreAddress ptr p = Halted Undefined p.
Proof.
  intros Hptr Hq. unfold AddressPool.StoreAddress.
  destruct (Z.eqb_spec ptr 0); [contradiction|]. rewrite Hq. reflexivity.
Qed.

Lemma GetAddressAndRelease_empty_slot index p :
  AddressPool.table_ p !! index = Some 0 ->
  AddressPool.GetAddressAndRelease index p = Halted Abort p.
Proof. unfold AddressPool.GetAddressAndRelease. intros ->. reflexivity. Qed.

(** C7. Whatever calls of [StoreAddress] and [GetAddressAndRelease] a pool
    has served (each of them returning), the free queue lists exactly the
    empty slots, once each; a [StoreAddress] that returns hands out an index
    whose slot is empty at that moment, so no index is shared by two live
    buffers; with fewer than 512 live entries it does return; and the indices
    handed out so far, followed by the free queue, are the initial indices
    followed by the released ones in the order of their release (FIFO). *)
Theorem AddressPool_unique_index_fifo (cs : list AddressPool.call) out rel p :
  AddressPool.exec cs AddressPool.init = Some (out, rel, p) ->
  AddressPool.wf p ∧
  (∀ ptr idx p', AddressPool.StoreAddress ptr p = Done idx p' ->
     AddressPool.table_ p !! idx = Some 0 ∧
     AddressPool.table_ p' !! idx = Some ptr ∧ ptr ≠ 0 ∧
     ∀ j, j ≠ idx -> AddressPool.table_ p' !! j = AddressPool.table_ p !! j) ∧
  (∀ ptr, ptr ≠ 0 -> (AddressPool.live p < AddressPool.kMaxEntries)%nat ->
     ∃ idx p', AddressPool.StoreAddress ptr p = Done idx p') ∧
  seq 0 AddressPool.kMaxEntries ++ rel = out ++ AddressPool.indices_ p.
Proof.
  intros H.
  destruct (AddressPoolFacts.exec_queue cs _ _ _ _ AddressPoolFacts.wf_init H) as [Hwf Hq].
  split; [exact Hwf|]. split; [|split].
  - intros ptr idx p' Hs.
    apply AddressPoolFacts.StoreAddress_Done in Hs as (Hptr & _ & Hs & Ht).
    assert (Hlt : (idx < length (AddressPool.table_ p))%nat) by (eapply lookup_lt_Some; eauto).
    rewrite Ht. split; [exact Hs|]. split; [apply list_lookup_insert_eq, Hlt|].
    split; [exact Hptr|]. intros j Hj. apply list_lookup_insert_ne. congruence.
  - intros ptr Hptr Hlive. apply AddressPoolFacts.StoreAddress_total; assumption.
  - exact Hq.
Qed.

Lemma AddressPool_unique_index_fifo_witness :
  ∃ out rel p,
    AddressPool.exec [AddressPool.Store 100; AddressPool.Store 200;
                      AddressPool.Release 0; AddressPool.Store 300]
                     AddressPool.init = Some (out, rel, p) ∧
    out = [0; 1; 2]%nat ∧ rel = [0%nat] ∧
    seq 0 AddressPool.kMaxEntries ++ rel = out ++ AddressPool.indices_ p.
Proof.
  eexists _, _, _. split; [vm_compute; reflexivity|].
  split; [reflexivity|]. split; [reflexivity|].
  refine (proj2 (proj2 (proj2 (AddressPool_unique_index_fifo
    [AddressPool.Store 100; AddressPool.Store 200; AddressPool.Release 0; AddressPool.Store 300]
    _ _ _ _)))).
  vm_compute; reflexivity.
Defined.

(** C8. Evaluation at the full pool: after 512 stores and no release the
    free queue is empty and [StoreAddress] takes [front()] of the empty
    queue, which is undefined: no check guards it.  On an empty slot
    [GetAddressAndRelease] aborts at [CHECK(ptr)]. *)
Theorem StoreAddress_full_pool_undefined :
  AddressPool.exec (replicate 512 (AddressPool.Store 1)) AddressPool.init
    = Some (seq 0 512, [], full_pool) ∧
  AddressPool.live full_pool = AddressPool.kMaxEntries ∧
  AddressPool.StoreAddress 7 full_pool = Halted Undefined full_pool ∧
  AddressPool.GetAddressAndRelease 5 AddressPool.init = Halted Abort AddressPool.init.
Proof. repeat split; vm_compute; reflexivity. Qed.

(** ** Bind *)

Lemma htons_high_port p : high_port p -> htons p = p.
Proof. unfold high_port, htons. intros H. apply Z.mod_small. lia. Qed.

Lemma random_port_high r : 0 <= r -> high_port (10000 + Z.rem r 40000).
Proof.
  intros Hr. unfold high_port.
  pose proof (Z.rem_bound_pos r 40000 Hr ltac:(lia)). lia.
Qed.

Section BindLoop.

Variable B : BindEnv.
Variable max_retry : Z.
Hypothesis rand_r_nonneg : ∀ seed, 0 <= fst (rand_r B seed).

(** The loop tries [port] first and random high ports after it; it stops
    at the first bind that succeeds and otherwise ends with port [-1]
    after [max_retry + 1] attempts. *)
Lemma Bind_loop_spec (n : nat) : ∀ i port seed l,
  i + Z.of_nat n = max_retry + 1 -> (0 < n)%nat ->
  ∃ rest,
    let p := fst (Bind_loop B n i max_retry port seed l) in
    let l' := snd (Bind_loop B n i max_retry port seed l) in
    attempts l' = attempts l ++ htons port :: rest ∧
    Forall high_port rest ∧ (length rest < n)%nat ∧
    (∀ j q, (htons port :: rest) !! j = Some q ->
            (j < length rest)%nat ∨ bound l' = false ->
            rdma_bind_addr B (length (attempts l) + j) q ≠ 0) ∧
    ((bound l' = true ∧
      rdma_bind_addr B (length (attempts l) + length rest) (htons p) = 0 ∧
      last (htons port :: rest) = Some (htons p) ∧
      (rest = [] -> p = port) ∧ (rest ≠ [] -> high_port p))
     ∨ (bound l' = false ∧ p = -1 ∧ S (length rest) = n)).
Proof.
  induction n as [|n IH]; intros i port seed l Hi Hn; [lia|].
  simpl. destruct (Z.eqb_spec (rdma_bind_addr B (length (attempts l)) (htons port)) 0) as [Hb|Hb].
  - exists []. simpl. rewrite Nat.add_0_r.
    split; [reflexivity|]. split; [constructor|]. split; [lia|]. split.
    { intros j q _ [Hj|Hj]; [lia | discriminate]. }
    left. split; [reflexivity|]. split; [exact Hb|]. split; [reflexivity|].
    split; [reflexivity | congruence].
  - destruct (Z.eqb_spec i max_retry) as [Him|Him].
    + assert (n = O) by lia. subst n. simpl.
      exists []. simpl.
      split; [reflexivity|]. split; [constructor|]. split; [lia|]. split.
      { intros [|j] q Hq _; simpl in Hq; [|discriminate].
        injection Hq as <-. rewrite Nat.add_0_r. exact Hb. }
      right. auto.
    + destruct (rand_r B seed) as [r seed'] eqn:Hr.
      assert (Hhigh : high_port (10000 + Z.rem r 40000)).
      { apply random_port_high. specialize (rand_r_nonneg seed). rewrite Hr in *. assumption. }
      set (port' := 10000 + Z.rem r 40000) in *.
      set (l1 := {| attempts := attempts l ++ [htons port]; bound := false |}).
      destruct (IH (i + 1) port' seed' l1 ltac:(lia) ltac:(lia))
        as (rest & Hatt & Hall & Hlen & Hfail & Hres).
      exists (htons port' :: rest). cbv zeta in *.
      rewrite Hatt. simpl. rewrite <- app_assoc. simpl.
      split; [reflexivity|]. split.
      { constructor; [rewrite htons_high_port; assumption | assumption]. }
      split; [lia|].
      assert (Hbase : length (attempts l1) = S (length (attempts l))).
      { simpl. rewrite length_app. simpl. lia. }
      rewrite Hbase in *. split.
      { intros [|j] q Hq Hj; simpl in Hq.
        - injection Hq as <-. rewrite Nat.add_0_r. exact Hb.
        - replace (length (attempts l) + S j)%nat with (S (length (attempts l)) + j)%nat by lia.
          apply Hfail; [exact Hq|]. destruct Hj as [Hj|Hj]; [left; lia | right; exact Hj]. }
      destruct Hres as [(Hbd & Hrc & Hlast & Hp1 & Hp2)|(Hbd & Hp & Hl)].
      * left. split; [exact Hbd|]. split.
        { replace (length (attempts l) + S (length rest))%nat
            with (S (length (attempts l)) + length rest)%nat by lia. exact Hrc. }
        split; [exact Hlast|]. split; [discriminate|]. intros _.
        destruct rest as [|x rest]; [rewrite Hp1; auto | apply Hp2; discriminate].
      * right. split; [exact Hbd|]. split; [exact Hp|]. lia.
Qed.

End BindLoop.

(** C5 (as stated) fails when [node.port] is 0 and the bind on it succeeds:
    [Bind] has no case for port 0, makes one attempt and returns 0, which
    is not a port of [10000, 50000). *)
Lemma Bind_port_zero_counterexample :
  Bind (bind_env (fun _ => false)) 0 3 Listener_new
    = Done 0 {| attempts := [0]; bound := true |} ∧
  ¬ high_port 0.
Proof. split; [vm_compute; reflexivity | unfold high_port; lia]. Qed.

(** C5 (amended). When the listener can be created and [rdma_listen]
    succeeds, [Bind(node, max_retry)] with [0 <= max_retry] returns after at
    most [max_retry + 1] bind attempts: the first on [node.port], every
    later one on a port of [10000, 50000), each made because all the earlier
    ones failed.  If an attempt succeeds, [Bind] returns the port of that
    attempt: [node.port] itself (whatever it is, 0 included) when the first
    bind succeeded, a port of [10000, 50000) when the first bind failed.  If
    all [max_retry + 1] attempts fail, it returns [-1]. *)
Theorem Bind_returns_bound_port_or_minus_one
        (B : BindEnv) (node_port max_retry : Z) (l : Listener) :
  rdma_create_id B = 0 ->
  0 <= max_retry < INT_MAX ->
  (∀ seed, 0 <= fst (rand_r B seed)) ->
  (∀ b, rdma_listen B b kRdmaListenBacklog = 0) ->
  ∃ port l' rest,
    Bind B node_port max_retry l = Done port l' ∧
    attempts l' = attempts l ++ htons node_port :: rest ∧
    Forall high_port rest ∧
    Z.of_nat (length (htons node_port :: rest)) <= max_retry + 1 ∧
    (∀ j q, (htons node_port :: rest) !! j = Some q ->
            (j < length rest)%nat ∨ bound l' = false ->
            rdma_bind_addr B (length (attempts l) + j) q ≠ 0) ∧
    ((bound l' = true ∧
      rdma_bind_addr B (length (attempts l) + length rest) (htons port) = 0 ∧
      last (htons node_port :: rest) = Some (htons port) ∧
      (rest = [] -> port = node_port) ∧ (rest ≠ [] -> high_port port))
     ∨ (bound l' = false ∧ port = -1 ∧
        Z.of_nat (length (htons node_port :: rest)) = max_retry + 1)).
Proof.
  intros Hid Hmr Hrand Hlisten.
  set (n := Z.to_nat (max_retry + 1)).
  destruct (Bind_loop_spec B max_retry Hrand n 0 node_port
              (wrap32 (time_now B + node_port)) l ltac:(lia) ltac:(lia))
    as (rest & Hatt & Hall & Hlen & Hfail & Hres).
  cbv zeta in *.
  destruct (Bind_loop B n 0 max_retry node_port (wrap32 (time_now B + node_port)) l)
    as [port l'] eqn:Hloop.
  simpl in *. exists port, l', rest. split.
  - unfold Bind, bind, CHECK. rewrite Hid. simpl.
    destruct (Z.eqb_spec max_retry INT_MAX) as [Heq|_]; [lia|].
    fold n. rewrite Hloop. unfold get. rewrite Hlisten. reflexivity.
  - split; [exact Hatt|]. split; [exact Hall|]. split; [lia|]. split; [exact Hfail|].
    destruct Hres as [H|(Hbd & Hp & Hl)]; [left; exact H | right].
    split; [exact Hbd|]. split; [exact Hp|]. lia.
Qed.

Lemma lcg_nonneg seed : 0 <= fst (lcg seed).
Proof. unfold lcg. simpl. apply Z.mod_pos_bound. lia. Qed.

Lemma Bind_returns_bound_port_or_minus_one_witness :
  ∃ port l' rest,
    Bind (bind_env (Z.eqb 9000)) 9000 3 Listener_new = Done port l' ∧
    attempts l' = attempts Listener_new ++ htons 9000 :: rest ∧
    Forall high_port rest ∧
    Z.of_nat (length (htons 9000 :: rest)) <= 3 + 1 ∧
    (∀ j q, (htons 9000 :: rest) !! j = Some q ->
            (j < length rest)%nat ∨ bound l' = false ->
            rdma_bind_addr (bind_env (Z.eqb 9000)) (length (attempts Listener_new) + j) q ≠ 0) ∧
    ((bound l' = true ∧
      rdma_bind_addr (bind_env (Z.eqb 9000))
        (length (attempts Listener_new) + length rest) (htons port) = 0 ∧
      last (htons 9000 :: rest) = Some (htons port) ∧
      (rest = [] -> port = 9000) ∧ (rest ≠ [] -> high_port port))
     ∨ (bound l' = false ∧ port = -1 ∧
        Z.of_nat (length (htons 9000 :: rest)) = 3 + 1)).
Proof.
  apply (Bind_returns_bound_port_or_minus_one (bind_env (Z.eqb 9000)) 9000 3 Listener_new).
  - reflexivity.
  - unfold INT_MAX. lia.
  - exact lcg_nonneg.
  - intros b. reflexivity.
Defined.

(** ** RDMAWriteWithImm *)

Lemma negb_eqb_nonzero c : c ≠ 0 -> negb (c =? 0) = true.
Proof. intros H. destruct (Z.eqb_spec c 0); [contradiction | reflexivity]. Qed.

(** C1 (as stated) fails for a buffer with two registered regions (a push
    request one field of which is empty): nothing is posted, the process
    aborts. *)
Lemma RDMAWriteWithImm_two_regions_counterexample :
  length (mrs (buffer_with two_regions)) = 2%nat ∧
  ∃ w', RDMAWriteWithImm env0 1000 500 (2 ^ 32) 77 5 (world_buffer two_regions)
          = Halted Abort w' ∧
        trace w' = trace (world_buffer two_regions).
Proof. split; [reflexivity|]. eexists. split; vm_compute; reflexivity. Qed.

(** C1 (amended). With a free write context and a device that accepts the
    posts, [RDMAWriteWithImm(msg_buf, remote_addr, rkey, idx)] posts, when
    [msg_buf->mrs] has three entries, exactly two work requests: first the
    unsignaled RDMA_WRITE of [mrs[1]] to
    [remote_addr + align_ceil(inline_len, pagesize)], then the signaled
    RDMA_WRITE_WITH_IMM of the packed metadata to [remote_addr] with
    immediate [idx]; when [mrs] is empty it posts only the latter; for every
    other size of [mrs] it posts nothing and aborts at
    [CHECK_EQ(msg_buf->mrs.size(), 0)]. *)
Theorem RDMAWriteWithImm_posts (E : Env) (w : World) (ep msg_buf raddr rkey idx : Z)
        (e : Endpoint) (t : Transport) (b : MessageBuffer)
        (c : Z) (rest : list Z) (ctx : WRContext) :
  ep_heap w !! ep = Some e ->
  trans e = Some t ->
  free_write_ctx e = c :: rest ->
  c ≠ 0 ->
  ctx_heap w !! c = Some ctx ->
  msg_bufs w !! msg_buf = Some b ->
  (∀ tr wr, ibv_post_send E tr ep wr = 0) ->
  let meta_write :=
    {| wr_id := c; opcode := IBV_WR_RDMA_WRITE_WITH_IMM; imm_data := idx;
       send_flags := IBV_SEND_SIGNALED;
       sg_list := [ {| sge_addr := inline_buf b; sge_length := wrap32 (inline_len b);
                       sge_lkey := LocalKey E (inline_buf b) |} ];
       remote_addr := raddr; wr_rkey := rkey |} in
  match mrs b with
  | [_; (mr, len); _] =>
      let values_write :=
        {| wr_id := 0; opcode := IBV_WR_RDMA_WRITE; imm_data := 0; send_flags := 0;
           sg_list := [ {| sge_addr := mr_addr mr; sge_length := wrap32 len;
                           sge_lkey := mr_lkey mr |} ];
           remote_addr := wrap64 (raddr + align_ceil (inline_len b) (pagesize_ t));
           wr_rkey := rkey |} in
      ∃ w', RDMAWriteWithImm E ep msg_buf raddr rkey idx w = Done tt w' ∧
            trace w' = trace w ++ [EvPostSend ep values_write; EvPostSend ep meta_write]
  | [] =>
      ∃ w', RDMAWriteWithImm E ep msg_buf raddr rkey idx w = Done tt w' ∧
            trace w' = trace w ++ [EvPostSend ep meta_write]
  | _ =>
      ∃ w', RDMAWriteWithImm E ep msg_buf raddr rkey idx w = Halted Abort w' ∧
            trace w' = trace w
  end.
Proof.
  intros Hep Htr Hfree Hc Hctx Hbuf Hpost meta_write.
  unfold RDMAWriteWithImm, WaitAndPop_write, get_trans, get_ep, put_ep, get_buf, put_buf,
    get_ctx, post_send, log, deref, bind, get, modify, ret, halt.
  rewrite Hep. simpl. rewrite Hfree. simpl. rewrite Hbuf. simpl.
  destruct (mrs b) as [|[mr1 l1] [|[mr2 l2] [|[mr3 l3] [|m4 l]]]] eqn:Hmrs; simpl;
    unfold CHECK, ret, halt;
    repeat (simpl; first [ rewrite lookup_insert_eq | rewrite Htr | rewrite Hpost
                         | rewrite Hctx | rewrite (negb_eqb_nonzero c Hc) ]);
    eexists; (split; [reflexivity|]); simpl; try reflexivity.
  rewrite <- app_assoc. reflexivity.
Qed.

Lemma RDMAWriteWithImm_posts_witness :
  ∃ w', RDMAWriteWithImm env0 1000 500 (2 ^ 32) 77 5 (world_buffer three_regions)
          = Done tt w' ∧
        trace w' = trace (world_buffer three_regions) ++
          [ EvPostSend 1000
              {| wr_id := 0; opcode := IBV_WR_RDMA_WRITE; imm_data := 0; send_flags := 0;
                 sg_list := [ {| sge_addr := 8192; sge_length := wrap32 1024;
                                 sge_lkey := 8193 |} ];
                 remote_addr := wrap64 (2 ^ 32 + align_ceil 100 4096); wr_rkey := 77 |};
            EvPostSend 1000
              {| wr_id := 2200; opcode := IBV_WR_RDMA_WRITE_WITH_IMM; imm_data := 5;
                 send_flags := IBV_SEND_SIGNALED;
                 sg_list := [ {| sge_addr := 65536; sge_length := wrap32 100;
                                 sge_lkey := 11 |} ];
                 remote_addr := 2 ^ 32; wr_rkey := 77 |} ].
Proof.
  exact (RDMAWriteWithImm_posts env0 (world_buffer three_regions) 1000 500 (2 ^ 32) 77 5
           (endpoint_with rdma_transport) rdma_transport (buffer_with three_regions)
           2200 [2201] (context_at kWriteContext 3200 1000)
           eq_refl eq_refl eq_refl ltac:(discriminate) eq_refl eq_refl
           (fun _ _ => eq_refl)).
Defined.

(** ** Relating the state before and after a computation *)

Section Preserve.

Context {S : Type} (R : relation S) `{!PreOrder R}.

Lemma pres_ret {A} (a : A) : pres R (ret a).
Proof. intros s. simpl. reflexivity. Qed.

Lemma pres_halt {A} h : pres R (halt h : M S A).
Proof. intros s. simpl. reflexivity. Qed.

Lemma pres_get : pres R get.
Proof. intros s. simpl. reflexivity. Qed.

Lemma pres_CHECK b : pres R (CHECK b).
Proof. destruct b; [apply pres_ret | apply pres_halt]. Qed.

Lemma pres_modify (f : S -> S) : (∀ s, R s (f s)) -> pres R (modify f).
Proof. intros H s. simpl. apply H. Qed.

Lemma pres_bind {A B} (c : M S A) (k : A -> M S B) :
  pres R c -> (∀ a, pres R (k a)) -> pres R (bind c k).
Proof.
  intros Hc Hk s. unfold bind. specialize (Hc s).
  destruct (c s) as [a s'|h s']; simpl in Hc.
  - etransitivity; [exact Hc | apply Hk].
  - exact Hc.
Qed.

End Preserve.

Lemma pres_mono {S A} (R R' : relation S) (c : M S A) :
  (∀ s s', R s s' -> R' s s') -> pres R c -> pres R' c.
Proof. intros H Hc s. apply H, Hc. Qed.

Lemma appends_same P w w' : trace w' = trace w -> appends P w w'.
Proof. intros H. exists []. rewrite app_nil_r. auto. Qed.

Lemma appends_refl P w : appends P w w.
Proof. apply appends_same. reflexivity. Qed.

Lemma appends_trans P w1 w2 w3 : appends P w1 w2 -> appends P w2 w3 -> appends P w1 w3.
Proof.
  intros (e1 & H1 & F1) (e2 & H2 & F2). exists (e1 ++ e2).
  rewrite H2, H1, app_assoc. split; [reflexivity | apply Forall_app; auto].
Qed.

Lemma appends_weaken (P Q : Event -> Prop) w w' :
  (∀ ev, P ev -> Q ev) -> appends P w w' -> appends Q w w'.
Proof.
  intros H (evs & Ht & F). exists evs. split; [exact Ht|].
  eapply Forall_impl; eauto.
Qed.

#[global] Instance appends_preorder P : PreOrder (appends P).
Proof.
  split; [intros w; apply appends_refl | intros a b c; apply appends_trans].
Qed.

#[global] Instance frame_preorder P : PreOrder (frame P).
Proof.
  split.
  - intros w. unfold frame. repeat split; apply appends_refl.
  - intros a b c (A1 & A2 & A3 & A4 & A5 & A6 & A7 & A8 & A9)
                 (B1 & B2 & B3 & B4 & B5 & B6 & B7 & B8 & B9).
    unfold frame. repeat split; try congruence. eapply appends_trans; eauto.
Qed.

Lemma frame_weaken (P Q : Event -> Prop) w w' :
  (∀ ev, P ev -> Q ev) -> frame P w w' -> frame Q w w'.
Proof.
  intros H (A1 & A2 & A3 & A4 & A5 & A6 & A7 & A8 & A9).
  unfold frame. repeat split; try assumption. eapply appends_weaken; eauto.
Qed.

Lemma quiet_not_start ev : quiet ev -> not_start ev.
Proof. intros [H _]. exact H. Qed.

Lemma quiet_not_pack ev : quiet ev -> not_pack ev.
Proof. intros [_ H]. exact H. Qed.

Lemma quiet_quiet ev : quiet ev -> quiet ev.
Proof. auto. Qed.

Lemma quiet_any ev : quiet ev -> any_event ev.
Proof. intros _. exact I. Qed.

Lemma not_pack_any ev : not_pack ev -> any_event ev.
Proof. intros _. exact I. Qed.

Lemma not_pack_not_pack ev : not_pack ev -> not_pack ev.
Proof. auto. Qed.

Create HintDb pres discriminated.

#[global] Hint Resolve quiet_not_start quiet_not_pack quiet_quiet quiet_any
  not_pack_any not_pack_not_pack : pres.

Ltac pres_step :=
  lazymatch goal with
  | |- pres _ (bind _ _) => refine (pres_bind _ _ _ _ _); [|intros; cbv beta]
  | |- pres _ (ret _) => refine (pres_ret _ _)
  | |- pres _ (halt _) => refine (pres_halt _ _)
  | |- pres _ get => refine (pres_get _)
  | |- pres _ (CHECK _) => refine (pres_CHECK _ _)
  | |- pres _ (match ?x with _ => _ end) => destruct x
  | |- pres _ (let _ := _ in _) => cbv zeta
  | |- pres _ _ => solve [eauto with pres]
  end.

Ltac pres_auto := repeat pres_step.

Section FramePrimitives.

Variable P : Event -> Prop.

Lemma frame_set_ep_heap x w : frame P w (set_ep_heap x w).
Proof. unfold frame. simpl. split_and!; try reflexivity. apply appends_same. reflexivity. Qed.

Lemma frame_set_msg_bufs x w : frame P w (set_msg_bufs x w).
Proof. unfold frame. simpl. split_and!; try reflexivity. apply appends_same. reflexivity. Qed.

Lemma frame_set_scratch x w : frame P w (set_scratch x w).
Proof. unfold frame. simpl. split_and!; try reflexivity. apply appends_same. reflexivity. Qed.

Lemma frame_log ev : P ev -> pres (frame P) (log ev).
Proof.
  intros H. refine (pres_modify _ _ _). intros w. unfold frame. simpl.
  split_and!; try reflexivity. exists [ev]. auto.
Qed.

Lemma frame_deref {A} (o : option A) : pres (frame P) (deref o).
Proof. destruct o; unfold deref; pres_step. Qed.

Lemma frame_for_each {A} (f : A -> M World unit) l :
  (∀ x, pres (frame P) (f x)) -> pres (frame P) (for_each f l).
Proof.
  intros H. induction l as [|x l IH]; simpl.
  - pres_step.
  - pres_step; [apply H | exact IH].
Qed.

End FramePrimitives.

#[global] Hint Resolve frame_deref frame_for_each : pres.

(** ** The transport leaves the van's maps alone *)

Section TransportFrame.

Variable E : Env.
Variable P : Event -> Prop.

Lemma frame_get_ep ep : pres (frame P) (get_ep ep).
Proof. unfold get_ep. pres_auto. Qed.

Lemma frame_put_ep ep e : pres (frame P) (put_ep ep e).
Proof. refine (pres_modify _ _ _). intros w. apply frame_set_ep_heap. Qed.

Hint Resolve frame_get_ep frame_put_ep : pres.

Lemma frame_get_trans ep : pres (frame P) (get_trans ep).
Proof. unfold get_trans. pres_auto. Qed.

Lemma frame_put_trans ep t : pres (frame P) (put_trans ep t).
Proof. unfold put_trans. pres_auto. Qed.

Lemma frame_get_buf b : pres (frame P) (get_buf b).
Proof. unfold get_buf. pres_auto. Qed.

Lemma frame_put_buf p b : pres (frame P) (put_buf p b).
Proof. refine (pres_modify _ _ _). intros w. apply frame_set_msg_bufs. Qed.

Lemma frame_get_ctx c : pres (frame P) (get_ctx c).
Proof. unfold get_ctx. pres_auto. Qed.

Lemma frame_scratch x : pres (frame P) (modify (fun w => set_scratch (x w) w)).
Proof. refine (pres_modify _ _ _). intros w. apply frame_set_scratch. Qed.

Hint Resolve frame_get_trans frame_put_trans frame_get_buf frame_put_buf
     frame_get_ctx frame_scratch : pres.

Lemma frame_WaitAndPop_write ep : pres (frame P) (WaitAndPop_write ep).
Proof. unfold WaitAndPop_write. pres_auto. Qed.

Lemma frame_WaitAndPop_start ep : pres (frame P) (WaitAndPop_start ep).
Proof. unfold WaitAndPop_start. pres_auto. Qed.

Lemma frame_RegisterMemory ep msg : pres (frame P) (RegisterMemory E ep msg).
Proof.
  unfold RegisterMemory. apply frame_for_each. intros sa.
  unfold RegisterMemory_field. pres_auto.
Qed.

Lemma frame_PrepareData ep msg msg_buf : pres (frame P) (PrepareData ep msg msg_buf).
Proof.
  unfold PrepareData. pres_auto. apply frame_for_each. intros sa.
  unfold PrepareData_field. pres_auto.
Qed.

Lemma frame_AddMeta ep msg : pres (frame P) (AddMeta E ep msg).
Proof. unfold AddMeta. pres_auto. Qed.

Lemma frame_GetSharedMemory ep k : pres (frame P) (GetSharedMemory E ep k).
Proof. unfold GetSharedMemory. pres_auto. Qed.

Lemma frame_async_push ep m : pres (frame P) (async_push ep m).
Proof. unfold async_push. pres_auto. Qed.

End TransportFrame.

#[global] Hint Resolve frame_get_ep frame_put_ep frame_get_trans frame_put_trans
  frame_get_buf frame_put_buf frame_get_ctx frame_scratch frame_WaitAndPop_write
  frame_WaitAndPop_start frame_RegisterMemory frame_PrepareData frame_AddMeta
  frame_GetSharedMemory frame_async_push : pres.

Section TransportEvents.

Variable E : Env.
Variable P : Event -> Prop.
Hypothesis HP : ∀ ev, quiet ev -> P ev.

Lemma frame_post_send ep wr :
  opcode wr ≠ IBV_WR_SEND_WITH_IMM -> pres (frame P) (post_send E ep wr).
Proof.
  intros H. unfold post_send. pres_auto. apply frame_log, HP. split; [exact H | exact I].
Qed.

Lemma frame_log_quiet ev : quiet ev -> pres (frame P) (log ev).
Proof. intros H. apply frame_log, HP, H. Qed.

Lemma frame_RDMAWriteWithImm ep msg_buf raddr rkey idx :
  pres (frame P) (RDMAWriteWithImm E ep msg_buf raddr rkey idx).
Proof.
  unfold RDMAWriteWithImm. pres_auto; apply frame_post_send; discriminate.
Qed.

Hint Resolve frame_RDMAWriteWithImm : pres.

Lemma frame_Send ep msg msg_buf rt : pres (frame P) (Send E ep msg msg_buf rt).
Proof. unfold Send. pres_auto. Qed.

Hint Resolve frame_Send : pres.

Lemma frame_SendPushRequest ep msg msg_buf rt :
  pres (frame P) (SendPushRequest E ep msg msg_buf rt).
Proof.
  unfold SendPushRequest, IPCTransport_SendPushRequest, RDMATransport_SendPushRequest.
  pres_auto.
Qed.

Lemma frame_SendPullResponse ep msg msg_buf rt :
  pres (frame P) (SendPullResponse E ep msg msg_buf rt).
Proof.
  unfold SendPullResponse, IPCTransport_SendPullResponse, RDMATransport_SendPullResponse.
  pres_auto; try (apply frame_post_send; discriminate);
    apply frame_log_quiet; split; exact I.
Qed.

Lemma frame_AsyncCopyThread_turn ep i :
  pres (frame P) (AsyncCopyThread_turn E ep i).
Proof.
  unfold AsyncCopyThread_turn. pres_auto. apply frame_log_quiet; split; exact I.
Qed.

Lemma frame_CreateFunctionalSarray v n :
  pres (frame P) (CreateFunctionalSarray E v n).
Proof.
  unfold CreateFunctionalSarray. pres_auto; apply frame_log_quiet; split; exact I.
Qed.

Hint Resolve frame_CreateFunctionalSarray : pres.

Lemma frame_RecvPushResponse ep msg bc n :
  pres (frame P) (RecvPushResponse ep msg bc n).
Proof. unfold RecvPushResponse. pres_auto. Qed.

Lemma frame_RecvPullRequest ep msg bc n :
  pres (frame P) (RecvPullRequest E ep msg bc n).
Proof. unfold RecvPullRequest. pres_auto. Qed.

Lemma frame_RecvPullResponse ep msg bc n :
  pres (frame P) (RecvPullResponse E ep msg bc n).
Proof. unfold RecvPullResponse. pres_auto. Qed.

Lemma frame_RecvPushRequest ep msg bc n :
  pres (frame P) (RecvPushRequest E ep msg bc n).
Proof.
  unfold RecvPushRequest, IPCTransport_RecvPushRequest, RDMATransport_RecvPushRequest.
  pres_auto.
Qed.

End TransportEvents.

(** [SendRendezvousBegin] is the one operation that starts a rendezvous. *)
Lemma frame_SendRendezvousBegin E P ep msg msg_buf :
  (∀ ev, not_pack ev -> P ev) ->
  pres (frame P) (SendRendezvousBegin E ep msg msg_buf).
Proof.
  intros HP. unfold SendRendezvousBegin, post_send.
  pres_auto; apply frame_log, HP; exact I.
Qed.

#[global] Hint Resolve frame_post_send frame_log_quiet frame_RDMAWriteWithImm frame_Send
  frame_SendPushRequest
  frame_SendPullResponse frame_AsyncCopyThread_turn frame_CreateFunctionalSarray
  frame_RecvPushResponse frame_RecvPullRequest frame_RecvPullResponse
  frame_RecvPushRequest frame_SendRendezvousBegin : pres.

(** ** The van's maps only grow *)

Lemma lookup2_insert2 {V} (m : gmap Z (gmap Z V)) k r v k' r' :
  lookup2 (insert2 k r v m) k' r'
  = if decide (k = k' ∧ r = r') then Some v else lookup2 m k' r'.
Proof.
  unfold lookup2, insert2. destruct (decide (k = k')) as [<-|Hk].
  - rewrite lookup_insert_eq. simpl. destruct (decide (r = r')) as [<-|Hr].
    + rewrite lookup_insert_eq. rewrite decide_True by auto. reflexivity.
    + rewrite lookup_insert_ne by assumption. rewrite decide_False by tauto.
      destruct (m !! k); simpl; [reflexivity | apply lookup_empty].
  - rewrite lookup_insert_ne by assumption. rewrite decide_False by tauto. reflexivity.
Qed.

Lemma lookup2_insert2_eq {V} (m : gmap Z (gmap Z V)) k r v :
  lookup2 (insert2 k r v m) k r = Some v.
Proof. rewrite lookup2_insert2. apply decide_True. auto. Qed.

(** [m[k]] read through [operator[]] keeps every inner entry. *)
Lemma lookup2_touch {V} (m : gmap Z (gmap Z V)) k k' r' :
  lookup2 (<[k := default ∅ (m !! k)]> m) k' r' = lookup2 m k' r'.
Proof.
  unfold lookup2. destruct (decide (k = k')) as [<-|Hk].
  - rewrite lookup_insert_eq. destruct (m !! k); simpl; [reflexivity | apply lookup_empty].
  - rewrite lookup_insert_ne by assumption. reflexivity.
Qed.

#[global] Instance grows_preorder : PreOrder grows.
Proof.
  split.
  - intros w. unfold grows. auto.
  - intros a b c (A1 & A2 & A3 & A4) (B1 & B2 & B3 & B4).
    unfold grows. split_and!; [auto | auto | auto | congruence].
Qed.

Lemma frame_grows P w w' : frame P w w' -> grows w w'.
Proof.
  intros (_ & _ & Hep & Ht & Hpush & Hpull & _). unfold grows.
  rewrite Ht, Hpush, Hpull, Hep. auto.
Qed.

Lemma pres_frame_grows {A} (c : M World A) : pres (frame any_event) c -> pres grows c.
Proof. apply pres_mono. apply frame_grows. Qed.

Lemma frame_appends P w w' : frame P w w' -> appends P w w'.
Proof. intros (_ & _ & _ & _ & _ & _ & _ & _ & H). exact H. Qed.

Lemma pres_frame_appends {A} P (c : M World A) : pres (frame P) c -> pres (appends P) c.
Proof. apply pres_mono. apply frame_appends. Qed.

#[global] Hint Extern 9 (pres grows _) =>
  simple apply pres_frame_grows; solve [eauto with pres] : pres.
#[global] Hint Extern 9 (pres (appends _) _) =>
  simple apply pres_frame_appends; solve [eauto with pres] : pres.

Section VanGrows.

Variable E : Env.

Lemma grows_log ev : pres grows (log ev).
Proof. apply pres_frame_grows, frame_log. exact I. Qed.

Lemma grows_post_send ep wr : pres grows (post_send E ep wr).
Proof. unfold post_send. pres_auto. apply grows_log. Qed.

Lemma grows_set_msgbuf_cache x : pres grows (modify (set_msgbuf_cache x)).
Proof. refine (pres_modify _ _ _). intros w. unfold grows. simpl. auto. Qed.

Lemma grows_set_recv_buffers x : pres grows (modify (fun w => set_recv_buffers (x w) w)).
Proof. refine (pres_modify _ _ _). intros w. unfold grows. simpl. auto. Qed.

Lemma grows_PackWorkerTensorAddress msg : pres grows (PackWorkerTensorAddress msg).
Proof. unfold PackWorkerTensorAddress. pres_auto. Qed.

Lemma grows_StoreWorkerTensorAddress msg : pres grows (StoreWorkerTensorAddress msg).
Proof.
  intros w. unfold StoreWorkerTensorAddress, bind, get.
  destruct (lookup2 (tensor_info_map_ w) (key (meta msg)) (sender (meta msg)))
    as [[[len0 a0] r0]|] eqn:Hl.
  - unfold CHECK. destruct (_ =? len0); simpl; [|reflexivity].
    destruct (_ =? a0); simpl; [|reflexivity].
    destruct (_ =? r0); simpl; reflexivity.
  - simpl. unfold grows. simpl. split_and!; auto.
    intros k s t Hks. rewrite lookup2_insert2. destruct (decide _) as [[<- <-]|_]; [|exact Hks].
    congruence.
Qed.

Lemma grows_HasRemoteInfo msg_buf k is_push recver :
  pres grows (HasRemoteInfo msg_buf k is_push recver).
Proof.
  unfold HasRemoteInfo. pres_auto; apply grows_set_msgbuf_cache.
Qed.

Lemma grows_StoreRemoteInfo msg_buf raddr rkey idx :
  pres grows (StoreRemoteInfo msg_buf raddr rkey idx).
Proof.
  intros w. unfold StoreRemoteInfo, bind, get, modify.
  destruct (msgbuf_cache_ w !! msg_buf) as [[[k is_push] recver]|]; simpl; [|reflexivity].
  destruct is_push; simpl; unfold grows; simpl; split_and!; auto;
    intros k' r' H; rewrite lookup2_insert2; destruct (decide _); eauto.
Qed.

Lemma grows_GetRemoteInfo k is_push : pres grows (GetRemoteInfo k is_push).
Proof.
  intros w. unfold GetRemoteInfo, bind, get, modify.
  destruct is_push; simpl; unfold grows; simpl; split_and!; auto;
    intros k' r' H; rewrite lookup2_touch; exact H.
Qed.

Hint Resolve grows_log grows_PackWorkerTensorAddress grows_StoreWorkerTensorAddress
  grows_HasRemoteInfo grows_StoreRemoteInfo grows_GetRemoteInfo grows_set_recv_buffers : pres.

Lemma grows_SendMsg msg : pres grows (SendMsg E msg).
Proof. unfold SendMsg, SendMsg_route, SendPushResponse, SendPullRequest. pres_auto. Qed.

Lemma grows_RecvMsg msg : pres grows (RecvMsg E msg).
Proof.
  unfold RecvMsg. pres_auto.
Qed.

Lemma grows_ReleaseWorkRequestContext c ep : pres grows (ReleaseWorkRequestContext E c ep).
Proof. unfold ReleaseWorkRequestContext. pres_auto. Qed.

Hint Resolve grows_ReleaseWorkRequestContext : pres.

Lemma grows_PollCQ wc : pres grows (PollCQ E wc).
Proof.
  unfold PollCQ. pres_auto.
  refine (pres_modify _ _ _). intros w. apply (frame_grows any_event), frame_set_msg_bufs.
Qed.

Lemma grows_step s : pres grows (step E s).
Proof.
  destruct s; simpl; pres_auto;
    first [ apply grows_SendMsg | apply grows_RecvMsg | apply grows_PollCQ | idtac ].
Qed.

Lemma grows_steps l : pres grows (steps E l).
Proof.
  induction l as [|s l IH]; simpl; [pres_auto|].
  pres_step; [apply grows_step | exact IH].
Qed.

End VanGrows.

(** ** The tensor-info registry *)

Lemma StoreWorkerTensorAddress_spec (msg : Message) (w : World) :
  match lookup2 (tensor_info_map_ w) (key (meta msg)) (sender (meta msg)) with
  | None =>
      StoreWorkerTensorAddress msg w
      = Done tt (set_tensor_info_map
                   (insert2 (key (meta msg)) (sender (meta msg)) (tensor_of msg)
                            (tensor_info_map_ w)) w)
  | Some t0 =>
      if decide (tensor_of msg = t0)
      then StoreWorkerTensorAddress msg w = Done tt w
      else StoreWorkerTensorAddress msg w = Halted Abort w
  end.
Proof.
  unfold StoreWorkerTensorAddress, bind, get, tensor_of.
  destruct (lookup2 _ _ _) as [[[len0 a0] r0]|]; [|reflexivity].
  unfold CHECK.
  destruct (Z.eqb_spec (val_len (meta msg)) len0) as [->|H1]; simpl.
  2: { rewrite decide_False by congruence. reflexivity. }
  destruct (Z.eqb_spec (addr (meta msg)) a0) as [->|H2]; simpl.
  2: { rewrite decide_False by congruence. reflexivity. }
  destruct (Z.eqb_spec (option_ (meta msg)) r0) as [->|H3]; simpl.
  2: { rewrite decide_False by congruence. reflexivity. }
  rewrite decide_True by reflexivity. reflexivity.
Qed.

Lemma StoreWorkerTensorAddress_Done (msg : Message) (w w' : World) :
  StoreWorkerTensorAddress msg w = Done tt w' ->
  lookup2 (tensor_info_map_ w') (key (meta msg)) (sender (meta msg)) = Some (tensor_of msg).
Proof.
  pose proof (StoreWorkerTensorAddress_spec msg w) as H.
  destruct (lookup2 _ _ _) as [t0|] eqn:Hl.
  - destruct (decide _) as [<-|]; rewrite H; [|discriminate].
    intros [= <-]. exact Hl.
  - rewrite H. intros [= <-]. simpl. apply lookup2_insert2_eq.
Qed.

Section RecvFacts.

Variable E : Env.

Lemma CreateFunctionalSarray_size v n w sa w' :
  CreateFunctionalSarray E v n w = Done sa w' -> sa_size sa = n.
Proof.
  unfold CreateFunctionalSarray, bind, get, log, modify. simpl.
  destruct (_ =? 0); [discriminate|]. simpl. intros [= <- _]. reflexivity.
Qed.

(** A receive operation leaves the meta of the message as it is. *)
Lemma RecvPushRequest_meta ep msg bc n w r w' :
  RecvPushRequest E ep msg bc n w = Done r w' -> meta (fst r) = meta msg.
Proof.
  unfold RecvPushRequest, IPCTransport_RecvPushRequest, RDMATransport_RecvPushRequest.
  intros H.
  repeat match type of H with
         | bind _ _ _ = Done _ _ =>
             apply bind_inv_Done in H as (? & ? & _ & H)
         | (if ?b then _ else _) _ = Done _ _ => destruct b
         | ret _ _ = Done _ _ => injection H as <- _
         end.
  all: reflexivity.
Qed.

Ltac invert_recv H :=
  repeat match type of H with
         | bind _ _ _ = Done _ _ =>
             apply bind_inv_Done in H as (? & ? & _ & H)
         | (if ?b then _ else _) _ = Done _ _ => destruct b
         | ret _ _ = Done _ _ => injection H as <- _
         end.

Lemma RecvPushResponse_meta ep msg bc n w r w' :
  RecvPushResponse ep msg bc n w = Done r w' -> meta (fst r) = meta msg.
Proof. unfold RecvPushResponse. intros H. invert_recv H. reflexivity. Qed.

Lemma RecvPullRequest_meta ep msg bc n w r w' :
  RecvPullRequest E ep msg bc n w = Done r w' -> meta (fst r) = meta msg.
Proof. unfold RecvPullRequest. intros H. invert_recv H. reflexivity. Qed.

Lemma RecvPullResponse_meta ep msg bc n w r w' :
  RecvPullResponse E ep msg bc n w = Done r w' -> meta (fst r) = meta msg.
Proof. unfold RecvPullResponse. intros H. invert_recv H. reflexivity. Qed.

(** [RecvMsg] of a push request ends with the triple of the request in the
    registry. *)
Lemma RecvMsg_push_request_stored msg0 msg' n w w' :
  RecvMsg E msg0 w = Done (msg', n) w' ->
  IsValidPushpull msg' = true -> push (meta msg') = true -> request (meta msg') = true ->
  lookup2 (tensor_info_map_ w') (key (meta msg')) (sender (meta msg')) = Some (tensor_of msg').
Proof.
  intros H Hv Hp Hr. unfold RecvMsg in H.
  apply bind_inv_Done in H as (w0 & s0 & Hget & H).
  unfold get in Hget. injection Hget as <- <-.
  destruct (recv_buffers_ w) as [|[ep bc] rest]; [discriminate|].
  apply bind_inv_Done in H as ([] & w1 & _ & H).
  apply bind_inv_Done in H as (e & w2 & _ & H).
  cbv zeta in H.
  apply bind_inv_Done in H as ([] & w3 & _ & H).
  set (m := UnpackMeta E (buffer bc) (set_route (node_id e) (my_node_id w) (meta msg0))) in *.
  destruct (IsValidPushpull {| meta := m; data := [] |}) eqn:Hvalid; simpl in H.
  - apply bind_inv_Done in H as (r & w4 & Hr4 & H).
    injection H as <- <- <-.
    destruct (push m) eqn:Hpm, (request m) eqn:Hrm.
    + apply bind_inv_Done in Hr4 as (r' & w5 & Hrecv & Hr4).
      apply bind_inv_Done in Hr4 as ([] & w6 & Hstore & Hr4).
      injection Hr4 as <- <-.
      apply (StoreWorkerTensorAddress_Done _ _ _ Hstore).
    + apply RecvPushResponse_meta in Hr4. simpl in Hr4. congruence.
    + apply RecvPullRequest_meta in Hr4. simpl in Hr4. congruence.
    + apply RecvPullResponse_meta in Hr4. simpl in Hr4. congruence.
  - apply bind_inv_Done in H as ([] & w4 & _ & H).
    injection H as <- <- <-. congruence.
Qed.

End RecvFacts.

(** C3. [StoreWorkerTensorAddress] stores [(len, addr, rkey)] under
    [(key, sender)] when nothing is stored there; when a triple is stored it
    leaves the registry as it is, and aborts the process unless the incoming
    triple equals the stored one.  [RecvMsg] ends every push request it
    returns with the triple of the request in the registry, and whatever the
    van does later, a stored triple stays the same. *)
Theorem tensor_info_stored_once (E : Env) (msg : Message) (w : World) :
  match lookup2 (tensor_info_map_ w) (key (meta msg)) (sender (meta msg)) with
  | None =>
      ∃ w', StoreWorkerTensorAddress msg w = Done tt w' ∧
            lookup2 (tensor_info_map_ w') (key (meta msg)) (sender (meta msg))
            = Some (val_len (meta msg), addr (meta msg), option_ (meta msg))
  | Some t0 =>
      if decide ((val_len (meta msg), addr (meta msg), option_ (meta msg)) = t0)
      then StoreWorkerTensorAddress msg w = Done tt w
      else StoreWorkerTensorAddress msg w = Halted Abort w
  end ∧
  (∀ msg0 msg' n w',
     RecvMsg E msg0 w = Done (msg', n) w' ->
     IsValidPushpull msg' = true -> push (meta msg') = true -> request (meta msg') = true ->
     lookup2 (tensor_info_map_ w') (key (meta msg')) (sender (meta msg'))
     = Some (val_len (meta msg'), addr (meta msg'), option_ (meta msg'))) ∧
  (∀ l k s t,
     lookup2 (tensor_info_map_ w) k s = Some t ->
     lookup2 (tensor_info_map_ (final (steps E l w))) k s = Some t).
Proof.
  split; [|split].
  - pose proof (StoreWorkerTensorAddress_spec msg w) as H. unfold tensor_of in H.
    destruct (lookup2 _ _ _) as [t0|]; [exact H|].
    eexists. split; [exact H|]. simpl. apply lookup2_insert2_eq.
  - intros msg0 msg' n w'. apply RecvMsg_push_request_stored.
  - intros l k s t H. destruct (grows_steps E l w) as (Ht & _). apply Ht, H.
Qed.

(** A push request landing on the van of node 9 from node 8: [RecvMsg]
    returns it with its three fields and the registry holds its triple. *)
Lemma RecvMsg_push_request_example :
  let msg := with_meta (set_tensor 1024 (2 ^ 20) 99 (data_meta true true)) (received true true) in
  ∃ r w', RecvMsg env0 msg (set_recv_buffers [(1000, landing)] world0) = Done r w' ∧
          length (data (fst r)) = 3%nat ∧ snd r = 64 + 1036 ∧
          lookup2 (tensor_info_map_ w') 7 8 = Some (1024, 2 ^ 20, 99) ∧
          recv_buffers_ w' = [].
Proof. eexists _, _. split; [vm_compute; reflexivity|]. repeat split. Qed.

(** The same request once more, now with another length: the van aborts. *)
Lemma RecvMsg_push_request_mismatch_example :
  let msg := with_meta (set_tensor 1024 (2 ^ 20) 99 (data_meta true true)) (received true true) in
  let msg' := with_meta (set_tensor 512 (2 ^ 20) 99 (data_meta true true)) (received true true) in
  ∃ r w', RecvMsg env0 msg (set_recv_buffers [(1000, landing); (1000, landing)] world0)
            = Done r w' ∧
          is_done (RecvMsg env0 msg w') = true ∧
          ∃ w'', RecvMsg env0 msg' w' = Halted Abort w'' ∧
                 lookup2 (tensor_info_map_ w'') 7 8 = Some (1024, 2 ^ 20, 99).
Proof.
  eexists _, _. split; [vm_compute; reflexivity|].
  split; [vm_compute; reflexivity|].
  eexists. split; vm_compute; reflexivity.
Qed.

(** ** SendMsg *)

Lemma bind_eq {S A B} (c : M S A) (k : A -> M S B) s r :
  c s = r ->
  bind c k s = match r with Done a s' => k a s' | Halted h s' => Halted h s' end.
Proof. intros <-. reflexivity. Qed.

Lemma bind_get {S B} (k : S -> M S B) s : bind get k s = k s s.
Proof. reflexivity. Qed.

Lemma bind_CHECK_true {S B} (k : unit -> M S B) s : bind (CHECK true) k s = k tt s.
Proof. reflexivity. Qed.

Lemma bind_CHECK_false {S B} (k : unit -> M S B) s :
  bind (CHECK false) k s = Halted Abort s.
Proof. reflexivity. Qed.

Lemma bind_log {B} ev (k : unit -> M World B) w :
  bind (log ev) k w = k tt (set_trace (trace w ++ [ev]) w).
Proof. reflexivity. Qed.

Lemma bind_put_buf {B} p b (k : unit -> M World B) w :
  bind (put_buf p b) k w = k tt (set_msg_bufs (<[p := b]> (msg_bufs w)) w).
Proof. reflexivity. Qed.

Section SendFacts.

Variable E : Env.

Lemma RegisterMemory_field_outcome ep sa w :
  has_transport ep w ->
  match RegisterMemory_field E ep sa w with
  | Done _ w' => has_transport ep w' ∧ (rdma_at ep w -> rdma_at ep w')
  | Halted h _ => h = Abort
  end.
Proof.
  intros (e & t & He & Ht). unfold RegisterMemory_field.
  destruct (sa_size sa =? 0); [split; [exists e, t|]; auto|].
  unfold get_trans, get_ep, put_trans, put_ep, bind, get, deref, modify, ret, halt.
  rewrite He, Ht. destruct (mem_mr_map_ t !! sa_data sa); [split; [exists e, t|]; auto|].
  destruct (ibv_reg_mr E (sa_data sa) (sa_size sa)) as [mr|]; [|reflexivity].
  unfold get_ep, bind, get, deref. rewrite He. simpl.
  unfold has_transport, rdma_at. simpl. rewrite lookup_insert_eq. split.
  - eexists _, _. split; reflexivity.
  - intros (e' & t' & He' & Ht' & Hi). rewrite He in He'. injection He' as <-.
    rewrite Ht in Ht'. injection Ht' as <-. eexists _, _. split; [reflexivity|].
    split; [reflexivity | exact Hi].
Qed.

Lemma RegisterMemory_outcome ep msg w :
  has_transport ep w ->
  match RegisterMemory E ep msg w with
  | Done _ w' => has_transport ep w' ∧ (rdma_at ep w -> rdma_at ep w')
  | Halted h _ => h = Abort
  end.
Proof.
  unfold RegisterMemory. generalize (data msg) as l. intros l. revert w.
  induction l as [|sa l IH]; intros w Hw; simpl; [split; [exact Hw | auto]|].
  unfold bind. pose proof (RegisterMemory_field_outcome ep sa w Hw) as H.
  destruct (RegisterMemory_field E ep sa w) as [[] w1|h w1]; [|exact H].
  destruct H as [H1 H2]. specialize (IH w1 H1).
  destruct (for_each (RegisterMemory_field E ep) l w1) as [[] w2|h w2]; [|exact IH].
  destruct IH as [H3 H4]. split; [exact H3 | auto].
Qed.

(** For a response [AddMeta] does nothing. *)
Lemma AddMeta_response ep msg w :
  request (meta msg) = false -> AddMeta E ep msg w = Done msg w.
Proof.
  intros Hr. unfold AddMeta. rewrite Hr. unfold bind, ret. simpl.
  rewrite Hr, andb_false_r. reflexivity.
Qed.

End SendFacts.

Lemma allocation_quiet ev : allocation ev -> quiet ev.
Proof. destruct ev; simpl; intros []; split; exact I. Qed.

Lemma not_pack_packs m ev : not_pack ev -> packs m ev.
Proof. destruct ev; simpl; auto. intros []. Qed.

Lemma quiet_packs m ev : quiet ev -> packs m ev.
Proof. intros H. apply not_pack_packs, quiet_not_pack, H. Qed.

#[global] Hint Resolve not_pack_packs quiet_packs : pres.

(** One step of a computation: name the state it reaches and record how
    that state relates to the current one. *)
Ltac bind_step R Hacc :=
  lazymatch goal with
  | |- context [@bind ?S ?A ?B ?c ?k ?w] =>
      let F := fresh "F" in
      assert (F : pres R c) by pres_auto;
      specialize (F w);
      change (@bind S A B c k w) with
        (match c w with Done a s' => k a s' | Halted h s' => Halted h s' end);
      destruct (c w) as [? ?|? ?]; simpl in F;
      pose proof (transitivity Hacc F); clear Hacc F; cbv beta
  end.

Section PackFacts.

Variable E : Env.

Lemma PackWorkerTensorAddress_spec msg w :
  push (meta msg) = false -> request (meta msg) = false ->
  match lookup2 (tensor_info_map_ w) (key (meta msg)) (recver (meta msg)) with
  | None => PackWorkerTensorAddress msg w = Halted Abort w
  | Some (len, a, rkey) =>
      PackWorkerTensorAddress msg w = Done (with_meta (set_tensor len a rkey (meta msg)) msg) w
  end.
Proof.
  intros Hp Hr. unfold PackWorkerTensorAddress, lookup2. rewrite Hp, Hr. simpl.
  unfold bind, get. destruct (tensor_info_map_ w !! key (meta msg)) as [inner|]; simpl;
    [|reflexivity].
  destruct (inner !! recver (meta msg)) as [[[len a] rkey]|]; reflexivity.
Qed.

End PackFacts.

Lemma frame_has_transport P ep w w' :
  frame P w w' -> ep_heap w' = ep_heap w -> has_transport ep w -> has_transport ep w'.
Proof. intros _ Heq (e & t & H1 & H2). exists e, t. rewrite Heq. auto. Qed.

Lemma get_ep_Done ep w e : ep_heap w !! ep = Some e -> get_ep ep w = Done e w.
Proof. intros H. unfold get_ep, bind, get, deref. rewrite H. reflexivity. Qed.

Lemma get_trans_Done ep w e t :
  ep_heap w !! ep = Some e -> trans e = Some t -> get_trans ep w = Done t w.
Proof.
  intros H Ht. unfold get_trans. rewrite (bind_Done _ _ _ _ _ (get_ep_Done ep w e H)).
  unfold deref. rewrite Ht. reflexivity.
Qed.

Lemma get_buf_Done p w b : msg_bufs w !! p = Some b -> get_buf p w = Done b w.
Proof. intros H. unfold get_buf, bind, get, deref. rewrite H. reflexivity. Qed.

Section SendPrefix.

Variable E : Env.

(** [SendMsg] either aborts before it routes the message, having done
    nothing but allocate, or routes it from a state in which the message
    buffer holds the data fields and no region. *)
Lemma SendMsg_prefix msg w :
  owns_endpoints w ->
  (∃ w1, SendMsg E msg w = Halted Abort w1 ∧ frame allocation w w1) ∨
  (∃ ep msg_buf ibuf w1,
     endpoints_ w !! recver (meta msg) = Some ep ∧
     (has_transport ep w1 ∧ (rdma_at ep w -> rdma_at ep w1)) ∧ frame allocation w w1 ∧
     msg_bufs w1 !! msg_buf
     = Some {| inline_len := wrap64 (to_int (GetPackMetaLen E (meta msg)));
               inline_buf := ibuf; reserved_context := 0;
               buf_data := data msg; mrs := [] |} ∧
     SendMsg E msg w
     = SendMsg_route E ep msg_buf ibuf
         (to_int (wrap64 (to_int (GetPackMetaLen E (meta msg)) + data_size (meta msg))))
         msg w1).
Proof.
  intros Hown. remember (SendMsg E msg w) as r eqn:Hr. unfold SendMsg in Hr.
  destruct (negb (recver (meta msg) =? kEmpty)).
  2: { left. exists w. rewrite bind_CHECK_false in Hr. split; [exact Hr | reflexivity]. }
  rewrite bind_CHECK_true, bind_get in Hr.
  destruct (endpoints_ w !! recver (meta msg)) as [ep|] eqn:Hep.
  2: { left. exists w. split; [exact Hr | reflexivity]. }
  destruct (Hown _ _ Hep) as [e He].
  rewrite (bind_Done _ _ _ _ _ (get_ep_Done ep w e He)) in Hr.
  destruct (trans e) as [t|] eqn:Ht.
  2: { left. exists w. rewrite bool_decide_eq_false_2 in Hr by (intros [? ?]; discriminate).
       rewrite bind_CHECK_false in Hr. split; [exact Hr | reflexivity]. }
  rewrite bool_decide_eq_true_2 in Hr by eauto. rewrite bind_CHECK_true in Hr.
  assert (Hw : has_transport ep w) by (exists e, t; auto).
  pose proof (RegisterMemory_outcome E ep msg w Hw) as Hreg.
  pose proof (frame_RegisterMemory E allocation ep msg w) as Freg.
  unfold bind at 1 in Hr.
  destruct (RegisterMemory E ep msg w) as [[] w1|h w1]; simpl in Freg.
  2: { left. exists w1. subst h. split; [exact Hr | exact Freg]. }
  rewrite bind_get, bind_log in Hr.
  set (w2 := set_trace _ w1) in Hr.
  assert (F2 : frame allocation w w2).
  { etransitivity; [exact Freg|]. apply (frame_log allocation (EvNew (operator_new E (trace w1)))).
    exact I. }
  cbv zeta in Hr.
  destruct (negb (to_int (GetPackMetaLen E (meta msg)) =? 0)).
  2: { left. exists w2. rewrite bind_CHECK_false in Hr. split; [exact Hr | exact F2]. }
  rewrite bind_CHECK_true, bind_get, bind_log, bind_put_buf in Hr.
  right.
  match type of Hr with
  | _ = SendMsg_route _ _ ?mb ?ib _ _ ?wf => exists ep, mb, ib, wf
  end.
  split; [reflexivity|]. split; [|split; [|split; [|exact Hr]]].
  - destruct Hreg as [(e1 & t1 & H1 & H2) Hk]. split; [exists e1, t1; simpl; auto|].
    intros Hrd. destruct (Hk Hrd) as (e2 & t2 & H3 & H4 & H5). exists e2, t2. simpl. auto.
  - etransitivity; [exact F2|]. etransitivity; [|apply frame_set_msg_bufs].
    match goal with
    | |- frame _ _ (set_trace (_ ++ [?ev]) _) => exact (frame_log allocation ev I w2)
    end.
  - simpl. apply lookup_insert_eq.
Qed.

End SendPrefix.

(** ** What a computation returns *)

Lemma returns_ret {S A} (v : A) : returns v (ret v : M S A).
Proof. intros s r s' [= <- _]. reflexivity. Qed.

Lemma returns_halt {S A} (v : A) h : returns v (halt h : M S A).
Proof. intros s r s' H. discriminate. Qed.

Lemma returns_bind {S A B} (v : B) (c : M S A) (k : A -> M S B) :
  (∀ a, returns v (k a)) -> returns v (bind c k).
Proof.
  intros Hk s r s' H. apply bind_inv_Done in H as (a & s1 & _ & H). eapply Hk, H.
Qed.

Ltac returns_auto :=
  repeat lazymatch goal with
         | |- returns _ (bind _ _) => apply returns_bind; intros
         | |- returns _ (ret _) => apply returns_ret
         | |- returns _ (halt _) => apply returns_halt
         | |- returns _ (match ?x with _ => _ end) => destruct x
         | |- returns _ (let _ := _ in _) => cbv zeta
         end.

Section AddressCacheTrace.

Variable P : Event -> Prop.

Lemma appends_HasRemoteInfo msg_buf k is_push recver :
  pres (appends P) (HasRemoteInfo msg_buf k is_push recver).
Proof.
  unfold HasRemoteInfo. pres_auto.
  refine (pres_modify _ _ _). intros w. apply appends_same. reflexivity.
Qed.

Lemma appends_GetRemoteInfo k is_push : pres (appends P) (GetRemoteInfo k is_push).
Proof.
  unfold GetRemoteInfo. pres_auto;
    refine (pres_modify _ _ _); intros w; apply appends_same; reflexivity.
Qed.

Lemma appends_log ev : P ev -> pres (appends P) (log ev).
Proof. intros H. apply pres_frame_appends, frame_log, H. Qed.

End AddressCacheTrace.

#[global] Hint Resolve appends_HasRemoteInfo appends_GetRemoteInfo : pres.

Section RouteFacts.

Variable E : Env.

Lemma after_pack_no_pack P ep msg_buf total_len remote_id msg :
  (∀ ev, not_pack ev -> P ev) ->
  pres (appends P) (after_pack E ep msg_buf total_len remote_id msg).
Proof.
  intros HP. unfold after_pack, SendPushResponse, SendPullRequest.
  assert (HQ : ∀ ev, quiet ev -> P ev) by (intros ev H; apply HP, quiet_not_pack, H).
  pres_auto.
Qed.

Lemma after_pack_returns ep msg_buf total_len remote_id msg :
  returns (msg, total_len) (after_pack E ep msg_buf total_len remote_id msg).
Proof. unfold after_pack. returns_auto. Qed.

Lemma SendMsg_route_unfold ep msg_buf ibuf total_len msg :
  SendMsg_route E ep msg_buf ibuf total_len msg
  = (do msg' <- (if IsValidPushpull msg
                 then do msg1 <- AddMeta E ep msg ;; PackWorkerTensorAddress msg1
                 else ret msg) ;;
     run log (EvPackMeta ibuf (meta msg')) ;;
     after_pack E ep msg_buf total_len (recver (meta msg)) msg').
Proof. reflexivity. Qed.

End RouteFacts.

Lemma appends_trace_in P w w' ev :
  appends P (set_trace (trace w ++ [ev]) w) w' -> ∃ evs, trace w' = trace w ++ evs ∧ ev ∈ evs.
Proof.
  intros (evs & Ht & _). simpl in Ht. exists ([ev] ++ evs).
  rewrite Ht, <- app_assoc. split; [reflexivity|]. apply elem_of_app. left. left.
Qed.

(** C10. For a pull response (a data message with [push] and [request]
    false) handed to [SendMsg] by a van that owns its endpoints: if
    [tensor_info_map_] has no entry for [(key, recver)],
    [PackWorkerTensorAddress] aborts, and so does [SendMsg], having done
    nothing but allocate its buffer; with an entry [(len, addr, rkey)],
    [PackWorkerTensorAddress] returns the message with [val_len], [addr] and
    [option] overwritten by it, every meta [SendMsg] packs is this one, and
    when [SendMsg] returns it has packed it. *)
Theorem pull_response_needs_stored_tensor (E : Env) (msg : Message) (w : World) :
  IsValidPushpull msg = true -> push (meta msg) = false -> request (meta msg) = false ->
  owns_endpoints w ->
  match lookup2 (tensor_info_map_ w) (key (meta msg)) (recver (meta msg)) with
  | None =>
      PackWorkerTensorAddress msg w = Halted Abort w ∧
      ∃ w', SendMsg E msg w = Halted Abort w' ∧ appends allocation w w'
  | Some (len, a, rkey) =>
      let m := set_tensor len a rkey (meta msg) in
      PackWorkerTensorAddress msg w = Done (with_meta m msg) w ∧
      appends (packs m) w (final (SendMsg E msg w)) ∧
      ∀ r w', SendMsg E msg w = Done r w' ->
              meta (fst r) = m ∧
              ∃ buf evs, trace w' = trace w ++ evs ∧ EvPackMeta buf m ∈ evs
  end.
Proof.
  intros Hv Hp Hr Hown.
  pose proof (PackWorkerTensorAddress_spec msg w Hp Hr) as Hpack.
  destruct (SendMsg_prefix E msg w Hown)
    as [(w1 & HS & F)|(ep & msg_buf & ibuf & w1 & Hep & Htr & F & Hbuf & HS)].
  - (* aborted before routing *)
    destruct (lookup2 _ _ _) as [[[len a] rkey]|].
    + split; [exact Hpack|]. rewrite HS. simpl. split; [|discriminate].
      eapply appends_weaken; [|apply (frame_appends _ _ _ F)].
      intros ev Hev. apply quiet_packs, allocation_quiet, Hev.
    + split; [exact Hpack|]. exists w1. split; [exact HS | apply (frame_appends _ _ _ F)].
  - rewrite HS, SendMsg_route_unfold, Hv.
    pose proof (PackWorkerTensorAddress_spec msg w1 Hp Hr) as Hpack1.
    assert (Htim : tensor_info_map_ w1 = tensor_info_map_ w) by apply F.
    rewrite Htim in Hpack1.
    assert (Hinner : bind (AddMeta E ep msg) (fun msg1 => PackWorkerTensorAddress msg1) w1
                     = PackWorkerTensorAddress msg w1)
      by (apply bind_Done, AddMeta_response, Hr).
    rewrite (bind_eq _ _ _ _ Hinner).
    destruct (lookup2 _ _ _) as [[[len a] rkey]|].
    + split; [exact Hpack|]. rewrite Hpack1. cbv iota beta. rewrite bind_log.
      set (m := set_tensor len a rkey (meta msg)).
      set (w2 := set_trace _ w1).
      assert (F2 : appends (packs m) w w2).
      { etransitivity.
        - eapply appends_weaken; [|apply (frame_appends _ _ _ F)].
          intros ev Hev. apply quiet_packs, allocation_quiet, Hev.
        - exact (appends_log (packs m) (EvPackMeta ibuf m) eq_refl w1). }
      pose proof (after_pack_no_pack E (packs m) ep msg_buf
                    (to_int (wrap64 (to_int (GetPackMetaLen E (meta msg))
                                     + data_size (meta msg))))
                    (recver (meta msg)) (with_meta m msg) (not_pack_packs m) w2) as F3.
      split; [etransitivity; [exact F2 | exact F3]|].
      intros r w' Hdone. rewrite Hdone in F3. simpl in F3.
      rewrite (after_pack_returns E _ _ _ _ _ _ _ _ Hdone). split; [reflexivity|].
      destruct (appends_trace_in _ _ _ _ F3) as (evs & Ht & Hin).
      destruct F as (_ & _ & _ & _ & _ & _ & _ & _ & (evs1 & Ht1 & _)).
      exists ibuf, (evs1 ++ evs). rewrite Ht, Ht1, <- app_assoc.
      split; [reflexivity|]. apply elem_of_app. right. exact Hin.
    + split; [exact Hpack|]. exists w1. rewrite Hpack1. cbv iota beta.
      split; [reflexivity | apply (frame_appends _ _ _ F)].
Qed.

(** ** The address cache *)

Lemma bind_ext_pres {S A B} (R : relation S) (c : M S A) (k k' : A -> M S B) s :
  pres R c ->
  (∀ a s1, c s = Done a s1 -> R s s1 -> k a s1 = k' a s1) ->
  bind c k s = bind c k' s.
Proof.
  intros Hc H. unfold bind. specialize (Hc s).
  destruct (c s) as [a s1|h s1]; [apply H; [reflexivity | exact Hc] | reflexivity].
Qed.

Lemma frame_recorded P w w' k r d : frame P w w' -> recorded w k r d -> recorded w' k r d.
Proof.
  intros (_ & _ & _ & _ & Hpush & Hpull & _). unfold recorded. rewrite Hpush, Hpull. auto.
Qed.

Lemma grows_recorded w w' k r d : grows w w' -> recorded w k r d -> recorded w' k r d.
Proof.
  intros (_ & Hpush & Hpull & _). unfold recorded. destruct d; auto.
Qed.

Lemma HasRemoteInfo_recorded msg_buf k d r w :
  recorded w k r d -> HasRemoteInfo msg_buf k d r w = Done true w.
Proof.
  unfold recorded, HasRemoteInfo. rewrite bind_get. destruct d; intros H; simpl.
  - rewrite bool_decide_eq_true_2 by exact H. reflexivity.
  - rewrite bool_decide_eq_true_2 by exact H. reflexivity.
Qed.

Lemma StoreRemoteInfo_records msg_buf raddr rkey idx k d r w :
  msgbuf_cache_ w !! msg_buf = Some (k, d, r) ->
  ∃ w', StoreRemoteInfo msg_buf raddr rkey idx w = Done tt w' ∧ recorded w' k r d ∧
        (if d then lookup2 (push_addr_ w') k r else lookup2 (pull_addr_ w') k r)
        = Some (raddr, rkey, idx) ∧
        msgbuf_cache_ w' !! msg_buf = None.
Proof.
  intros H. unfold StoreRemoteInfo. rewrite bind_get, H.
  destruct d; eexists; (split; [reflexivity|]); unfold recorded; simpl;
    rewrite lookup2_insert2_eq; (split; [eauto|]); (split; [reflexivity|]);
    apply lookup_delete_eq.
Qed.

Section CacheFacts.

Variable E : Env.

Lemma AddMeta_Done ep msg w msg' w' :
  AddMeta E ep msg w = Done msg' w' ->
  key (meta msg') = routed_key E msg ∧ push (meta msg') = push (meta msg) ∧
  request (meta msg') = request (meta msg) ∧ recver (meta msg') = recver (meta msg) ∧
  IsValidPushpull msg' = IsValidPushpull msg.
Proof.
  unfold AddMeta, routed_key, IsValidPushpull. intros H.
  apply bind_inv_Done in H as (m1 & w1 & H1 & H).
  assert (Hm1 : key (meta m1) = (if request (meta msg)
                                  then DecodeKey E (default SArray_empty (data msg !! 0%nat))
                                  else key (meta msg)) ∧
                push (meta m1) = push (meta msg) ∧ request (meta m1) = request (meta msg) ∧
                recver (meta m1) = recver (meta msg) ∧
                control_empty (meta m1) = control_empty (meta msg) ∧
                simple_app (meta m1) = simple_app (meta msg) ∧ data m1 = data msg).
  { destruct (request (meta msg)) eqn:Hreq.
    - apply bind_inv_Done in H1 as (sa & w2 & Hsa & H1). injection H1 as <- _.
      unfold deref in Hsa. destruct (data msg !! 0%nat); [|discriminate].
      injection Hsa as <- _. simpl. rewrite Hreq. auto 10.
    - injection H1 as <- _. rewrite Hreq. auto 10. }
  destruct Hm1 as (Hk & Hp & Hr & Hre & Hc & Hs & Hd).
  destruct (push (meta m1) && request (meta m1)).
  - apply bind_inv_Done in H as ([] & w2 & _ & H).
    apply bind_inv_Done in H as (t & w3 & _ & H).
    apply bind_inv_Done in H as (vals & w4 & _ & H).
    destruct (mem_mr_map_ t !! sa_data vals); [|discriminate].
    injection H as <- _. simpl. rewrite Hc, Hs. auto.
  - injection H as <- _. rewrite Hc, Hs. auto.
Qed.

Lemma PackWorkerTensorAddress_Done msg w msg' w' :
  PackWorkerTensorAddress msg w = Done msg' w' ->
  w' = w ∧ key (meta msg') = key (meta msg) ∧ push (meta msg') = push (meta msg) ∧
  request (meta msg') = request (meta msg) ∧ recver (meta msg') = recver (meta msg) ∧
  IsValidPushpull msg' = IsValidPushpull msg.
Proof.
  unfold PackWorkerTensorAddress, IsValidPushpull.
  destruct (push (meta msg) || request (meta msg)).
  - intros [= <- <-]. auto 10.
  - rewrite bind_get. destruct (tensor_info_map_ w !! key (meta msg)) as [inner|]; [|discriminate].
    destruct (inner !! recver (meta msg)) as [[[len a] rk]|]; [|discriminate].
    intros [= <- <-]. simpl. auto 10.
Qed.

(** With the address recorded, what follows the packing is the direct
    write. *)
Lemma after_pack_recorded ep msg_buf total_len msg w :
  IsValidPushpull msg = true ->
  recorded w (key (meta msg)) (recver (meta msg)) (push (meta msg)) ->
  after_pack E ep msg_buf total_len (recver (meta msg)) msg w
  = direct_write E ep msg_buf total_len msg w.
Proof.
  intros Hv Hrec. unfold after_pack, direct_write. rewrite Hv. simpl.
  apply (bind_ext_pres (frame quiet)); [pres_auto|].
  intros [] w1 _ F.
  rewrite (bind_Done _ _ _ _ _ (HasRemoteInfo_recorded msg_buf _ _ _ w1
                                  (frame_recorded _ _ _ _ _ _ F Hrec))).
  reflexivity.
Qed.

End CacheFacts.

Lemma frame_PackWorkerTensorAddress P msg : pres (frame P) (PackWorkerTensorAddress msg).
Proof. unfold PackWorkerTensorAddress. pres_auto. Qed.

#[global] Hint Resolve frame_PackWorkerTensorAddress : pres.
#[global] Hint Extern 1 (not_start _) => exact I : pres.
#[global] Hint Extern 1 (quiet _) => split; exact I : pres.
#[global] Hint Resolve appends_log : pres.

Section DirectPath.

Variable E : Env.

Lemma SendMsg_direct_no_start msg : pres (appends not_start) (SendMsg_direct E msg).
Proof.
  unfold SendMsg_direct, SendMsg_route_direct, direct_write, SendPushResponse, SendPullRequest.
  pres_auto.
Qed.

Lemma SendMsg_route_recorded ep msg_buf ibuf total_len msg w :
  IsValidPushpull msg = true ->
  recorded w (routed_key E msg) (recver (meta msg)) (push (meta msg)) ->
  SendMsg_route E ep msg_buf ibuf total_len msg w
  = SendMsg_route_direct E ep msg_buf ibuf total_len msg w.
Proof.
  intros Hv Hrec. rewrite SendMsg_route_unfold. unfold SendMsg_route_direct.
  rewrite Hv.
  apply (bind_ext_pres (frame any_event)); [pres_auto|].
  intros msg' w1 Hc F.
  apply bind_inv_Done in Hc as (msg1 & w0 & Hadd & Hpack).
  apply AddMeta_Done in Hadd as (Hk1 & Hp1 & _ & Hr1 & Hv1).
  apply PackWorkerTensorAddress_Done in Hpack as (_ & Hk2 & Hp2 & _ & Hr2 & Hv2).
  rewrite !bind_log.
  assert (Hr' : recver (meta msg) = recver (meta msg')) by congruence.
  rewrite Hr'. apply after_pack_recorded; [congruence|].
  rewrite Hk2, Hk1, Hr2, Hr1, Hp2, Hp1.
  eapply frame_recorded; [|exact Hrec].
  etransitivity; [exact F|].
  exact (frame_log any_event (EvPackMeta ibuf (meta msg')) I w1).
Qed.

End DirectPath.

Section KnownAddress.

Variable E : Env.

Ltac ext_step Hacc :=
  apply (bind_ext_pres (frame any_event)); [pres_auto|];
  let F := fresh "F" in
  intros ? ? _ F;
  let H := fresh "Hacc" in
  pose proof (transitivity Hacc F) as H; clear Hacc F; rename H into Hacc.

(** With the address recorded, [SendMsg] is the direct write. *)
Lemma SendMsg_recorded msg w :
  IsValidPushpull msg = true ->
  recorded w (routed_key E msg) (recver (meta msg)) (push (meta msg)) ->
  SendMsg E msg w = SendMsg_direct E msg w.
Proof.
  intros Hv Hrec. unfold SendMsg, SendMsg_direct.
  assert (Hacc : frame any_event w w) by reflexivity.
  ext_step Hacc.
  rewrite !bind_get. destruct (endpoints_ s1 !! recver (meta msg)) as [ep|]; [|reflexivity].
  ext_step Hacc. ext_step Hacc. ext_step Hacc.
  rewrite !bind_get, !bind_log. cbv zeta.
  match goal with
  | |- _ (set_trace (trace ?s ++ [?ev]) ?s) = _ =>
      pose proof (transitivity Hacc (frame_log any_event ev I s)) as Hacc'; simpl in Hacc'
  end.
  clear Hacc. ext_step Hacc'.
  rewrite !bind_get, !bind_log, !bind_put_buf.
  apply SendMsg_route_recorded; [exact Hv|].
  eapply frame_recorded; [|exact Hrec].
  etransitivity; [exact Hacc'|]. etransitivity; [|apply frame_set_msg_bufs].
  match goal with
  | |- frame _ ?s (set_trace (_ ++ [?ev]) _) => exact (frame_log any_event ev I s)
  end.
Qed.

Lemma SendMsg_recorded_no_start msg w :
  IsValidPushpull msg = true ->
  recorded w (routed_key E msg) (recver (meta msg)) (push (meta msg)) ->
  appends not_start w (final (SendMsg E msg w)).
Proof.
  intros Hv Hrec. rewrite (SendMsg_recorded msg w Hv Hrec).
  apply SendMsg_direct_no_start.
Qed.

End KnownAddress.

(** C2. Let the address cache hold a remote address for
    [(key, peer, direction)], as [StoreRemoteInfo] leaves it when the
    rendezvous reply arrives.  Whatever the van does afterwards (sends,
    receives, completions, copy turns), the entry stays, and [SendMsg] of a
    data message for that triple is the direct write: it runs as
    [SendMsg_direct], which neither consults the cache nor starts a
    rendezvous, and the events it appends to the trace contain no
    [RendezvousStart] and no SEND_WITH_IMM. *)
Theorem no_rendezvous_after_first (E : Env) (w w' : World) (k r : Z) (d : bool)
        (l : list Step) (msg : Message) :
  recorded w k r d ->
  steps E l w = Done tt w' ->
  IsValidPushpull msg = true ->
  routed_key E msg = k -> recver (meta msg) = r -> push (meta msg) = d ->
  recorded w' k r d ∧
  SendMsg E msg w' = SendMsg_direct E msg w' ∧
  appends not_start w' (final (SendMsg E msg w')).
Proof.
  intros Hrec Hsteps Hv <- <- <-.
  assert (Hrec' : recorded w' (routed_key E msg) (recver (meta msg)) (push (meta msg))).
  { pose proof (grows_steps E l w) as G. rewrite Hsteps in G. simpl in G.
    eapply grows_recorded; eauto. }
  split; [exact Hrec'|]. split.
  - apply SendMsg_recorded; assumption.
  - apply SendMsg_recorded_no_start; assumption.
Qed.

Lemma no_rendezvous_after_first_witness :
  let w' := final (steps env0 [DoSend push_request] world_known) in
  recorded w' 7 8 true ∧
  SendMsg env0 push_request w' = SendMsg_direct env0 push_request w' ∧
  appends not_start w' (final (SendMsg env0 push_request w')).
Proof.
  apply (no_rendezvous_after_first env0 world_known _ 7 8 true [DoSend push_request]
           push_request).
  - unfold recorded. eexists. vm_compute. reflexivity.
  - vm_compute. reflexivity.
  - reflexivity.
  - reflexivity.
  - reflexivity.
  - reflexivity.
Defined.

(** ** Computations that only read the state *)

Lemma reads_ret {S A} (a : A) : reads (ret a : M S A).
Proof. intros s a' s' [= _ <-]. reflexivity. Qed.

Lemma reads_halt {S A} h : reads (halt h : M S A).
Proof. intros s a s' H. discriminate. Qed.

Lemma reads_get {S} : reads (get : M S S).
Proof. intros s a s' [= _ <-]. reflexivity. Qed.

Lemma reads_CHECK {S} b : reads (CHECK b : M S unit).
Proof. destruct b; [apply reads_ret | apply reads_halt]. Qed.

Lemma reads_bind {S A B} (c : M S A) (k : A -> M S B) :
  reads c -> (∀ a, reads (k a)) -> reads (bind c k).
Proof.
  intros Hc Hk s b s' H. apply bind_inv_Done in H as (a & s1 & H1 & H2).
  apply Hc in H1. subst s1. eapply Hk, H2.
Qed.

Lemma reads_deref {A} (o : option A) : reads (deref o).
Proof. destruct o; [apply reads_ret | apply reads_halt]. Qed.

Ltac reads_auto :=
  repeat lazymatch goal with
         | |- reads (bind _ _) => apply reads_bind; [|intros]
         | |- reads (ret _) => apply reads_ret
         | |- reads (halt _) => apply reads_halt
         | |- reads get => apply reads_get
         | |- reads (CHECK _) => apply reads_CHECK
         | |- reads (deref _) => apply reads_deref
         | |- reads (match ?x with _ => _ end) => destruct x
         | |- reads (let _ := _ in _) => cbv zeta
         end.

Lemma reads_get_ep ep : reads (get_ep ep).
Proof. unfold get_ep. reads_auto. Qed.

Lemma reads_get_trans ep : reads (get_trans ep).
Proof. unfold get_trans. reads_auto. apply reads_get_ep. Qed.

Lemma reads_get_buf p : reads (get_buf p).
Proof. unfold get_buf. reads_auto. Qed.

Lemma reads_AddMeta E ep msg : reads (AddMeta E ep msg).
Proof. unfold AddMeta. reads_auto. apply reads_get_trans. Qed.

Lemma AddMeta_data E ep msg w msg' w' :
  AddMeta E ep msg w = Done msg' w' -> data msg' = data msg.
Proof.
  unfold AddMeta. intros H.
  apply bind_inv_Done in H as (m1 & w1 & H1 & H).
  assert (Hd : data m1 = data msg).
  { destruct (request (meta msg)).
    - apply bind_inv_Done in H1 as (sa & w2 & _ & H1). injection H1 as <- _. reflexivity.
    - injection H1 as <- _. reflexivity. }
  destruct (push (meta m1) && request (meta m1)).
  - apply bind_inv_Done in H as ([] & w2 & _ & H).
    apply bind_inv_Done in H as (t & w3 & _ & H).
    apply bind_inv_Done in H as (vals & w4 & _ & H).
    destruct (mem_mr_map_ t !! sa_data vals); [|discriminate].
    injection H as <- _. exact Hd.
  - injection H as <- _. exact Hd.
Qed.

(** ** A push request with an empty values field *)

Lemma get_trans_final ep w : final (get_trans ep w) = w.
Proof.
  unfold get_trans, get_ep, bind, get, deref.
  destruct (ep_heap w !! ep) as [e|]; [|reflexivity].
  simpl. destruct (trans e); reflexivity.
Qed.

Lemma PrepareData_field_regions ep p sa w n :
  regions_between n n p w ->
  match PrepareData_field ep p sa w with
  | Done _ w' =>
      same_but_bufs w w' ∧
      regions_between (if sa_size sa =? 0 then n else S n)
                      (if sa_size sa =? 0 then n else S n) p w'
  | Halted _ w' => trace w' = trace w
  end.
Proof.
  intros (b & Hb & Hn). unfold PrepareData_field.
  destruct (sa_size sa =? 0).
  { simpl. split; [repeat split | exists b; auto]. }
  unfold bind. pose proof (get_trans_final ep w) as Hf.
  destruct (get_trans ep w) as [t w1|h w1] eqn:Ht; simpl in Hf; subst w1; [|reflexivity].
  unfold deref. destruct (mem_mr_map_ t !! sa_data sa) as [mr|]; [|reflexivity].
  simpl. rewrite (get_buf_Done p w b Hb). simpl.
  split; [repeat split|]. eexists. split; [apply lookup_insert_eq|].
  simpl. rewrite length_app. simpl. lia.
Qed.

Lemma same_but_bufs_trans w1 w2 w3 :
  same_but_bufs w1 w2 -> same_but_bufs w2 w3 -> same_but_bufs w1 w3.
Proof.
  intros (A1 & A2 & A3 & A4) (B1 & B2 & B3 & B4). unfold same_but_bufs.
  split_and!; congruence.
Qed.

Lemma PrepareData_empty_values ep msg p w b k v l :
  push (meta msg) && request (meta msg) = true ->
  msg_bufs w !! p = Some b -> mrs b = [] -> buf_data b = [k; v; l] -> sa_size v = 0 ->
  match PrepareData ep msg p w with
  | Done _ w' =>
      same_but_bufs w w' ∧
      ∃ n, regions_between n n p w' ∧ (n <= 2)%nat ∧
           (sa_size k ≠ 0 ∨ sa_size l ≠ 0 -> (1 <= n)%nat)
  | Halted _ w' => trace w' = trace w
  end.
Proof.
  intros Hpr Hb Hm Hd Hv. unfold PrepareData. rewrite Hpr. simpl.
  rewrite (bind_Done _ _ _ _ _ (get_buf_Done p w b Hb)). rewrite Hd. simpl.
  assert (H0 : regions_between 0 0 p w) by (exists b; rewrite Hm; simpl; auto).
  unfold bind at 1.
  pose proof (PrepareData_field_regions ep p k w 0 H0) as H1.
  destruct (PrepareData_field ep p k w) as [[] w1|h w1]; [|exact H1].
  destruct H1 as [S1 R1]. unfold bind at 1.
  pose proof (PrepareData_field_regions ep p v w1 _ R1) as H2.
  destruct (PrepareData_field ep p v w1) as [[] w2|h w2];
    [|simpl in *; destruct S1 as (_ & ? & _); congruence].
  destruct H2 as [S2 R2]. rewrite Hv in R2. simpl in R2. unfold bind at 1.
  pose proof (PrepareData_field_regions ep p l w2 _ R2) as H3.
  destruct (PrepareData_field ep p l w2) as [[] w3|h w3];
    [|simpl in *; destruct S1 as (_ & ? & _), S2 as (_ & ? & _); congruence].
  destruct H3 as [S3 R3]. simpl. split.
  - eapply same_but_bufs_trans; [|exact S3]. eapply same_but_bufs_trans; eauto.
  - eexists. split; [exact R3|].
    destruct (Z.eqb_spec (sa_size k) 0), (Z.eqb_spec (sa_size l) 0); split; try lia;
      intros [?|?]; (contradiction || lia).
Qed.

Section EmptyValues.

Variable E : Env.

(** With one or two regions in the buffer [RDMAWriteWithImm] posts nothing
    and does not return. *)
Lemma RDMAWriteWithImm_stops ep p raddr rkey idx w :
  regions_between 1 2 p w ->
  match RDMAWriteWithImm E ep p raddr rkey idx w with
  | Done _ _ => False
  | Halted _ w' => trace w' = trace w
  end.
Proof.
  intros (b & Hb & Hn). unfold RDMAWriteWithImm, WaitAndPop_write.
  unfold bind at 1. unfold bind at 1.
  pose proof (reads_get_ep ep w) as Hr.
  destruct (get_ep ep w) as [e w1|h w1] eqn:He.
  2: { unfold get_ep, bind, get, deref in He. destruct (ep_heap w !! ep); [discriminate|].
       injection He as _ <-. reflexivity. }
  specialize (Hr _ _ eq_refl). subst w1.
  destruct (free_write_ctx e) as [|c rest]; [reflexivity|].
  simpl. unfold get_buf, put_buf, bind, get, deref, modify. simpl. rewrite Hb. simpl.
  destruct (length (mrs b)) as [|[|[|n]]] eqn:Hl; try lia; reflexivity.
Qed.

Lemma GetRemoteInfo_Done k d w :
  ∃ m w', GetRemoteInfo k d w = Done m w' ∧ msg_bufs w' = msg_bufs w ∧
          ep_heap w' = ep_heap w ∧ trace w' = trace w.
Proof.
  unfold GetRemoteInfo. rewrite bind_get. destruct d; eexists _, _; split; reflexivity || auto.
Qed.

End EmptyValues.

Lemma stops_bind {A B} (c : M World A) (k : A -> M World B) w :
  pres (appends no_post) c ->
  (∀ a w1, c w = Done a w1 -> stops (k a) w1) ->
  stops (bind c k) w.
Proof.
  intros Hc Hk. unfold stops, bind. specialize (Hc w).
  destruct (c w) as [a w1|h w1]; simpl in Hc.
  - destruct (Hk a w1 eq_refl) as [H1 H2]. split; [exact H1|].
    etransitivity; eauto.
  - split; [reflexivity | exact Hc].
Qed.

Lemma stops_here {A B} (c : M World A) (k : A -> M World B) w :
  match c w with Done _ _ => False | Halted _ w' => trace w' = trace w end ->
  stops (bind c k) w.
Proof.
  intros H. unfold stops, bind. destruct (c w) as [a w1|h w1]; [contradiction|].
  split; [reflexivity | apply appends_same, H].
Qed.

Lemma allocation_no_post ev : allocation ev -> no_post ev.
Proof. destruct ev; simpl; auto. Qed.

#[global] Hint Extern 1 (no_post _) => exact I : pres.

Section EmptyPush.

Variable E : Env.

Lemma SendPushRequest_stops ep msg p rt w :
  rdma_at ep w -> regions_between 1 2 p w ->
  match SendPushRequest E ep msg p rt w with
  | Done _ _ => False
  | Halted _ w' => trace w' = trace w
  end.
Proof.
  intros (e & t & He & Ht & Hi) Hreg. unfold SendPushRequest.
  rewrite (bind_Done _ _ _ _ _ (get_trans_Done ep w e t He Ht)). rewrite Hi.
  unfold RDMATransport_SendPushRequest, Send. destruct rt as [[raddr rkey] idx].
  apply RDMAWriteWithImm_stops, Hreg.
Qed.

(** On an RDMA transport, with the remote address known, the push of an
    empty values field next to a non-empty keys or lengths field posts
    nothing and does not return. *)
Lemma SendMsg_empty_values_stops msg w ep k v l :
  owns_endpoints w ->
  IsValidPushpull msg = true -> push (meta msg) = true -> request (meta msg) = true ->
  data msg = [k; v; l] -> sa_size v = 0 -> sa_size k ≠ 0 ∨ sa_size l ≠ 0 ->
  endpoints_ w !! recver (meta msg) = Some ep -> rdma_at ep w ->
  recorded w (routed_key E msg) (recver (meta msg)) true ->
  stops (SendMsg E msg) w.
Proof.
  intros Hown Hv Hp Hr Hd Hsv Hkl Hep Hrdma Hrec.
  destruct (SendMsg_prefix E msg w Hown)
    as [(w1 & HS & F)|(ep' & p & ibuf & w1 & Hep' & [Htr Hrd] & F & Hbuf & HS)].
  { unfold stops. rewrite HS. split; [reflexivity|]. simpl.
    eapply appends_weaken; [apply allocation_no_post | apply (frame_appends _ _ _ F)]. }
  rewrite Hep in Hep'. injection Hep' as <-.
  assert (Hrec1 : recorded w1 (routed_key E msg) (recver (meta msg)) (push (meta msg))).
  { rewrite Hp. eapply frame_recorded; eauto. }
  assert (Hw1 : appends no_post w w1).
  { eapply appends_weaken; [apply allocation_no_post | apply (frame_appends _ _ _ F)]. }
  enough (Hs : stops (SendMsg_route_direct E ep p ibuf
                        (to_int (wrap64 (to_int (GetPackMetaLen E (meta msg))
                                         + data_size (meta msg)))) msg) w1).
  { unfold stops. rewrite HS, (SendMsg_route_recorded E _ _ _ _ _ _ Hv Hrec1).
    destruct Hs as [H1 H2]. split; [exact H1 | etransitivity; eauto]. }
  unfold SendMsg_route_direct.
  apply stops_bind; [pres_auto|]. intros msg' w2 Hc.
  apply bind_inv_Done in Hc as (msg1 & w1' & Hadd & Hpack).
  pose proof (reads_AddMeta E ep msg _ _ _ Hadd) as ->.
  pose proof (AddMeta_data E ep msg _ _ _ Hadd) as Hd1.
  apply AddMeta_Done in Hadd as (_ & Hp1 & Hr1 & _ & _).
  unfold PackWorkerTensorAddress in Hpack. rewrite Hp1, Hp in Hpack. simpl in Hpack.
  injection Hpack as <- <-.
  apply stops_bind; [pres_auto|]. intros [] w3 Hlog.
  injection Hlog as <-.
  unfold direct_write.
  assert (Hb3 : msg_bufs (set_trace (trace w1 ++ [EvPackMeta ibuf (meta msg1)]) w1) !! p
                = Some {| inline_len := wrap64 (to_int (GetPackMetaLen E (meta msg)));
                          inline_buf := ibuf; reserved_context := 0;
                          buf_data := data msg; mrs := [] |}) by exact Hbuf.
  set (w3 := set_trace _ w1) in *.
  pose proof (PrepareData_empty_values ep msg1 p w3 _ k v l
                ltac:(rewrite Hp1, Hr1, Hp, Hr; reflexivity) Hb3 eq_refl Hd Hsv) as Hprep.
  apply stops_bind; [pres_auto|]. intros [] w4 Hc4. rewrite Hc4 in Hprep.
  destruct Hprep as [(Heh & _) (n & Hreg & Hn2 & Hn1)].
  destruct (GetRemoteInfo_Done (key (meta msg1)) (push (meta msg1)) w4)
    as (m & w5 & Hg & Hmb & Heh5 & _).
  apply stops_bind; [pres_auto|]. intros m' w5' Hg'. rewrite Hg in Hg'.
  injection Hg' as <- <-.
  rewrite Hp1, Hr1, Hp, Hr.
  apply stops_here. apply SendPushRequest_stops.
  - destruct (Hrd Hrdma) as (e & t & He & Ht & Hi). exists e, t.
    rewrite Heh5, Heh. auto.
  - destruct Hreg as (b & Hb & Hlen). exists b. rewrite Hmb.
    split; [exact Hb|]. specialize (Hn1 Hkl). lia.
Qed.

End EmptyPush.

Section EmptyValuesReply.

Variable E : Env.

Lemma StoreRemoteInfo_bufs p raddr rkey idx w :
  ∃ w', StoreRemoteInfo p raddr rkey idx w = Done tt w' ∧
        msg_bufs w' = msg_bufs w ∧ trace w' = trace w.
Proof.
  unfold StoreRemoteInfo. rewrite bind_get.
  destruct (msgbuf_cache_ w !! p) as [[[k d] r]|]; [|eexists; split; reflexivity || auto].
  destruct d; eexists; split; reflexivity || auto.
Qed.

(** The reply of a rendezvous for a buffer with one or two regions: the
    poller posts nothing and does not return. *)
Lemma PollCQ_reply_stops ctx resp w :
  regions_between 1 2 (rr_origin_addr resp) w ->
  stops (PollCQ E (WC_RECV_RendezvousReply ctx resp)) w.
Proof.
  intros Hreg. unfold PollCQ.
  apply stops_bind; [pres_auto|]. intros c w1 Hc.
  pose proof (reads_bind _ _ reads_get (fun w0 => reads_deref _) _ _ _ Hc) as ->.
  cbv zeta.
  apply stops_bind; [pres_auto|]. intros [] w2 Hc2.
  pose proof (reads_CHECK _ _ _ _ Hc2) as ->.
  apply stops_bind; [pres_auto|]. intros e w3 Hc3.
  pose proof (reads_get_ep _ _ _ _ Hc3) as ->.
  apply stops_bind; [pres_auto|]. intros [] w4 Hc4.
  pose proof (reads_CHECK _ _ _ _ Hc4) as ->.
  destruct (StoreRemoteInfo_bufs (rr_origin_addr resp) (rr_addr resp) (rr_rkey resp)
              (rr_idx resp) w) as (w5 & Hs & Hmb & Htr).
  unfold stops. rewrite (bind_Done _ _ _ _ _ Hs).
  destruct (stops_here (RDMAWriteWithImm E (private_data c) (rr_origin_addr resp)
                          (rr_addr resp) (rr_rkey resp) (rr_idx resp))
              (fun _ => ReleaseWorkRequestContext E ctx (private_data c)) w5) as [H1 H2].
  { apply RDMAWriteWithImm_stops. destruct Hreg as (b & Hb & Hl). exists b.
    rewrite Hmb. auto. }
  split; [exact H1|]. etransitivity; [|exact H2]. apply appends_same, Htr.
Qed.

Lemma RecvPullResponse_view ep msg bc n w r w' :
  RecvPullResponse E ep msg bc n w = Done r w' ->
  ∃ keys lens,
    data (fst r) = data msg ++ [keys; {| sa_data := addr (meta msg);
                                         sa_size := wrap64 (val_len (meta msg)) |}; lens] ∧
    sa_size keys = sizeof_Key ∧ sa_size lens = sizeof_int.
Proof.
  unfold RecvPullResponse. intros H.
  apply bind_inv_Done in H as (keys & w1 & Hk & H).
  apply bind_inv_Done in H as (lens & w2 & Hl & H).
  injection H as <- _. exists keys, lens. simpl.
  split; [reflexivity|]. split; eapply CreateFunctionalSarray_size; eauto.
Qed.

End EmptyValuesReply.

(** C6 (as stated) fails: the push of an empty values field to a peer whose
    address is known aborts, in [AddMeta] when the base address of the
    values is not registered, in [RDMAWriteWithImm] when it is; no work
    request is posted, so no metadata write is emitted. *)
Lemma empty_push_aborts_counterexample :
  (∃ w', SendMsg env0 empty_push_request world_known = Halted Abort w' ∧
         trace w' = [EvNew 8000; EvAlloc 64 69632]) ∧
  (∃ w', SendMsg env0 empty_push_request world_registered = Halted Abort w' ∧
         Forall no_post (trace w') ∧ length (trace w') = 3%nat).
Proof.
  split; eexists; (split; [vm_compute; reflexivity|]).
  - vm_compute. reflexivity.
  - split; [|vm_compute; reflexivity]. vm_compute. repeat constructor.
Qed.

(** C6 (amended). A push request whose values field is empty while its keys
    or lengths field is not, sent over an RDMA transport: when the remote
    address of its key is known, [SendMsg] posts no work request, neither the
    RDMA_WRITE of the value segment nor the signaled metadata write, and
    does not return; when the address is asked for by a rendezvous, the same
    holds of the poller when it serves the reply for a buffer in which
    [PrepareData] recorded one or two regions.  A pull response is rebuilt
    by [RecvPullResponse] with a values view of [val_len] bytes at
    [meta.addr], an empty one when [val_len] is 0. *)
Theorem empty_values_push_stops (E : Env) (msg : Message) (w : World) (ep : Z)
        (k v l : SArray) :
  owns_endpoints w ->
  IsValidPushpull msg = true -> push (meta msg) = true -> request (meta msg) = true ->
  data msg = [k; v; l] -> sa_size v = 0 -> sa_size k ≠ 0 ∨ sa_size l ≠ 0 ->
  endpoints_ w !! recver (meta msg) = Some ep -> rdma_at ep w ->
  recorded w (routed_key E msg) (recver (meta msg)) true ->
  (is_done (SendMsg E msg w) = false ∧ appends no_post w (final (SendMsg E msg w))) ∧
  (∀ ctx resp w0,
     regions_between 1 2 (rr_origin_addr resp) w0 ->
     is_done (PollCQ E (WC_RECV_RendezvousReply ctx resp) w0) = false ∧
     appends no_post w0 (final (PollCQ E (WC_RECV_RendezvousReply ctx resp) w0))) ∧
  (∀ ep0 msg0 bc n w0 r w',
     val_len (meta msg0) = 0 ->
     RecvPullResponse E ep0 msg0 bc n w0 = Done r w' ->
     ∃ keys lens,
       data (fst r) = data msg0 ++ [keys; {| sa_data := addr (meta msg0); sa_size := 0 |}; lens]).
Proof.
  intros Hown Hv Hp Hr Hd Hsv Hkl Hep Hrdma Hrec. split; [|split].
  - eapply SendMsg_empty_values_stops; eauto.
  - intros ctx resp w0 Hreg. apply PollCQ_reply_stops, Hreg.
  - intros ep0 msg0 bc n w0 r w' Hz H.
    destruct (RecvPullResponse_view E _ _ _ _ _ _ _ H) as (keys & lens & Hdata & _).
    exists keys, lens. rewrite Hdata, Hz. reflexivity.
Qed.

(** ** Receive operations *)

Section ReceiveViews.

Variable E : Env.

Lemma frame_CreateFunctionalSarray_key :
  pres (frame copies_meta_only) (CreateFunctionalSarray E MetaKey sizeof_Key).
Proof.
  unfold CreateFunctionalSarray. pres_auto; apply frame_log; simpl; auto.
Qed.

Lemma frame_CreateFunctionalSarray_len :
  pres (frame copies_meta_only) (CreateFunctionalSarray E MetaValLen sizeof_int).
Proof.
  unfold CreateFunctionalSarray. pres_auto; apply frame_log; simpl; auto.
Qed.

Hint Resolve frame_CreateFunctionalSarray_key frame_CreateFunctionalSarray_len : pres.

Lemma Recv_no_payload_copy ep msg bc n :
  pres (frame copies_meta_only) (RecvPushRequest E ep msg bc n) ∧
  pres (frame copies_meta_only) (RecvPullResponse E ep msg bc n) ∧
  pres (frame copies_meta_only) (RecvPullRequest E ep msg bc n) ∧
  pres (frame copies_meta_only) (RecvPushResponse ep msg bc n).
Proof.
  split_and!.
  - unfold RecvPushRequest, IPCTransport_RecvPushRequest, RDMATransport_RecvPushRequest.
    pres_auto.
  - unfold RecvPullResponse. pres_auto.
  - unfold RecvPullRequest. pres_auto.
  - unfold RecvPushResponse. pres_auto.
Qed.





End ReceiveViews.



(** The two data-carrying flows return on a landing buffer with three
    fields: the values of a push request are the 1024 bytes one page after
    the start of the landing buffer, those of a pull response the
    [val_len] bytes at [meta.addr]. *)
Lemma Recv_views_example :
  (∃ keys lens w',
     RecvPushRequest env0 1000 (received true true) landing 64 world0
     = Done ({| meta := data_meta true true;
                data := [keys; {| sa_data := 2 ^ 30 + 4096; sa_size := 1024 |}; lens] |},
             1036) w') ∧
  (let msg := with_meta (set_tensor 1024 (2 ^ 20) 99 (data_meta false false))
                        (received false false) in
   ∃ keys lens w',
     RecvPullResponse env0 1000 msg landing_meta_only 64 world0
     = Done ({| meta := meta msg;
                data := [keys; {| sa_data := 2 ^ 20; sa_size := 1024 |}; lens] |},
             1036) w').
Proof. split; eexists _, _, _; vm_compute; reflexivity. Qed.

(** ** The copy workers of the IPC transport *)

(** A job of length 0 is taken off the queue and dropped: nothing is
    copied, which is harmless, and no metadata write is issued. *)
Lemma AsyncCopyThread_turn_empty_job E ep i w e t m rest :
  ep_heap w !! ep = Some e -> trans e = Some t ->
  async_copy_queue_ t !! i = Some (m :: rest) ->
  ac_shutdown m = false -> ac_len m = 0 ->
  ∃ w', AsyncCopyThread_turn E ep i w = Done true w' ∧ trace w' = trace w ∧
        copy_queues w' ep = Some (<[i := rest]> (async_copy_queue_ t)).
Proof.
  intros He Ht Hq Hs Hl. unfold AsyncCopyThread_turn.
  rewrite (bind_Done _ _ _ _ _ (get_trans_Done ep w e t He Ht)).
  unfold deref. rewrite Hq. unfold bind at 1, ret.
  rewrite Hs, Hl. simpl.
  unfold put_trans, put_ep, get_ep, bind, get, deref, modify. rewrite He. simpl.
  eexists. split; [reflexivity|]. split; [reflexivity|].
  unfold copy_queues. simpl. rewrite lookup_insert_eq. reflexivity.
Qed.

(** C9. Evaluation at a pull response with [val_len = 0] on an IPC
    transport: with async copy the job goes to queue
    [0 = counter mod nthreads], the copy worker takes it and drops it, and
    no work request is ever posted for the message; the synchronous path,
    on the same input, copies 0 bytes and posts the signaled metadata
    write. *)
Theorem AsyncCopyThread_drops_empty_pull_response :
  let sent := steps env0 [DoSend pull_response] (world_pull ipc_transport) in
  let served := steps env0 [DoSend pull_response; DoCopy 1000 0] (world_pull ipc_transport) in
  let sync := steps env0 [DoSend pull_response] (world_pull ipc_transport_sync) in
  is_done sent = true ∧
  copy_queues (final sent) 1000 = Some [[empty_job]; []; []; []] ∧
  is_done served = true ∧
  copy_queues (final served) 1000 = Some [[]; []; []; []] ∧
  Forall no_post (trace (final served)) ∧
  is_done sync = true ∧
  ∃ wr, drop 3 (trace (final sync))
        = [EvMemcpy (2 ^ 40 + 7 * 4096000) (AtAddr (2 ^ 20)) 0; EvPostSend 1000 wr] ∧
        opcode wr = IBV_WR_RDMA_WRITE_WITH_IMM ∧ send_flags wr = IBV_SEND_SIGNALED ∧
        imm_data wr = 5 ∧ remote_addr wr = 2 ^ 32.
Proof.
  split; [vm_compute; reflexivity|]. split; [vm_compute; reflexivity|].
  split; [vm_compute; reflexivity|]. split; [vm_compute; reflexivity|].
  split; [vm_compute; repeat constructor|]. split; [vm_compute; reflexivity|].
  eexists. split; [vm_compute; reflexivity|]. repeat split.
Qed.

(** ** Examples for the theorems with hypotheses *)

Lemma world_with_owns_endpoints t : owns_endpoints (world_with t).
Proof.
  intros r ep H. simpl in H. apply lookup_singleton_Some in H as [_ <-].
  simpl. rewrite lookup_singleton_eq. eauto.
Qed.

Lemma empty_values_push_stops_witness :
  is_done (SendMsg env0 empty_push_request world_known) = false ∧
  appends no_post world_known (final (SendMsg env0 empty_push_request world_known)).
Proof.
  refine (proj1 (empty_values_push_stops env0 empty_push_request world_known 1000
                   {| sa_data := 7 * 4096; sa_size := 8 |}
                   {| sa_data := 2 ^ 20; sa_size := 0 |}
                   {| sa_data := 2 ^ 21; sa_size := 4 |}
                   (world_with_owns_endpoints rdma_transport)
                   eq_refl eq_refl eq_refl eq_refl eq_refl _ eq_refl _ _)).
  - left. discriminate.
  - exists (endpoint_with rdma_transport), rdma_transport. repeat split.
  - unfold recorded. eexists. vm_compute. reflexivity.
Defined.

Lemma pull_response_needs_stored_tensor_witness :
  let m := set_tensor 0 (2 ^ 22) 99 (meta pull_response) in
  let w := world_pull ipc_transport in
  PackWorkerTensorAddress pull_response w = Done (with_meta m pull_response) w ∧
  appends (packs m) w (final (SendMsg env0 pull_response w)) ∧
  ∀ r w', SendMsg env0 pull_response w = Done r w' ->
          meta (fst r) = m ∧
          ∃ buf evs, trace w' = trace w ++ evs ∧ EvPackMeta buf m ∈ evs.
Proof.
  exact (pull_response_needs_stored_tensor env0 pull_response (world_pull ipc_transport)
           eq_refl eq_refl eq_refl (world_with_owns_endpoints ipc_transport)).
Defined.

(** * Further properties *)

(** ** Alignment *)

(** [align_ceil v a] is the least multiple of [a] that is at least [v], and
    [align_floor v a] the greatest one that is at most [v], as long as
    [v + a - 1] fits a [size_t]. *)
Theorem align_ceil_least_multiple (v a : Z) :
  0 < a -> 0 <= v -> v + a - 1 < size_max ->
  (align_ceil v a mod a = 0 ∧ v <= align_ceil v a < v + a ∧
   ∀ m, v <= m -> m mod a = 0 -> align_ceil v a <= m) ∧
  (align_floor v a mod a = 0 ∧ v - a < align_floor v a <= v).
Proof.
  intros Ha Hv Hs. unfold align_ceil, align_floor, wrap64.
  assert (Hsm : 0 < size_max) by (unfold size_max; lia).
  rewrite (Z.mod_small (v + a - 1)) by lia.
  pose proof (Z.mod_pos_bound (v + a - 1) a Ha) as Hm1.
  pose proof (Z.mod_pos_bound v a Ha) as Hm2.
  pose proof (Z.mod_le v a Hv Ha) as Hm3.
  rewrite (Z.mod_small (v + a - 1 - (v + a - 1) mod a)) by lia.
  rewrite (Z.mod_small (v - v mod a)) by lia.
  pose proof (Z.div_mod (v + a - 1) a ltac:(lia)) as Hd1.
  pose proof (Z.div_mod v a ltac:(lia)) as Hd2.
  assert (E1 : v + a - 1 - (v + a - 1) mod a = ((v + a - 1) / a) * a) by lia.
  assert (E2 : v - v mod a = (v / a) * a) by lia.
  rewrite E1, E2, !Z.mod_mul by lia.
  split; [split; [reflexivity|split; [lia|]] | split; [reflexivity | lia]].
  intros m Hvm Hma. apply Z.mod_divide in Hma; [|lia]. destruct Hma as [q ->].
  apply Z.mul_le_mono_nonneg_r; [lia|].
  assert ((v + a - 1) / a < q + 1); [|lia].
  apply Z.div_lt_upper_bound; nia.
Qed.

Lemma align_ceil_least_multiple_witness :
  (align_ceil 4097 4096 mod 4096 = 0 ∧ 4097 <= align_ceil 4097 4096 < 4097 + 4096 ∧
   ∀ m, 4097 <= m -> m mod 4096 = 0 -> align_ceil 4097 4096 <= m) ∧
  (align_floor 4097 4096 mod 4096 = 0 ∧ 4097 - 4096 < align_floor 4097 4096 <= 4097).
Proof.
  apply (align_ceil_least_multiple 4097 4096); [lia | lia | unfold size_max; lia].
Defined.

(** ** Decoding a key *)

Lemma wrap64_eq (a b k : Z) : a = b + k * size_max -> wrap64 a = wrap64 b.
Proof. intros ->. unfold wrap64. apply Z_mod_plus_full. Qed.

Lemma wrap64_small (a : Z) : 0 <= a < size_max -> wrap64 a = a.
Proof. apply Z.mod_small. Qed.

Lemma DecodeKey_loop_value (keys : list Z) : ∀ key coef,
  FabricRMAVan.DecodeKey_loop keys (wrap64 key) coef = wrap64 (key + coef * le_value keys).
Proof.
  induction keys as [|c rest IH]; intros key coef; simpl.
  - f_equal. lia.
  - rewrite IH. unfold wrap64 at 2 3 4. unfold size_max.
    rewrite !Z.mod_eq by lia.
    apply (wrap64_eq _ _ (- (key / 2 ^ 64) - (coef * (c mod 256) / 2 ^ 64)
                          - (coef * 256 / 2 ^ 64) * le_value rest)).
    unfold size_max. rewrite !Z.mod_eq by lia. ring.
Qed.

Lemma le_value_bound (l : list Z) : 0 <= le_value l < 256 ^ Z.of_nat (length l).
Proof.
  induction l as [|c rest IH]; simpl length; [simpl; lia|].
  rewrite Nat2Z.inj_succ, Z.pow_succ_r by lia. simpl le_value.
  pose proof (Z.mod_pos_bound c 256 ltac:(lia)). lia.
Qed.

Lemma le_value_app (l1 l2 : list Z) :
  le_value (l1 ++ l2) = le_value l1 + 256 ^ Z.of_nat (length l1) * le_value l2.
Proof.
  induction l1 as [|c rest IH]; simpl length; simpl app; simpl le_value; [lia|].
  rewrite IH, Nat2Z.inj_succ, Z.pow_succ_r by lia. ring.
Qed.

Lemma le_value_le_bytes (n : nat) : ∀ k, le_value (le_bytes n k) = k mod 256 ^ Z.of_nat n.
Proof.
  induction n as [|n IH]; intros k; simpl le_bytes; simpl le_value.
  - rewrite Z.mod_1_r. reflexivity.
  - rewrite IH, Nat2Z.inj_succ, Z.pow_succ_r by lia.
    rewrite Z.mod_mod by lia.
    rewrite (Z.rem_mul_r k 256 (256 ^ Z.of_nat n)) by lia. reflexivity.
Qed.

(** [DecodeKey] reads the array as a number in base 256, the least
    significant byte first, and only the first eight bytes count: from the
    ninth byte on [coef] is [0]. *)
Theorem DecodeKey_first_eight_bytes (keys : list Z) :
  Z.of_nat (length keys) < 2 ^ 32 ->
  FabricRMAVan.DecodeKey keys = Some (le_value (take 8 keys)) ∧
  FabricRMAVan.DecodeKey keys = FabricRMAVan.DecodeKey (take 8 keys).
Proof.
  intros Hlen.
  assert (Hval : ∀ l, Z.of_nat (length l) < 2 ^ 32 ->
                      FabricRMAVan.DecodeKey l = Some (le_value (take 8 l))).
  { intros l Hl. unfold FabricRMAVan.DecodeKey.
    destruct (Z.leb_spec (2 ^ 32) (Z.of_nat (length l))) as [?|_]; [lia|].
    f_equal. change 0 with (wrap64 0) at 1. rewrite DecodeKey_loop_value.
    rewrite <- (take_drop 8 l) at 1. rewrite le_value_app.
    pose proof (le_value_bound (take 8 l)) as Hb.
    assert (Hpow : 256 ^ Z.of_nat (length (take 8 l)) <= size_max).
    { unfold size_max. change (2 ^ 64) with (256 ^ 8).
      apply Z.pow_le_mono_r; [lia|]. rewrite length_take. lia. }
    destruct (decide (length l <= 8)%nat) as [Hs|Hs].
    - rewrite drop_ge by lia. simpl le_value.
      rewrite wrap64_small; lia.
    - rewrite length_take, Nat.min_l by lia.
      rewrite (wrap64_eq _ (le_value (take 8 l)) (le_value (drop 8 l))).
      + apply wrap64_small. rewrite length_take, Nat.min_l in Hb by lia.
        unfold size_max. change (2 ^ 64) with (256 ^ Z.of_nat 8). lia.
      + unfold size_max. change (2 ^ 64) with (256 ^ Z.of_nat 8). ring. }
  split; [apply Hval, Hlen|].
  rewrite (Hval keys Hlen), Hval.
  - rewrite take_take. reflexivity.
  - rewrite length_take. lia.
Qed.

Lemma DecodeKey_first_eight_bytes_witness :
  FabricRMAVan.DecodeKey [1; 2; 0; 0; 0; 0; 0; 0; 77; -1] = Some 513 ∧
  FabricRMAVan.DecodeKey [1; 2; 0; 0; 0; 0; 0; 0; 77; -1]
  = FabricRMAVan.DecodeKey [1; 2; 0; 0; 0; 0; 0; 0].
Proof.
  apply (DecodeKey_first_eight_bytes [1; 2; 0; 0; 0; 0; 0; 0; 77; -1]).
  simpl. lia.
Defined.

(** Decoding the eight bytes of a key, the least significant first, gives
    the key back. *)
Theorem DecodeKey_round_trip (k : Z) :
  0 <= k < 2 ^ 64 -> FabricRMAVan.DecodeKey (le_bytes 8 k) = Some k.
Proof.
  intros Hk.
  assert (Hlen : length (le_bytes 8 k) = 8%nat) by reflexivity.
  unfold FabricRMAVan.DecodeKey. rewrite Hlen.
  destruct (Z.leb_spec (2 ^ 32) (Z.of_nat 8)) as [?|_]; [lia|].
  f_equal. change 0 with (wrap64 0) at 1. rewrite DecodeKey_loop_value.
  rewrite le_value_le_bytes. change (256 ^ Z.of_nat 8) with (2 ^ 64).
  rewrite Z.mod_small by lia. rewrite wrap64_small by (unfold size_max; lia). lia.
Qed.

Lemma DecodeKey_round_trip_witness :
  FabricRMAVan.DecodeKey (le_bytes 8 (2 ^ 63 + 12345)) = Some (2 ^ 63 + 12345).
Proof. apply (DecodeKey_round_trip (2 ^ 63 + 12345)). lia. Defined.

(** ** The address pool: round trip and accounting *)

(** What [StoreAddress] stored under the index it returned is what
    [GetAddressAndRelease] gives back for this index; the table is then as
    it was before the store, the index is at the back of the free queue, and
    releasing the same index once more aborts. *)
Theorem AddressPool_store_release_round_trip (p p' : AddressPool.t) (ptr : Z) (idx : nat) :
  AddressPool.StoreAddress ptr p = Done idx p' ->
  ∃ p'', AddressPool.GetAddressAndRelease idx p' = Done ptr p'' ∧
         AddressPool.table_ p'' = AddressPool.table_ p ∧
         AddressPool.indices_ p'' = tail (AddressPool.indices_ p) ++ [idx] ∧
         AddressPool.GetAddressAndRelease idx p'' = Halted Abort p''.
Proof.
  intros H. apply AddressPoolFacts.StoreAddress_Done in H as (Hptr & Hq & Hs & Ht).
  assert (Hlt : (idx < length (AddressPool.table_ p))%nat) by (eapply lookup_lt_Some; eauto).
  assert (Hl : AddressPool.table_ p' !! idx = Some ptr).
  { rewrite Ht. apply list_lookup_insert_eq, Hlt. }
  unfold AddressPool.GetAddressAndRelease at 1. rewrite Hl.
  destruct (Z.eqb_spec ptr 0) as [|_]; [contradiction|].
  eexists. split; [reflexivity|]. cbn [AddressPool.table_ AddressPool.indices_].
  assert (Hback : <[idx := 0]> (AddressPool.table_ p') = AddressPool.table_ p).
  { rewrite Ht, list_insert_insert_eq. apply list_insert_id, Hs. }
  split; [exact Hback|]. split; [rewrite Hq; reflexivity|].
  unfold AddressPool.GetAddressAndRelease. cbn [AddressPool.table_].
  rewrite Hback, Hs. reflexivity.
Qed.

Lemma AddressPool_store_release_round_trip_witness :
  ∃ p'', AddressPool.GetAddressAndRelease 0
           {| AddressPool.indices_ := seq 1 511;
              AddressPool.table_ := <[0%nat := 4242]> (replicate 512 0) |} = Done 4242 p'' ∧
         AddressPool.table_ p'' = AddressPool.table_ AddressPool.init ∧
         AddressPool.indices_ p'' = tail (AddressPool.indices_ AddressPool.init) ++ [0%nat] ∧
         AddressPool.GetAddressAndRelease 0 p'' = Halted Abort p''.
Proof.
  apply (AddressPool_store_release_round_trip AddressPool.init _ 4242 0). reflexivity.
Defined.

Lemma live_insert (l : list Z) (i : nat) (x y : Z) :
  l !! i = Some x ->
  (length (filter (λ q, q ≠ 0%Z) (<[i := y]> l)) + (if decide (x ≠ 0%Z) then 1 else 0)
   = length (filter (λ q, q ≠ 0%Z) l) + (if decide (y ≠ 0%Z) then 1 else 0))%nat.
Proof.
  intros Hi. assert (Hlt : (i < length l)%nat) by (eapply lookup_lt_Some; eauto).
  rewrite insert_take_drop by exact Hlt.
  rewrite <- (take_drop_middle l i x Hi) at 3.
  rewrite !filter_app, !length_app, !filter_cons.
  destruct (decide (x ≠ 0)), (decide (y ≠ 0)); simpl; lia.
Qed.

Lemma exec_live (cs : list AddressPool.call) : ∀ p out rel q,
  AddressPool.exec cs p = Some (out, rel, q) ->
  (AddressPool.live q + length rel = AddressPool.live p + length out)%nat.
Proof.
  induction cs as [|c cs IH]; intros p out rel q H; simpl in H.
  - injection H as <- <- <-. simpl. lia.
  - destruct c as [ptr|index].
    + destruct (AddressPool.StoreAddress ptr p) as [idx p'|] eqn:Hs; [|discriminate].
      destruct (AddressPool.exec cs p') as [[[out' rel'] q']|] eqn:He; [|discriminate].
      injection H as <- <- <-. specialize (IH _ _ _ _ He).
      apply AddressPoolFacts.StoreAddress_Done in Hs as (Hptr & _ & Hs & Ht).
      pose proof (live_insert _ _ _ ptr Hs) as Hl.
      unfold AddressPool.live in *. rewrite Ht in IH.
      destruct (decide (0 ≠ 0)); [congruence|].
      destruct (decide (ptr ≠ 0)); [|contradiction]. simpl length. lia.
    + destruct (AddressPool.GetAddressAndRelease index p) as [ptr p'|] eqn:Hs; [|discriminate].
      destruct (AddressPool.exec cs p') as [[[out' rel'] q']|] eqn:He; [|discriminate].
      injection H as <- <- <-. specialize (IH _ _ _ _ He).
      apply AddressPoolFacts.GetAddressAndRelease_Done in Hs as (Hptr & Hs & _ & Ht).
      pose proof (live_insert _ _ _ 0 Hs) as Hl.
      unfold AddressPool.live in *. rewrite Ht in IH.
      destruct (decide (0 ≠ 0)); [congruence|].
      destruct (decide (ptr ≠ 0)); [|contradiction]. simpl length. lia.
Qed.

(** After any calls that returned, the number of populated slots is the
    number of stores minus the number of releases, and the populated slots
    and the free queue add up to the 512 entries. *)
Theorem AddressPool_live_count (cs : list AddressPool.call) out rel p :
  AddressPool.exec cs AddressPool.init = Some (out, rel, p) ->
  (AddressPool.live p + length rel = length out)%nat ∧
  (AddressPool.live p + length (AddressPool.indices_ p) = AddressPool.kMaxEntries)%nat.
Proof.
  intros H. pose proof (exec_live cs _ _ _ _ H) as Hl.
  assert (H0 : AddressPool.live AddressPool.init = 0%nat) by (vm_compute; reflexivity).
  rewrite H0 in Hl. split; [lia|].
  destruct (AddressPoolFacts.exec_queue cs _ _ _ _ AddressPoolFacts.wf_init H) as [_ Hq].
  apply (f_equal length) in Hq. rewrite !length_app in Hq.
  change (length (AddressPool.indices_ AddressPool.init)) with AddressPool.kMaxEntries in Hq.
  lia.
Qed.

Lemma AddressPool_live_count_witness :
  ∃ out rel p,
    AddressPool.exec [AddressPool.Store 100; AddressPool.Store 200; AddressPool.Release 1]
                     AddressPool.init = Some (out, rel, p) ∧
    (AddressPool.live p + length rel = length out)%nat ∧
    (AddressPool.live p + length (AddressPool.indices_ p) = AddressPool.kMaxEntries)%nat.
Proof.
  eexists _, _, _. split; [vm_compute; reflexivity|].
  apply (AddressPool_live_count
           [AddressPool.Store 100; AddressPool.Store 200; AddressPool.Release 1]).
  vm_compute; reflexivity.
Defined.

(** ** Sending over a transport *)

Lemma RDMAWriteWithImm_no_region (E : Env) (w : World) (ep msg_buf raddr rkey idx : Z)
      (e : Endpoint) (t : Transport) (b : MessageBuffer) (c : Z) (rest : list Z)
      (ctx : WRContext) :
  ep_heap w !! ep = Some e -> trans e = Some t -> free_write_ctx e = c :: rest -> c ≠ 0 ->
  ctx_heap w !! c = Some ctx -> msg_bufs w !! msg_buf = Some b -> accepts E ep ->
  mrs b = [] ->
  RDMAWriteWithImm E ep msg_buf raddr rkey idx w
  = Done tt
      (set_trace (trace w ++ [EvPostSend ep (meta_wr E c b raddr rkey idx)])
         (set_scratch (<[mr_addr (ctx_buffer ctx) := msg_buf]> (scratch w))
            (set_msg_bufs (<[msg_buf := set_reserved c b]> (msg_bufs w))
               (set_ep_heap (<[ep := set_free_write rest e]> (ep_heap w)) w)))).
Proof.
  intros Hep Htr Hfree Hc Hctx Hbuf Hpost Hmrs.
  unfold RDMAWriteWithImm, WaitAndPop_write, get_trans, get_ep, put_ep, get_buf, put_buf,
    get_ctx, post_send, log, deref, bind, get, modify, ret, halt.
  rewrite Hep. cbn. rewrite Hfree. cbn. rewrite Hbuf. cbn. rewrite Hmrs. cbn.
  destruct (Z.eqb_spec c 0) as [|_]; [contradiction|]. cbn.
  rewrite Hctx. cbn. rewrite Hpost. reflexivity.
Qed.



Lemma post_send_accepted (E : Env) (ep : Z) (wr : ibv_send_wr) (w : World) :
  accepts E ep ->
  post_send E ep wr w = Done tt (set_trace (trace w ++ [EvPostSend ep wr]) w).
Proof. intros H. unfold post_send, bind, get, CHECK, log, modify. rewrite H. reflexivity. Qed.

(** A pull response over an RDMA transport: the values, [data[1]] of the
    message buffer, are written without signal to the address and with the
    key that the meta carries ([meta.addr], [meta.option]), then the meta is
    written with signal to the rendezvous address.  When the values are not
    registered nothing is posted and the process aborts. *)
Theorem RDMA_pull_response_posts (E : Env) (w : World) (ep msg_buf raddr rkey idx c : Z)
        (msg : Message) (t : Transport) (b : MessageBuffer) (vals : SArray) :
  next_write_ctx w ep t c -> is_ipc t = false ->
  msg_bufs w !! msg_buf = Some b -> mrs b = [] -> buf_data b !! 1%nat = Some vals ->
  accepts E ep ->
  match mem_mr_map_ t !! sa_data vals with
  | Some mr =>
      ∃ w', SendPullResponse E ep msg msg_buf (raddr, rkey, idx) w = Done tt w' ∧
            trace w' = trace w ++
              [EvPostSend ep (pull_values_wr vals mr (addr (meta msg))
                                             (wrap32 (option_ (meta msg))));
               EvPostSend ep (meta_wr E c b raddr rkey idx)]
  | None => SendPullResponse E ep msg msg_buf (raddr, rkey, idx) w = Halted Abort w
  end.
Proof.
  intros (e & rest & ctx & Hep & Htr & Hfree & Hc & Hctx) Hipc Hbuf Hmrs Hvals Hpost.
  unfold SendPullResponse. rewrite (bind_Done _ _ _ _ _ (get_trans_Done ep w e t Hep Htr)).
  rewrite Hipc. unfold RDMATransport_SendPullResponse.
  rewrite (bind_Done _ _ _ _ _ (get_trans_Done ep w e t Hep Htr)).
  rewrite (bind_Done _ _ _ _ _ (get_buf_Done msg_buf w b Hbuf)).
  rewrite Hvals. cbn [deref]. rewrite bind_Done with (a := vals) (s' := w) by reflexivity.
  destruct (mem_mr_map_ t !! sa_data vals) as [mr|]; [|reflexivity].
  rewrite (bind_Done _ _ _ _ _ (post_send_accepted E ep _ w Hpost)).
  unfold Send.
  rewrite (RDMAWriteWithImm_no_region E _ ep msg_buf raddr rkey idx e t b c rest ctx);
    try assumption.
  eexists. split; [reflexivity|]. cbn. rewrite <- app_assoc. reflexivity.
Qed.

Lemma RDMA_pull_response_posts_witness :
  ∃ w', SendPullResponse env0 1000 values_pull_response 500 (2 ^ 32, 77, 5)
          (world_sending registered_transport values_pull_response) = Done tt w' ∧
        trace w' =
          [EvPostSend 1000
             {| wr_id := 2 ^ 22; opcode := IBV_WR_RDMA_WRITE; imm_data := 0; send_flags := 0;
                sg_list := [ {| sge_addr := 2 ^ 20; sge_length := 1024;
                                sge_lkey := 2 ^ 20 + 1 |} ];
                remote_addr := 2 ^ 22; wr_rkey := 99 |};
           EvPostSend 1000 (meta_wr env0 2200 (buffer_of values_pull_response) (2 ^ 32) 77 5)].
Proof.
  apply (RDMA_pull_response_posts env0 (world_sending registered_transport values_pull_response)
           1000 500 (2 ^ 32) 77 5 2200 values_pull_response registered_transport
           (buffer_of values_pull_response) {| sa_data := 2 ^ 20; sa_size := 1024 |}).
  - eexists _, _, _. split; [reflexivity|]. split; [reflexivity|]. split; [reflexivity|].
    split; [discriminate | reflexivity].
  - reflexivity.
  - reflexivity.
  - reflexivity.
  - reflexivity.
  - intros tr wr. reflexivity.
Defined.

Lemma SendRendezvousBegin_run (E : Env) (w : World) (ep msg_buf cw cs : Z) (msg : Message)
      (e : Endpoint) (b : MessageBuffer) (restw rests : list Z) (ctx : WRContext) :
  ep_heap w !! ep = Some e ->
  free_write_ctx e = cw :: restw -> free_start_ctx e = cs :: rests ->
  ctx_heap w !! cs = Some ctx -> msg_bufs w !! msg_buf = Some b ->
  buf_data b = data msg -> (length (data msg) <= kMaxDataFields)%nat -> accepts E ep ->
  SendRendezvousBegin E ep msg msg_buf w
  = Done tt
      (set_trace (trace w ++
                    [EvStart (mr_addr (ctx_buffer ctx))
                       {| rs_meta_len := inline_len b;
                          rs_data_num := Z.of_nat (length (data msg));
                          rs_data_len := map sa_size (data msg);
                          rs_origin_addr := msg_buf |};
                     EvPostSend ep (start_wr cs ctx)])
         (set_msg_bufs (<[msg_buf := set_reserved cw b]> (msg_bufs w))
            (set_ep_heap (<[ep := set_free_start rests (set_free_write restw e)]> (ep_heap w))
               w))).
Proof.
  intros Hep Hfw Hfs Hctx Hbuf Hdata Hlen Hpost.
  assert (Hc : (kMaxDataFields <? length (data msg))%nat
               || (length (data msg) <? length (data msg))%nat = false).
  { rewrite Nat.ltb_irrefl, orb_false_r. apply Nat.ltb_ge, Hlen. }
  unfold SendRendezvousBegin, WaitAndPop_write, WaitAndPop_start, get_ep, put_ep, get_buf,
    put_buf, get_ctx, post_send, log, deref, bind, get, modify, ret, halt.
  rewrite Hep. cbn -[Nat.ltb]. rewrite Hfw. cbn -[Nat.ltb]. rewrite lookup_insert_eq.
  cbn -[Nat.ltb]. rewrite Hfs. cbn -[Nat.ltb]. rewrite Hbuf. cbn -[Nat.ltb].
  rewrite Hctx. cbn -[Nat.ltb]. rewrite Hdata, Hc. cbn. rewrite Hpost. cbn.
  rewrite firstn_all, insert_insert_eq, <- app_assoc. reflexivity.
Qed.

Lemma PollCQ_send_start_run (E : Env) (w : World) (ep cs : Z) (e : Endpoint) (ctx : WRContext) :
  ctx_heap w !! cs = Some ctx -> private_data ctx = ep -> ep ≠ 0 ->
  ctx_type ctx = kRendezvousStartContext -> ep_heap w !! ep = Some e ->
  PollCQ E (WC_SEND cs) w
  = Done tt (set_ep_heap (<[ep := set_free_start (free_start_ctx e ++ [cs]) e]> (ep_heap w)) w).
Proof.
  intros Hctx Hp Hne Hty Hep.
  unfold PollCQ, ReleaseWorkRequestContext, get_ctx, get_ep, put_ep, deref, bind, get,
    modify, ret, halt.
  rewrite Hctx. cbn. rewrite Hp. destruct (Z.eqb_spec ep 0) as [|_]; [contradiction|]. cbn.
  rewrite Hctx. cbn. rewrite Hep. cbn. rewrite Hty. reflexivity.
Qed.

Lemma PollCQ_write_run (E : Env) (w : World) (ep c msg_buf : Z) (e : Endpoint)
      (ctx : WRContext) (b : MessageBuffer) :
  ctx_heap w !! c = Some ctx -> private_data ctx = ep -> ep ≠ 0 ->
  ctx_type ctx = kWriteContext -> ep_heap w !! ep = Some e ->
  scratch w !! mr_addr (ctx_buffer ctx) = Some msg_buf -> msg_bufs w !! msg_buf = Some b ->
  PollCQ E (WC_RDMA_WRITE c) w
  = Done tt
      (set_ep_heap (<[ep := set_free_write (free_write_ctx e ++ [c]) e]> (ep_heap w))
         (set_trace (trace w ++ [EvFree (inline_buf b); EvDelete msg_buf])
            (set_msg_bufs (delete msg_buf (msg_bufs w)) w))).
Proof.
  intros Hctx Hp Hne Hty Hep Hs Hbuf.
  unfold PollCQ, ReleaseWorkRequestContext, get_ctx, get_ep, put_ep, get_buf, log, deref,
    bind, get, modify, ret, halt.
  rewrite Hctx. cbn. rewrite Hp. destruct (Z.eqb_spec ep 0) as [|_]; [contradiction|]. cbn.
  rewrite Hs. cbn. rewrite Hbuf. cbn. rewrite Hctx. cbn. rewrite Hep. cbn. rewrite Hty.
  rewrite <- app_assoc. reflexivity.
Qed.

Lemma StoreRemoteInfo_keeps (p raddr rkey idx : Z) (w : World) :
  ∃ w', StoreRemoteInfo p raddr rkey idx w = Done tt w' ∧
        ep_heap w' = ep_heap w ∧ ctx_heap w' = ctx_heap w ∧ msg_bufs w' = msg_bufs w ∧
        scratch w' = scratch w ∧ trace w' = trace w.
Proof.
  unfold StoreRemoteInfo. rewrite bind_get.
  destruct (msgbuf_cache_ w !! p) as [[[k d] r]|]; [|eexists; split; [reflexivity|auto 10]].
  destruct d; eexists; (split; [reflexivity|auto 10]).
Qed.

Lemma get_ctx_Done (c : Z) (w : World) (ctx : WRContext) :
  ctx_heap w !! c = Some ctx -> get_ctx c w = Done ctx w.
Proof. intros H. unfold get_ctx, bind, get, deref. rewrite H. reflexivity. Qed.

Lemma PollCQ_reply_run (E : Env) (w : World) (ep rc c : Z) (resp : RendezvousReply)
      (e : Endpoint) (t : Transport) (rest : list Z) (ctxr ctx : WRContext)
      (b : MessageBuffer) :
  ctx_heap w !! rc = Some ctxr -> private_data ctxr = ep -> ep ≠ 0 ->
  ctx_type ctxr = kReceiveContext ->
  ep_heap w !! ep = Some e -> trans e = Some t -> free_write_ctx e = c :: rest -> c ≠ 0 ->
  ctx_heap w !! c = Some ctx -> msg_bufs w !! rr_origin_addr resp = Some b -> mrs b = [] ->
  accepts E ep -> accepts_recv E ep ->
  ∃ w', PollCQ E (WC_RECV_RendezvousReply rc resp) w = Done tt w' ∧
        ep_heap w' = <[ep := set_free_write rest e]> (ep_heap w) ∧
        ctx_heap w' = ctx_heap w ∧
        msg_bufs w' = <[rr_origin_addr resp := set_reserved c b]> (msg_bufs w) ∧
        scratch w' = <[mr_addr (ctx_buffer ctx) := rr_origin_addr resp]> (scratch w) ∧
        trace w' = trace w ++
          [EvPostSend ep (meta_wr E c b (rr_addr resp) (rr_rkey resp) (rr_idx resp));
           EvPostRecv ep rc].
Proof.
  intros Hrc Hp Hne Hty Hep Htr Hfree Hc Hctx Hbuf Hmrs Hpost Hrecv.
  unfold PollCQ. rewrite (bind_Done _ _ _ _ _ (get_ctx_Done rc w ctxr Hrc)).
  cbv zeta. rewrite Hp. destruct (Z.eqb_spec ep 0) as [|_]; [contradiction|].
  cbn [negb]. rewrite bind_CHECK_true.
  rewrite (bind_Done _ _ _ _ _ (get_ep_Done ep w e Hep)).
  rewrite bool_decide_eq_true_2 by (rewrite Htr; eauto). rewrite bind_CHECK_true.
  destruct (StoreRemoteInfo_keeps (rr_origin_addr resp) (rr_addr resp) (rr_rkey resp)
              (rr_idx resp) w) as (w1 & Hs & E1 & E2 & E3 & E4 & E5).
  rewrite (bind_Done _ _ _ _ _ Hs).
  rewrite (bind_Done _ _ _ _ _
             (RDMAWriteWithImm_no_region E w1 ep _ _ _ _ e t b c rest ctx
                ltac:(rewrite E1; exact Hep) Htr Hfree Hc ltac:(rewrite E2; exact Hctx)
                ltac:(rewrite E3; exact Hbuf) Hpost Hmrs)).
  unfold ReleaseWorkRequestContext, get_ctx, get_ep, log, deref, bind, get, modify, ret, halt,
    CHECK.
  cbn. rewrite E2, Hrc. cbn. rewrite lookup_insert_eq. cbn. rewrite Hty. rewrite Hrecv. cbn.
  eexists. split; [reflexivity|]. cbn. rewrite E1, E3, E4, E5, <- app_assoc. auto 10.
Qed.

(** A rendezvous costs the endpoint a write context.  [SendRendezvousBegin]
    reserves the first free write context for the buffer; when the reply
    arrives, [RDMAWriteWithImm] takes the next one and writes it over the
    reservation; the completion of the write returns this second context.
    The start context comes back, the message buffer is deleted, and the
    first write context is in no queue any more. *)
Theorem rendezvous_costs_a_write_context (E : Env) (w : World) (ep msg_buf c1 c2 cs rc : Z)
        (msg : Message) (resp : RendezvousReply) (e : Endpoint) (t : Transport)
        (b : MessageBuffer) (rest rests : list Z) (ctxs : WRContext) :
  ep ≠ 0 -> ep_heap w !! ep = Some e -> trans e = Some t ->
  free_write_ctx e = c1 :: c2 :: rest -> free_start_ctx e = cs :: rests ->
  c2 ≠ 0 ->
  ctx_heap w !! cs = Some ctxs -> ctx_type ctxs = kRendezvousStartContext ->
  private_data ctxs = ep ->
  context_of w c2 kWriteContext ep ->
  context_of w rc kReceiveContext ep ->
  msg_bufs w !! msg_buf = Some b -> buf_data b = data msg -> mrs b = [] ->
  (length (data msg) <= kMaxDataFields)%nat ->
  rr_origin_addr resp = msg_buf ->
  accepts E ep -> accepts_recv E ep ->
  ∃ w' e',
    rendezvous E ep msg msg_buf cs rc resp c2 w = Done tt w' ∧
    ep_heap w' !! ep = Some e' ∧
    free_write_ctx e' = rest ++ [c2] ∧
    free_start_ctx e' = rests ++ [cs] ∧
    free_reply_ctx e' = free_reply_ctx e ∧
    msg_bufs w' !! msg_buf = None ∧
    trace w' = trace w ++
      [EvStart (mr_addr (ctx_buffer ctxs))
         {| rs_meta_len := inline_len b; rs_data_num := Z.of_nat (length (data msg));
            rs_data_len := map sa_size (data msg); rs_origin_addr := msg_buf |};
       EvPostSend ep (start_wr cs ctxs);
       EvPostSend ep (meta_wr E c2 b (rr_addr resp) (rr_rkey resp) (rr_idx resp));
       EvPostRecv ep rc; EvFree (inline_buf b); EvDelete msg_buf].
Proof.
  intros Hne Hep Htr Hfw Hfs Hc2 Hcs Htys Hps (ctx2 & Hctx2 & Hty2 & Hp2)
    (ctxr & Hrc & Htyr & Hpr) Hbuf Hdata Hmrs Hlen Horigin Hpost Hrecv.
  unfold rendezvous.
  rewrite (bind_Done _ _ _ _ _
             (SendRendezvousBegin_run E w ep msg_buf c1 cs msg e b _ rests ctxs
                Hep Hfw Hfs Hcs Hbuf Hdata Hlen Hpost)).
  match goal with |- context [bind (PollCQ E (WC_SEND cs)) _ ?w1] => set (W1 := w1) end.
  rewrite (bind_Done _ _ _ _ _
             (PollCQ_send_start_run E W1 ep cs _ ctxs Hcs Hps Hne Htys
                ltac:(apply lookup_insert_eq))).
  match goal with
  | |- context [bind (PollCQ E (WC_RECV_RendezvousReply rc resp)) _ ?w2] => set (W2 := w2)
  end.
  destruct (PollCQ_reply_run E W2 ep rc c2 resp _ t rest ctxr ctx2 (set_reserved c1 b)
              Hrc Hpr Hne Htyr ltac:(apply lookup_insert_eq) Htr eq_refl Hc2 Hctx2
              ltac:(rewrite Horigin; apply lookup_insert_eq) Hmrs Hpost Hrecv)
    as (w3 & Hrun & E1 & E2 & E3 & E4 & E5).
  rewrite (bind_Done _ _ _ _ _ Hrun).
  erewrite (PollCQ_write_run E w3 ep c2 msg_buf _ ctx2 (set_reserved c2 (set_reserved c1 b)));
    [| rewrite E2; exact Hctx2 | exact Hp2 | exact Hne | exact Hty2
     | rewrite E1; apply lookup_insert_eq
     | rewrite E4, Horigin; apply lookup_insert_eq
     | rewrite E3, Horigin; apply lookup_insert_eq].
  eexists _, _. split; [reflexivity|].
  cbn. rewrite lookup_insert_eq, lookup_delete_eq. split; [reflexivity|].
  split; [reflexivity|]. split; [reflexivity|]. split; [reflexivity|]. split; [reflexivity|].
  rewrite E5. subst W2 W1. cbn. rewrite <- !app_assoc. reflexivity.
Qed.

Lemma rendezvous_costs_a_write_context_witness :
  ∃ w' e',
    rendezvous env0 1000 barrier_message 500 2000 2300
      {| rr_addr := 2 ^ 32; rr_origin_addr := 500; rr_rkey := 77; rr_idx := 5 |} 2201
      (world_sending rdma_transport barrier_message) = Done tt w' ∧
    ep_heap w' !! 1000 = Some e' ∧
    free_write_ctx e' = [] ++ [2201] ∧
    free_start_ctx e' = [2001] ++ [2000] ∧
    free_reply_ctx e' = free_reply_ctx (endpoint_with rdma_transport) ∧
    msg_bufs w' !! 500 = None ∧
    trace w' = trace (world_sending rdma_transport barrier_message) ++
      [EvStart (mr_addr (ctx_buffer (context_at kRendezvousStartContext 3000 1000)))
         {| rs_meta_len := inline_len (buffer_of barrier_message);
            rs_data_num := Z.of_nat (length (data barrier_message));
            rs_data_len := map sa_size (data barrier_message); rs_origin_addr := 500 |};
       EvPostSend 1000 (start_wr 2000 (context_at kRendezvousStartContext 3000 1000));
       EvPostSend 1000 (meta_wr env0 2201 (buffer_of barrier_message) (2 ^ 32) 77 5);
       EvPostRecv 1000 2300; EvFree (inline_buf (buffer_of barrier_message)); EvDelete 500].
Proof.
  apply (rendezvous_costs_a_write_context env0 (world_sending rdma_transport barrier_message)
           1000 500 2200 2201 2000 2300 barrier_message
           {| rr_addr := 2 ^ 32; rr_origin_addr := 500; rr_rkey := 77; rr_idx := 5 |}
           (endpoint_with rdma_transport) rdma_transport (buffer_of barrier_message)
           [] [2001] (context_at kRendezvousStartContext 3000 1000)).
  all: try reflexivity.
  - discriminate.
  - discriminate.
  - eexists. repeat split; reflexivity.
  - eexists. repeat split; reflexivity.
  - simpl. unfold kMaxDataFields. lia.
  - intros tr wr. reflexivity.
  - intros tr c. reflexivity.
Defined.

(** ** Registering and preparing the data fields *)

Lemma same_but_endpoints_refl (w : World) : same_but_endpoints w w.
Proof. unfold same_but_endpoints. auto 12. Qed.

Lemma same_but_endpoints_trans (w1 w2 w3 : World) :
  same_but_endpoints w1 w2 -> same_but_endpoints w2 w3 -> same_but_endpoints w1 w3.
Proof.
  unfold same_but_endpoints.
  intros (A1 & A2 & A3 & A4 & A5 & A6 & A7 & A8 & A9 & A10 & A11)
         (B1 & B2 & B3 & B4 & B5 & B6 & B7 & B8 & B9 & B10 & B11).
  repeat split; congruence.
Qed.

(** A field that is empty or already registered is left alone. *)
Lemma RegisterMemory_field_known (E : Env) (ep : Z) (sa : SArray) (w : World) :
  has_transport ep w ->
  sa_size sa = 0 ∨ (∃ mr, registered w ep (sa_data sa) mr) ->
  RegisterMemory_field E ep sa w = Done tt w.
Proof.
  intros (e & t & He & Ht) H. unfold RegisterMemory_field.
  destruct (Z.eqb_spec (sa_size sa) 0) as [|Hne]; [reflexivity|].
  destruct H as [H|(mr & e' & t' & He' & Ht' & Hmr)]; [contradiction|].
  rewrite (bind_Done _ _ _ _ _ (get_trans_Done ep w e' t' He' Ht')). rewrite Hmr. reflexivity.
Qed.

Lemma RegisterMemory_field_new (E : Env) (ep : Z) (sa : SArray) (w : World)
      (e : Endpoint) (t : Transport) (mr : ibv_mr) :
  ep_heap w !! ep = Some e -> trans e = Some t ->
  sa_size sa ≠ 0 -> mem_mr_map_ t !! sa_data sa = None ->
  ibv_reg_mr E (sa_data sa) (sa_size sa) = Some mr ->
  RegisterMemory_field E ep sa w
  = Done tt (set_ep_heap
               (<[ep := set_trans (set_mem_mr_map (<[sa_data sa := mr]> (mem_mr_map_ t)) t) e]>
                  (ep_heap w)) w).
Proof.
  intros He Ht Hne Hnone Hreg. unfold RegisterMemory_field.
  destruct (Z.eqb_spec (sa_size sa) 0) as [|_]; [contradiction|].
  rewrite (bind_Done _ _ _ _ _ (get_trans_Done ep w e t He Ht)). rewrite Hnone, Hreg.
  unfold put_trans. rewrite (bind_Done _ _ _ _ _ (get_ep_Done ep w e He)). reflexivity.
Qed.

Lemma RegisterMemory_field_total (E : Env) (ep : Z) (sa : SArray) (w : World) :
  registers_all E -> has_transport ep w ->
  ∃ w', RegisterMemory_field E ep sa w = Done tt w' ∧ has_transport ep w' ∧
        same_but_endpoints w w' ∧
        (∀ a mr, registered w ep a mr -> registered w' ep a mr) ∧
        (sa_size sa ≠ 0 -> ∃ mr, registered w' ep (sa_data sa) mr).
Proof.
  intros Hall (e & t & He & Ht).
  destruct (Z.eqb_spec (sa_size sa) 0) as [Hz|Hne].
  { exists w. rewrite RegisterMemory_field_known by (try (exists e, t); auto).
    split; [reflexivity|]. split; [exists e, t; auto|].
    split; [apply same_but_endpoints_refl|]. split; [auto|]. intros; contradiction. }
  destruct (mem_mr_map_ t !! sa_data sa) as [mr|] eqn:Hmr.
  { exists w. rewrite RegisterMemory_field_known.
    - split; [reflexivity|]. split; [exists e, t; auto|].
      split; [apply same_but_endpoints_refl|]. split; [auto|].
      intros _. exists mr, e, t. auto.
    - exists e, t. auto.
    - right. exists mr, e, t. auto. }
  destruct (Hall (sa_data sa) (sa_size sa)) as [mr Hreg].
  rewrite (RegisterMemory_field_new E ep sa w e t mr He Ht Hne Hmr Hreg).
  eexists. split; [reflexivity|]. split; [|split; [|split]].
  - eexists _, _. cbn. rewrite lookup_insert_eq. split; reflexivity.
  - unfold same_but_endpoints. cbn. auto 12.
  - intros a mr' (e' & t' & He' & Ht' & Ha). rewrite He in He'. injection He' as <-.
    rewrite Ht in Ht'. injection Ht' as <-.
    eexists _, _. cbn. rewrite lookup_insert_eq. split; [reflexivity|]. split; [reflexivity|].
    cbn. destruct (decide (a = sa_data sa)) as [->|Hd]; [congruence|].
    rewrite lookup_insert_ne by congruence. exact Ha.
  - intros _. eexists mr, _, _. cbn. rewrite lookup_insert_eq. split; [reflexivity|].
    split; [reflexivity|]. cbn. apply lookup_insert_eq.
Qed.

Lemma for_each_RegisterMemory_total (E : Env) (ep : Z) (l : list SArray) : ∀ w,
  registers_all E -> has_transport ep w ->
  ∃ w', for_each (RegisterMemory_field E ep) l w = Done tt w' ∧ has_transport ep w' ∧
        same_but_endpoints w w' ∧
        (∀ a mr, registered w ep a mr -> registered w' ep a mr) ∧
        (∀ sa, sa ∈ l -> sa_size sa ≠ 0 -> ∃ mr, registered w' ep (sa_data sa) mr).
Proof.
  induction l as [|sa l IH]; intros w Hall Hw.
  - exists w. split; [reflexivity|]. split; [exact Hw|].
    split; [apply same_but_endpoints_refl|]. split; [auto|]. intros sa H. inversion H.
  - destruct (RegisterMemory_field_total E ep sa w Hall Hw) as (w1 & H1 & Hw1 & S1 & K1 & N1).
    destruct (IH w1 Hall Hw1) as (w2 & H2 & Hw2 & S2 & K2 & N2).
    exists w2. simpl. rewrite (bind_Done _ _ _ _ _ H1). split; [exact H2|].
    split; [exact Hw2|]. split; [eapply same_but_endpoints_trans; eauto|].
    split; [auto|]. intros sa' Hin Hne. apply elem_of_cons in Hin as [->|Hin].
    + destruct (N1 Hne) as [mr Hmr]. exists mr. auto.
    + auto.
Qed.

Lemma for_each_RegisterMemory_known (E : Env) (ep : Z) (l : list SArray) (w : World) :
  has_transport ep w ->
  (∀ sa, sa ∈ l -> sa_size sa = 0 ∨ (∃ mr, registered w ep (sa_data sa) mr)) ->
  for_each (RegisterMemory_field E ep) l w = Done tt w.
Proof.
  intros Hw. induction l as [|sa l IH]; intros H; [reflexivity|].
  simpl. rewrite (bind_Done _ _ _ _ _ (RegisterMemory_field_known E ep sa w Hw
                                          (H sa ltac:(left)))).
  apply IH. intros sa' Hin. apply H. right. exact Hin.
Qed.

(** [RegisterMemory] registers every non-empty data field of the message
    that is not registered yet, under the base address of the field, and
    nothing else changes: the registrations there were are kept with their
    regions, and registering the same message once more does nothing. *)
Theorem RegisterMemory_registers_once (E : Env) (ep : Z) (msg : Message) (w : World) :
  registers_all E -> has_transport ep w ->
  ∃ w', RegisterMemory E ep msg w = Done tt w' ∧
        same_but_endpoints w w' ∧
        (∀ a mr, registered w ep a mr -> registered w' ep a mr) ∧
        (∀ sa, sa ∈ data msg -> sa_size sa ≠ 0 -> ∃ mr, registered w' ep (sa_data sa) mr) ∧
        RegisterMemory E ep msg w' = Done tt w'.
Proof.
  intros Hall Hw. unfold RegisterMemory.
  destruct (for_each_RegisterMemory_total E ep (data msg) w Hall Hw)
    as (w' & H & Hw' & S & K & N).
  exists w'. split; [exact H|]. split; [exact S|]. split; [exact K|]. split; [exact N|].
  apply for_each_RegisterMemory_known; [exact Hw'|].
  intros sa Hin. destruct (Z.eq_dec (sa_size sa) 0) as [Hz|Hne]; [left; exact Hz|].
  right. apply N; assumption.
Qed.

Lemma RegisterMemory_registers_once_witness :
  ∃ w', RegisterMemory env0 1000 push_request world0 = Done tt w' ∧
        same_but_endpoints world0 w' ∧
        (∀ a mr, registered world0 1000 a mr -> registered w' 1000 a mr) ∧
        (∀ sa, sa ∈ data push_request -> sa_size sa ≠ 0 ->
               ∃ mr, registered w' 1000 (sa_data sa) mr) ∧
        RegisterMemory env0 1000 push_request w' = Done tt w'.
Proof.
  apply (RegisterMemory_registers_once env0 1000 push_request world0).
  - intros a n. eexists. reflexivity.
  - eexists _, _. split; reflexivity.
Defined.

Lemma PrepareData_field_run (ep msg_buf : Z) (sa : SArray) (w : World)
      (e : Endpoint) (t : Transport) (b : MessageBuffer) (mr : ibv_mr) :
  ep_heap w !! ep = Some e -> trans e = Some t -> msg_bufs w !! msg_buf = Some b ->
  sa_size sa ≠ 0 -> mem_mr_map_ t !! sa_data sa = Some mr ->
  PrepareData_field ep msg_buf sa w
  = Done tt (set_msg_bufs (<[msg_buf := set_mrs (mrs b ++ [(mr, sa_size sa)]) b]> (msg_bufs w)) w).
Proof.
  intros He Ht Hb Hne Hmr. unfold PrepareData_field.
  destruct (Z.eqb_spec (sa_size sa) 0) as [|_]; [contradiction|].
  rewrite (bind_Done _ _ _ _ _ (get_trans_Done ep w e t He Ht)). rewrite Hmr. cbn [deref].
  rewrite bind_Done with (a := mr) (s' := w) by reflexivity.
  rewrite (bind_Done _ _ _ _ _ (get_buf_Done msg_buf w b Hb)). reflexivity.
Qed.

Lemma for_each_PrepareData_field (ep msg_buf : Z) (e : Endpoint) (t : Transport)
      (l : list SArray) : ∀ w b,
  ep_heap w !! ep = Some e -> trans e = Some t -> msg_bufs w !! msg_buf = Some b ->
  (∀ sa, sa ∈ l -> sa_size sa ≠ 0 -> is_Some (mem_mr_map_ t !! sa_data sa)) ->
  ∃ w', for_each (PrepareData_field ep msg_buf) l w = Done tt w' ∧
        msg_bufs w' !! msg_buf = Some (set_mrs (mrs b ++ regions_of t l) b) ∧
        (∀ p, p ≠ msg_buf -> msg_bufs w' !! p = msg_bufs w !! p) ∧
        ep_heap w' = ep_heap w ∧ ctx_heap w' = ctx_heap w ∧ trace w' = trace w.
Proof.
  induction l as [|sa l IH]; intros w b He Ht Hb Hreg.
  - exists w. split; [reflexivity|]. unfold regions_of. simpl. rewrite app_nil_r.
    split; [|auto]. rewrite Hb. destruct b; reflexivity.
  - simpl for_each. unfold regions_of. rewrite filter_cons.
    destruct (decide (sa_size sa ≠ 0)) as [Hne|Hz].
    + destruct (Hreg sa ltac:(left) Hne) as [mr Hmr].
      rewrite (bind_Done _ _ _ _ _ (PrepareData_field_run ep msg_buf sa w e t b mr
                                      He Ht Hb Hne Hmr)).
      edestruct (IH (set_msg_bufs (<[msg_buf := set_mrs (mrs b ++ [(mr, sa_size sa)]) b]>
                                     (msg_bufs w)) w)
                    (set_mrs (mrs b ++ [(mr, sa_size sa)]) b))
        as (w' & H & Hb' & Ho & E1 & E2 & E3);
        [exact He | exact Ht | apply lookup_insert_eq
         | intros sa' Hin; apply Hreg; right; exact Hin |].
      exists w'. split; [exact H|]. split.
      * rewrite Hb'. simpl. rewrite Hmr. simpl. rewrite <- app_assoc. reflexivity.
      * split; [|auto]. intros p Hp. rewrite (Ho p Hp). simpl.
        apply lookup_insert_ne. congruence.
    + assert (Hz' : sa_size sa = 0) by (destruct (Z.eq_dec (sa_size sa) 0); tauto).
      assert (Hf : PrepareData_field ep msg_buf sa w = Done tt w).
      { unfold PrepareData_field. rewrite Hz'. reflexivity. }
      rewrite (bind_Done _ _ _ _ _ Hf).
      apply IH; try assumption. intros sa' Hin. apply Hreg. right. exact Hin.
Qed.

(** [PrepareData] does nothing unless the message is a push request.  For a
    push request whose non-empty fields are registered it appends to the
    regions of the message buffer one region for each non-empty field, in
    the order of the fields and with the size of each; empty fields are
    skipped, so a push request with an empty field ends with fewer than
    three regions. *)
Theorem PrepareData_records_regions (ep msg_buf : Z) (msg : Message) (w : World)
        (e : Endpoint) (t : Transport) (b : MessageBuffer) :
  ep_heap w !! ep = Some e -> trans e = Some t -> msg_bufs w !! msg_buf = Some b ->
  (∀ sa, sa ∈ buf_data b -> sa_size sa ≠ 0 -> is_Some (mem_mr_map_ t !! sa_data sa)) ->
  if push (meta msg) && request (meta msg)
  then ∃ w', PrepareData ep msg msg_buf w = Done tt w' ∧
             msg_bufs w' !! msg_buf = Some (set_mrs (mrs b ++ regions_of t (buf_data b)) b) ∧
             length (regions_of t (buf_data b))
             = length (filter (fun sa => sa_size sa ≠ 0) (buf_data b)) ∧
             (∀ p, p ≠ msg_buf -> msg_bufs w' !! p = msg_bufs w !! p) ∧
             ep_heap w' = ep_heap w ∧ trace w' = trace w
  else PrepareData ep msg msg_buf w = Done tt w.
Proof.
  intros He Ht Hb Hreg. unfold PrepareData.
  destruct (push (meta msg) && request (meta msg)); [|reflexivity]. cbn [negb].
  rewrite (bind_Done _ _ _ _ _ (get_buf_Done msg_buf w b Hb)).
  destruct (for_each_PrepareData_field ep msg_buf e t (buf_data b) w b He Ht Hb Hreg)
    as (w' & H & Hb' & Ho & E1 & E2 & E3).
  exists w'. split; [exact H|]. split; [exact Hb'|]. split; [|auto].
  unfold regions_of. clear -Hreg. induction (buf_data b) as [|sa l IH]; [reflexivity|].
  rewrite filter_cons. destruct (decide (sa_size sa ≠ 0)) as [Hne|Hz].
  - destruct (Hreg sa ltac:(left) Hne) as [mr Hmr]. simpl. rewrite Hmr. simpl. f_equal.
    apply IH. intros sa' Hin. apply Hreg. right. exact Hin.
  - apply IH. intros sa' Hin. apply Hreg. right. exact Hin.
Qed.

Lemma PrepareData_records_regions_witness :
  ∃ w', PrepareData 1000 push_request 500
          (world_sending registered_fields_transport push_request) = Done tt w' ∧
        msg_bufs w' !! 500
        = Some (set_mrs (mrs (buffer_of push_request)
                         ++ regions_of registered_fields_transport
                                       (buf_data (buffer_of push_request)))
                        (buffer_of push_request)) ∧
        length (regions_of registered_fields_transport (buf_data (buffer_of push_request)))
        = length (filter (fun sa => sa_size sa ≠ 0) (buf_data (buffer_of push_request))) ∧
        (∀ p, p ≠ 500 -> msg_bufs w' !! p
                         = msg_bufs (world_sending registered_fields_transport push_request) !! p) ∧
        ep_heap w' = ep_heap (world_sending registered_fields_transport push_request) ∧
        trace w' = trace (world_sending registered_fields_transport push_request).
Proof.
  apply (PrepareData_records_regions 1000 500 push_request
           (world_sending registered_fields_transport push_request)
           (endpoint_with registered_fields_transport) registered_fields_transport
           (buffer_of push_request)).
  - reflexivity.
  - reflexivity.
  - reflexivity.
  - intros sa Hin _.
    repeat (apply elem_of_cons in Hin as [->|Hin]); try (eexists; reflexivity).
    inversion Hin.
Defined.

(** ** Sending a data message whose remote address is known *)

Lemma RDMAWriteWithImm_three_regions (E : Env) (w : World) (ep msg_buf raddr rkey idx : Z)
      (e : Endpoint) (t : Transport) (b : MessageBuffer) (c : Z) (rest : list Z)
      (ctx : WRContext) (r0 r1 r2 : ibv_mr * Z) :
  ep_heap w !! ep = Some e -> trans e = Some t -> free_write_ctx e = c :: rest -> c ≠ 0 ->
  ctx_heap w !! c = Some ctx -> msg_bufs w !! msg_buf = Some b -> accepts E ep ->
  mrs b = [r0; r1; r2] ->
  RDMAWriteWithImm E ep msg_buf raddr rkey idx w
  = Done tt
      (set_trace (trace w ++ [EvPostSend ep (values_wr (fst r1) (snd r1) b (pagesize_ t)
                                                       raddr rkey);
                              EvPostSend ep (meta_wr E c b raddr rkey idx)])
         (set_scratch (<[mr_addr (ctx_buffer ctx) := msg_buf]> (scratch w))
            (set_msg_bufs (<[msg_buf := set_reserved c b]> (msg_bufs w))
               (set_ep_heap (<[ep := set_free_write rest e]> (ep_heap w)) w)))).
Proof.
  intros Hep Htr Hfree Hc Hctx Hbuf Hpost Hmrs.
  unfold RDMAWriteWithImm, WaitAndPop_write, get_trans, get_ep, put_ep, get_buf, put_buf,
    get_ctx, post_send, log, deref, bind, get, modify, ret, halt.
  rewrite Hep. cbn. rewrite Hfree. cbn. rewrite Hbuf. cbn. rewrite Hmrs. cbn.
  rewrite lookup_insert_eq. cbn. rewrite Htr. cbn. rewrite Hpost. cbn.
  destruct (Z.eqb_spec c 0) as [|_]; [contradiction|]. cbn.
  rewrite Hctx. cbn. rewrite Hpost. cbn. rewrite <- app_assoc. reflexivity.
Qed.


Lemma SendMsg_prefix_run (E : Env) (msg : Message) (w : World) (ep : Z) (e : Endpoint)
      (t : Transport) :
  recver (meta msg) ≠ kEmpty -> endpoints_ w !! recver (meta msg) = Some ep ->
  ep_heap w !! ep = Some e -> trans e = Some t ->
  (∀ sa, sa ∈ data msg -> sa_size sa = 0 ∨ is_Some (mem_mr_map_ t !! sa_data sa)) ->
  to_int (GetPackMetaLen E (meta msg)) ≠ 0 ->
  let meta_len := to_int (GetPackMetaLen E (meta msg)) in
  let msg_buf := operator_new E (trace w) in
  let ibuf := mempool_Alloc E (trace w ++ [EvNew msg_buf]) (wrap64 meta_len) in
  SendMsg E msg w
  = SendMsg_route E ep msg_buf ibuf (to_int (wrap64 (meta_len + data_size (meta msg)))) msg
      (set_msg_bufs (<[msg_buf := {| inline_len := wrap64 meta_len; inline_buf := ibuf;
                                     reserved_context := 0; buf_data := data msg;
                                     mrs := [] |}]> (msg_bufs w))
         (set_trace (trace w ++ [EvNew msg_buf; EvAlloc (wrap64 meta_len) ibuf]) w)).
Proof.
  intros Hr Hep He Ht Hreg Hlen meta_len msg_buf ibuf. unfold SendMsg.
  destruct (Z.eqb_spec (recver (meta msg)) kEmpty) as [|_]; [contradiction|].
  cbn [negb]. rewrite bind_CHECK_true, bind_get, Hep.
  rewrite (bind_Done _ _ _ _ _ (get_ep_Done ep w e He)).
  rewrite bool_decide_eq_true_2 by (rewrite Ht; eauto). rewrite bind_CHECK_true.
  assert (Hrm : RegisterMemory E ep msg w = Done tt w).
  { apply for_each_RegisterMemory_known; [exists e, t; auto|].
    intros sa Hin. destruct (Hreg sa Hin) as [Hz|[mr Hmr]]; [left; exact Hz|].
    right. exists mr, e, t. auto. }
  rewrite (bind_Done _ _ _ _ _ Hrm). rewrite bind_get, bind_log. cbv zeta.
  fold meta_len. destruct (Z.eqb_spec meta_len 0) as [|_]; [contradiction|].
  cbn [negb]. rewrite bind_CHECK_true, bind_get, bind_log, bind_put_buf.
  cbn [trace set_trace]. rewrite <- app_assoc. reflexivity.
Qed.

Lemma regions_of_cons (t : Transport) (sa : SArray) (l : list SArray) :
  regions_of t (sa :: l)
  = if decide (sa_size sa ≠ 0)
    then match mem_mr_map_ t !! sa_data sa with
         | Some mr => (mr, sa_size sa) :: regions_of t l
         | None => regions_of t l
         end
    else regions_of t l.
Proof.
  unfold regions_of. rewrite filter_cons. destruct (decide (sa_size sa ≠ 0)); [|reflexivity].
  simpl. destruct (mem_mr_map_ t !! sa_data sa); reflexivity.
Qed.

Lemma for_each_PrepareData_field_run (ep msg_buf : Z) (e : Endpoint) (t : Transport)
      (l : list SArray) : ∀ w b,
  ep_heap w !! ep = Some e -> trans e = Some t -> msg_bufs w !! msg_buf = Some b ->
  (∀ sa, sa ∈ l -> sa_size sa ≠ 0 -> is_Some (mem_mr_map_ t !! sa_data sa)) ->
  for_each (PrepareData_field ep msg_buf) l w
  = Done tt (match regions_of t l with
             | [] => w
             | regs => set_msg_bufs (<[msg_buf := set_mrs (mrs b ++ regs) b]> (msg_bufs w)) w
             end).
Proof.
  induction l as [|sa l IH]; intros w b He Ht Hb Hreg; [reflexivity|].
  simpl for_each. rewrite regions_of_cons.
  destruct (decide (sa_size sa ≠ 0)) as [Hne|Hz].
  - destruct (Hreg sa ltac:(left) Hne) as [mr Hmr].
    rewrite (bind_Done _ _ _ _ _ (PrepareData_field_run ep msg_buf sa w e t b mr
                                    He Ht Hb Hne Hmr)).
    rewrite (IH _ (set_mrs (mrs b ++ [(mr, sa_size sa)]) b));
      [| exact He | exact Ht | apply lookup_insert_eq
       | intros sa' Hin; apply Hreg; right; exact Hin].
    rewrite Hmr.
    destruct (regions_of t l) as [|r regs]; [reflexivity|].
    cbn. rewrite insert_insert_eq, <- app_assoc. reflexivity.
  - assert (Hz' : sa_size sa = 0) by (destruct (Z.eq_dec (sa_size sa) 0); tauto).
    assert (Hf : PrepareData_field ep msg_buf sa w = Done tt w).
    { unfold PrepareData_field. rewrite Hz'. reflexivity. }
    rewrite (bind_Done _ _ _ _ _ Hf).
    apply IH; try assumption. intros sa' Hin. apply Hreg. right. exact Hin.
Qed.

Lemma AddMeta_push_request_run (E : Env) (ep : Z) (msg : Message) (w : World) (e : Endpoint)
      (t : Transport) (k v l : SArray) (mrv : ibv_mr) :
  push (meta msg) = true -> request (meta msg) = true -> data msg = [k; v; l] ->
  ep_heap w !! ep = Some e -> trans e = Some t -> mem_mr_map_ t !! sa_data v = Some mrv ->
  AddMeta E ep msg w
  = Done (with_meta (set_tensor (to_int (sa_size v)) (sa_data v) (to_int (mr_rkey mrv))
                                (set_key (DecodeKey E k) (meta msg))) msg) w.
Proof.
  intros Hp Hr Hd He Ht Hm. unfold AddMeta. rewrite Hr, Hd.
  unfold get_trans, get_ep, deref, bind, get, ret, halt, CHECK.
  cbn. rewrite Hp, Hr. cbn. rewrite Hd. cbn. rewrite He. cbn. rewrite Ht. cbn.
  rewrite Hm. reflexivity.
Qed.







(** ** Sending through a rendezvous *)

(** A control message always goes through a rendezvous, whatever the
    address cache holds: [SendMsg] packs the meta as it is, writes a
    [RendezvousStart] with the length of the packed meta, the number and the
    sizes of the data fields and the address of the message buffer, and
    posts it as one signaled SEND_WITH_IMM carrying [kRendezvousStart].  The
    address cache and the tensor registry are not touched. *)
Theorem SendMsg_control_message_rendezvous (E : Env) (msg : Message) (w : World)
        (ep cw cs : Z) (e : Endpoint) (t : Transport) (restw rests : list Z)
        (ctx : WRContext) :
  recver (meta msg) ≠ kEmpty -> endpoints_ w !! recver (meta msg) = Some ep ->
  ep_heap w !! ep = Some e -> trans e = Some t ->
  free_write_ctx e = cw :: restw -> free_start_ctx e = cs :: rests ->
  ctx_heap w !! cs = Some ctx ->
  IsValidPushpull msg = false ->
  (∀ sa, sa ∈ data msg -> sa_size sa = 0 ∨ is_Some (mem_mr_map_ t !! sa_data sa)) ->
  (length (data msg) <= kMaxDataFields)%nat ->
  to_int (GetPackMetaLen E (meta msg)) ≠ 0 ->
  accepts E ep ->
  let meta_len := to_int (GetPackMetaLen E (meta msg)) in
  ∃ w' msg_buf ibuf,
    SendMsg E msg w = Done (msg, to_int (wrap64 (meta_len + data_size (meta msg)))) w' ∧
    trace w' = trace w ++
      [EvNew msg_buf; EvAlloc (wrap64 meta_len) ibuf; EvPackMeta ibuf (meta msg);
       EvStart (mr_addr (ctx_buffer ctx))
         {| rs_meta_len := wrap64 meta_len; rs_data_num := Z.of_nat (length (data msg));
            rs_data_len := map sa_size (data msg); rs_origin_addr := msg_buf |};
       EvPostSend ep (start_wr cs ctx)] ∧
    push_addr_ w' = push_addr_ w ∧ pull_addr_ w' = pull_addr_ w ∧
    msgbuf_cache_ w' = msgbuf_cache_ w ∧ tensor_info_map_ w' = tensor_info_map_ w.
Proof.
  intros Hr Hep He Ht Hfw Hfs Hctx Hvalid Hreg Hlen4 Hlen Hpost meta_len.
  rewrite (SendMsg_prefix_run E msg w ep e t Hr Hep He Ht Hreg Hlen).
  fold meta_len.
  set (msg_buf := operator_new E (trace w)).
  set (ibuf := mempool_Alloc E (trace w ++ [EvNew msg_buf]) (wrap64 meta_len)).
  match goal with |- context [SendMsg_route _ _ _ _ _ _ ?w1] => set (W1 := w1) end.
  unfold SendMsg_route. rewrite Hvalid.
  rewrite bind_Done with (a := msg) (s' := W1) by reflexivity.
  rewrite bind_log. rewrite Hvalid. cbn [negb].
  match goal with |- context [bind (SendRendezvousBegin _ _ _ _) _ ?w2] => set (W2 := w2) end.
  rewrite (bind_Done _ _ _ _ _
             (SendRendezvousBegin_run E W2 ep msg_buf cw cs msg e _ restw rests ctx
                He Hfw Hfs Hctx ltac:(apply lookup_insert_eq) eq_refl Hlen4 Hpost)).
  eexists _, msg_buf, ibuf. split; [reflexivity|].
  cbn. rewrite <- !app_assoc. auto 10.
Qed.

Lemma SendMsg_control_message_rendezvous_witness :
  ∃ w' msg_buf ibuf,
    SendMsg env0 barrier_message (world_known_with rdma_transport)
    = Done (barrier_message, 64) w' ∧
    trace w' =
      [EvNew msg_buf; EvAlloc 64 ibuf; EvPackMeta ibuf (meta barrier_message);
       EvStart 3000
         {| rs_meta_len := 64; rs_data_num := 0; rs_data_len := []; rs_origin_addr := msg_buf |};
       EvPostSend 1000 (start_wr 2000 (context_at kRendezvousStartContext 3000 1000))] ∧
    push_addr_ w' = push_addr_ (world_known_with rdma_transport) ∧
    pull_addr_ w' = pull_addr_ (world_known_with rdma_transport) ∧
    msgbuf_cache_ w' = msgbuf_cache_ (world_known_with rdma_transport) ∧
    tensor_info_map_ w' = tensor_info_map_ (world_known_with rdma_transport).
Proof.
  apply (SendMsg_control_message_rendezvous env0 barrier_message
           (world_known_with rdma_transport) 1000 2200 2000 (endpoint_with rdma_transport)
           rdma_transport [2201] [2001] (context_at kRendezvousStartContext 3000 1000)).
  all: try reflexivity.
  - discriminate.
  - intros sa Hin. inversion Hin.
  - simpl. unfold kMaxDataFields. lia.
  - discriminate.
  - intros tr wr. reflexivity.
Defined.

Lemma HasRemoteInfo_miss_run (msg_buf k r : Z) (d : bool) (w : World) :
  (if d then lookup2 (push_addr_ w) k r else lookup2 (pull_addr_ w) k r) = None ->
  msgbuf_cache_ w !! msg_buf = None ->
  HasRemoteInfo msg_buf k d r w
  = Done false (set_msgbuf_cache (<[msg_buf := (k, d, r)]> (msgbuf_cache_ w)) w).
Proof.
  intros Hmiss Hfresh. unfold HasRemoteInfo. rewrite bind_get.
  destruct d; cbn [andb negb].
  - rewrite bool_decide_eq_false_2 by (rewrite Hmiss; intros [? ?]; discriminate).
    unfold bind, modify, ret. rewrite Hfresh. reflexivity.
  - rewrite bool_decide_eq_false_2 by (rewrite Hmiss; intros [? ?]; discriminate).
    unfold bind, modify, ret. rewrite Hfresh. reflexivity.
Qed.

Lemma StoreRemoteInfo_push_run (p raddr rkey idx k r : Z) (w : World) :
  msgbuf_cache_ w !! p = Some (k, true, r) ->
  StoreRemoteInfo p raddr rkey idx w
  = Done tt (set_msgbuf_cache (delete p (msgbuf_cache_ w))
               (set_push_addr (insert2 k r (raddr, rkey, idx) (push_addr_ w)) w)).
Proof. intros H. unfold StoreRemoteInfo. rewrite bind_get, H. reflexivity. Qed.

Lemma PollCQ_reply_from (E : Env) (w w1 w2 : World) (ep rc : Z) (resp : RendezvousReply)
      (e : Endpoint) (t : Transport) (ctxr : WRContext) :
  ctx_heap w !! rc = Some ctxr -> private_data ctxr = ep -> ep ≠ 0 ->
  ctx_type ctxr = kReceiveContext ->
  ep_heap w !! ep = Some e -> trans e = Some t ->
  StoreRemoteInfo (rr_origin_addr resp) (rr_addr resp) (rr_rkey resp) (rr_idx resp) w
  = Done tt w1 ->
  RDMAWriteWithImm E ep (rr_origin_addr resp) (rr_addr resp) (rr_rkey resp) (rr_idx resp) w1
  = Done tt w2 ->
  ctx_heap w2 !! rc = Some ctxr -> is_Some (ep_heap w2 !! ep) -> accepts_recv E ep ->
  PollCQ E (WC_RECV_RendezvousReply rc resp) w
  = Done tt (set_trace (trace w2 ++ [EvPostRecv ep rc]) w2).
Proof.
  intros Hrc Hp Hne Hty Hep Htr Hs Hw Hrc2 [e2 Hep2] Hrecv.
  unfold PollCQ. rewrite (bind_Done _ _ _ _ _ (get_ctx_Done rc w ctxr Hrc)).
  cbv zeta. rewrite Hp. destruct (Z.eqb_spec ep 0) as [|_]; [contradiction|].
  cbn [negb]. rewrite bind_CHECK_true.
  rewrite (bind_Done _ _ _ _ _ (get_ep_Done ep w e Hep)).
  rewrite bool_decide_eq_true_2 by (rewrite Htr; eauto). rewrite bind_CHECK_true.
  rewrite (bind_Done _ _ _ _ _ Hs). rewrite (bind_Done _ _ _ _ _ Hw).
  unfold ReleaseWorkRequestContext.
  rewrite (bind_Done _ _ _ _ _ (get_ctx_Done rc w2 ctxr Hrc2)).
  rewrite (bind_Done _ _ _ _ _ (get_ep_Done ep w2 e2 Hep2)).
  rewrite Hty. rewrite bind_get. rewrite Hrecv. rewrite bind_CHECK_true. reflexivity.
Qed.

(** [SendMsg] of a push request with three non-empty registered fields, up
    to the look-up in the address cache. *)
Lemma SendMsg_push_request_prepared (E : Env) (msg : Message) (w : World) (ep : Z)
      (e : Endpoint) (t : Transport) (k v l : SArray) (mrk mrv mrl : ibv_mr) :
  recver (meta msg) ≠ kEmpty -> endpoints_ w !! recver (meta msg) = Some ep ->
  ep_heap w !! ep = Some e -> trans e = Some t ->
  IsValidPushpull msg = true -> push (meta msg) = true -> request (meta msg) = true ->
  data msg = [k; v; l] -> sa_size k ≠ 0 -> sa_size v ≠ 0 -> sa_size l ≠ 0 ->
  mem_mr_map_ t !! sa_data k = Some mrk -> mem_mr_map_ t !! sa_data v = Some mrv ->
  mem_mr_map_ t !! sa_data l = Some mrl ->
  to_int (GetPackMetaLen E (meta msg)) ≠ 0 ->
  let m' := set_tensor (to_int (sa_size v)) (sa_data v) (to_int (mr_rkey mrv))
                       (set_key (DecodeKey E k) (meta msg)) in
  let meta_len := to_int (GetPackMetaLen E (meta msg)) in
  let total_len := to_int (wrap64 (meta_len + data_size (meta msg))) in
  let msg_buf := operator_new E (trace w) in
  let ibuf := mempool_Alloc E (trace w ++ [EvNew msg_buf]) (wrap64 meta_len) in
  SendMsg E msg w
  = (do known <- HasRemoteInfo msg_buf (DecodeKey E k) true (recver (meta msg)) ;;
     if negb known
     then run SendRendezvousBegin E ep (with_meta m' msg) msg_buf ;;
          ret (with_meta m' msg, total_len)
     else
       do rat <- GetRemoteInfo (DecodeKey E k) true ;;
       run SendPushRequest E ep (with_meta m' msg) msg_buf (RemoteTuple_of E rat) ;;
       ret (with_meta m' msg, total_len))
      (set_msg_bufs
         (<[msg_buf := {| inline_len := wrap64 meta_len; inline_buf := ibuf;
                          reserved_context := 0; buf_data := data msg;
                          mrs := [(mrk, sa_size k); (mrv, sa_size v); (mrl, sa_size l)] |}]>
            (msg_bufs w))
         (set_trace (trace w ++ [EvNew msg_buf; EvAlloc (wrap64 meta_len) ibuf;
                                 EvPackMeta ibuf m']) w)).
Proof.
  intros Hr Hep He Ht Hvalid Hpush Hreq Hdata Hk Hv Hl Hmk Hmv Hml Hlen
    m' meta_len total_len msg_buf ibuf.
  rewrite (SendMsg_prefix_run E msg w ep e t Hr Hep He Ht); [|
    rewrite Hdata; intros sa Hin; right;
    repeat (apply elem_of_cons in Hin as [->|Hin]); eauto; inversion Hin | exact Hlen].
  fold meta_len msg_buf ibuf total_len.
  match goal with |- context [SendMsg_route _ _ _ _ _ _ ?w1] => set (W1 := w1) end.
  unfold SendMsg_route. rewrite Hvalid.
  assert (Hinner : (do msg' <- AddMeta E ep msg ;; PackWorkerTensorAddress msg') W1
                   = Done (with_meta m' msg) W1).
  { rewrite (bind_Done _ _ _ _ _
               (AddMeta_push_request_run E ep msg W1 e t k v l mrv Hpush Hreq Hdata He Ht Hmv)).
    unfold PackWorkerTensorAddress. cbn. rewrite Hpush. reflexivity. }
  rewrite (bind_Done _ _ _ _ _ Hinner). rewrite bind_log.
  assert (Hv' : IsValidPushpull (with_meta m' msg) = true) by exact Hvalid.
  rewrite Hv'. cbn [negb].
  match goal with |- context [bind (PrepareData _ _ _) _ ?w2] => set (W2 := w2) end.
  assert (Hprep : PrepareData ep (with_meta m' msg) msg_buf W2
                 = Done tt (set_msg_bufs
                              (<[msg_buf := {| inline_len := wrap64 meta_len; inline_buf := ibuf;
                                               reserved_context := 0; buf_data := data msg;
                                               mrs := [(mrk, sa_size k); (mrv, sa_size v);
                                                       (mrl, sa_size l)] |}]> (msg_bufs W2))
                              W2)).
  { unfold PrepareData. cbn [meta with_meta]. subst m'. cbn [push request set_tensor set_key].
    rewrite Hpush, Hreq. cbn [andb negb].
    rewrite (bind_Done _ _ _ _ _ (get_buf_Done msg_buf W2 _ ltac:(apply lookup_insert_eq))).
    cbn [buf_data].
    rewrite (for_each_PrepareData_field_run ep msg_buf e t (data msg) W2 _ He Ht
               ltac:(apply lookup_insert_eq));
      [| rewrite Hdata; intros sa Hin _;
         repeat (apply elem_of_cons in Hin as [->|Hin]); eauto; inversion Hin].
    rewrite Hdata, !regions_of_cons.
    destruct (decide (sa_size k ≠ 0)); [|contradiction].
    destruct (decide (sa_size v ≠ 0)); [|contradiction].
    destruct (decide (sa_size l ≠ 0)); [|contradiction].
    rewrite Hmk, Hmv, Hml. reflexivity. }
  rewrite (bind_Done _ _ _ _ _ Hprep).
  cbn [meta with_meta]. subst m'. cbn [key push request set_tensor set_key].
  rewrite Hpush, Hreq. subst W2 W1. cbn. rewrite insert_insert_eq, <- app_assoc. reflexivity.
Qed.

(** The first push of a key to a peer, over an RDMA transport.  [SendMsg]
    finds no address, remembers the message buffer with
    [(key, push, recver)] and sends a [RendezvousStart]; nothing of the data
    is written yet.  When the reply arrives the poller records the address
    of the reply under [(key, recver)], forgets the buffer, and only then
    writes the values and the meta, at the address of the reply. *)
Theorem first_push_goes_through_rendezvous (E : Env) (msg : Message) (w : World)
        (ep c1 c2 cs rc : Z) (e : Endpoint) (t : Transport) (rest rests : list Z)
        (ctxs : WRContext) (resp : RendezvousReply) (k v l : SArray) (mrk mrv mrl : ibv_mr) :
  recver (meta msg) ≠ kEmpty -> endpoints_ w !! recver (meta msg) = Some ep -> ep ≠ 0 ->
  ep_heap w !! ep = Some e -> trans e = Some t -> is_ipc t = false ->
  free_write_ctx e = c1 :: c2 :: rest -> c2 ≠ 0 -> free_start_ctx e = cs :: rests ->
  ctx_heap w !! cs = Some ctxs -> is_Some (ctx_heap w !! c2) ->
  context_of w rc kReceiveContext ep ->
  IsValidPushpull msg = true -> push (meta msg) = true -> request (meta msg) = true ->
  data msg = [k; v; l] -> sa_size k ≠ 0 -> sa_size v ≠ 0 -> sa_size l ≠ 0 ->
  mem_mr_map_ t !! sa_data k = Some mrk -> mem_mr_map_ t !! sa_data v = Some mrv ->
  mem_mr_map_ t !! sa_data l = Some mrl ->
  to_int (GetPackMetaLen E (meta msg)) ≠ 0 ->
  lookup2 (push_addr_ w) (DecodeKey E k) (recver (meta msg)) = None ->
  msgbuf_cache_ w !! operator_new E (trace w) = None ->
  rr_origin_addr resp = operator_new E (trace w) ->
  accepts E ep -> accepts_recv E ep ->
  let m' := set_tensor (to_int (sa_size v)) (sa_data v) (to_int (mr_rkey mrv))
                       (set_key (DecodeKey E k) (meta msg)) in
  let meta_len := to_int (GetPackMetaLen E (meta msg)) in
  let msg_buf := operator_new E (trace w) in
  ∃ w1 w2 ibuf,
    SendMsg E msg w
    = Done (with_meta m' msg, to_int (wrap64 (meta_len + data_size (meta msg)))) w1 ∧
    trace w1 = trace w ++
      [EvNew msg_buf; EvAlloc (wrap64 meta_len) ibuf; EvPackMeta ibuf m';
       EvStart (mr_addr (ctx_buffer ctxs))
         {| rs_meta_len := wrap64 meta_len; rs_data_num := 3;
            rs_data_len := [sa_size k; sa_size v; sa_size l]; rs_origin_addr := msg_buf |};
       EvPostSend ep (start_wr cs ctxs)] ∧
    msgbuf_cache_ w1 !! msg_buf = Some (DecodeKey E k, true, recver (meta msg)) ∧
    PollCQ E (WC_RECV_RendezvousReply rc resp) w1 = Done tt w2 ∧
    trace w2 = trace w1 ++
      [EvPostSend ep
         {| wr_id := 0; opcode := IBV_WR_RDMA_WRITE; imm_data := 0; send_flags := 0;
            sg_list := [ {| sge_addr := mr_addr mrv; sge_length := wrap32 (sa_size v);
                            sge_lkey := mr_lkey mrv |} ];
            remote_addr := wrap64 (rr_addr resp + align_ceil (wrap64 meta_len) (pagesize_ t));
            wr_rkey := rr_rkey resp |};
       EvPostSend ep
         {| wr_id := c2; opcode := IBV_WR_RDMA_WRITE_WITH_IMM; imm_data := rr_idx resp;
            send_flags := IBV_SEND_SIGNALED;
            sg_list := [ {| sge_addr := ibuf; sge_length := wrap32 (wrap64 meta_len);
                            sge_lkey := LocalKey E ibuf |} ];
            remote_addr := rr_addr resp; wr_rkey := rr_rkey resp |};
       EvPostRecv ep rc] ∧
    lookup2 (push_addr_ w2) (DecodeKey E k) (recver (meta msg))
    = Some (rr_addr resp, rr_rkey resp, rr_idx resp) ∧
    msgbuf_cache_ w2 !! msg_buf = None.
Proof.
  intros Hr Hep Hne He Ht Hipc Hfw Hc2 Hfs Hcs [ctx2 Hctx2] (ctxr & Hrc & Htyr & Hpr)
    Hvalid Hpush Hreq Hdata Hk Hv Hl Hmk Hmv Hml Hlen Hmiss Hfresh Horigin Hpost Hrecv
    m' meta_len msg_buf.
  rewrite (SendMsg_push_request_prepared E msg w ep e t k v l mrk mrv mrl
             Hr Hep He Ht Hvalid Hpush Hreq Hdata Hk Hv Hl Hmk Hmv Hml Hlen).
  fold m' meta_len msg_buf.
  set (ibuf := mempool_Alloc E (trace w ++ [EvNew msg_buf]) (wrap64 meta_len)).
  match goal with |- context [bind (HasRemoteInfo _ _ _ _) _ ?w3] => set (W3 := w3) end.
  rewrite (bind_Done _ _ _ _ _
             (HasRemoteInfo_miss_run msg_buf (DecodeKey E k) (recver (meta msg)) true W3
                Hmiss Hfresh)).
  cbn [negb].
  match goal with |- context [bind (SendRendezvousBegin _ _ _ _) _ ?w4] => set (W4 := w4) end.
  rewrite (bind_Done _ _ _ _ _
             (SendRendezvousBegin_run E W4 ep msg_buf c1 cs (with_meta m' msg) e _ _ rests ctxs
                He Hfw Hfs Hcs ltac:(apply lookup_insert_eq) eq_refl
                ltac:(cbn; rewrite Hdata; cbn; unfold kMaxDataFields; lia) Hpost)).
  match goal with |- context [ret _ ?w5] => set (W5 := w5) end.
  assert (Hcache : msgbuf_cache_ W5 !! rr_origin_addr resp
                   = Some (DecodeKey E k, true, recver (meta msg))).
  { rewrite Horigin. apply lookup_insert_eq. }
  pose proof (StoreRemoteInfo_push_run (rr_origin_addr resp) (rr_addr resp) (rr_rkey resp)
                (rr_idx resp) (DecodeKey E k) (recver (meta msg)) W5 Hcache) as Hstore.
  match type of Hstore with _ = Done _ ?w6 => set (W6 := w6) in * end.
  pose proof (RDMAWriteWithImm_three_regions E W6 ep (rr_origin_addr resp) (rr_addr resp)
                (rr_rkey resp) (rr_idx resp) _ t _ c2 rest ctx2 _ _ _
                ltac:(apply lookup_insert_eq) Ht eq_refl Hc2 Hctx2
                ltac:(rewrite Horigin; apply lookup_insert_eq) Hpost eq_refl) as Hwrite.
  match type of Hwrite with _ = Done _ ?w7 => set (W7 := w7) in * end.
  pose proof (PollCQ_reply_from E W5 W6 W7 ep rc resp _ t ctxr Hrc Hpr Hne Htyr
                ltac:(apply lookup_insert_eq) Ht Hstore Hwrite Hrc
                ltac:(eexists; apply lookup_insert_eq) Hrecv) as Hpoll.
  eexists _, _, ibuf. split; [reflexivity|].
  split; [cbn; rewrite Hdata, <- !app_assoc; reflexivity|].
  split; [apply lookup_insert_eq|].
  split; [exact Hpoll|].
  split; [cbn; rewrite <- !app_assoc; reflexivity|].
  split; [cbn; apply lookup2_insert2_eq|].
  cbn. rewrite Horigin. apply lookup_delete_eq.
Qed.

Lemma first_push_goes_through_rendezvous_witness :
  let resp := {| rr_addr := 2 ^ 32; rr_origin_addr := 8000; rr_rkey := 77; rr_idx := 5 |} in
  let m' := set_tensor 1024 (2 ^ 20) (2 ^ 20 + 2) (set_key 7 (meta push_request)) in
  ∃ w1 w2 ibuf,
    SendMsg env0 push_request (world_with registered_fields_transport)
    = Done (with_meta m' push_request, 1100) w1 ∧
    trace w1 =
      [EvNew 8000; EvAlloc 64 ibuf; EvPackMeta ibuf m';
       EvStart 3000
         {| rs_meta_len := 64; rs_data_num := 3; rs_data_len := [8; 1024; 4];
            rs_origin_addr := 8000 |};
       EvPostSend 1000 (start_wr 2000 (context_at kRendezvousStartContext 3000 1000))] ∧
    msgbuf_cache_ w1 !! 8000 = Some (7, true, 8) ∧
    PollCQ env0 (WC_RECV_RendezvousReply 2300 resp) w1 = Done tt w2 ∧
    trace w2 = trace w1 ++
      [EvPostSend 1000
         {| wr_id := 0; opcode := IBV_WR_RDMA_WRITE; imm_data := 0; send_flags := 0;
            sg_list := [ {| sge_addr := 2 ^ 20; sge_length := 1024;
                            sge_lkey := 2 ^ 20 + 1 |} ];
            remote_addr := 2 ^ 32 + 4096; wr_rkey := 77 |};
       EvPostSend 1000
         {| wr_id := 2201; opcode := IBV_WR_RDMA_WRITE_WITH_IMM; imm_data := 5;
            send_flags := IBV_SEND_SIGNALED;
            sg_list := [ {| sge_addr := ibuf; sge_length := 64; sge_lkey := 11 |} ];
            remote_addr := 2 ^ 32; wr_rkey := 77 |};
       EvPostRecv 1000 2300] ∧
    lookup2 (push_addr_ w2) 7 8 = Some (2 ^ 32, 77, 5) ∧
    msgbuf_cache_ w2 !! 8000 = None.
Proof.
  intros resp m'.
  apply (first_push_goes_through_rendezvous env0 push_request
           (world_with registered_fields_transport) 1000 2200 2201 2000 2300
           (endpoint_with registered_fields_transport) registered_fields_transport
           [] [2001] (context_at kRendezvousStartContext 3000 1000) resp
           {| sa_data := 7 * 4096; sa_size := 8 |} {| sa_data := 2 ^ 20; sa_size := 1024 |}
           {| sa_data := 2 ^ 21; sa_size := 4 |}
           (region (7 * 4096)) (region (2 ^ 20)) (region (2 ^ 21))).
  all: try reflexivity.
  all: try discriminate.
  - eexists. reflexivity.
  - eexists. repeat split; reflexivity.
  - intros tr wr. reflexivity.
  - intros tr c. reflexivity.
Defined.

(** ** The IPC transport *)

Lemma put_trans_run (ep : Z) (t' : Transport) (w : World) (e : Endpoint) :
  ep_heap w !! ep = Some e ->
  put_trans ep t' w = Done tt (set_ep_heap (<[ep := set_trans t' e]> (ep_heap w)) w).
Proof.
  intros He. unfold put_trans. rewrite (bind_Done _ _ _ _ _ (get_ep_Done ep w e He)).
  reflexivity.
Qed.

Lemma GetSharedMemory_cached_run (E : Env) (ep k base : Z) (w : World) (e : Endpoint)
      (t : Transport) :
  ep_heap w !! ep = Some e -> trans e = Some t ->
  key_shm_addr_ t !! shm_base_key E k = Some base ->
  GetSharedMemory E ep k w = Done (wrap64 (base + shm_offset E t k)) w.
Proof.
  intros He Ht Hc. unfold GetSharedMemory.
  rewrite (bind_Done _ _ _ _ _ (get_trans_Done ep w e t He Ht)).
  cbv zeta. fold (shm_base_key E k). rewrite Hc. reflexivity.
Qed.

(** [GetSharedMemory] opens the shared memory of a base key once.  The
    first call for a key maps the segment of its base key, remembers the
    base address and returns it plus the offset of the key
    ([byteps_partition_bytes_] times the low 16 bits of the worker key).
    Every later call for a key with the same base key returns the
    remembered base plus its own offset and leaves the state as it is. *)
Theorem GetSharedMemory_opens_once (E : Env) (ep k : Z) (w : World) (e : Endpoint)
        (t : Transport) :
  ep_heap w !! ep = Some e -> trans e = Some t ->
  key_shm_addr_ t !! shm_base_key E k = None ->
  0 <= shm_open E (shm_base_key E k) ->
  fst (fstat E (shm_open E (shm_base_key E k))) = 0 ->
  let base := mmap E (snd (fstat E (shm_open E (shm_base_key E k))))
                   (shm_open E (shm_base_key E k)) in
  base ≠ wrap64 (-1) ->
  ∃ w', GetSharedMemory E ep k w = Done (wrap64 (base + shm_offset E t k)) w' ∧
        trace w' = trace w ∧
        ∀ k', shm_base_key E k' = shm_base_key E k ->
              GetSharedMemory E ep k' w' = Done (wrap64 (base + shm_offset E t k')) w'.
Proof.
  intros He Ht Hnone Hfd Hrc base Hbase. unfold GetSharedMemory at 1.
  rewrite (bind_Done _ _ _ _ _ (get_trans_Done ep w e t He Ht)).
  cbv zeta. fold (shm_base_key E k). rewrite Hnone.
  destruct (Z.leb_spec 0 (shm_open E (shm_base_key E k))) as [_|?]; [|lia].
  rewrite bind_CHECK_true.
  destruct (fstat E (shm_open E (shm_base_key E k))) as [rc size] eqn:Hst.
  simpl in Hrc. subst rc. simpl in base. rewrite Z.eqb_refl, bind_CHECK_true.
  fold base. destruct (Z.eqb_spec base (wrap64 (-1))) as [|_]; [contradiction|].
  cbn [negb]. rewrite bind_CHECK_true.
  rewrite (bind_Done _ _ _ _ _ (put_trans_run ep _ w e He)).
  eexists. split; [reflexivity|]. split; [reflexivity|].
  intros k' Hk'.
  erewrite (GetSharedMemory_cached_run E ep k' base);
    [| cbn; apply lookup_insert_eq | reflexivity
     | cbn; rewrite Hk'; apply lookup_insert_eq].
  reflexivity.
Qed.

Lemma GetSharedMemory_opens_once_witness :
  ∃ w', GetSharedMemory env0 1000 7 (world_with ipc_transport)
        = Done (wrap64 (2 ^ 40 + shm_offset env0 ipc_transport 7)) w' ∧
        trace w' = trace (world_with ipc_transport) ∧
        ∀ k', shm_base_key env0 k' = shm_base_key env0 7 ->
              GetSharedMemory env0 1000 k' w'
              = Done (wrap64 (2 ^ 40 + shm_offset env0 ipc_transport k')) w'.
Proof.
  apply (GetSharedMemory_opens_once env0 1000 7 (world_with ipc_transport)
           (endpoint_with ipc_transport) ipc_transport).
  - reflexivity.
  - reflexivity.
  - reflexivity.
  - vm_compute. discriminate.
  - reflexivity.
  - vm_compute. discriminate.
Defined.
Lemma IPC_pull_response_prefix (E : Env) (w : World) (ep msg_buf : Z) (rt : RemoteTuple)
      (msg : Message) (e : Endpoint) (t : Transport) (b : MessageBuffer) (vals : SArray)
      (base : Z) :
  ep_heap w !! ep = Some e -> trans e = Some t -> is_ipc t = true ->
  msg_bufs w !! msg_buf = Some b -> mrs b = [] ->
  data msg !! 1%nat = Some vals -> sa_data vals ≠ 0 ->
  key_shm_addr_ t !! shm_base_key E (key (meta msg)) = Some base ->
  shm_address E t base (key (meta msg)) ≠ 0 ->
  SendPullResponse E ep msg msg_buf rt w
  = (if enable_async_copy_ t
     then async_push ep (copy_job msg msg_buf rt (shm_address E t base (key (meta msg)))
                                  (sa_data vals))
     else run log (EvMemcpy (shm_address E t base (key (meta msg))) (AtAddr (sa_data vals))
                            (val_len (meta msg))) ;;
          Send E ep msg msg_buf rt) w.
Proof.
  intros He Ht Hipc Hbuf Hmrs Hvals Hsrc Hbase Hshm.
  unfold SendPullResponse. rewrite (bind_Done _ _ _ _ _ (get_trans_Done ep w e t He Ht)).
  rewrite Hipc. unfold IPCTransport_SendPullResponse.
  rewrite (bind_Done _ _ _ _ _ (get_buf_Done msg_buf w b Hbuf)).
  rewrite Hmrs. cbn [length Nat.eqb]. rewrite bind_CHECK_true.
  rewrite Hvals. unfold deref at 1. unfold bind at 1, ret.
  destruct (Z.eqb_spec (sa_data vals) 0) as [|_]; [contradiction|].
  cbn [negb]. rewrite bind_CHECK_true.
  rewrite (bind_Done _ _ _ _ _
             (GetSharedMemory_cached_run E ep (key (meta msg)) base w e t He Ht Hbase)).
  fold (shm_address E t base (key (meta msg))).
  destruct (Z.eqb_spec (shm_address E t base (key (meta msg))) 0) as [|_]; [contradiction|].
  cbn [negb]. rewrite bind_CHECK_true.
  rewrite (bind_Done _ _ _ _ _ (get_trans_Done ep w e t He Ht)).
  reflexivity.
Qed.

(** A pull response on an IPC transport with synchronous copy: the values
    are copied into the shared memory of the key, then the metadata is
    written to the worker with one signaled write; the values never go
    over the wire. *)
Theorem IPC_pull_response_sync_copies_then_posts (E : Env) (w : World)
        (ep msg_buf raddr rkey idx c base : Z) (msg : Message) (t : Transport)
        (b : MessageBuffer) (vals : SArray) :
  next_write_ctx w ep t c -> is_ipc t = true -> enable_async_copy_ t = false ->
  msg_bufs w !! msg_buf = Some b -> mrs b = [] ->
  data msg !! 1%nat = Some vals -> sa_data vals ≠ 0 ->
  key_shm_addr_ t !! shm_base_key E (key (meta msg)) = Some base ->
  shm_address E t base (key (meta msg)) ≠ 0 ->
  accepts E ep ->
  ∃ w', SendPullResponse E ep msg msg_buf (raddr, rkey, idx) w = Done tt w' ∧
        trace w' = trace w ++
          [EvMemcpy (shm_address E t base (key (meta msg))) (AtAddr (sa_data vals))
                    (val_len (meta msg));
           EvPostSend ep (meta_wr E c b raddr rkey idx)].
Proof.
  intros (e & rest & ctx & Hep & Htr & Hfree & Hc & Hctx) Hipc Hsync Hbuf Hmrs Hvals Hsrc
         Hbase Hshm Hpost.
  rewrite (IPC_pull_response_prefix E w ep msg_buf (raddr, rkey, idx) msg e t b vals base)
    by assumption.
  rewrite Hsync, bind_log. unfold Send.
  rewrite (RDMAWriteWithImm_no_region E _ ep msg_buf raddr rkey idx e t b c rest ctx);
    try assumption.
  eexists. split; [reflexivity|]. cbn. rewrite <- app_assoc. reflexivity.
Qed.

Lemma IPC_pull_response_sync_copies_then_posts_witness :
  ∃ w', SendPullResponse env0 1000 values_pull_response 500 (2 ^ 32, 77, 5)
          (world_with_buffer (ipc_transport_mapped false) []) = Done tt w' ∧
        trace w' = trace (world_with_buffer (ipc_transport_mapped false) []) ++
          [EvMemcpy (shm_address env0 (ipc_transport_mapped false) (2 ^ 40) 7)
                    (AtAddr (2 ^ 20)) 1024;
           EvPostSend 1000 (meta_wr env0 2200 (buffer_with []) (2 ^ 32) 77 5)].
Proof.
  apply (IPC_pull_response_sync_copies_then_posts env0
           (world_with_buffer (ipc_transport_mapped false) []) 1000 500 (2 ^ 32) 77 5 2200
           (2 ^ 40) values_pull_response (ipc_transport_mapped false) (buffer_with [])
           {| sa_data := 2 ^ 20; sa_size := 1024 |}).
  - eexists _, _, _. split; [reflexivity|]. split; [reflexivity|]. split; [reflexivity|].
    split; [discriminate | reflexivity].
  - reflexivity.
  - reflexivity.
  - reflexivity.
  - reflexivity.
  - reflexivity.
  - discriminate.
  - reflexivity.
  - vm_compute. discriminate.
  - intros tr wr. reflexivity.
Defined.

Lemma async_push_run (ep : Z) (m : AsyncCopy) (w : World) (e : Endpoint) (t : Transport)
      (q : list AsyncCopy) :
  ep_heap w !! ep = Some e -> trans e = Some t ->
  wrap64 (ipc_copy_nthreads_ t) ≠ 0 ->
  async_copy_queue_ t !! next_queue t = Some q ->
  async_push ep m w
  = Done tt (set_ep_heap
               (<[ep := set_trans (set_async (<[next_queue t := q ++ [m]]> (async_copy_queue_ t))
                                             (wrap64 (cpy_counter_ t + 1)) t) e]> (ep_heap w)) w).
Proof.
  intros He Ht Hn Hq. unfold async_push.
  rewrite (bind_Done _ _ _ _ _ (get_trans_Done ep w e t He Ht)).
  cbv zeta. destruct (Z.eqb_spec (wrap64 (ipc_copy_nthreads_ t)) 0) as [|_]; [contradiction|].
  fold (next_queue t). rewrite Hq. unfold deref at 1. unfold bind at 1, ret.
  apply put_trans_run, He.
Qed.

(** A pull response on an IPC transport with asynchronous copy is only
    queued: the job goes to the tail of the queue chosen by the counter
    modulo the number of copy workers, the counter moves on by one, and the
    sending thread neither copies nor posts anything. *)
Theorem IPC_pull_response_async_round_robin (E : Env) (w : World) (ep msg_buf base : Z)
        (rt : RemoteTuple) (msg : Message) (e : Endpoint) (t : Transport)
        (b : MessageBuffer) (vals : SArray) (q : list AsyncCopy) :
  ep_heap w !! ep = Some e -> trans e = Some t ->
  is_ipc t = true -> enable_async_copy_ t = true ->
  msg_bufs w !! msg_buf = Some b -> mrs b = [] ->
  data msg !! 1%nat = Some vals -> sa_data vals ≠ 0 ->
  key_shm_addr_ t !! shm_base_key E (key (meta msg)) = Some base ->
  shm_address E t base (key (meta msg)) ≠ 0 ->
  wrap64 (ipc_copy_nthreads_ t) ≠ 0 ->
  async_copy_queue_ t !! next_queue t = Some q ->
  ∃ w' e' t',
    SendPullResponse E ep msg msg_buf rt w = Done tt w' ∧
    trace w' = trace w ∧ msg_bufs w' = msg_bufs w ∧
    ep_heap w' !! ep = Some e' ∧ trans e' = Some t' ∧
    free_write_ctx e' = free_write_ctx e ∧
    async_copy_queue_ t' !! next_queue t
    = Some (q ++ [copy_job msg msg_buf rt (shm_address E t base (key (meta msg)))
                           (sa_data vals)]) ∧
    (∀ j, j ≠ next_queue t -> async_copy_queue_ t' !! j = async_copy_queue_ t !! j) ∧
    cpy_counter_ t' = wrap64 (cpy_counter_ t + 1).
Proof.
  intros He Ht Hipc Hasync Hbuf Hmrs Hvals Hsrc Hbase Hshm Hn Hq.
  rewrite (IPC_pull_response_prefix E w ep msg_buf rt msg e t b vals base) by assumption.
  rewrite Hasync, (async_push_run ep _ w e t q He Ht Hn Hq).
  eexists _, _, _. split; [reflexivity|]. split; [reflexivity|]. split; [reflexivity|].
  split; [cbn; apply lookup_insert_eq|]. split; [reflexivity|]. split; [reflexivity|].
  split; [|split; [|reflexivity]]; cbn.
  - apply list_lookup_insert_eq. apply lookup_lt_Some in Hq. exact Hq.
  - intros j Hj. apply list_lookup_insert_ne. congruence.
Qed.

Lemma IPC_pull_response_async_round_robin_witness :
  ∃ w' e' t',
    SendPullResponse env0 1000 values_pull_response 500 (2 ^ 32, 77, 5)
      (world_with_buffer (ipc_transport_mapped true) []) = Done tt w' ∧
    trace w' = trace (world_with_buffer (ipc_transport_mapped true) []) ∧
    msg_bufs w' = msg_bufs (world_with_buffer (ipc_transport_mapped true) []) ∧
    ep_heap w' !! 1000 = Some e' ∧ trans e' = Some t' ∧
    free_write_ctx e' = free_write_ctx (endpoint_with (ipc_transport_mapped true)) ∧
    async_copy_queue_ t' !! next_queue (ipc_transport_mapped true)
    = Some ([] ++ [copy_job values_pull_response 500 (2 ^ 32, 77, 5)
                     (shm_address env0 (ipc_transport_mapped true) (2 ^ 40) 7) (2 ^ 20)]) ∧
    (∀ j, j ≠ next_queue (ipc_transport_mapped true) ->
          async_copy_queue_ t' !! j = async_copy_queue_ (ipc_transport_mapped true) !! j) ∧
    cpy_counter_ t' = wrap64 (cpy_counter_ (ipc_transport_mapped true) + 1).
Proof.
  apply (IPC_pull_response_async_round_robin env0
           (world_with_buffer (ipc_transport_mapped true) []) 1000 500 (2 ^ 40)
           (2 ^ 32, 77, 5) values_pull_response (endpoint_with (ipc_transport_mapped true))
           (ipc_transport_mapped true) (buffer_with [])
           {| sa_data := 2 ^ 20; sa_size := 1024 |} []).
  - reflexivity.
  - reflexivity.
  - reflexivity.
  - reflexivity.
  - reflexivity.
  - reflexivity.
  - reflexivity.
  - discriminate.
  - reflexivity.
  - vm_compute. discriminate.
  - vm_compute. discriminate.
  - reflexivity.
Defined.

Lemma AsyncCopyThread_turn_job_run (E : Env) (w : World) (ep c : Z) (i : nat) (e : Endpoint)
      (t : Transport) (m : AsyncCopy) (rest_q : list AsyncCopy) (b : MessageBuffer)
      (rest : list Z) (ctx : WRContext) :
  ep_heap w !! ep = Some e -> trans e = Some t -> free_write_ctx e = c :: rest -> c ≠ 0 ->
  ctx_heap w !! c = Some ctx ->
  async_copy_queue_ t !! i = Some (m :: rest_q) ->
  ac_shutdown m = false -> ac_len m ≠ 0 -> ac_dst m ≠ 0 -> ac_src m ≠ 0 ->
  msg_bufs w !! ac_msg_buf m = Some b -> mrs b = [] -> accepts E ep ->
  ∃ w', AsyncCopyThread_turn E ep i w = Done true w' ∧
        trace w' = trace w ++
          [EvMemcpy (ac_dst m) (AtAddr (ac_src m)) (ac_len m);
           EvPostSend ep (meta_wr E c b (ac_remote_tuple m).1.1 (ac_remote_tuple m).1.2
                                  (ac_remote_tuple m).2)] ∧
        copy_queues w' ep = Some (<[i := rest_q]> (async_copy_queue_ t)).
Proof.
  intros He Ht Hfree Hc Hctx Hq Hs Hl Hd Hsrc Hbuf Hmrs Hpost.
  unfold AsyncCopyThread_turn.
  rewrite (bind_Done _ _ _ _ _ (get_trans_Done ep w e t He Ht)).
  rewrite Hq. unfold deref at 1. unfold bind at 1, ret.
  rewrite (bind_Done _ _ _ _ _ (put_trans_run ep _ w e He)).
  rewrite Hs.
  destruct (Z.eqb_spec (ac_len m) 0) as [|_]; [contradiction|].
  destruct (Z.eqb_spec (ac_dst m) 0) as [|_]; [contradiction|].
  destruct (Z.eqb_spec (ac_src m) 0) as [|_]; [contradiction|].
  cbn [negb]. rewrite !bind_CHECK_true, bind_log.
  destruct (ac_remote_tuple m) as [[raddr rkey] idx]. cbn [fst snd].
  erewrite bind_Done;
    [| eapply (RDMAWriteWithImm_no_region E _ ep (ac_msg_buf m) raddr rkey idx _ _ b c rest ctx);
       [cbn; apply lookup_insert_eq | reflexivity | exact Hfree | exact Hc | exact Hctx
       | exact Hbuf | exact Hpost | exact Hmrs]].
  eexists. split; [reflexivity|]. split.
  - cbn. rewrite <- app_assoc. reflexivity.
  - unfold copy_queues. cbn. rewrite lookup_insert_eq. reflexivity.
Qed.

(** With asynchronous copy the work of a pull response is done by the copy
    worker: once [SendPullResponse] has queued the job on an empty queue,
    the next turn of that queue's worker copies the values into the shared
    memory and then posts the metadata write, the very two events of the
    synchronous path, provided the tensor is not empty. *)
Theorem copy_worker_serves_pull_response (E : Env) (w : World)
        (ep msg_buf raddr rkey idx c base : Z) (msg : Message) (t : Transport)
        (b : MessageBuffer) (vals : SArray) :
  next_write_ctx w ep t c -> is_ipc t = true -> enable_async_copy_ t = true ->
  msg_bufs w !! msg_buf = Some b -> mrs b = [] ->
  data msg !! 1%nat = Some vals -> sa_data vals ≠ 0 ->
  key_shm_addr_ t !! shm_base_key E (key (meta msg)) = Some base ->
  shm_address E t base (key (meta msg)) ≠ 0 ->
  wrap64 (ipc_copy_nthreads_ t) ≠ 0 ->
  async_copy_queue_ t !! next_queue t = Some [] ->
  val_len (meta msg) ≠ 0 ->
  accepts E ep ->
  ∃ w', (run SendPullResponse E ep msg msg_buf (raddr, rkey, idx) ;;
         AsyncCopyThread_turn E ep (next_queue t)) w = Done true w' ∧
        trace w' = trace w ++
          [EvMemcpy (shm_address E t base (key (meta msg))) (AtAddr (sa_data vals))
                    (val_len (meta msg));
           EvPostSend ep (meta_wr E c b raddr rkey idx)] ∧
        copy_queues w' ep
        = Some (<[next_queue t := []]> (async_copy_queue_ t)).
Proof.
  intros (e & rest & ctx & Hep & Htr & Hfree & Hc & Hctx) Hipc Hasync Hbuf Hmrs Hvals Hsrc
         Hbase Hshm Hn Hq Hlen Hpost.
  erewrite bind_Done;
    [| rewrite (IPC_pull_response_prefix E w ep msg_buf (raddr, rkey, idx) msg e t b vals base)
         by assumption;
       rewrite Hasync; apply (async_push_run ep _ w e t [] Hep Htr Hn Hq)].
  set (job := copy_job msg msg_buf (raddr, rkey, idx)
                (shm_address E t base (key (meta msg))) (sa_data vals)).
  set (t1 := set_async (<[next_queue t := [] ++ [job]]> (async_copy_queue_ t))
                       (wrap64 (cpy_counter_ t + 1)) t).
  set (w1 := set_ep_heap (<[ep := set_trans t1 e]> (ep_heap w)) w).
  assert (He1 : ep_heap w1 !! ep = Some (set_trans t1 e)) by (cbn; apply lookup_insert_eq).
  assert (Hq1 : async_copy_queue_ t1 !! next_queue t = Some [job]).
  { cbn. apply list_lookup_insert_eq. apply lookup_lt_Some in Hq. exact Hq. }
  destruct (AsyncCopyThread_turn_job_run E w1 ep c (next_queue t) (set_trans t1 e) t1 job []
              b rest ctx He1 eq_refl Hfree Hc Hctx Hq1 eq_refl Hlen Hshm Hsrc Hbuf Hmrs Hpost)
    as (w' & Hrun & Htrace & Hqs).
  exists w'. split; [exact Hrun|]. split; [exact Htrace|].
  rewrite Hqs. cbn. rewrite list_insert_insert_eq. reflexivity.
Qed.

Lemma copy_worker_serves_pull_response_witness :
  ∃ w', (run SendPullResponse env0 1000 values_pull_response 500 (2 ^ 32, 77, 5) ;;
         AsyncCopyThread_turn env0 1000 (next_queue (ipc_transport_mapped true)))
          (world_with_buffer (ipc_transport_mapped true) []) = Done true w' ∧
        trace w' = trace (world_with_buffer (ipc_transport_mapped true) []) ++
          [EvMemcpy (shm_address env0 (ipc_transport_mapped true) (2 ^ 40) 7)
                    (AtAddr (2 ^ 20)) 1024;
           EvPostSend 1000 (meta_wr env0 2200 (buffer_with []) (2 ^ 32) 77 5)] ∧
        copy_queues w' 1000
        = Some (<[next_queue (ipc_transport_mapped true) := []]>
                  (async_copy_queue_ (ipc_transport_mapped true))).
Proof.
  apply (copy_worker_serves_pull_response env0
           (world_with_buffer (ipc_transport_mapped true) []) 1000 500 (2 ^ 32) 77 5 2200
           (2 ^ 40) values_pull_response (ipc_transport_mapped true) (buffer_with [])
           {| sa_data := 2 ^ 20; sa_size := 1024 |}).
  - eexists _, _, _. split; [reflexivity|]. split; [reflexivity|]. split; [reflexivity|].
    split; [discriminate | reflexivity].
  - reflexivity.
  - reflexivity.
  - reflexivity.
  - reflexivity.
  - reflexivity.
  - discriminate.
  - reflexivity.
  - vm_compute. discriminate.
  - vm_compute. discriminate.
  - reflexivity.
  - discriminate.
  - intros tr wr. reflexivity.
Defined.
(** ** Receiving *)

Lemma appends_StoreWorkerTensorAddress (P : Event -> Prop) (msg : Message) :
  pres (appends P) (StoreWorkerTensorAddress msg).
Proof.
  intros w. apply appends_same. unfold StoreWorkerTensorAddress, bind, get.
  destruct (lookup2 (tensor_info_map_ w) (key (meta msg)) (sender (meta msg)))
    as [[[len0 a0] r0]|]; [|reflexivity].
  unfold CHECK. destruct (_ =? len0); simpl; [|reflexivity].
  destruct (_ =? a0); simpl; [|reflexivity].
  destruct (_ =? r0); reflexivity.
Qed.

Lemma RecvMsg_prefix_run (E : Env) (msg : Message) (w : World) (ep : Z) (bc : BufferContext)
      (rest : list (Z * BufferContext)) (e : Endpoint) (t : Transport) :
  recv_buffers_ w = (ep, bc) :: rest -> ep_heap w !! ep = Some e -> trans e = Some t ->
  let m := UnpackMeta E (buffer bc) (set_route (node_id e) (my_node_id w) (meta msg)) in
  let received := {| meta := m; data := [] |} in
  let meta_len := to_int (GetPackMetaLen E m) in
  RecvMsg E msg w
  = (if negb (IsValidPushpull received)
     then run log (EvFree (buffer bc)) ;; ret (received, meta_len)
     else
       do r <- (match push m, request m with
                | true, true =>
                    do r <- RecvPushRequest E ep received bc meta_len ;;
                    run StoreWorkerTensorAddress (fst r) ;; ret r
                | false, true => RecvPullRequest E ep received bc meta_len
                | true, false => RecvPushResponse ep received bc meta_len
                | false, false => RecvPullResponse E ep received bc meta_len
                end) ;;
       ret (fst r, to_int (meta_len + snd r))) (set_recv_buffers rest w).
Proof.
  intros Hq He Ht m received meta_len. unfold RecvMsg. rewrite bind_get, Hq.
  unfold modify at 1. unfold bind at 1.
  assert (He' : ep_heap (set_recv_buffers rest w) !! ep = Some e) by exact He.
  rewrite (bind_Done _ _ _ _ _ (get_ep_Done ep _ e He')).
  cbv zeta. rewrite Ht.
  replace (bool_decide (is_Some (Some t))) with true
    by (symmetry; apply bool_decide_eq_true; eauto).
  rewrite bind_CHECK_true. reflexivity.
Qed.

(** [RecvMsg] gives the landing buffer back to the pool for a message that
    is not a push or pull data message, which it returns without data and
    with the length of its packed meta.  For a data message the buffer is
    kept: whether the receive returns or halts, the only events are the
    allocations and copies of the 8 bytes of the key and the 4 bytes of
    the length. *)
Theorem RecvMsg_releases_control_buffers_only (E : Env) (msg : Message) (w : World)
        (ep : Z) (bc : BufferContext) (rest : list (Z * BufferContext)) (e : Endpoint)
        (t : Transport) :
  recv_buffers_ w = (ep, bc) :: rest -> ep_heap w !! ep = Some e -> trans e = Some t ->
  let m := UnpackMeta E (buffer bc) (set_route (node_id e) (my_node_id w) (meta msg)) in
  let received := {| meta := m; data := [] |} in
  (IsValidPushpull received = false ->
   RecvMsg E msg w
   = Done (received, to_int (GetPackMetaLen E m))
       (set_trace (trace w ++ [EvFree (buffer bc)]) (set_recv_buffers rest w))) ∧
  (IsValidPushpull received = true ->
   appends copies_meta_only w (final (RecvMsg E msg w))).
Proof.
  intros Hq He Ht m received.
  rewrite (RecvMsg_prefix_run E msg w ep bc rest e t Hq He Ht).
  fold m. fold received. split; intros Hv; rewrite Hv; cbn [negb].
  - rewrite bind_log. reflexivity.
  - destruct (Recv_no_payload_copy E ep received bc (to_int (GetPackMetaLen E m)))
      as (F1 & F2 & F3 & F4).
    assert (F : pres (appends copies_meta_only)
                  (do r <- (match push m, request m with
                            | true, true =>
                                do r <- RecvPushRequest E ep received bc
                                          (to_int (GetPackMetaLen E m)) ;;
                                run StoreWorkerTensorAddress (fst r) ;; ret r
                            | false, true =>
                                RecvPullRequest E ep received bc (to_int (GetPackMetaLen E m))
                            | true, false =>
                                RecvPushResponse ep received bc (to_int (GetPackMetaLen E m))
                            | false, false =>
                                RecvPullResponse E ep received bc (to_int (GetPackMetaLen E m))
                            end) ;;
                   ret (fst r, to_int (to_int (GetPackMetaLen E m) + snd r)))).
    { apply pres_bind; [typeclasses eauto| |intros; apply pres_ret; typeclasses eauto].
      destruct (push m), (request m); try (apply pres_frame_appends; assumption).
      apply pres_bind; [typeclasses eauto|apply pres_frame_appends; assumption|].
      intros r. apply pres_bind; [typeclasses eauto|apply appends_StoreWorkerTensorAddress|].
      intros. apply pres_ret. typeclasses eauto. }
    specialize (F (set_recv_buffers rest w)).
    destruct F as (evs & Htr & Hall). exists evs. split; [exact Htr | exact Hall].
Qed.

Lemma RecvMsg_releases_control_buffers_only_witness :
  let w := set_recv_buffers [(1000, landing_meta_only)] world0 in
  let m := UnpackMeta env0 (buffer landing_meta_only)
             (set_route (node_id (endpoint_with rdma_transport)) (my_node_id w)
                        (meta barrier_message)) in
  let received := {| meta := m; data := [] |} in
  (IsValidPushpull received = false ->
   RecvMsg env0 barrier_message w
   = Done (received, to_int (GetPackMetaLen env0 m))
       (set_trace (trace w ++ [EvFree (buffer landing_meta_only)])
          (set_recv_buffers [] w))) ∧
  (IsValidPushpull received = true ->
   appends copies_meta_only w (final (RecvMsg env0 barrier_message w))).
Proof.
  apply (RecvMsg_releases_control_buffers_only env0 barrier_message
           (set_recv_buffers [(1000, landing_meta_only)] world0) 1000 landing_meta_only []
           (endpoint_with rdma_transport) rdma_transport).
  - reflexivity.
  - reflexivity.
  - reflexivity.
Defined.
(** ** The reply to a rendezvous *)

Lemma on_van_Done {A} (c : M World A) (r : Receiver) (a : A) (w : World) :
  c (van r) = Done a w -> on_van c r = Done a (set_van w r).
Proof. intros H. unfold on_van. rewrite H. reflexivity. Qed.

(** One step of a computation of the van inside one of the receiver; the
    step returns [a], which [tac] proves. *)
Ltac on_van_step a tac :=
  cbn [van set_van set_buf_ctx_heap set_addr_pool];
  lazymatch goal with
  | |- bind (on_van ?c) ?k ?s = _ =>
      let Hs := fresh in
      eassert (Hs : c (van s) = Done a _) by (cbn [van]; tac);
      rewrite (bind_Done _ _ _ _ _ (on_van_Done c s _ _ Hs)); clear Hs
  end.

Lemma WaitAndPop_reply_run (ep c : Z) (rest : list Z) (w : World) (e : Endpoint) :
  ep_heap w !! ep = Some e -> free_reply_ctx e = c :: rest ->
  WaitAndPop_reply ep w
  = Done c (set_ep_heap (<[ep := set_free_reply rest e]> (ep_heap w)) w).
Proof.
  intros He Hf. unfold WaitAndPop_reply.
  rewrite (bind_Done _ _ _ _ _ (get_ep_Done ep w e He)). rewrite Hf.
  unfold put_ep, bind, modify, ret. reflexivity.
Qed.

Lemma SendRendezvousReply_run (E : Env) (bound : Z) (r : Receiver) (ep cr : Z)
      (req : RendezvousStart) (e : Endpoint) (t : Transport) (rest : list Z)
      (ctx : WRContext) (idx : nat) (free : list nat) :
  ep_heap (van r) !! ep = Some e -> trans e = Some t ->
  free_reply_ctx e = cr :: rest -> ctx_heap (van r) !! cr = Some ctx ->
  (Z.to_nat (rs_data_num req) <= kMaxDataFields)%nat ->
  (Z.to_nat (rs_data_num req) <= length (rs_data_len req))%nat ->
  let buf_ctx := operator_new E (trace (van r)) in
  let size := landing_size bound t req in
  let buffer := mempool_Alloc E (trace (van r) ++ [EvNew buf_ctx]) size in
  let lens := take (Z.to_nat (rs_data_num req)) (rs_data_len req) in
  let resp := {| rr_addr := buffer; rr_origin_addr := rs_origin_addr req;
                 rr_rkey := RemoteKey E buffer; rr_idx := Z.of_nat idx |} in
  buf_ctx ≠ 0 -> buffer ≠ 0 ->
  AddressPool.indices_ (addr_pool_ r) = idx :: free ->
  AddressPool.table_ (addr_pool_ r) !! idx = Some 0 ->
  accepts E ep ->
  SendRendezvousReply E bound ep req r
  = Done tt
      {| van := set_trace (trace (van r) ++
                             [EvNew buf_ctx; EvAlloc size buffer;
                              EvReply (mr_addr (ctx_buffer ctx)) resp;
                              EvPostSend ep (reply_wr cr ctx)])
                  (set_ep_heap (<[ep := set_free_reply rest e]> (ep_heap (van r))) (van r));
         addr_pool_ := {| AddressPool.indices_ := free;
                          AddressPool.table_ :=
                            <[idx := buf_ctx]> (AddressPool.table_ (addr_pool_ r)) |};
         buf_ctx_heap :=
           <[buf_ctx := {| buffer := buffer; bc_meta_len := rs_meta_len req;
                           data_num := rs_data_num req;
                           data_len := lens ++ replicate
                                         (kMaxDataFields - Z.to_nat (rs_data_num req)) 0 |}]>
             (buf_ctx_heap r) |}.
Proof.
  intros He Ht Hf Hctx Hn Hl buf_ctx size buffer lens resp Hb Hbuf Hi Hslot Hpost.
  unfold SendRendezvousReply.
  rewrite (bind_Done _ _ _ _ _ (on_van_Done get r _ _ eq_refl)).
  fold buf_ctx.
  rewrite (bind_Done _ _ _ _ _ (on_van_Done (log (EvNew buf_ctx)) _ _ _ eq_refl)).
  cbv zeta.
  assert (Hc : (kMaxDataFields <? Z.to_nat (rs_data_num req))%nat
               || (length (rs_data_len req) <? Z.to_nat (rs_data_num req))%nat = false).
  { apply orb_false_iff. split; apply Nat.ltb_ge; assumption. }
  rewrite Hc.
  unfold modify at 1. unfold bind at 1.
  on_van_step t ltac:(apply (get_trans_Done ep _ e t); [exact He | exact Ht]).
  fold (landing_size bound t req). fold size.
  rewrite (bind_Done _ _ _ _ _ (on_van_Done get _ _ _ eq_refl)).
  cbn [van set_van set_buf_ctx_heap trace set_trace]. fold buffer.
  rewrite (bind_Done _ _ _ _ _ (on_van_Done (log (EvAlloc size buffer)) _ _ _ eq_refl)).
  destruct (Z.eqb_spec buffer 0) as [|_]; [contradiction|].
  cbn [negb]. rewrite bind_CHECK_true.
  unfold modify at 1. unfold bind at 1.
  on_van_step cr ltac:(apply (WaitAndPop_reply_run ep cr rest _ e); [exact He | exact Hf]).
  on_van_step ctx ltac:(apply get_ctx_Done; exact Hctx).
  assert (Hstore : AddressPool.StoreAddress buf_ctx (addr_pool_ r)
                   = Done idx {| AddressPool.indices_ := free;
                                 AddressPool.table_ :=
                                   <[idx := buf_ctx]> (AddressPool.table_ (addr_pool_ r)) |}).
  { unfold AddressPool.StoreAddress.
    destruct (Z.eqb_spec buf_ctx 0) as [|_]; [contradiction|].
    rewrite Hi, Hslot. reflexivity. }
  unfold on_pool at 1. unfold bind at 1.
  cbn [addr_pool_ set_van set_buf_ctx_heap]. rewrite Hstore.
  on_van_step tt ltac:(reflexivity).
  unfold on_van. cbn [van set_van set_addr_pool set_buf_ctx_heap].
  erewrite post_send_accepted by exact Hpost.
  cbn. rewrite insert_insert_eq, <- !app_assoc. reflexivity.
Qed.

(** [SendRendezvousReply] answers a rendezvous request with the address of
    a fresh landing buffer, the origin address of the request and the
    index under which the pool keeps the context of that buffer: the pool
    gives the context back for that index (and is then as before, the index
    last in the free queue), and the context records the buffer and the
    lengths the request announced.  The reply leaves from the next free
    reply context. *)
Theorem SendRendezvousReply_index_finds_buffer (E : Env) (bound : Z) (r : Receiver)
        (ep cr : Z) (req : RendezvousStart) (e : Endpoint) (t : Transport) (rest : list Z)
        (ctx : WRContext) (idx : nat) (free : list nat) :
  ep_heap (van r) !! ep = Some e -> trans e = Some t ->
  free_reply_ctx e = cr :: rest -> ctx_heap (van r) !! cr = Some ctx ->
  (Z.to_nat (rs_data_num req) <= kMaxDataFields)%nat ->
  (Z.to_nat (rs_data_num req) <= length (rs_data_len req))%nat ->
  operator_new E (trace (van r)) ≠ 0 ->
  mempool_Alloc E (trace (van r) ++ [EvNew (operator_new E (trace (van r)))])
                (landing_size bound t req) ≠ 0 ->
  AddressPool.indices_ (addr_pool_ r) = idx :: free ->
  AddressPool.table_ (addr_pool_ r) !! idx = Some 0 ->
  accepts E ep ->
  ∃ r' resp bc,
    SendRendezvousReply E bound ep req r = Done tt r' ∧
    trace (van r') = trace (van r) ++
      [EvNew (operator_new E (trace (van r)));
       EvAlloc (landing_size bound t req) (rr_addr resp);
       EvReply (mr_addr (ctx_buffer ctx)) resp;
       EvPostSend ep (reply_wr cr ctx)] ∧
    rr_origin_addr resp = rs_origin_addr req ∧
    rr_rkey resp = RemoteKey E (rr_addr resp) ∧
    AddressPool.GetAddressAndRelease (Z.to_nat (rr_idx resp)) (addr_pool_ r')
    = Done (operator_new E (trace (van r)))
        {| AddressPool.indices_ := free ++ [idx];
           AddressPool.table_ := AddressPool.table_ (addr_pool_ r) |} ∧
    buf_ctx_heap r' !! operator_new E (trace (van r)) = Some bc ∧
    buffer bc = rr_addr resp ∧ bc_meta_len bc = rs_meta_len req ∧
    data_num bc = rs_data_num req ∧
    take (Z.to_nat (rs_data_num req)) (data_len bc)
    = take (Z.to_nat (rs_data_num req)) (rs_data_len req).
Proof.
  intros He Ht Hf Hctx Hn Hl Hb Hbuf Hi Hslot Hpost.
  rewrite (SendRendezvousReply_run E bound r ep cr req e t rest ctx idx free)
    by assumption.
  set (buffer := mempool_Alloc E (trace (van r) ++ [EvNew (operator_new E (trace (van r)))])
                               (landing_size bound t req)) in *.
  eexists _, {| rr_addr := buffer; rr_origin_addr := rs_origin_addr req;
                rr_rkey := RemoteKey E buffer; rr_idx := Z.of_nat idx |}, _.
  split; [reflexivity|]. cbn.
  split; [reflexivity|]. split; [reflexivity|]. split; [reflexivity|].
  split; [|split; [apply lookup_insert_eq|]].
  - rewrite Nat2Z.id. unfold AddressPool.GetAddressAndRelease. cbn.
    rewrite list_lookup_insert_eq by (apply lookup_lt_Some in Hslot; exact Hslot).
    destruct (Z.eqb_spec (operator_new E (trace (van r))) 0) as [|_]; [contradiction|].
    rewrite list_insert_insert_eq, list_insert_id by exact Hslot. reflexivity.
  - cbn. split; [reflexivity|]. split; [reflexivity|]. split; [reflexivity|].
    rewrite take_app_le by (rewrite length_take; lia).
    rewrite take_take. f_equal. lia.
Qed.

Lemma SendRendezvousReply_index_finds_buffer_witness :
  ∃ r' resp bc,
    SendRendezvousReply env0 1024 1000 push_start receiver0 = Done tt r' ∧
    trace (van r') = trace (van receiver0) ++
      [EvNew (operator_new env0 (trace (van receiver0)));
       EvAlloc (landing_size 1024 server_transport push_start) (rr_addr resp);
       EvReply (mr_addr (ctx_buffer (context_at kRendezvousReplyContext 3100 1000))) resp;
       EvPostSend 1000 (reply_wr 2100 (context_at kRendezvousReplyContext 3100 1000))] ∧
    rr_origin_addr resp = rs_origin_addr push_start ∧
    rr_rkey resp = RemoteKey env0 (rr_addr resp) ∧
    AddressPool.GetAddressAndRelease (Z.to_nat (rr_idx resp)) (addr_pool_ r')
    = Done (operator_new env0 (trace (van receiver0)))
        {| AddressPool.indices_ := seq 1 511 ++ [0%nat];
           AddressPool.table_ := AddressPool.table_ (addr_pool_ receiver0) |} ∧
    buf_ctx_heap r' !! operator_new env0 (trace (van receiver0)) = Some bc ∧
    buffer bc = rr_addr resp ∧ bc_meta_len bc = rs_meta_len push_start ∧
    data_num bc = rs_data_num push_start ∧
    take (Z.to_nat (rs_data_num push_start)) (data_len bc)
    = take (Z.to_nat (rs_data_num push_start)) (rs_data_len push_start).
Proof.
  apply (SendRendezvousReply_index_finds_buffer env0 1024 receiver0 1000 2100 push_start
           (endpoint_with server_transport) server_transport []
           (context_at kRendezvousReplyContext 3100 1000) 0%nat (seq 1 511)).
  - reflexivity.
  - reflexivity.
  - reflexivity.
  - reflexivity.
  - vm_compute. lia.
  - vm_compute. lia.
  - vm_compute. discriminate.
  - vm_compute. discriminate.
  - reflexivity.
  - reflexivity.
  - intros tr wr. reflexivity.
Defined.

(** The two sides of a rendezvous fit together.  The request that
    [SendRendezvousBegin] writes for a message buffer is answered by
    [SendRendezvousReply] on the receiver with a fresh landing buffer; when
    the sender polls that reply it finds the message buffer again through
    the origin address and writes the meta into the landing buffer, with
    the pool index of the receiver as immediate value; and under that index
    the receiver keeps the context of this very buffer, which records the
    length of the sender's packed meta and of each of its data fields. *)
Theorem rendezvous_handshake (Es Er : Env) (bound : Z) (ws : World) (r : Receiver)
        (ep msg_buf cw1 cw cs rc : Z) (msg : Message) (e : Endpoint) (t : Transport)
        (b : MessageBuffer) (restw rests : list Z) (ctxs : WRContext)
        (ep' cr : Z) (e' : Endpoint) (t' : Transport) (restr : list Z) (ctxr : WRContext)
        (idx : nat) (free : list nat) :
  ep ≠ 0 -> ep_heap ws !! ep = Some e -> trans e = Some t ->
  free_write_ctx e = cw1 :: cw :: restw -> cw ≠ 0 -> is_Some (ctx_heap ws !! cw) ->
  free_start_ctx e = cs :: rests -> ctx_heap ws !! cs = Some ctxs ->
  context_of ws rc kReceiveContext ep ->
  msg_bufs ws !! msg_buf = Some b -> buf_data b = data msg -> mrs b = [] ->
  (length (data msg) <= kMaxDataFields)%nat ->
  accepts Es ep -> accepts_recv Es ep ->
  ep_heap (van r) !! ep' = Some e' -> trans e' = Some t' ->
  free_reply_ctx e' = cr :: restr -> ctx_heap (van r) !! cr = Some ctxr ->
  operator_new Er (trace (van r)) ≠ 0 ->
  (∀ size, mempool_Alloc Er (trace (van r) ++ [EvNew (operator_new Er (trace (van r)))]) size
           ≠ 0) ->
  AddressPool.indices_ (addr_pool_ r) = idx :: free ->
  AddressPool.table_ (addr_pool_ r) !! idx = Some 0 ->
  accepts Er ep' ->
  ∃ ws1 req r1 resp ws2 bc,
    SendRendezvousBegin Es ep msg msg_buf ws = Done tt ws1 ∧
    trace ws1 = trace ws ++
      [EvStart (mr_addr (ctx_buffer ctxs)) req; EvPostSend ep (start_wr cs ctxs)] ∧
    SendRendezvousReply Er bound ep' req r = Done tt r1 ∧
    trace (van r1) = trace (van r) ++
      [EvNew (operator_new Er (trace (van r)));
       EvAlloc (landing_size bound t' req) (rr_addr resp);
       EvReply (mr_addr (ctx_buffer ctxr)) resp;
       EvPostSend ep' (reply_wr cr ctxr)] ∧
    PollCQ Es (WC_RECV_RendezvousReply rc resp) ws1 = Done tt ws2 ∧
    trace ws2 = trace ws1 ++
      [EvPostSend ep (meta_wr Es cw b (rr_addr resp) (rr_rkey resp) (rr_idx resp));
       EvPostRecv ep rc] ∧
    AddressPool.table_ (addr_pool_ r1) !! Z.to_nat (rr_idx resp)
    = Some (operator_new Er (trace (van r))) ∧
    buf_ctx_heap r1 !! operator_new Er (trace (van r)) = Some bc ∧
    buffer bc = rr_addr resp ∧ bc_meta_len bc = inline_len b ∧
    data_num bc = Z.of_nat (length (data msg)) ∧
    take (length (data msg)) (data_len bc) = map sa_size (data msg).
Proof.
  intros Hep He Ht Hfw Hcw [ctxw Hctxw] Hfs Hctxs (ctxrc & Hrc & Hrcty & Hrcep)
         Hbuf Hdata Hmrs Hlen Hpost Hrecv He' Ht' Hfr Hctxr Hnew Halloc Hi Hslot Hpost'.
  set (req := {| rs_meta_len := inline_len b;
                 rs_data_num := Z.of_nat (length (data msg));
                 rs_data_len := map sa_size (data msg);
                 rs_origin_addr := msg_buf |}).
  assert (Hnum : Z.to_nat (rs_data_num req) = length (data msg)) by apply Nat2Z.id.
  pose proof (SendRendezvousBegin_run Es ws ep msg_buf cw1 cs msg e b (cw :: restw) rests ctxs
                He Hfw Hfs Hctxs Hbuf Hdata Hlen Hpost) as Hbegin.
  fold req in Hbegin.
  pose proof (SendRendezvousReply_run Er bound r ep' cr req e' t' restr ctxr idx free
                He' Ht' Hfr Hctxr) as Hreply.
  rewrite Hnum in Hreply. cbv zeta in Hreply.
  specialize (Hreply Hlen ltac:(cbn; rewrite length_map; lia) Hnew (Halloc _) Hi Hslot Hpost').
  set (buffer := mempool_Alloc Er (trace (van r) ++ [EvNew (operator_new Er (trace (van r)))])
                               (landing_size bound t' req)) in *.
  set (resp := {| rr_addr := buffer; rr_origin_addr := msg_buf;
                  rr_rkey := RemoteKey Er buffer; rr_idx := Z.of_nat idx |}).
  match type of Hbegin with _ = Done tt ?w => set (ws1 := w) in * end.
  destruct (PollCQ_reply_run Es ws1 ep rc cw resp
              (set_free_start rests (set_free_write (cw :: restw) e)) t restw ctxrc ctxw
              (set_reserved cw1 b))
    as (ws2 & Hpoll & _ & _ & _ & _ & Htrace); try assumption; try reflexivity.
  - cbn. apply lookup_insert_eq.
  - cbn. apply lookup_insert_eq.
  - eexists ws1, req, _, resp, ws2, _. split; [exact Hbegin|].
    split; [reflexivity|]. split; [exact Hreply|]. cbn.
    split; [reflexivity|]. split; [exact Hpoll|]. split; [exact Htrace|].
    split; [|split; [apply lookup_insert_eq|]].
    + rewrite Nat2Z.id. apply list_lookup_insert_eq.
      apply lookup_lt_Some in Hslot. exact Hslot.
    + cbn. split; [reflexivity|]. split; [reflexivity|]. split; [reflexivity|].
      rewrite take_app_le by (rewrite length_take, length_map; lia).
      rewrite take_take, Nat.min_id.
      rewrite <- (length_map sa_size (data msg)). apply firstn_all.
Qed.

Lemma rendezvous_handshake_witness :
  let ws := world_sending rdma_transport values_pull_response in
  let b := buffer_of values_pull_response in
  ∃ ws1 req r1 resp ws2 bc,
    SendRendezvousBegin env0 1000 values_pull_response 500 ws = Done tt ws1 ∧
    trace ws1 = trace ws ++
      [EvStart (mr_addr (ctx_buffer (context_at kRendezvousStartContext 3000 1000))) req;
       EvPostSend 1000 (start_wr 2000 (context_at kRendezvousStartContext 3000 1000))] ∧
    SendRendezvousReply env0 1024 1000 req receiver0 = Done tt r1 ∧
    trace (van r1) = trace (van receiver0) ++
      [EvNew (operator_new env0 (trace (van receiver0)));
       EvAlloc (landing_size 1024 server_transport req) (rr_addr resp);
       EvReply (mr_addr (ctx_buffer (context_at kRendezvousReplyContext 3100 1000))) resp;
       EvPostSend 1000 (reply_wr 2100 (context_at kRendezvousReplyContext 3100 1000))] ∧
    PollCQ env0 (WC_RECV_RendezvousReply 2300 resp) ws1 = Done tt ws2 ∧
    trace ws2 = trace ws1 ++
      [EvPostSend 1000 (meta_wr env0 2201 b (rr_addr resp) (rr_rkey resp) (rr_idx resp));
       EvPostRecv 1000 2300] ∧
    AddressPool.table_ (addr_pool_ r1) !! Z.to_nat (rr_idx resp)
    = Some (operator_new env0 (trace (van receiver0))) ∧
    buf_ctx_heap r1 !! operator_new env0 (trace (van receiver0)) = Some bc ∧
    buffer bc = rr_addr resp ∧ bc_meta_len bc = inline_len b ∧
    data_num bc = Z.of_nat (length (data values_pull_response)) ∧
    take (length (data values_pull_response)) (data_len bc)
    = map sa_size (data values_pull_response).
Proof.
  apply (rendezvous_handshake env0 env0 1024
           (world_sending rdma_transport values_pull_response) receiver0
           1000 500 2200 2201 2000 2300 values_pull_response
           (endpoint_with rdma_transport) rdma_transport (buffer_of values_pull_response)
           [] [2001] (context_at kRendezvousStartContext 3000 1000)
           1000 2100 (endpoint_with server_transport) server_transport []
           (context_at kRendezvousReplyContext 3100 1000) 0%nat (seq 1 511)).
  - discriminate.
  - reflexivity.
  - reflexivity.
  - reflexivity.
  - discriminate.
  - eexists. reflexivity.
  - reflexivity.
  - reflexivity.
  - eexists. split; [reflexivity|]. split; reflexivity.
  - reflexivity.
  - reflexivity.
  - reflexivity.
  - vm_compute. lia.
  - intros tr wr. reflexivity.
  - intros tr c. reflexivity.
  - reflexivity.
  - reflexivity.
  - reflexivity.
  - reflexivity.
  - vm_compute. discriminate.
  - intros size. vm_compute. discriminate.
  - reflexivity.
  - reflexivity.
  - intros tr wr. reflexivity.
Defined.
(** ** Page-aligned allocation *)

Lemma round_up_bounds (v a : Z) :
  0 < a -> 0 <= v ->
  v <= (v + a - 1) / a * a < v + a ∧ ((v + a - 1) / a * a) mod a = 0.
Proof.
  intros Ha Hv. pose proof (Z.div_mod (v + a - 1) a ltac:(lia)) as Hd.
  pose proof (Z.mod_pos_bound (v + a - 1) a Ha) as Hm.
  split; [lia|]. apply Z.mod_mul. lia.
Qed.

Lemma ROUNDUP_value (v a : Z) :
  0 < a -> 0 <= v -> v + a <= size_max ->
  PageAlloc.ROUNDUP v a = (v + a - 1) / a * a.
Proof.
  intros Ha Hv Hs. unfold PageAlloc.ROUNDUP, PageAlloc.DIVUP.
  assert (Hsm : size_max = 2 ^ 64) by reflexivity.
  assert (E : wrap64 (wrap64 (v + a) - 1) = v + a - 1).
  { destruct (Z.eq_dec (v + a) size_max) as [Heq|Hne].
    - unfold wrap64 at 2. rewrite Heq, Z.mod_same by lia.
      unfold wrap64. rewrite <- Heq.
      replace (0 - 1) with (v + a - 1 + -1 * (v + a)) by lia.
      rewrite Z_mod_plus_full. apply Z.mod_small. lia.
    - rewrite (wrap64_small (v + a)) by lia. apply wrap64_small. lia. }
  rewrite E. apply wrap64_small.
  pose proof (round_up_bounds v a Ha Hv). lia.
Qed.

Lemma align_ceil_value (v a : Z) :
  0 < a -> 0 <= v -> v + a <= size_max ->
  align_ceil v a = (v + a - 1) / a * a.
Proof.
  intros Ha Hv Hs. unfold align_ceil, align_floor.
  rewrite (wrap64_small (v + a - 1)) by lia.
  pose proof (Z.div_mod (v + a - 1) a ltac:(lia)) as Hd.
  pose proof (Z.mod_pos_bound (v + a - 1) a Ha) as Hm.
  replace (v + a - 1 - (v + a - 1) mod a) with ((v + a - 1) / a * a) by lia.
  apply wrap64_small. pose proof (round_up_bounds v a Ha Hv). lia.
Qed.

Lemma to_int_small (v : Z) : - 2 ^ 31 <= v < 2 ^ 31 -> to_int v = v.
Proof. intros H. unfold to_int. rewrite Z.mod_small by lia. lia. Qed.

Lemma fabric_malloc_run (E : PageAlloc.MemEnv) (size n p : Z)
      (calls : list PageAlloc.MemEvent) :
  PageAlloc.page_size E ≠ 0 ->
  wrap64 (to_int (PageAlloc.ROUNDUP size (PageAlloc.page_size E))) = n ->
  PageAlloc.posix_memalign E calls (PageAlloc.page_size E) n = (0, p) -> p ≠ 0 ->
  PageAlloc.fabric_malloc E size calls
  = Done p (calls ++ [PageAlloc.EvMemalign (PageAlloc.page_size E) n 0 p;
                      PageAlloc.EvMemset p size]).
Proof.
  intros Hp Hn Hm Hnz. unfold PageAlloc.fabric_malloc.
  destruct (Z.eqb_spec (PageAlloc.page_size E) 0) as [|_]; [contradiction|].
  cbv zeta. rewrite bind_get, Hn, Hm.
  unfold put at 1. unfold bind at 1. cbn [Z.eqb]. rewrite bind_CHECK_true.
  destruct (Z.eqb_spec p 0) as [|_]; [contradiction|]. cbn [negb].
  rewrite bind_CHECK_true. unfold modify, bind, ret. rewrite <- app_assoc. reflexivity.
Qed.

(** [fabric_malloc] (and [aligned_memory_alloc]) asks [posix_memalign] for
    the size rounded up to whole pages and zeroes [size] bytes of the
    block.  As long as the rounded size fits an [int] the block covers the
    bytes that are zeroed. *)
Theorem fabric_malloc_block_covers_zeroed_bytes (E : PageAlloc.MemEnv) (size p : Z)
        (calls : list PageAlloc.MemEvent) :
  0 < PageAlloc.page_size E -> 0 <= size -> size + PageAlloc.page_size E <= 2 ^ 31 ->
  let n := PageAlloc.ROUNDUP size (PageAlloc.page_size E) in
  PageAlloc.posix_memalign E calls (PageAlloc.page_size E) n = (0, p) -> p ≠ 0 ->
  PageAlloc.fabric_malloc E size calls
  = Done p (calls ++ [PageAlloc.EvMemalign (PageAlloc.page_size E) n 0 p;
                      PageAlloc.EvMemset p size]) ∧
  size <= n < size + PageAlloc.page_size E ∧ n mod PageAlloc.page_size E = 0.
Proof.
  intros Hp Hs Hb n Hm Hnz.
  assert (Hsm : size_max = 2 ^ 64) by reflexivity.
  pose proof (round_up_bounds size _ Hp Hs) as [Hr1 Hr2].
  assert (Hn : n = (size + PageAlloc.page_size E - 1) / PageAlloc.page_size E
                   * PageAlloc.page_size E)
    by (apply ROUNDUP_value; lia).
  split; [|rewrite Hn; split; assumption].
  apply fabric_malloc_run; [lia| |exact Hm|exact Hnz].
  fold n. rewrite to_int_small by lia. apply wrap64_small. lia.
Qed.

Lemma fabric_malloc_block_covers_zeroed_bytes_witness :
  let E := {| PageAlloc.page_size := 4096;
              PageAlloc.posix_memalign := fun _ _ _ => (0, 2 ^ 20) |} in
  let n := PageAlloc.ROUNDUP 5000 (PageAlloc.page_size E) in
  PageAlloc.fabric_malloc E 5000 []
  = Done (2 ^ 20) ([] ++ [PageAlloc.EvMemalign (PageAlloc.page_size E) n 0 (2 ^ 20);
                          PageAlloc.EvMemset (2 ^ 20) 5000]) ∧
  5000 <= n < 5000 + PageAlloc.page_size E ∧ n mod PageAlloc.page_size E = 0.
Proof.
  apply (fabric_malloc_block_covers_zeroed_bytes
           {| PageAlloc.page_size := 4096;
              PageAlloc.posix_memalign := fun _ _ _ => (0, 2 ^ 20) |} 5000 (2 ^ 20) []).
  - reflexivity.
  - discriminate.
  - discriminate.
  - reflexivity.
  - discriminate.
Defined.

(** The rounded size is kept in an [int].  For a size from 4 GiB on (up to
    6 GiB) the conversion drops [2 ^ 32]: the block that [fabric_malloc]
    asks for is shorter than the [size] bytes it then zeroes. *)
Theorem fabric_malloc_truncates_large_sizes (E : PageAlloc.MemEnv) (size p : Z)
        (calls : list PageAlloc.MemEvent) :
  0 < PageAlloc.page_size E -> 2 ^ 32 <= size ->
  size + PageAlloc.page_size E <= 2 ^ 32 + 2 ^ 31 ->
  let n := PageAlloc.ROUNDUP size (PageAlloc.page_size E) - 2 ^ 32 in
  PageAlloc.posix_memalign E calls (PageAlloc.page_size E) n = (0, p) -> p ≠ 0 ->
  PageAlloc.fabric_malloc E size calls
  = Done p (calls ++ [PageAlloc.EvMemalign (PageAlloc.page_size E) n 0 p;
                      PageAlloc.EvMemset p size]) ∧
  0 <= n < size - 2 ^ 31.
Proof.
  intros Hp Hs Hb n Hm Hnz.
  assert (Hsm : size_max = 2 ^ 64) by reflexivity.
  pose proof (round_up_bounds size _ Hp ltac:(lia)) as [Hr1 Hr2].
  assert (Hn : PageAlloc.ROUNDUP size (PageAlloc.page_size E)
               = (size + PageAlloc.page_size E - 1) / PageAlloc.page_size E
                 * PageAlloc.page_size E)
    by (apply ROUNDUP_value; lia).
  split; [|unfold n; rewrite Hn; lia].
  apply fabric_malloc_run; [lia| |exact Hm|exact Hnz].
  unfold n. rewrite Hn. unfold to_int.
  set (m := (size + PageAlloc.page_size E - 1) / PageAlloc.page_size E
            * PageAlloc.page_size E) in *.
  replace (m + 2 ^ 31) with (m - 2 ^ 32 + 2 ^ 31 + 1 * 2 ^ 32) by lia.
  rewrite Z_mod_plus_full, Z.mod_small by lia.
  replace (m - 2 ^ 32 + 2 ^ 31 - 2 ^ 31) with (m - 2 ^ 32) by lia.
  apply wrap64_small. lia.
Qed.

Lemma fabric_malloc_truncates_large_sizes_witness :
  let E := {| PageAlloc.page_size := 4096;
              PageAlloc.posix_memalign := fun _ _ _ => (0, 2 ^ 20) |} in
  let n := PageAlloc.ROUNDUP (2 ^ 32 + 1) (PageAlloc.page_size E) - 2 ^ 32 in
  PageAlloc.fabric_malloc E (2 ^ 32 + 1) []
  = Done (2 ^ 20) ([] ++ [PageAlloc.EvMemalign (PageAlloc.page_size E) n 0 (2 ^ 20);
                          PageAlloc.EvMemset (2 ^ 20) (2 ^ 32 + 1)]) ∧
  0 <= n < 2 ^ 32 + 1 - 2 ^ 31.
Proof.
  apply (fabric_malloc_truncates_large_sizes
           {| PageAlloc.page_size := 4096;
              PageAlloc.posix_memalign := fun _ _ _ => (0, 2 ^ 20) |}
           (2 ^ 32 + 1) (2 ^ 20) []).
  - reflexivity.
  - discriminate.
  - discriminate.
  - reflexivity.
  - discriminate.
Defined.

(** [FabricMemoryAllocator::Alloc] returns a null pointer for size 0
    without asking for memory.  For any other size (that fits an [int]
    after rounding) it rounds once: the block it asks for has
    [align_ceil size pagesize] bytes, all of them zeroed, and is entered in
    [used_list] with that size unless the pointer is already recorded. *)
Theorem Alloc_records_whole_pages (E : PageAlloc.MemEnv) (size p : Z) (a : PageAlloc.t) :
  0 < PageAlloc.page_size E -> 0 < size -> size + 2 * PageAlloc.page_size E <= 2 ^ 31 ->
  let n := align_ceil size (PageAlloc.page_size E) in
  PageAlloc.posix_memalign E (PageAlloc.calls a) (PageAlloc.page_size E) n = (0, p) ->
  p ≠ 0 ->
  PageAlloc.Alloc E 0 a = Done 0 a ∧
  PageAlloc.Alloc E size a
  = Done p {| PageAlloc.used_list := PageAlloc.emplace p n (PageAlloc.used_list a);
              PageAlloc.calls := PageAlloc.calls a ++
                [PageAlloc.EvMemalign (PageAlloc.page_size E) n 0 p;
                 PageAlloc.EvMemset p n] |} ∧
  size <= n < size + PageAlloc.page_size E ∧ n mod PageAlloc.page_size E = 0.
Proof.
  intros Hp Hs Hb n Hm Hnz.
  assert (Hsm : size_max = 2 ^ 64) by reflexivity.
  pose proof (round_up_bounds size _ Hp ltac:(lia)) as [Hr1 Hr2].
  assert (Hn : n = (size + PageAlloc.page_size E - 1) / PageAlloc.page_size E
                   * PageAlloc.page_size E)
    by (apply align_ceil_value; lia).
  split; [reflexivity|]. split; [|rewrite Hn; split; assumption].
  unfold PageAlloc.Alloc.
  destruct (Z.eqb_spec size 0) as [|_]; [lia|].
  destruct (Z.eqb_spec (PageAlloc.page_size E) 0) as [|_]; [lia|].
  cbv zeta. fold n.
  assert (Hround : wrap64 (to_int (PageAlloc.ROUNDUP n (PageAlloc.page_size E))) = n).
  { rewrite ROUNDUP_value by lia.
    apply Z.mod_divide in Hr2; [|lia]. destruct Hr2 as [q Hq]. rewrite <- Hn in Hq.
    replace ((n + PageAlloc.page_size E - 1) / PageAlloc.page_size E) with q.
    - rewrite <- Hq, to_int_small by lia. apply wrap64_small. lia.
    - apply Z.div_unique with (r := PageAlloc.page_size E - 1); lia. }
  pose proof (fabric_malloc_run E n n p (PageAlloc.calls a) ltac:(lia) Hround Hm Hnz) as Hrun.
  unfold PageAlloc.on_calls at 1. unfold bind at 1. rewrite Hrun.
  destruct (Z.eqb_spec p 0) as [|_]; [contradiction|]. cbn [negb].
  rewrite bind_CHECK_true. reflexivity.
Qed.

Lemma Alloc_records_whole_pages_witness :
  let E := {| PageAlloc.page_size := 4096;
              PageAlloc.posix_memalign := fun _ _ _ => (0, 2 ^ 20) |} in
  let a := {| PageAlloc.used_list := ∅; PageAlloc.calls := [] |} in
  let n := align_ceil 5000 (PageAlloc.page_size E) in
  PageAlloc.Alloc E 0 a = Done 0 a ∧
  PageAlloc.Alloc E 5000 a
  = Done (2 ^ 20)
      {| PageAlloc.used_list := PageAlloc.emplace (2 ^ 20) n (PageAlloc.used_list a);
         PageAlloc.calls := PageAlloc.calls a ++
           [PageAlloc.EvMemalign (PageAlloc.page_size E) n 0 (2 ^ 20);
            PageAlloc.EvMemset (2 ^ 20) n] |} ∧
  5000 <= n < 5000 + PageAlloc.page_size E ∧ n mod PageAlloc.page_size E = 0.
Proof.
  apply (Alloc_records_whole_pages
           {| PageAlloc.page_size := 4096;
              PageAlloc.posix_memalign := fun _ _ _ => (0, 2 ^ 20) |}
           5000 (2 ^ 20) {| PageAlloc.used_list := ∅; PageAlloc.calls := [] |}).
  - reflexivity.
  - reflexivity.
  - discriminate.
  - reflexivity.
  - discriminate.
Defined.
(** ** The request handler of the benchmark *)

Lemma fabric_malloc_Done (E : PageAlloc.MemEnv) (size p : Z)
      (calls calls' : list PageAlloc.MemEvent) :
  PageAlloc.fabric_malloc E size calls = Done p calls' ->
  p ≠ 0 ∧ ∃ n, calls' = calls ++ [PageAlloc.EvMemalign (PageAlloc.page_size E) n 0 p;
                                  PageAlloc.EvMemset p size].
Proof.
  unfold PageAlloc.fabric_malloc.
  destruct (PageAlloc.page_size E =? 0); [discriminate|]. cbv zeta.
  rewrite bind_get.
  destruct (PageAlloc.posix_memalign E calls (PageAlloc.page_size E) _) as [r q].
  unfold put at 1. unfold bind at 1.
  destruct (Z.eqb_spec r 0) as [->|]; [|discriminate]. rewrite bind_CHECK_true.
  destruct (Z.eqb_spec q 0) as [|Hq]; [discriminate|]. cbn [negb]. rewrite bind_CHECK_true.
  unfold modify, bind, ret. intros [= <- <-]. split; [exact Hq|].
  eexists. rewrite <- app_assoc. reflexivity.
Qed.

(** What a returning call of the handler leaves behind: the entries of
    [mem_map] stay, the calls to libc stay, one response is added. *)
Lemma EmptyHandler_Done (E : PageAlloc.MemEnv) (m : Benchmark.KVMeta)
      (d : Benchmark.KVPairs) (s s' : Benchmark.Server) :
  Benchmark.EmptyHandler E m d s = Done tt s' ->
  (∀ k kv, Benchmark.mem_map s !! k = Some kv -> Benchmark.mem_map s' !! k = Some kv) ∧
  (∃ l, Benchmark.calls s' = Benchmark.calls s ++ l) ∧
  ∃ res, Benchmark.responses s' = Benchmark.responses s ++ [(m, res)].
Proof.
  unfold Benchmark.EmptyHandler.
  destruct (Benchmark.keys d) as [|key ks]; [discriminate|].
  destruct (Benchmark.push m).
  - destruct (Benchmark.lens d) as [|len0 ls]; [discriminate|].
    destruct (sa_size (Benchmark.vals d) =? wrap64 len0); [|discriminate].
    rewrite bind_CHECK_true, bind_get.
    destruct (Benchmark.mem_map s !! key) as [kv0|] eqn:Hk.
    + unfold bind, ret, Benchmark.Response, modify. intros [= <-]. cbn.
      split; [auto|]. split; [exists []; symmetry; apply app_nil_r | eauto].
    + cbv zeta. unfold modify at 1. unfold bind at 1 2 3.
      unfold Benchmark.aligned_memory_alloc. cbn [Benchmark.calls Benchmark.set_mem_map].
      destruct (PageAlloc.fabric_malloc E _ (Benchmark.calls s)) as [p l|h l] eqn:Hm;
        [|discriminate].
      apply fabric_malloc_Done in Hm as [_ [n ->]].
      unfold Benchmark.Response, modify. intros [= <-]. cbn.
      split; [|split; [eauto | eauto]].
      intros k kv Hkv. rewrite lookup_insert_ne; [exact Hkv | congruence].
  - rewrite bind_get. destruct (Benchmark.mem_map s !! key) as [kv0|]; [|discriminate].
    unfold Benchmark.Response, modify. intros [= <-]. cbn.
    split; [auto|]. split; [exists []; symmetry; apply app_nil_r | eauto].
Qed.

Lemma serve_Done (E : PageAlloc.MemEnv) (reqs : list (Benchmark.KVMeta * Benchmark.KVPairs)) :
  ∀ s s', Benchmark.serve E reqs s = Done tt s' ->
  (∀ k kv, Benchmark.mem_map s !! k = Some kv -> Benchmark.mem_map s' !! k = Some kv) ∧
  (∃ l, Benchmark.calls s' = Benchmark.calls s ++ l).
Proof.
  induction reqs as [|[m d] rest IH]; intros s s' H; simpl in H.
  - injection H as <-. split; [auto|]. exists []. symmetry. apply app_nil_r.
  - apply bind_inv_Done in H as ([] & s1 & H1 & H2).
    apply EmptyHandler_Done in H1 as (K1 & [l1 C1] & _).
    apply IH in H2 as (K2 & [l2 C2]).
    split; [auto|]. exists (l1 ++ l2). rewrite C2, C1, app_assoc. reflexivity.
Qed.

Lemma serve_app (E : PageAlloc.MemEnv) (l1 l2 : list (Benchmark.KVMeta * Benchmark.KVPairs))
      (s : Benchmark.Server) :
  Benchmark.serve E (l1 ++ l2) s = (run Benchmark.serve E l1 ;; Benchmark.serve E l2) s.
Proof.
  revert s. induction l1 as [|[m d] rest IH]; intros s; simpl.
  - reflexivity.
  - unfold bind in *. destruct (Benchmark.EmptyHandler E m d s) as [[] s1|h s1].
    + apply IH.
    + reflexivity.
Qed.

(** A pull of a key that was never pushed aborts.  The first push of a key
    fixes what every later pull of it gets: whatever requests the server
    handles in between, later pushes of the same key included, the pull is
    answered with the key, the length of the first push and the buffer of
    that length allocated and zeroed then; the pushed values are never
    copied into it. *)
Theorem EmptyHandler_pull_answers_first_push (E : PageAlloc.MemEnv) (k : Z)
        (m1 m2 : Benchmark.KVMeta) (d1 d2 : Benchmark.KVPairs) (ks1 ks2 : list Z)
        (reqs : list (Benchmark.KVMeta * Benchmark.KVPairs)) (s s' : Benchmark.Server) :
  Benchmark.mem_map s !! k = None ->
  Benchmark.push m1 = true -> Benchmark.keys d1 = k :: ks1 ->
  Benchmark.push m2 = false -> Benchmark.keys d2 = k :: ks2 ->
  Benchmark.serve E ((m1, d1) :: reqs ++ [(m2, d2)]) s = Done tt s' ->
  Benchmark.EmptyHandler E m2 d2 s = Halted Abort s ∧
  ∃ p rs,
    p ≠ 0 ∧
    Benchmark.responses s'
    = rs ++ [(m2, {| Benchmark.keys := [k];
                     Benchmark.vals := {| sa_data := p;
                                          sa_size := sa_size (Benchmark.vals d1) |};
                     Benchmark.lens := [to_int (sa_size (Benchmark.vals d1))] |})] ∧
    PageAlloc.EvMemset p (sa_size (Benchmark.vals d1)) ∈ Benchmark.calls s'.
Proof.
  intros Hnone Hp1 Hk1 Hp2 Hk2 Hrun. split.
  { unfold Benchmark.EmptyHandler. rewrite Hk2, Hp2, bind_get, Hnone. reflexivity. }
  change ((m1, d1) :: reqs ++ [(m2, d2)]) with ([(m1, d1)] ++ reqs ++ [(m2, d2)]) in Hrun.
  rewrite serve_app in Hrun. apply bind_inv_Done in Hrun as ([] & s1 & H1 & Hrun).
  rewrite serve_app in Hrun. apply bind_inv_Done in Hrun as ([] & s2 & H2 & H3).
  (* the first push *)
  simpl in H1. apply bind_inv_Done in H1 as ([] & s1' & H1 & Heq). injection Heq as ->.
  unfold Benchmark.EmptyHandler in H1. rewrite Hk1, Hp1 in H1.
  destruct (Benchmark.lens d1) as [|len0 ls]; [discriminate|].
  destruct (sa_size (Benchmark.vals d1) =? wrap64 len0); [|discriminate].
  rewrite bind_CHECK_true, bind_get, Hnone in H1. cbv zeta in H1.
  unfold modify at 1 in H1. unfold bind at 1 2 3 in H1.
  unfold Benchmark.aligned_memory_alloc in H1.
  cbn [Benchmark.calls Benchmark.set_mem_map] in H1.
  destruct (PageAlloc.fabric_malloc E _ (Benchmark.calls s)) as [p l|h l] eqn:Hm;
    [|discriminate].
  apply fabric_malloc_Done in Hm as [Hp [n ->]].
  unfold Benchmark.Response, modify in H1. injection H1 as <-.
  (* the requests in between *)
  apply serve_Done in H2 as (K2 & [l2 C2]).
  specialize (K2 k _ ltac:(cbn; apply lookup_insert_eq)).
  (* the pull *)
  simpl in H3. apply bind_inv_Done in H3 as ([] & s3 & H3 & Heq). injection Heq as ->.
  unfold Benchmark.EmptyHandler in H3. rewrite Hk2, Hp2, bind_get, K2 in H3.
  unfold Benchmark.Response, modify in H3. injection H3 as <-. cbn.
  exists p, (Benchmark.responses s2). split; [exact Hp|]. split; [reflexivity|].
  rewrite C2. cbn. rewrite !elem_of_app, !elem_of_cons. auto.
Qed.

Lemma EmptyHandler_pull_answers_first_push_witness :
  let s' := final (Benchmark.serve libc0
                     (push_of (2 ^ 30) 1024 :: [push_of (2 ^ 31) 16] ++ [pull_of_3]) server0) in
  Benchmark.EmptyHandler libc0 (fst pull_of_3) (snd pull_of_3) server0
  = Halted Abort server0 ∧
  ∃ p rs,
    p ≠ 0 ∧
    Benchmark.responses s'
    = rs ++ [(fst pull_of_3,
              {| Benchmark.keys := [3];
                 Benchmark.vals :=
                   {| sa_data := p;
                      sa_size := sa_size (Benchmark.vals (snd (push_of (2 ^ 30) 1024))) |};
                 Benchmark.lens :=
                   [to_int (sa_size (Benchmark.vals (snd (push_of (2 ^ 30) 1024))))] |})] ∧
    PageAlloc.EvMemset p (sa_size (Benchmark.vals (snd (push_of (2 ^ 30) 1024))))
    ∈ Benchmark.calls s'.
Proof.
  apply (EmptyHandler_pull_answers_first_push libc0 3
           (fst (push_of (2 ^ 30) 1024)) (fst pull_of_3)
           (snd (push_of (2 ^ 30) 1024)) (snd pull_of_3) [] [] [push_of (2 ^ 31) 16] server0).
  - reflexivity.
  - reflexivity.
  - reflexivity.
  - reflexivity.
  - reflexivity.
  - vm_compute. reflexivity.
Defined.
(** ** From a push to the pull response *)


(** ** Host and port *)

Lemma digit_cases (d : Z) :
  0 <= d < 10 ->
  d = 0 ∨ d = 1 ∨ d = 2 ∨ d = 3 ∨ d = 4 ∨ d = 5 ∨ d = 6 ∨ d = 7 ∨ d = 8 ∨ d = 9.
Proof. lia. Qed.

Ltac each_digit H :=
  apply digit_cases in H;
  repeat (destruct H as [H|H]); subst.

Lemma digit_value_digit_char (d : Z) :
  0 <= d < 10 -> StdString.digit_value (StdString.digit_char d) = Some d.
Proof. intros H. each_digit H; reflexivity. Qed.

Lemma digits_head (f : nat) : ∀ n rest,
  0 <= n ->
  ∃ d r, 0 <= d < 10 ∧ StdString.digits (S f) n rest = String (StdString.digit_char d) r.
Proof.
  induction f as [|f IH]; intros n rest Hn.
  - exists (n mod 10), rest. split; [apply Z.mod_pos_bound; lia|].
    cbn [StdString.digits]. destruct (n <? 10); reflexivity.
  - change (StdString.digits (S (S f)) n rest)
      with (if n <? 10 then String (StdString.digit_char (n mod 10)) rest
            else StdString.digits (S f) (n / 10)
                   (String (StdString.digit_char (n mod 10)) rest)).
    destruct (n <? 10).
    + exists (n mod 10), rest. split; [apply Z.mod_pos_bound; lia | reflexivity].
    + apply IH. apply Z.div_pos; lia.
Qed.

Lemma parse_digits_digits (f : nat) : ∀ n rest a,
  0 <= n < 10 ^ Z.of_nat (S f) ->
  ∃ k, StdString.parse_digits (StdString.digits (S f) n rest) a
       = StdString.parse_digits rest (a * 10 ^ k + n) ∧ 0 <= k.
Proof.
  induction f as [|f IH]; intros n rest a Hn.
  - exists 1. change (10 ^ Z.of_nat 1) with 10 in Hn. split; [|lia].
    cbn [StdString.digits]. destruct (Z.ltb_spec n 10) as [_|?]; [|lia].
    rewrite Z.mod_small by lia. cbn [StdString.parse_digits].
    rewrite digit_value_digit_char by lia. f_equal; lia.
  - change (StdString.digits (S (S f)) n rest)
      with (if n <? 10 then String (StdString.digit_char (n mod 10)) rest
            else StdString.digits (S f) (n / 10)
                   (String (StdString.digit_char (n mod 10)) rest)).
    destruct (Z.ltb_spec n 10) as [Hlt|Hge].
    + exists 1. split; [|lia]. rewrite Z.mod_small by lia. cbn [StdString.parse_digits].
      rewrite digit_value_digit_char by lia. f_equal; lia.
    + destruct (IH (n / 10) (String (StdString.digit_char (n mod 10)) rest) a)
        as (k & Hk & Hk0).
      { split; [apply Z.div_pos; lia|].
        apply Z.div_lt_upper_bound; [lia|].
        replace (Z.of_nat (S (S f))) with (Z.of_nat (S f) + 1) in Hn by lia.
        rewrite Z.pow_add_r in Hn by lia. lia. }
      exists (k + 1). split; [|lia]. rewrite Hk. cbn [StdString.parse_digits].
      rewrite digit_value_digit_char by (apply Z.mod_pos_bound; lia).
      f_equal. rewrite Z.pow_add_r by lia.
      pose proof (Z.div_mod n 10 ltac:(lia)). lia.
Qed.

Lemma parse_digits_to_digits (n : Z) :
  0 <= n < 10 ^ 10 ->
  StdString.parse_digits (StdString.digits 10 n EmptyString) 0 = n.
Proof.
  intros Hn. destruct (parse_digits_digits 9 n EmptyString 0 Hn) as (k & Hk & _).
  rewrite Hk. cbn [StdString.parse_digits]. lia.
Qed.

Lemma stoi_digits (neg : bool) (n : Z) :
  0 <= n < 10 ^ 10 ->
  let v := if neg then - n else n in
  - 2 ^ 31 <= v <= INT_MAX ->
  match StdString.digits 10 n EmptyString with
  | String c _ =>
      match StdString.digit_value c with
      | Some _ =>
          let v := StdString.parse_digits (StdString.digits 10 n EmptyString) 0 in
          let v := if neg then - v else v in
          if (- 2 ^ 31 <=? v) && (v <=? INT_MAX) then Some v else None
      | None => None
      end
  | EmptyString => None
  end = Some v.
Proof.
  intros Hn v Hv. rewrite parse_digits_to_digits by exact Hn.
  destruct (digits_head 9 n EmptyString ltac:(lia)) as (d & r & Hd & ->).
  rewrite digit_value_digit_char by exact Hd. cbv zeta. fold v.
  destruct (Z.leb_spec (- 2 ^ 31) v); [|lia].
  destruct (Z.leb_spec v INT_MAX); [|lia]. reflexivity.
Qed.

Lemma stoi_to_string (v : Z) :
  - 2 ^ 31 <= v <= INT_MAX -> StdString.stoi (StdString.to_string v) = Some v.
Proof.
  intros Hv. assert (HI : INT_MAX = 2 ^ 31 - 1) by reflexivity.
  unfold StdString.to_string. destruct (Z.ltb_spec v 0) as [Hneg|Hpos].
  - unfold StdString.stoi. cbn [StdString.skip_space].
    change (StdString.isspace "-") with false. cbv iota beta.
    pose proof (stoi_digits true (- v) ltac:(lia)) as H. cbv zeta in H.
    rewrite Z.opp_involutive in H. apply H. lia.
  - unfold StdString.stoi.
    pose proof (stoi_digits false v ltac:(lia) ltac:(exact Hv)) as H. cbv zeta in H.
    destruct (digits_head 9 v EmptyString Hpos) as (d & r & Hd & Heq).
    rewrite Heq in *.
    each_digit Hd; exact H.
Qed.

Lemma append_cons (c : ascii) (h r : string) :
  String.append (String c h) r = String c (String.append h r).
Proof. reflexivity. Qed.

Lemma append_nil (r : string) : String.append EmptyString r = r.
Proof. reflexivity. Qed.

Lemma append_assoc (a b c : string) :
  String.append (String.append a b) c = String.append a (String.append b c).
Proof.
  induction a as [|x a IH]; [reflexivity|]. rewrite !append_cons, IH. reflexivity.
Qed.

Lemma find_app_colon (h r : string) :
  StdString.find ":" h = None ->
  StdString.find ":" (String.append h (String ":" r)) = Some (String.length h).
Proof.
  induction h as [|c h IH]; intros Hn.
  - reflexivity.
  - rewrite append_cons. cbn [StdString.find String.length] in *.
    destruct (Ascii.eqb c ":"); [discriminate|].
    destruct (StdString.find ":" h); [discriminate|].
    rewrite IH by reflexivity. reflexivity.
Qed.

Lemma substring_prefix (h r : string) :
  substring 0 (String.length h) (String.append h r) = h.
Proof.
  induction h as [|c h IH].
  - rewrite append_nil. destruct r; reflexivity.
  - rewrite append_cons. cbn [String.length substring]. rewrite IH. reflexivity.
Qed.

Lemma substring_all (r : string) : substring 0 (String.length r) r = r.
Proof.
  induction r as [|c r IH]; cbn [String.length substring]; [reflexivity|].
  rewrite IH. reflexivity.
Qed.

Lemma length_append (h r : string) :
  String.length (String.append h r) = (String.length h + String.length r)%nat.
Proof.
  induction h as [|c h IH]; [reflexivity|].
  rewrite append_cons. cbn [String.length]. rewrite IH. reflexivity.
Qed.

Lemma substring_suffix (h r : string) :
  substring (S (String.length h))
            (String.length (String.append h (String ":" r)) - S (String.length h))
            (String.append h (String ":" r)) = r.
Proof.
  rewrite length_append. cbn [String.length].
  replace (String.length h + S (String.length r) - S (String.length h))%nat
    with (String.length r) by lia.
  induction h as [|c h IH].
  - rewrite append_nil. cbn [String.length substring]. apply substring_all.
  - rewrite append_cons. cbn [String.length substring]. exact IH.
Qed.

(** Round trip of host and port.  For a host name without a colon and a
    port that is an [int], [get_host] and [get_port] give back what
    [host_port] put together.  [get_host] cuts at the first colon: of a host
    name that contains one (an IPv6 address) only the part before it comes
    back. *)
Theorem host_port_round_trip (host rest : string) (port : Z) :
  - 2 ^ 31 <= port <= INT_MAX -> StdString.find ":" host = None ->
  FabricControl.get_host (FabricControl.host_port host port) = host ∧
  FabricControl.get_port (FabricControl.host_port host port) = Some port ∧
  FabricControl.get_host
    (FabricControl.host_port (String.append host (String ":" rest)) port) = host.
Proof.
  intros Hp Hh. unfold FabricControl.get_host, FabricControl.get_port,
    FabricControl.host_port.
  rewrite !append_assoc, !append_cons, !append_nil.
  rewrite (find_app_colon host _ Hh).
  split; [apply substring_prefix|]. split.
  - rewrite substring_suffix. apply stoi_to_string, Hp.
  - rewrite (find_app_colon host _ Hh). apply substring_prefix.
Qed.

Lemma host_port_round_trip_witness :
  FabricControl.get_host (FabricControl.host_port "10.0.0.1" 9010) = "10.0.0.1"%string ∧
  FabricControl.get_port (FabricControl.host_port "10.0.0.1" 9010) = Some 9010 ∧
  FabricControl.get_host
    (FabricControl.host_port (String.append "10.0.0.1" (String ":" "fe80::1")) 9010)
  = "10.0.0.1"%string.
Proof.
  apply (host_port_round_trip "10.0.0.1" "fe80::1" 9010).
  - split; discriminate.
  - reflexivity.
Defined.
(** ** Connection requests on the fabric van *)

Module ConnectFacts.
Import FabricRMAVan_Connect.

Lemma OnConnectRequest_Done (E : FabricEnv) (nodes : list Node) (v v' : Van) :
  OnConnectRequest E nodes v = Done tt v' ->
  ∃ hp, requester nodes = Some hp ∧
        let m := hostport_id_map_ v in
        let i := match m !! hp with
                 | Some i => i
                 | None => to_int (wrap64 (30000 + Z.of_nat (size m)))
                 end in
        hostport_id_map_ v' = <[hp := i]> m ∧
        ∃ calls, zmq_ v' = zmq_ v ++ calls ∧ replies calls = [i] ∧
                 length (connections calls) = match m !! hp with Some _ => 0 | None => 1 end%nat.
Proof.
  unfold OnConnectRequest. destruct nodes as [|req rest]; [discriminate|].
  cbv zeta. set (hp := FabricControl.host_port (hostname req) (port req)).
  rewrite bind_get. intros H. exists hp. split; [reflexivity|].
  destruct (hostport_id_map_ v !! hp) as [i|] eqn:Hl.
  - unfold ret at 1 in H. unfold bind at 1 in H. rewrite bind_get, Hl in H.
    cbn [default] in H. unfold modify at 1 in H. unfold bind at 1 in H.
    cbn [fabric_addr set_hostport_id_map] in H.
    destruct (length (name (fabric_addr v)) <? sizeof_endpoint_name E)%nat; [discriminate|].
    unfold call, modify in H. unfold bind at 1 2 in H.
    cbn [posted set_hostport_id_map] in H.
    assert (Hv : v' = {| my_role := my_role v;
                         hostport_id_map_ := <[hp := i]> (hostport_id_map_ v);
                         zmq_ := zmq_ v ++ [ZSend i ADDR_RESOLVED
                           [{| id := id (Node_new E); role := role (Node_new E);
                               hostname := hostname (Node_new E); port := port (Node_new E);
                               aux_id := aux_id req;
                               endpoint_name :=
                                 take (sizeof_endpoint_name E) (name (fabric_addr v));
                               endpoint_name_len := len (fabric_addr v) |}]];
                         incoming_ := incoming_ v ++ [hp];
                         fabric_addr := fabric_addr v; posted := S (posted v) |}).
    { destruct (fi_recv E (posted v) =? - FI_EAGAIN E).
      - injection H as <-. reflexivity.
      - unfold CHECK in H. destruct (fi_recv E (posted v) =? 0); [|discriminate].
        injection H as <-. reflexivity. }
    subst v'. cbn. split; [reflexivity|]. eexists. split; [reflexivity|]. split; reflexivity.
  - unfold call, modify in H. unfold bind at 1 2 in H. rewrite bind_get in H.
    cbn [hostport_id_map_ set_hostport_id_map] in H. rewrite lookup_insert_eq in H.
    cbn [default] in H. unfold bind at 1 in H.
    cbn [fabric_addr set_hostport_id_map] in H.
    destruct (length (name (fabric_addr v)) <? sizeof_endpoint_name E)%nat; [discriminate|].
    unfold bind at 1 2 in H. cbn [posted set_hostport_id_map] in H.
    set (i := to_int (wrap64 (30000 + Z.of_nat (size (hostport_id_map_ v))))) in *.
    assert (Hv : hostport_id_map_ v' = <[hp := i]> (<[hp := i]> (hostport_id_map_ v)) ∧
                 ∃ n a, zmq_ v' = (zmq_ v ++ [ZConnect n]) ++ [ZSend i ADDR_RESOLVED a]).
    { destruct (fi_recv E (posted v) =? - FI_EAGAIN E).
      - injection H as <-. cbn. eauto.
      - unfold CHECK in H. destruct (fi_recv E (posted v) =? 0); [|discriminate].
        injection H as <-. cbn. eauto. }
    destruct Hv as (Hm & n & a & Hz). rewrite insert_insert_eq in Hm.
    split; [exact Hm|]. eexists. rewrite <- app_assoc in Hz. split; [exact Hz|].
    split; reflexivity.
Qed.

Lemma ids_step (m : gmap string Z) (hp : string) :
  ids_in_range m -> ids_unique m -> Z.of_nat (size m) + 30000 < 2 ^ 31 ->
  let i := match m !! hp with
           | Some i => i
           | None => to_int (wrap64 (30000 + Z.of_nat (size m)))
           end in
  ids_in_range (<[hp := i]> m) ∧ ids_unique (<[hp := i]> m) ∧ m ⊆ <[hp := i]> m ∧
  size (<[hp := i]> m) = (size m + match m !! hp with Some _ => 0 | None => 1 end)%nat.
Proof.
  intros Hr Hu Hs. destruct (m !! hp) as [i|] eqn:Hl; cbv zeta.
  - rewrite insert_id by exact Hl. split; [exact Hr|]. split; [exact Hu|].
    split; [reflexivity | lia].
  - assert (Hi : to_int (wrap64 (30000 + Z.of_nat (size m))) = 30000 + Z.of_nat (size m)).
    { rewrite wrap64_small by (unfold size_max; lia). apply to_int_small. lia. }
    rewrite Hi. assert (Hsz : size (<[hp := 30000 + Z.of_nat (size m)]> m) = S (size m))
      by (apply map_size_insert_None, Hl).
    split; [|split; [|split]].
    + intros hp' j. rewrite Hsz. destruct (decide (hp' = hp)) as [->|Hne].
      * rewrite lookup_insert_eq. intros [= <-]. lia.
      * rewrite lookup_insert_ne by congruence. intros Hj. apply Hr in Hj. lia.
    + intros hp1 hp2 j.
      destruct (decide (hp1 = hp)) as [->|H1], (decide (hp2 = hp)) as [->|H2];
        rewrite ?lookup_insert_eq, ?lookup_insert_ne by congruence.
      * reflexivity.
      * intros [= <-] Hj. apply Hr in Hj. lia.
      * intros Hj [= <-]. apply Hr in Hj. lia.
      * apply Hu.
    + apply insert_subseteq, Hl.
    + rewrite Hsz. lia.
Qed.

Lemma requests_Done (E : FabricEnv) (reqs : list (list Node)) : ∀ v v',
  ids_in_range (hostport_id_map_ v) -> ids_unique (hostport_id_map_ v) ->
  Z.of_nat (size (hostport_id_map_ v)) + Z.of_nat (length reqs) + 30000 < 2 ^ 31 ->
  requests E reqs v = Done tt v' ->
  ids_in_range (hostport_id_map_ v') ∧ ids_unique (hostport_id_map_ v') ∧
  hostport_id_map_ v ⊆ hostport_id_map_ v' ∧
  ∃ calls,
    zmq_ v' = zmq_ v ++ calls ∧
    Forall2 (fun nodes i => ∃ hp, requester nodes = Some hp ∧
                                  hostport_id_map_ v' !! hp = Some i)
            reqs (replies calls) ∧
    size (hostport_id_map_ v') = (size (hostport_id_map_ v) + length (connections calls))%nat.
Proof.
  induction reqs as [|nodes rest IH]; intros v v' Hr Hu Hs H.
  - injection H as <-. split; [exact Hr|]. split; [exact Hu|]. split; [reflexivity|].
    exists []. rewrite app_nil_r. split; [reflexivity|]. split; [constructor|]. cbn. lia.
  - cbn [requests] in H. apply bind_inv_Done in H as ([] & v1 & H1 & H2).
    apply OnConnectRequest_Done in H1 as (hp & Hreq & Hm1 & calls1 & Hz1 & Hrep1 & Hcon1).
    cbv zeta in Hm1, Hrep1.
    cbn [length] in Hs.
    destruct (ids_step (hostport_id_map_ v) hp Hr Hu ltac:(lia)) as (Hr1 & Hu1 & Hsub1 & Hsz1).
    cbv zeta in Hr1, Hu1, Hsub1, Hsz1. rewrite <- Hm1 in Hr1, Hu1, Hsub1, Hsz1.
    destruct (IH v1 v' Hr1 Hu1) as (Hr' & Hu' & Hsub' & calls & Hz & Hrep & Hsz).
    { rewrite Hsz1. destruct (hostport_id_map_ v !! hp); lia. }
    { exact H2. }
    split; [exact Hr'|]. split; [exact Hu'|].
    split; [etransitivity; eassumption|].
    exists (calls1 ++ calls). split; [rewrite Hz, Hz1, app_assoc; reflexivity|].
    unfold replies, connections in *. rewrite !omap_app. split.
    + rewrite Hrep1. cbn [app]. constructor; [|exact Hrep].
      exists hp. split; [exact Hreq|].
      apply (lookup_weaken _ _ _ _ (eq_trans (f_equal (fun m => m !! hp) Hm1)
                                             (lookup_insert_eq _ _ _)) Hsub').
    + rewrite Hsz, Hsz1, length_app, Hcon1. lia.
Qed.

End ConnectFacts.

(** The ids that [OnConnectRequest] hands out identify the host:port
    strings.  From a table whose ids are unique and below [30000] plus its
    size (the empty table of a new van), after any requests that the van
    handles, every request was answered with one reply; two replies went to
    the same id exactly when the two requests came from the same host:port;
    the ids already in the table are unchanged; and the zmq van was asked to
    connect once for each host:port that was new. *)
Theorem OnConnectRequest_ids_identify_hostports
        (E : FabricRMAVan_Connect.FabricEnv)
        (reqs : list (list FabricRMAVan_Connect.Node))
        (v v' : FabricRMAVan_Connect.Van) :
  FabricRMAVan_Connect.ids_in_range (FabricRMAVan_Connect.hostport_id_map_ v) ->
  FabricRMAVan_Connect.ids_unique (FabricRMAVan_Connect.hostport_id_map_ v) ->
  Z.of_nat (size (FabricRMAVan_Connect.hostport_id_map_ v)) + Z.of_nat (length reqs) + 30000
  < 2 ^ 31 ->
  FabricRMAVan_Connect.requests E reqs v = Done tt v' ->
  ∃ calls,
    FabricRMAVan_Connect.zmq_ v' = FabricRMAVan_Connect.zmq_ v ++ calls ∧
    length (replies calls) = length reqs ∧
    (∀ j1 j2 n1 n2 i1 i2,
       reqs !! j1 = Some n1 -> reqs !! j2 = Some n2 ->
       replies calls !! j1 = Some i1 -> replies calls !! j2 = Some i2 ->
       (i1 = i2 ↔ requester n1 = requester n2)) ∧
    FabricRMAVan_Connect.hostport_id_map_ v ⊆ FabricRMAVan_Connect.hostport_id_map_ v' ∧
    size (FabricRMAVan_Connect.hostport_id_map_ v')
    = (size (FabricRMAVan_Connect.hostport_id_map_ v) + length (connections calls))%nat.
Proof.
  intros Hr Hu Hs Hrun.
  destruct (ConnectFacts.requests_Done E reqs v v' Hr Hu Hs Hrun)
    as (_ & Hu' & Hsub & calls & Hz & Hrep & Hsz).
  exists calls. split; [exact Hz|].
  split; [symmetry; apply (Forall2_length _ _ _ Hrep)|].
  split; [|split; [exact Hsub | exact Hsz]].
  intros j1 j2 n1 n2 i1 i2 Hn1 Hn2 Hi1 Hi2.
  destruct (Forall2_lookup_lr _ _ _ _ _ _ Hrep Hn1 Hi1) as (hp1 & Hq1 & Hm1).
  destruct (Forall2_lookup_lr _ _ _ _ _ _ Hrep Hn2 Hi2) as (hp2 & Hq2 & Hm2).
  rewrite Hq1, Hq2. split.
  - intros <-. f_equal. exact (Hu' hp1 hp2 i1 Hm1 Hm2).
  - intros [= <-]. congruence.
Qed.

Lemma OnConnectRequest_ids_identify_hostports_witness :
  let reqs := [request_from "10.0.0.1" 8; request_from "10.0.0.2" 9;
               request_from "10.0.0.1" 8] in
  let v' := final (FabricRMAVan_Connect.requests fabric_env0 reqs fabric_van0) in
  ∃ calls,
    FabricRMAVan_Connect.zmq_ v' = FabricRMAVan_Connect.zmq_ fabric_van0 ++ calls ∧
    length (replies calls) = length reqs ∧
    (∀ j1 j2 n1 n2 i1 i2,
       reqs !! j1 = Some n1 -> reqs !! j2 = Some n2 ->
       replies calls !! j1 = Some i1 -> replies calls !! j2 = Some i2 ->
       (i1 = i2 ↔ requester n1 = requester n2)) ∧
    FabricRMAVan_Connect.hostport_id_map_ fabric_van0
      ⊆ FabricRMAVan_Connect.hostport_id_map_ v' ∧
    size (FabricRMAVan_Connect.hostport_id_map_ v')
    = (size (FabricRMAVan_Connect.hostport_id_map_ fabric_van0)
       + length (connections calls))%nat.
Proof.
  apply (OnConnectRequest_ids_identify_hostports fabric_env0
           [request_from "10.0.0.1" 8; request_from "10.0.0.2" 9; request_from "10.0.0.1" 8]
           fabric_van0).
  - intros hp i H. cbn in H. rewrite lookup_empty in H. discriminate.
  - intros hp1 hp2 i H. cbn in H. rewrite lookup_empty in H. discriminate.
  - vm_compute. reflexivity.
  - vm_compute. reflexivity.
Defined.
(** ** Running out of write contexts *)

Lemma RDMAWriteWithImm_blocked (E : Env) (w : World) (ep msg_buf raddr rkey idx : Z)
      (e : Endpoint) :
  ep_heap w !! ep = Some e -> free_write_ctx e = [] ->
  RDMAWriteWithImm E ep msg_buf raddr rkey idx w = Halted Blocked w.
Proof.
  intros He Hf. unfold RDMAWriteWithImm, WaitAndPop_write.
  apply bind_Halted. rewrite (bind_Done _ _ _ _ _ (get_ep_Done ep w e He)), Hf. reflexivity.
Qed.

(** With a single free write context a rendezvous cannot be finished:
    [SendRendezvousBegin] takes the context, so when the reply arrives
    [RDMAWriteWithImm] finds the queue empty and [PollCQ] waits in
    [WaitAndPop].  The meta is never written, the message buffer is not
    released, and the thread that blocks is the one that serves the
    completions. *)
Theorem rendezvous_blocks_on_last_write_context (E : Env) (w : World)
        (ep msg_buf c1 cs rc cw : Z) (msg : Message) (resp : RendezvousReply)
        (e : Endpoint) (t : Transport) (b : MessageBuffer) (rests : list Z)
        (ctxs : WRContext) :
  ep ≠ 0 -> ep_heap w !! ep = Some e -> trans e = Some t ->
  free_write_ctx e = [c1] -> free_start_ctx e = cs :: rests ->
  ctx_heap w !! cs = Some ctxs -> ctx_type ctxs = kRendezvousStartContext ->
  private_data ctxs = ep ->
  context_of w rc kReceiveContext ep ->
  msg_bufs w !! msg_buf = Some b -> buf_data b = data msg ->
  (length (data msg) <= kMaxDataFields)%nat ->
  accepts E ep ->
  ∃ w' e',
    rendezvous E ep msg msg_buf cs rc resp cw w = Halted Blocked w' ∧
    ep_heap w' !! ep = Some e' ∧ free_write_ctx e' = [] ∧
    msg_bufs w' !! msg_buf = Some (set_reserved c1 b) ∧
    trace w' = trace w ++
      [EvStart (mr_addr (ctx_buffer ctxs))
         {| rs_meta_len := inline_len b; rs_data_num := Z.of_nat (length (data msg));
            rs_data_len := map sa_size (data msg); rs_origin_addr := msg_buf |};
       EvPostSend ep (start_wr cs ctxs)].
Proof.
  intros Hne Hep Htr Hfw Hfs Hcs Htys Hps (ctxr & Hrc & Htyr & Hpr) Hbuf Hdata Hlen Hpost.
  unfold rendezvous.
  rewrite (bind_Done _ _ _ _ _
             (SendRendezvousBegin_run E w ep msg_buf c1 cs msg e b _ rests ctxs
                Hep Hfw Hfs Hcs Hbuf Hdata Hlen Hpost)).
  match goal with |- context [bind (PollCQ E (WC_SEND cs)) _ ?w1] => set (W1 := w1) end.
  rewrite (bind_Done _ _ _ _ _
             (PollCQ_send_start_run E W1 ep cs _ ctxs Hcs Hps Hne Htys
                ltac:(apply lookup_insert_eq))).
  match goal with
  | |- context [bind (PollCQ E (WC_RECV_RendezvousReply rc resp)) _ ?w2] => set (W2 := w2)
  end.
  assert (He2 : ep_heap W2 !! ep
                = Some (set_free_start
                          (free_start_ctx (set_free_start rests (set_free_write [] e)) ++ [cs])
                          (set_free_start rests (set_free_write [] e))))
    by apply lookup_insert_eq.
  destruct (StoreRemoteInfo_keeps (rr_origin_addr resp) (rr_addr resp) (rr_rkey resp)
              (rr_idx resp) W2) as (w3 & Hs & E1 & E2 & E3 & E4 & E5).
  assert (Hpoll : PollCQ E (WC_RECV_RendezvousReply rc resp) W2 = Halted Blocked w3).
  { unfold PollCQ. rewrite (bind_Done _ _ _ _ _ (get_ctx_Done rc W2 ctxr Hrc)).
    cbv zeta. rewrite Hpr. destruct (Z.eqb_spec ep 0) as [|_]; [contradiction|].
    cbn [negb]. rewrite bind_CHECK_true.
    rewrite (bind_Done _ _ _ _ _ (get_ep_Done ep W2 _ He2)).
    rewrite bool_decide_eq_true_2 by (cbn; rewrite Htr; eauto). rewrite bind_CHECK_true.
    rewrite (bind_Done _ _ _ _ _ Hs).
    apply bind_Halted. eapply RDMAWriteWithImm_blocked; [rewrite E1; exact He2 | reflexivity]. }
  rewrite (bind_Halted _ _ _ _ _ Hpoll).
  eexists w3, _. split; [reflexivity|]. rewrite E1, E3, E5.
  split; [exact He2|]. split; [reflexivity|]. split; [apply lookup_insert_eq|].
  reflexivity.
Qed.

Lemma rendezvous_blocks_on_last_write_context_witness :
  ∃ w' e',
    rendezvous env0 1000 barrier_message 500 2000 2300
      {| rr_addr := 2 ^ 32; rr_origin_addr := 500; rr_rkey := 77; rr_idx := 5 |} 2200
      (world_last_context rdma_transport barrier_message) = Halted Blocked w' ∧
    ep_heap w' !! 1000 = Some e' ∧ free_write_ctx e' = [] ∧
    msg_bufs w' !! 500 = Some (set_reserved 2200 (buffer_of barrier_message)) ∧
    trace w' = trace (world_last_context rdma_transport barrier_message) ++
      [EvStart (mr_addr (ctx_buffer (context_at kRendezvousStartContext 3000 1000)))
         {| rs_meta_len := inline_len (buffer_of barrier_message);
            rs_data_num := Z.of_nat (length (data barrier_message));
            rs_data_len := map sa_size (data barrier_message); rs_origin_addr := 500 |};
       EvPostSend 1000 (start_wr 2000 (context_at kRendezvousStartContext 3000 1000))].
Proof.
  apply (rendezvous_blocks_on_last_write_context env0
           (world_last_context rdma_transport barrier_message)
           1000 500 2200 2000 2300 2200 barrier_message
           {| rr_addr := 2 ^ 32; rr_origin_addr := 500; rr_rkey := 77; rr_idx := 5 |}
           (set_free_write [2200] (endpoint_with rdma_transport)) rdma_transport
           (buffer_of barrier_message) [2001] (context_at kRendezvousStartContext 3000 1000)).
  all: try reflexivity.
  - discriminate.
  - eexists. repeat split; reflexivity.
  - simpl. unfold kMaxDataFields. lia.
  - intros tr wr. reflexivity.
Defined.
